(* ===== verification/_CoqProject ===== *)
-Q . S2P
Prelude.v
Bits.v
CrcTables.v
Crc.v
Rand.v
Types.v
RandMap.v
Offset.v
IoU.v
RandJob.v
Buckets.v
IoPool.v
Compress.v
Digest.v
Verify.v
VerifyCheck.v
SegMap.v
Fifo.v
Smalloc.v
Stat.v
Rbtree.v
IoHist.v
Flow.v
CString.v
Parse.v
JobFile.v
Options.v
OptParse.v
Init.v
Jobs.v
Net.v
Ieee.v
Counting.v
RunJobs.v
Mutex.v
Engines.v
Iolog.v
FileHash.v
Num2str.v
Estimate.v
