(* ===== verification/Prelude.v ===== *)
(** * fio: a verification library

    fio generates I/O against files or devices and reports what it measured; this
    fork also checks what was written, with a version stamp per write.  A job is
    a loop: take an io_u from the job's pool ([__get_io_u]), decide its direction,
    offset and length ([fill_io_u]), fill its buffer, for a write with
    verification headers ([populate_verify_io_u]), hand it to the I/O engine
    ([td_io_queue]), reap completions, update the statistics and give the io_u
    back.  Writes that are to be verified are logged ([log_io_piece]); afterwards
    the job reads the logged pieces back ([get_next_verify]) and checks them
    ([verify_io_u]).

    ** Files, and the sources they model

    - [Prelude]: record update, machine words ([wrap w], [is_word w], the
      operators of C in [word_scope]), byte lists, hint databases and tactics.
    - [Bits]: [lib/ffz.h], [lib/fls.h], [hash.h].
    - [CrcTables], [Crc]: the tables and loops of [crc/crc7.c] to [crc/crc64.c].
    - [Rand]: [lib/rand.c], the generator and the buffer fillers.
    - [Types]: the members of [struct thread_options], [fio_file], [io_u] and
      [thread_data] the I/O path uses ([fio.h], [file.h], [ioengine.h]).
    - [RandMap]: the map of visited blocks ([io_u.c], [random_map_free] to
      [get_next_free_block]).
    - [Offset], [IoU]: the generation of io_us ([io_u.c], [get_next_rand_offset] to
      [fill_io_u]), for any random source ([RandSource]).
    - [RandJob]: runs of [fill_io_u].
    - [Buckets]: the histograms of [stat.c], [stat.h] and [io_u.c].
    - [IoPool]: the pool of io_us and the engine interface ([io_u.c],
      [ioengines.c], [backend.c], [filesetup.c]).
    - [Compress], [Digest]: [crc/md5.c], [crc/sha1.c], [crc/sha256.c],
      [crc/sha512.c]; [BlockHash] is the interface the theorems on streams use.
    - [Verify], [VerifyCheck]: [verify.c], [verify.h], [uniques/time.c],
      [uniques/time_num.c].
    - [SegMap]: [seg_2bitsmap.c], [iohist_hash.c] and their callers in [iolog.c]
      and [verify.c], for a [long] of a given width.
    - [Fifo]: [fifo.c] and its users in [blktrace.c].
    - [Smalloc]: [smalloc.c]; what [ffz] of a full word and a shift by 32 or more give
      is left to the platform.
    - [Stat]: the summaries, their merge and the averaged logs of [stat.c], with the
      time differences of [time.c].
    - [Rbtree]: [rbtree.c], [rbtree.h], the tree as a memory of nodes with the colour
      in the word of the parent.
    - [IoHist]: the sorted history of writes on that tree ([log_io_piece],
      [prune_io_piece_log] of [iolog.c], [get_next_verify] of [verify.c]) and the list
      of trims ([trim.c], [trim.h]).
    - [Flow]: [flow.c], the counters by which jobs hold each other back.
    - [CString]: the strings of the C library as lists of characters.
    - [Parse]: [parse.c], [parse.h]: numbers with units, the values of an option, the
      search for an option and the distance of two names.
    - [Options]: the callbacks of [options.c].
    - [OptParse]: the end of [options.c], from the strings of a job file to the parser
      and to the options of the engine.
    - [Init]: the options of a job that depend on each other and its rates
      ([fixup_options], [setup_rate] of [init.c]).
    - [JobFile]: the parser of job files ([parse_jobs_ini] of [init.c]), against the
      class [JobTable] of what it does to the table of jobs.
    - [Jobs]: that table ([get_new_job], [put_job], [add_job] of [init.c], [add_file] of
      [filesetup.c]), an instance of [JobTable].
    - [Net]: the commands between client and server ([server.c], [server.h]) and the
      command line as it is sent ([client.c]).
    - [Ieee]: [lib/ieee754.c] and the summaries sent with it.
    - [RunJobs]: [run_threads] and [reap_threads] of [backend.c], interleaved with the
      states of the jobs, and [fio_terminate_threads] of [libfio.c].
    - [Counting]: the sums and numbers behind the counters of [RunJobs] and [Mutex].
    - [Mutex]: [mutex.c], the semaphores and locks under the other components.
    - [Engines]: [engines/null.c] and [engines/libaio.c], instances of the class [Engine].
    - [Iolog]: the log of the io_us of a job, and its replay ([iolog.c]).
    - [FileHash]: [filehash.c].
    - [Num2str]: [lib/num2str.c].
    - [Estimate]: the remaining time ([eta.c]) and the smallest rate ([backend.c]).
    A C structure is a record with the members the code uses; a function that
    changes a structure returns the new one; [None] stands for a failed assertion,
    an access outside an array or an undefined operation; the other failures are
    the return values of the code.  Integers are [Z], brought back to their width
    by [wrap] where the code can leave it.

    ** What the theorems show

    - The I/O generator: a random run with a map never visits a block twice and
      stays in the file; the search finds a free block if there is one; lengths
      are multiples of the block size inside the file; directions are those the
      job asks for.
    - The pool: each io_u is on exactly one list in every reachable state, and a
      refused io_u comes back unchanged.
    - Checksums: the tables compute the polynomial remainders, the hardware and
      table variants agree, the digests are those of RFC 1321 and FIPS 180
      whichever way the data is cut.
    - Verification: what is written is accepted, a short burst is rejected, and
      what the comparison cannot see is characterised.
    - The write history: every block is verified once, against its last write.
    - Statistics: the error of a latency bucket is bounded, percentiles are order
      statistics for any rounding of [double]s that keeps the order, and the report of a
      group is, in exact arithmetic, that of all its samples.
    - The byte queue is a bounded sequence; the allocator hands out disjoint zeroed
      memory in every reachable state.
    - The red black tree stays one under insertion and removal, with its nodes in
      order; the write history on it answers as a sorted list does, and reads every
      place back once with its last version.
    - Flows: references and list agree in every reachable state, additions that race
      included; counters stay bounded when additions do not overlap, and a job that is
      held is let go when a partner of the other sign runs.
    - Options: numbers, block size lists, file names, patterns and processor lists
      mean what is written, with the conditions and exceptions the theorems name;
      substitutions stay inside their arrays; the distance of two names is the least
      number of edits.
    - Set-up: a job file does what its list of sections does, whatever its layout; the
      table of jobs stays in order; after [fixup_options] the options fit together, and
      those of a random job are what the theorems on random runs ask for.
    - Client and server: commands, command lines and summaries arrive as they were sent,
      however the sockets cut them; short bursts are noticed.
    - Running jobs: in every interleaving in which threads can be made, no wait times out
      and no job or signal ends the others, the counters of [run_threads] are the jobs
      they stand for, a job with [stonewall] waits for those before it that had no start
      delay, and at the end all jobs are reaped.
    - Locks: in every interleaving a writer is alone, and no lock is free while all that
      wait for it sleep; this is what the atomic calls of the allocator, the flows and
      the hash of files rest on.
    - Engines: an io_u that is queued comes back once or is still held, unless
      [io_submit] fails after a part.
    - Logs: reads, writes and syncs that were written are replayed; the hash of open files
      is a map from names.
    Several theorems describe where the code does not do what it means to:
    they are stated for the code as it is.

    ** Fuel

    Loops whose bound the code guarantees take that bound as fuel: the number of
    blocks of a transfer, the words of a map, the length of a buffer, the length of
    a list.  Lemmas show that it is enough; the theorems say that a result exists.
    Loops that can run for ever ([__get_next_buflen],
    [fill_random_buf_percentage]) take the fuel as an argument, with the
    condition under which some fuel is enough.

    ** Not modelled

    The table of options and the command line ([parse_cmd_line]), the connections and
    event loops of client and server, the engines (what they answer is a parameter),
    printing and log files, the creation of files, memory, time and disk counters of the
    operating system.  Floating point is modelled by the exact value it stands for; where
    the order of numbers decides, the rounding is a parameter.  [qsort] is a parameter
    where its comparison is no order ([bssplit]). *)
From stdpp Require Export base tactics numbers list option decidable.
From Stdlib Require Export ZArith Lia.
#[global] Open Scope Z_scope.
Coercion Z.of_nat : nat >-> Z.

(** ** Record update

    [r <| f := v |>] is [r] with field [f] replaced; the update is found from the
    eta expansion of the record, given once per type by [Eta]. *)
Class Eta (R : Type) := eta : R -> R.
Class Upd {R A : Type} (proj : R -> A) := upd : (A -> A) -> R -> R.
Arguments upd {R A} proj {_} _ !_ /.

Ltac derive_upd proj :=
  lazymatch type of proj with
  | ?R -> ?A =>
      let inst := constr:(_ : Eta R) in
      let inst := eval cbv [eta] in inst in
      let h := head_of inst in
      let e := eval cbv beta delta [h] in inst in
      lazymatch (eval pattern proj in e) with
      | ?k _ => let k := eval cbv beta in (fun (g : A -> A) (r : R) => k (fun y => g (proj y)) r) in exact k
      end
  end
with head_of t := lazymatch t with ?f _ => head_of f | ?f => f end.

#[global] Hint Extern 1 (Upd ?proj) => derive_upd proj : typeclass_instances.

Declare Scope record_scope.
Delimit Scope record_scope with rec.
#[global] Open Scope record_scope.
Notation "x <| p := v |>" := (upd p (fun _ => v) x)
  (at level 1, left associativity, p at level 0) : record_scope.
Notation "x <| p ::= g |>" := (upd p g x)
  (at level 1, left associativity, p at level 0) : record_scope.

(** ** Machine words

    An unsigned integer of [w] bits is a [Z] kept in [0 .. 2^w);
    [wrap w] is the conversion of C to that type. *)
Definition wrap (w x : Z) : Z := x mod 2 ^ w.

Abbreviation u8 := (wrap 8).
Abbreviation u16 := (wrap 16).
Abbreviation u32 := (wrap 32).
Abbreviation u64 := (wrap 64).

(** Conversion to a signed integer of [w] bits (two's complement). *)
Definition swrap (w x : Z) : Z :=
  let y := x mod 2 ^ w in if y <? 2 ^ (w - 1) then y else y - 2 ^ w.

Abbreviation s32 := (swrap 32).
Abbreviation s64 := (swrap 64).

(** [is_word w x]: [x] is a value of the unsigned type of [w] bits. *)
Definition is_word (w x : Z) : Prop := 0 <= x < 2 ^ w.

Definition is_wordb (w x : Z) : bool := (0 <=? x) && (x <? 2 ^ w).

#[global] Instance is_word_dec w x : Decision (is_word w x).
Proof. unfold is_word. apply _. Defined.

(** ** Operators of C on words, in a scope of their own *)
Declare Scope word_scope.
Delimit Scope word_scope with word.
Notation "x .& y" := (Z.land x y) (at level 40, left associativity) : word_scope.
Notation "x .| y" := (Z.lor x y) (at level 48, left associativity) : word_scope.
Notation "x .^ y" := (Z.lxor x y) (at level 46, left associativity) : word_scope.
Notation "x .>> y" := (Z.shiftr x y) (at level 38, left associativity) : word_scope.
Notation "x .<< y" := (Z.shiftl x y) (at level 38, left associativity) : word_scope.

(** Complement, left shift and rotations at a width. *)
Definition notw (w x : Z) : Z := wrap w (Z.lnot x).
Definition shlw (w x n : Z) : Z := wrap w (Z.shiftl x n).
Definition rolw (w x n : Z) : Z := Z.lor (shlw w x n) (Z.shiftr x (w - n)).
Definition rorw (w x n : Z) : Z := Z.lor (Z.shiftr x n) (shlw w x (w - n)).

Create HintDb word discriminated.
Create Rewrite HintDb zbits.

(** ** Lemmas on words *)
Section words.
Implicit Types (w x y i n : Z).

Lemma pow2_pos w : 0 <= w -> 0 < 2 ^ w.
Proof. intros. apply Z.pow_pos_nonneg; lia. Qed.

Lemma wrap_range w x : 0 <= w -> is_word w (wrap w x).
Proof. intros. apply Z.mod_pos_bound, pow2_pos; lia. Qed.

Lemma wrap_small w x : is_word w x -> wrap w x = x.
Proof. intros. by apply Z.mod_small. Qed.

Lemma wrap_wrap w x : 0 <= w -> wrap w (wrap w x) = wrap w x.
Proof. intros. by apply wrap_small, wrap_range. Qed.

Lemma is_word_mono w w' x : w <= w' -> 0 <= w -> is_word w x -> is_word w' x.
Proof. unfold is_word. intros. pose proof (Z.pow_le_mono_r 2 w w'). lia. Qed.

Lemma is_word_testbit w x : 0 <= w ->
  is_word w x <-> 0 <= x /\ forall i, w <= i -> Z.testbit x i = false.
Proof.
  intros Hw. split.
  - intros Hx. split; [unfold is_word in Hx; lia|]. intros i Hi.
    rewrite <- (wrap_small w x Hx). apply Z.mod_pow2_bits_high; lia.
  - intros [H0 H]. cut (wrap w x = x); [intros <-; by apply wrap_range|].
    apply Z.bits_inj'. intros i Hi. unfold wrap.
    destruct (Z.lt_ge_cases i w).
    + by rewrite Z.mod_pow2_bits_low by lia.
    + by rewrite Z.mod_pow2_bits_high, H by lia.
Qed.

Lemma word_high w x i : 0 <= w -> is_word w x -> w <= i -> Z.testbit x i = false.
Proof. intros Hw Hx Hi. by apply (proj2 (proj1 (is_word_testbit w x Hw) Hx)). Qed.

Lemma wrap_testbit w x i : 0 <= w -> 0 <= i ->
  Z.testbit (wrap w x) i = (i <? w) && Z.testbit x i.
Proof.
  intros. unfold wrap. destruct (Z.ltb_spec i w); simpl.
  - by rewrite Z.mod_pow2_bits_low by lia.
  - by rewrite Z.mod_pow2_bits_high by lia.
Qed.

Lemma shiftl_testbit x n i : 0 <= i -> 0 <= n ->
  Z.testbit (Z.shiftl x n) i = (n <=? i) && Z.testbit x (i - n).
Proof.
  intros. rewrite Z.shiftl_spec by lia.
  destruct (Z.leb_spec n i); [done|]. by rewrite Z.testbit_neg_r by lia.
Qed.

Lemma ones_testbit w i : 0 <= w -> 0 <= i -> Z.testbit (Z.ones w) i = (i <? w).
Proof.
  intros. rewrite Z.testbit_ones by lia.
  destruct (Z.leb_spec 0 i); [done|lia].
Qed.

Lemma pow2_sub1 w : 0 <= w -> 2 ^ w - 1 = Z.ones w.
Proof. intros. rewrite Z.ones_equiv. lia. Qed.

Lemma land_is_word w x y : 0 <= w -> 0 <= x -> is_word w y -> is_word w (Z.land x y).
Proof.
  intros Hw Hx Hy. apply is_word_testbit; [done|]. split.
  - apply Z.land_nonneg. by left.
  - intros i Hi. rewrite Z.land_spec, (word_high w y i) by done. by rewrite andb_false_r.
Qed.

Lemma lor_is_word w x y : 0 <= w -> is_word w x -> is_word w y -> is_word w (Z.lor x y).
Proof.
  intros Hw Hx Hy. apply is_word_testbit; [done|]. split.
  - apply Z.lor_nonneg; unfold is_word in *; lia.
  - intros i Hi. rewrite Z.lor_spec, (word_high w x), (word_high w y) by done. done.
Qed.

Lemma lxor_is_word w x y : 0 <= w -> is_word w x -> is_word w y -> is_word w (Z.lxor x y).
Proof.
  intros Hw Hx Hy. apply is_word_testbit; [done|]. split.
  - apply Z.lxor_nonneg; unfold is_word in *; lia.
  - intros i Hi. rewrite Z.lxor_spec, (word_high w x), (word_high w y) by done. done.
Qed.

Lemma shiftr_is_word w x n : 0 <= w -> 0 <= n -> is_word w x -> is_word w (Z.shiftr x n).
Proof.
  intros Hw Hn Hx. apply is_word_testbit; [done|]. split.
  - apply Z.shiftr_nonneg. unfold is_word in Hx; lia.
  - intros i Hi. rewrite Z.shiftr_spec by lia. by apply (word_high w); [| |lia].
Qed.

Lemma wrap_add_l w x y : wrap w (wrap w x + y) = wrap w (x + y).
Proof. apply Zplus_mod_idemp_l. Qed.
Lemma wrap_add_r w x y : wrap w (x + wrap w y) = wrap w (x + y).
Proof. apply Zplus_mod_idemp_r. Qed.
Lemma wrap_sub_l w x y : wrap w (wrap w x - y) = wrap w (x - y).
Proof. apply Zminus_mod_idemp_l. Qed.
Lemma wrap_sub_r w x y : wrap w (x - wrap w y) = wrap w (x - y).
Proof. apply Zminus_mod_idemp_r. Qed.
Lemma wrap_mul_l w x y : wrap w (wrap w x * y) = wrap w (x * y).
Proof. apply Zmult_mod_idemp_l. Qed.
Lemma wrap_mul_r w x y : wrap w (x * wrap w y) = wrap w (x * y).
Proof. apply Zmult_mod_idemp_r. Qed.

Lemma shlw_wrap w x n : 0 <= n -> shlw w (wrap w x) n = wrap w (x * 2 ^ n).
Proof.
  intros. unfold shlw, wrap. rewrite Z.shiftl_mul_pow2 by done.
  by rewrite Zmult_mod_idemp_l.
Qed.

Lemma shlw_nowrap w x n : 0 <= n <= w -> is_word (w - n) x -> shlw w x n = x * 2 ^ n.
Proof.
  intros Hn Hx. unfold shlw. rewrite Z.shiftl_mul_pow2 by lia. apply wrap_small.
  unfold is_word in *. replace w with (w - n + n) by lia.
  rewrite Z.pow_add_r by lia. pose proof (pow2_pos n). nia.
Qed.

Lemma land_ones_eq0 w x : 0 <= w -> Z.land x (Z.ones w) = 0 <->
  forall i, 0 <= i < w -> Z.testbit x i = false.
Proof.
  intros Hw. split.
  - intros H i Hi. apply (f_equal (fun z => Z.testbit z i)) in H.
    rewrite Z.land_spec, ones_testbit, Z.testbit_0_l in H by lia.
    destruct (Z.ltb_spec i w); [|lia]. by rewrite andb_true_r in H.
  - intros H. apply Z.bits_inj'. intros i Hi.
    rewrite Z.land_spec, ones_testbit, Z.testbit_0_l by lia.
    destruct (Z.ltb_spec i w); [by rewrite H by lia|by rewrite andb_false_r].
Qed.

Lemma is_wordb_spec w x : is_wordb w x = true <-> is_word w x.
Proof. unfold is_wordb, is_word. rewrite andb_true_iff. lia. Qed.
End words.

#[export] Hint Resolve wrap_range lor_is_word lxor_is_word : word.
#[export] Hint Rewrite Z.land_spec Z.lor_spec Z.lxor_spec : zbits.
#[export] Hint Rewrite wrap_testbit Z.shiftr_spec shiftl_testbit ones_testbit using lia : zbits.

(** ** Equality modulo 2^w

    Conversions inside a sum, difference or product that is itself converted are
    irrelevant: [eqw w] is a congruence, and [wrap_push] rewrites with it. *)
Definition eqw (w x y : Z) : Prop := wrap w x = wrap w y.

#[global] Instance eqw_equivalence w : Equivalence (eqw w).
Proof. unfold eqw. split; [done|by intros ? ? ->|by intros ? ? ? -> ->]. Qed.
#[global] Instance eqw_add w : Proper (eqw w ==> eqw w ==> eqw w) Z.add.
Proof.
  intros x x' Hx y y' Hy. unfold eqw in *.
  by rewrite <- wrap_add_l, <- wrap_add_r, Hx, Hy, wrap_add_l, wrap_add_r.
Qed.
#[global] Instance eqw_sub w : Proper (eqw w ==> eqw w ==> eqw w) Z.sub.
Proof.
  intros x x' Hx y y' Hy. unfold eqw in *.
  by rewrite <- wrap_sub_l, <- wrap_sub_r, Hx, Hy, wrap_sub_l, wrap_sub_r.
Qed.
#[global] Instance eqw_mul w : Proper (eqw w ==> eqw w ==> eqw w) Z.mul.
Proof.
  intros x x' Hx y y' Hy. unfold eqw in *.
  by rewrite <- wrap_mul_l, <- wrap_mul_r, Hx, Hy, wrap_mul_l, wrap_mul_r.
Qed.
Lemma eqw_wrap w x : eqw w (wrap w x) x.
Proof. apply Zmod_mod. Qed.

Ltac wrap_push :=
  lazymatch goal with
  | |- wrap ?w ?a = wrap ?w ?b => change (eqw w a b); rewrite ?(eqw_wrap w)
  | |- wrap ?w ?a = ?b => rewrite <- (wrap_small w b); [change (eqw w a b); rewrite ?(eqw_wrap w)|]
  end.

(** ** Arrays and bytes *)

(** Element [i] of a constant array; the accesses of the code are in range. *)
Definition tget (t : list Z) (i : Z) : Z := nth (Z.to_nat i) t 0.

Definition is_byte (b : Z) : Prop := is_word 8 b.
Abbreviation bytes m := (Forall is_byte m).

(** Little and big endian value of a byte string. *)
Fixpoint le_val (m : list Z) : Z :=
  match m with [] => 0 | b :: m => Z.lor b (Z.shiftl (le_val m) 8) end.
Definition be_val (m : list Z) : Z := le_val (rev m).

(** [zbitwise] proves an equality of integers bit by bit: it introduces the bit
    index, rewrites every [Z.testbit] of an operator, and splits on the
    comparisons of the index with the constants. *)
Ltac zbit_split :=
  repeat match goal with
         | |- context [?a <? ?b] => destruct (Z.ltb_spec a b); simpl; try lia
         | |- context [?a <=? ?b] => destruct (Z.leb_spec a b); simpl; try lia
         end.
Ltac zbitwise :=
  apply Z.bits_inj'; let i := fresh "i" in let Hi := fresh "Hi" in intros i Hi;
  autorewrite with zbits; zbit_split; autorewrite with zbits; zbit_split.

Ltac tb_cases :=
  repeat match goal with |- context [Z.testbit ?a ?b] => destruct (Z.testbit a b) end; try done.

(** ** Lemmas on byte strings *)
Lemma byte_or_xor b x : is_byte b -> Z.lor b (Z.shiftl x 8) = Z.lxor b (Z.shiftl x 8).
Proof.
  intros Hb. zbitwise; [|by rewrite orb_false_r, xorb_false_r].
  by rewrite (word_high 8 b).
Qed.

Lemma byte_shift_inj b b' x x' : is_byte b -> is_byte b' ->
  Z.lor b (Z.shiftl x 8) = Z.lor b' (Z.shiftl x' 8) -> b = b' /\ x = x'.
Proof.
  intros Hb Hb' E. split; apply Z.bits_inj'; intros i Hi.
  - destruct (Z.lt_ge_cases i 8).
    + apply (f_equal (fun z => Z.testbit z i)) in E. autorewrite with zbits in E.
      revert E. zbit_split. by rewrite !orb_false_r.
    + by rewrite !(word_high 8) by (done || lia).
  - apply (f_equal (fun z => Z.testbit z (i + 8))) in E. autorewrite with zbits in E.
    rewrite !(word_high 8 _ (i + 8)) in E by (done || lia). simpl in E.
    revert E. zbit_split. by replace (i + 8 - 8) with i by lia.
Qed.

Lemma split_low n x : 0 <= n -> x = Z.lxor (Z.land x (Z.ones n)) (Z.shiftl (Z.shiftr x n) n).
Proof.
  intros. zbitwise; rewrite ?andb_false_r, ?andb_true_r, ?xorb_false_r; simpl; [done|].
  f_equal. lia.
Qed.

Lemma le_val_nonneg m : bytes m -> 0 <= le_val m.
Proof.
  induction 1 as [|b m Hb Hm IH]; simpl; [lia|].
  apply Z.lor_nonneg. split; [apply Hb|]. by apply Z.shiftl_nonneg.
Qed.

Lemma le_val_word m : bytes m -> is_word (8 * length m) (le_val m).
Proof.
  induction 1 as [|b m Hb Hm IH]; cbn [le_val length]; [done|].
  apply lor_is_word; [lia|by apply (is_word_mono 8); [lia..|]|].
  rewrite Z.shiftl_mul_pow2 by lia. unfold is_word in *.
  replace (8 * S (length m)) with (8 * length m + 8) by lia.
  rewrite Z.pow_add_r by lia. lia.
Qed.

Lemma le_val_inj m m' : bytes m -> bytes m' -> length m = length m' ->
  le_val m = le_val m' -> m = m'.
Proof.
  intros Hm. revert m'. induction Hm as [|b m Hb Hm IH]; intros [|b' m'] Hm' Hl E;
    simplify_eq/=; [done|].
  inversion Hm'; subst. apply byte_shift_inj in E as [-> E]; [|done..].
  f_equal. by apply IH.
Qed.

Lemma le_val_app m m' : bytes m ->
  le_val (m ++ m') = Z.lor (le_val m) (Z.shiftl (le_val m') (8 * length m)).
Proof.
  induction 1 as [|b m Hb Hm IH]; cbn [le_val app length]; [by rewrite Z.shiftl_0_r|].
  rewrite IH, Z.shiftl_lor, Z.lor_assoc, Z.shiftl_shiftl by lia.
  f_equal. f_equal. lia.
Qed.

Lemma bytes_rev m : bytes m -> bytes (rev m).
Proof. apply Forall_rev. Qed.

Lemma be_val_cons b m : bytes m -> is_byte b ->
  be_val (b :: m) = Z.lxor (Z.shiftl b (8 * length m)) (be_val m).
Proof.
  intros Hm Hb. unfold be_val. cbn [rev]. rewrite le_val_app by by apply bytes_rev.
  pose proof (le_val_word _ (bytes_rev _ Hm)) as Hv. rewrite length_rev in *.
  cbn [le_val]. rewrite Z.shiftl_0_l, Z.lor_0_r. zbitwise.
  - rewrite (word_high (8 * length m)) by (done || lia). by rewrite xorb_false_r.
  - by rewrite orb_false_r.
Qed.

Lemma be_val_word m : bytes m -> is_word (8 * length m) (be_val m).
Proof. intros Hm. rewrite <- length_rev. by apply le_val_word, bytes_rev. Qed.

Lemma be_val_inj m m' : bytes m -> bytes m' -> length m = length m' ->
  be_val m = be_val m' -> m = m'.
Proof.
  intros Hm Hm' Hl E. apply rev_inj. apply le_val_inj; auto using bytes_rev.
  by rewrite !length_rev.
Qed.

Lemma bytes_b m : forallb (is_wordb 8) m = true -> bytes m.
Proof.
  intros H. apply Forall_forall. intros b Hb. apply is_wordb_spec.
  rewrite forallb_forall in H. apply H. first [done|by apply list_elem_of_In].
Qed.

(** [solve_bytes] proves that a concrete list is a byte string. *)
Ltac solve_bytes := apply bytes_b; vm_compute; reflexivity.

(** [simplify_pair] splits equalities of pairs and options left by a
    destructured call. *)
Ltac invc H := inversion H; subst; clear H.

(** The least and the largest of some numbers. *)
Definition least (m : Z) (l : list Z) : Prop := m ∈ l /\ Forall (fun x => m <= x) l.
Definition largest (m : Z) (l : list Z) : Prop := m ∈ l /\ Forall (fun x => x <= m) l.
Lemma foldl_max_spec l : forall m, Forall (fun x => x <= foldl Z.max m l) l /\ (foldl Z.max m l = m \/ foldl Z.max m l ∈ l) /\ m <= foldl Z.max m l.
Proof.
  induction l as [|x l IH]; intros m; cbn; [split_and!; [constructor|by left|lia]|]. destruct (IH (Z.max m x)) as (H1 & H2 & H3).
  split_and!; [constructor; [lia|done]| |lia]. destruct H2 as [-> |]; [|right; by right].
  destruct (Z.max_spec m x) as [[_ ->]|[_ ->]]; [right; by left|by left].
Qed.
Lemma foldl_min_spec l : forall m, Forall (fun x => foldl Z.min m l <= x) l /\ (foldl Z.min m l = m \/ foldl Z.min m l ∈ l) /\ foldl Z.min m l <= m.
Proof.
  induction l as [|x l IH]; intros m; cbn; [split_and!; [constructor|by left|lia]|]. destruct (IH (Z.min m x)) as (H1 & H2 & H3).
  split_and!; [constructor; [lia|done]| |lia]. destruct H2 as [-> |]; [|right; by right].
  destruct (Z.min_spec m x) as [[_ ->]|[_ ->]]; [by left|right; by left].
Qed.
Lemma foldl_least m l : l <> [] -> Forall (fun x => x <= m) l -> least (foldl Z.min m l) l.
Proof.
  intros Hne Hl. destruct (foldl_min_spec l m) as (H1 & [E|H2] & H3); [|by split]. split; [|done].
  destruct l as [|x l]; [done|]. rewrite E in *. inversion Hl; inversion H1; subst. replace m with x by lia. by left.
Qed.
Lemma foldl_largest m l : l <> [] -> Forall (fun x => m <= x) l -> largest (foldl Z.max m l) l.
Proof.
  intros Hne Hl. destruct (foldl_max_spec l m) as (H1 & [E|H2] & H3); [|by split]. split; [|done].
  destruct l as [|x l]; [done|]. rewrite E in *. inversion Hl; inversion H1; subst. replace m with x by lia. by left.
Qed.

(** ** Sorting

    [qsort] with a comparison of keys, the larger keys first.  The order of elements
    with the same key, which C leaves open, is the one they had. *)
Section sort.
Context {A : Type} (key : A -> Z).
Fixpoint insert_desc (e : A) (l : list A) : list A :=
  match l with
  | [] => [e]
  | x :: l' => if key x <? key e then e :: l else x :: insert_desc e l'
  end.
Definition sort_desc (l : list A) : list A := foldl (fun l e => insert_desc e l) [] l.

Inductive sorted_desc : list A -> Prop :=
  | sorted_desc_nil : sorted_desc []
  | sorted_desc_cons e l : Forall (fun x => key x <= key e) l -> sorted_desc l -> sorted_desc (e :: l).

Lemma insert_desc_perm e l : insert_desc e l ≡ₚ e :: l.
Proof. induction l as [|x l IH]; cbn; [done|]. case_match; [done|]. rewrite IH. constructor. Qed.
Lemma insert_desc_sorted e l : sorted_desc l -> sorted_desc (insert_desc e l).
Proof.
  induction 1 as [|x l Hx Hl IH]; cbn [insert_desc]; [constructor; constructor|].
  destruct (Z.ltb_spec (key x) (key e)) as [L|L].
  - constructor; [|by constructor]. constructor; [lia|]. eapply Forall_impl; [|exact Hx]. cbn. lia.
  - constructor; [|done]. rewrite insert_desc_perm. by constructor.
Qed.
Lemma sort_desc_spec l : sorted_desc (sort_desc l) /\ sort_desc l ≡ₚ l.
Proof.
  unfold sort_desc. assert (G : forall l acc, sorted_desc acc ->
    sorted_desc (foldl (fun l e => insert_desc e l) acc l) /\ foldl (fun l e => insert_desc e l) acc l ≡ₚ acc ++ l).
  { clear. induction l as [|e l IH]; intros acc Ha; cbn; [by rewrite app_nil_r|].
    destruct (IH _ (insert_desc_sorted e acc Ha)) as [H1 H2]. split; [done|].
    rewrite H2, insert_desc_perm. cbn. by rewrite Permutation_middle. }
  exact (G _ [] sorted_desc_nil).
Qed.
Lemma sorted_desc_split l1 e l2 : sorted_desc (l1 ++ e :: l2) -> Forall (fun x => key e <= key x) l1.
Proof.
  induction l1 as [|x l1 IH]; cbn; intros H; [constructor|]. inversion H as [|? ? Hx Hl]; subst. constructor; [|auto].
  apply Forall_app in Hx as [_ Hx]. by inversion Hx.
Qed.
End sort.
