(* ===== verification/Bits.v ===== *)
(** * Bit search and integer hashing

    [src/lib/ffz.h] (first set and first zero bit of a long), [src/lib/fls.h]
    (last set bit of an int) and [src/hash.h] (multiplicative hash of a long,
    Jenkins hash of a byte string), for the LP64 platforms the Makefile builds
    for ([BITS_PER_LONG == 64]). *)
From S2P Require Import Prelude.
Local Open Scope word_scope.

Module Bits.

(** ** [lib/ffz.h] *)

(** One step of the binary search of [__ffs]: when the low [k] bits of the word
    are clear, shift them out and count them. *)
Definition ffs_step (k : Z) (wr : Z * Z) : Z * Z :=
  let '(word, r) := wr in
  if (word .& Z.ones k) =? 0 then (word .>> k, r + k) else (word, r).

Definition __ffs (word : Z) : Z :=
  snd (ffs_step 1 (ffs_step 2 (ffs_step 4 (ffs_step 8 (ffs_step 16 (ffs_step 32 (word, 0))))))).

Definition ffz (bitmask : Z) : Z := __ffs (notw 64 bitmask).

(** ** [lib/fls.h] *)

(** One step of [__fls]: when the top [k] bits of the 32-bit word are clear,
    shift the word up.  The tests of the source are on the unsigned masks, so
    only the bit pattern of [x] matters. *)
Definition fls_step (k : Z) (xr : Z * Z) : Z * Z :=
  let '(x, r) := xr in
  if (x .& (Z.ones k .<< (32 - k))) =? 0 then (shlw 32 x k, r - k) else (x, r).

Definition __fls (x : Z) : Z :=
  if x =? 0 then 0 else
  snd (fls_step 1 (fls_step 2 (fls_step 4 (fls_step 8 (fls_step 16 (x, 32)))))).

(** ** [hash.h] *)
Definition GOLDEN_RATIO_PRIME : Z := 0x9e37fffffffc0001.

Definition hash_long (val bits : Z) : Z :=
  let hash := val in
  let n := hash in
  let n := shlw 64 n 18 in let hash := u64 (hash - n) in
  let n := shlw 64 n 33 in let hash := u64 (hash - n) in
  let n := shlw 64 n 3 in let hash := u64 (hash + n) in
  let n := shlw 64 n 3 in let hash := u64 (hash - n) in
  let n := shlw 64 n 4 in let hash := u64 (hash + n) in
  let n := shlw 64 n 2 in let hash := u64 (hash + n) in
  hash .>> (64 - bits).

Definition JHASH_INITVAL : Z := GOLDEN_RATIO_PRIME.

Definition rol32 (word shift : Z) : Z := (shlw 32 word shift) .| (word .>> (32 - shift)).

(** The macros assign to their three arguments; here they return them. *)
Definition __jhash_mix (abc : Z * Z * Z) : Z * Z * Z :=
  let '(a, b, c) := abc in
  let a := u32 (a - c) in let a := a .^ rol32 c 4 in let c := u32 (c + b) in
  let b := u32 (b - a) in let b := b .^ rol32 a 6 in let a := u32 (a + c) in
  let c := u32 (c - b) in let c := c .^ rol32 b 8 in let b := u32 (b + a) in
  let a := u32 (a - c) in let a := a .^ rol32 c 16 in let c := u32 (c + b) in
  let b := u32 (b - a) in let b := b .^ rol32 a 19 in let a := u32 (a + c) in
  let c := u32 (c - b) in let c := c .^ rol32 b 4 in let b := u32 (b + a) in
  (a, b, c).

Definition __jhash_final (abc : Z * Z * Z) : Z * Z * Z :=
  let '(a, b, c) := abc in
  let c := c .^ b in let c := u32 (c - rol32 b 14) in
  let a := a .^ c in let a := u32 (a - rol32 c 11) in
  let b := b .^ a in let b := u32 (b - rol32 a 25) in
  let c := c .^ b in let c := u32 (c - rol32 b 16) in
  let a := a .^ c in let a := u32 (a - rol32 c 4) in
  let b := b .^ a in let b := u32 (b - rol32 a 14) in
  let c := c .^ b in let c := u32 (c - rol32 b 24) in
  (a, b, c).

(** Byte [i] of the key; the code never reads past [length] bytes. *)
Definition kb (k : list Z) (i : nat) : Z := nth i k 0.

(** The [while (length > 12)] loop: only bytes 0, 4 and 8 of each block of 12
    are added ([*k], [*(k + 4)], [*(k + 8)] with [k : uint8_t *]). *)
Fixpoint jhash_blocks (fuel : nat) (k : list Z) (length : Z) (abc : Z * Z * Z)
  : list Z * Z * (Z * Z * Z) :=
  match fuel with
  | O => (k, length, abc)
  | S fuel =>
      if 12 <? length then
        let '(a, b, c) := abc in
        let a := u32 (a + kb k 0) in
        let b := u32 (b + kb k 4) in
        let c := u32 (c + kb k 8) in
        jhash_blocks fuel (drop 12 k) (length - 12) (__jhash_mix (a, b, c))
      else (k, length, abc)
  end.

(** The [switch (length)] whose cases fall through from 12 down to 1. *)
Definition jhash_tail (k : list Z) (length : Z) (abc : Z * Z * Z) : Z * Z * Z :=
  let '(a, b, c) := abc in
  let add (case x : Z) (y : Z) := if case <=? length then u32 (x + y) else x in
  let c := add 12 c (shlw 32 (kb k 11) 24) in
  let c := add 11 c (shlw 32 (kb k 10) 16) in
  let c := add 10 c (shlw 32 (kb k 9) 8) in
  let c := add 9 c (kb k 8) in
  let b := add 8 b (shlw 32 (kb k 7) 24) in
  let b := add 7 b (shlw 32 (kb k 6) 16) in
  let b := add 6 b (shlw 32 (kb k 5) 8) in
  let b := add 5 b (kb k 4) in
  let a := add 4 a (shlw 32 (kb k 3) 24) in
  let a := add 3 a (shlw 32 (kb k 2) 16) in
  let a := add 2 a (shlw 32 (kb k 1) 8) in
  let a := add 1 a (kb k 0) in
  if 1 <=? length then __jhash_final (a, b, c) else (a, b, c).

(** [jhash(key, length, initval)] on the [length] bytes of [key], for a value of
    [JHASH_INITVAL] and for the one of 64-bit longs; each turn of the loop takes 12 bytes, so [length key] turns are enough. *)
Definition jhash_from (jhash_initval : Z) (key : list Z) (initval : Z) : Z :=
  let length := Z.of_nat (length key) in
  let s := u32 (jhash_initval + length + initval) in
  let '(k, length, abc) := jhash_blocks (List.length key) key length (s, s, s) in
  let '(_, _, c) := jhash_tail k length abc in c.
Definition jhash (key : list Z) (initval : Z) : Z := jhash_from JHASH_INITVAL key initval.

(** [GOLDEN_RATIO_PRIME], with which [jhash] starts, for longs of [W] bits. *)
Definition golden_of (W : Z) : Z := if W =? 32 then 0x9e370001 else GOLDEN_RATIO_PRIME.

(** ** Properties *)

(** What a prefix of the search of [__ffs] knows: the bits below [r] are clear,
    the word has been shifted by [r], and one of its low [m] bits is set. *)
Definition ffs_inv (word0 m : Z) (wr : Z * Z) : Prop :=
  let '(word, r) := wr in
  0 <= r /\ word = word0 .>> r /\ (word .& Z.ones m) <> 0 /\
  forall i, 0 <= i < r -> Z.testbit word0 i = false.

Lemma ffs_step_inv word0 k wr :
  0 < k -> ffs_inv word0 (2 * k) wr -> ffs_inv word0 k (ffs_step k wr).
Proof.
  destruct wr as [word r]. intros Hk (Hr & Hw & Hset & Hlow). unfold ffs_step.
  destruct (Z.eqb_spec (word .& Z.ones k) 0) as [H0|]; [|done].
  assert (H0' := proj1 (land_ones_eq0 k word ltac:(lia)) H0).
  split; [lia|]. split; [subst word; rewrite Z.shiftr_shiftr by lia; f_equal; lia|]. split.
  - intros E. apply Hset. apply land_ones_eq0; [lia|]. intros i Hi.
    destruct (Z.lt_ge_cases i k); [by apply H0'; lia|].
    assert (E' := proj1 (land_ones_eq0 k (word .>> k) ltac:(lia)) E (i - k) ltac:(lia)).
    rewrite Z.shiftr_spec in E' by lia. rewrite <- E'. f_equal; lia.
  - intros i Hi. destruct (Z.lt_ge_cases i r); [by apply Hlow; lia|].
    specialize (H0' (i - r) ltac:(lia)). subst word. rewrite Z.shiftr_spec in H0' by lia.
    rewrite <- H0'. f_equal; lia.
Qed.

(** [__ffs] returns the index of the lowest set bit of a non-zero long. *)
Lemma ffs_lowest word :
  is_word 64 word -> word <> 0 ->
  0 <= __ffs word < 64 /\ Z.testbit word (__ffs word) = true /\
  forall i, 0 <= i < __ffs word -> Z.testbit word i = false.
Proof.
  intros Hw Hnz. unfold __ffs.
  assert (I : ffs_inv word 64 (word, 0)).
  { split; [lia|]. split; [by rewrite Z.shiftr_0_r|]. split; [|lia].
    rewrite Z.land_ones by lia. unfold is_word in Hw. rewrite Z.mod_small by lia. done. }
  apply (ffs_step_inv _ 32), (ffs_step_inv _ 16), (ffs_step_inv _ 8), (ffs_step_inv _ 4),
    (ffs_step_inv _ 2), (ffs_step_inv _ 1) in I; try lia.
  destruct (ffs_step 1 _) as [w r]. destruct I as (Hr & -> & Hset & Hlow). simpl.
  assert (Hb : Z.testbit word r = true).
  { destruct (Z.testbit word r) eqn:E; [done|]. exfalso. apply Hset.
    apply land_ones_eq0; [lia|]. intros i Hi. rewrite Z.shiftr_spec by lia.
    by replace (i + r) with r by lia. }
  split; [|done]. split; [done|]. destruct (Z.lt_ge_cases r 64); [done|].
  by rewrite (word_high 64) in Hb.
Qed.

(** [ffz] returns the lowest clear bit of a long that is not all ones: it is the
    search the random map uses for the next free block. *)
Lemma ffz_lowest_clear m :
  is_word 64 m -> m <> 2 ^ 64 - 1 ->
  0 <= ffz m < 64 /\ Z.testbit m (ffz m) = false /\
  forall i, 0 <= i < ffz m -> Z.testbit m i = true.
Proof.
  intros Hm Hne. unfold ffz.
  assert (Hb : forall i, 0 <= i < 64 -> Z.testbit (notw 64 m) i = negb (Z.testbit m i)).
  { intros i Hi. unfold notw. rewrite wrap_testbit, Z.lnot_spec by lia.
    by destruct (Z.ltb_spec i 64); [|lia]. }
  destruct (ffs_lowest (notw 64 m)) as (Hr & Hs & Hl).
  - by apply wrap_range.
  - intros E. apply Hne. apply Z.bits_inj'. intros i Hi.
    change (2 ^ 64 - 1) with (Z.ones 64). rewrite ones_testbit by lia.
    destruct (Z.ltb_spec i 64).
    + apply negb_false_iff. rewrite <- Hb by lia. by rewrite E, Z.testbit_0_l.
    + by apply (word_high 64).
  - split; [done|]. rewrite Hb in Hs by lia. apply negb_true_iff in Hs.
    split; [done|]. intros i Hi. specialize (Hl i Hi). rewrite Hb in Hl by lia.
    by apply negb_false_iff in Hl.
Qed.

Definition fls_inv (x0 m : Z) (xr : Z * Z) : Prop :=
  let '(x, r) := xr in
  is_word 32 x /\ 2 ^ (32 - m) <= x /\ r <= 32 /\ x = x0 * 2 ^ (32 - r).

Lemma top_bits_clear k x : 0 < k <= 32 -> is_word 32 x ->
  (x .& (Z.ones k .<< (32 - k))) = 0 <-> x < 2 ^ (32 - k).
Proof.
  intros Hk Hx. split.
  - intros E. apply Z.nle_gt. intros Hge.
    assert (Hl := Z.log2_le_pow2 x (32 - k) ltac:(unfold is_word in Hx; pose proof (pow2_pos (32-k)); lia)).
    apply Hl in Hge. assert (Hpos : 0 < x) by (destruct (Z.eq_dec x 0); [subst; simpl in *; lia | unfold is_word in Hx; lia]).
    assert (Hlt : Z.log2 x < 32) by (apply Z.log2_lt_pow2; [done|apply Hx]).
    apply (f_equal (fun z => Z.testbit z (Z.log2 x))) in E.
    rewrite Z.land_spec, Z.bit_log2, shiftl_testbit, ones_testbit, Z.testbit_0_l in E by lia.
    revert E. zbit_split; done.
  - intros Hlt. apply Z.bits_inj'. intros i Hi.
    rewrite Z.land_spec, shiftl_testbit, Z.testbit_0_l by lia.
    destruct (Z.leb_spec (32 - k) i); simpl; [|by rewrite andb_false_r].
    rewrite (word_high (32 - k) x i); [done|lia| |lia]. unfold is_word in *; lia.
Qed.

Lemma fls_step_inv x0 k xr : 0 < k <= 16 ->
  fls_inv x0 (2 * k) xr -> fls_inv x0 k (fls_step k xr).
Proof.
  destruct xr as [x r]. intros Hk (Hx & Hm & Hr & E). unfold fls_step.
  pose proof (top_bits_clear k x ltac:(lia) Hx) as T.
  destruct (Z.eqb_spec (x .& (Z.ones k .<< (32 - k))) 0) as [H0|H0].
  - apply T in H0. assert (Hs : shlw 32 x k = x * 2 ^ k).
    { apply shlw_nowrap; [lia|]. unfold is_word in *; lia. }
    unfold fls_inv. rewrite Hs.
    assert (P1 : 2 ^ 32 = 2 ^ (32 - k) * 2 ^ k) by (rewrite <- Z.pow_add_r by lia; f_equal; lia).
    assert (P2 : 2 ^ (32 - k) = 2 ^ (32 - 2 * k) * 2 ^ k) by (rewrite <- Z.pow_add_r by lia; f_equal; lia).
    assert (P3 : 2 ^ (32 - (r - k)) = 2 ^ (32 - r) * 2 ^ k) by (rewrite <- Z.pow_add_r by lia; f_equal; lia).
    pose proof (pow2_pos k ltac:(lia)).
    split; [unfold is_word in *; nia|]. split; [nia|]. split; [lia|]. rewrite P3. nia.
  - split; [done|]. split; [|done]. destruct (Z.le_gt_cases (2 ^ (32 - k)) x); [done|].
    by apply T in H.
Qed.

(** [__fls] returns one plus the index of the highest set bit, and 0 for 0. *)
Lemma fls_log2 x : is_word 32 x -> __fls x = if x =? 0 then 0 else Z.log2 x + 1.
Proof.
  intros Hx. unfold __fls. destruct (Z.eqb_spec x 0) as [|Hnz]; [done|].
  assert (I : fls_inv x 32 (x, 32)).
  { split; [done|]. unfold is_word in Hx. split; [lia|]. split; [lia|]. simpl; lia. }
  apply (fls_step_inv _ 16), (fls_step_inv _ 8), (fls_step_inv _ 4), (fls_step_inv _ 2),
    (fls_step_inv _ 1) in I; try lia.
  destruct (fls_step 1 _) as [y r]. destruct I as (Hy & Hm & Hr & E). simpl.
  assert (Hl : Z.log2 y = 31).
  { apply Z.log2_unique; [lia|]. unfold is_word in Hy. simpl in *. lia. }
  unfold is_word in Hx. rewrite E, Z.log2_mul_pow2 in Hl by lia. lia.
Qed.

(** The shifts and additions of [hash_long] multiply by [GOLDEN_RATIO_PRIME]
    modulo 2^64. *)
Lemma hash_long_mult val bits : is_word 64 val -> 0 <= bits <= 64 ->
  hash_long val bits = u64 (val * GOLDEN_RATIO_PRIME) .>> (64 - bits).
Proof.
  intros Hv Hb. replace (hash_long val bits) with (hash_long (u64 val) bits)
    by (by rewrite wrap_small).
  unfold hash_long. cbv zeta. rewrite !shlw_wrap by lia.
  f_equal. wrap_push. unfold eqw. f_equal. unfold GOLDEN_RATIO_PRIME. lia.
Qed.

(** The bytes of a key of [len] bytes that [jhash] looks at: all those of the
    last block, and bytes 0, 4 and 8 of each block of 12 before it. *)
Definition jhash_reads (len i : Z) : bool := (i mod 4 =? 0) || (12 * ((len - 1) / 12) <=? i).

Definition jhash_agree (len : Z) (k k' : list Z) : Prop :=
  forall i : nat, jhash_reads len i = true -> kb k i = kb k' i.

Lemma kb_drop n k i : kb (drop n k) i = kb k (n + i).
Proof. unfold kb. by rewrite !nth_lookup, lookup_drop. Qed.

Lemma jhash_blocks_ext (fuel : nat) : forall k k' len abc,
  len <= 12 * fuel + 12 -> jhash_agree len k k' ->
  exists r r' len' abc',
    jhash_blocks fuel k len abc = (r, len', abc') /\
    jhash_blocks fuel k' len abc = (r', len', abc') /\ forall i, kb r i = kb r' i.
Proof.
  induction fuel as [|fuel IH]; intros k k' len abc Hlen Hag; cbn [jhash_blocks];
    destruct (Z.ltb_spec 12 len); try lia.
  all: try (eexists _, _, _, _; split; [done|]; split; [done|]; intros i; apply Hag;
            unfold jhash_reads; apply orb_true_intro; right; apply Z.leb_le;
            assert ((len - 1) / 12 < 1) by (apply Z.div_lt_upper_bound; lia); lia).
  destruct abc as [[a b] c].
  rewrite (Hag 0%nat), (Hag 4%nat), (Hag 8%nat) by done.
  apply IH; [lia|]. intros i Hi. rewrite !kb_drop. apply Hag.
  unfold jhash_reads in *. apply orb_true_iff in Hi. apply orb_true_iff.
  rewrite !Z.eqb_eq, !Z.leb_le in *.
  replace (len - 12 - 1) with (len - 1 + (-1) * 12) in Hi by lia.
  rewrite Z.div_add in Hi by lia.
  destruct Hi as [Hi|Hi]; [left|right; lia].
  replace (Z.of_nat (12 + i)) with (i + 3 * 4) by lia. by rewrite Z.mod_add by lia.
Qed.

Lemma jhash_tail_ext k k' len abc : (forall i, kb k i = kb k' i) ->
  jhash_tail k len abc = jhash_tail k' len abc.
Proof. intros H. destruct abc as [[a b] c]. unfold jhash_tail. by rewrite !H. Qed.

(** Two keys of the same length that agree on the bytes [jhash_reads] names
    have the same hash. *)
Lemma jhash_ext k k' initval : length k = length k' -> jhash_agree (length k) k k' ->
  jhash k initval = jhash k' initval.
Proof.
  intros Hlen Hag. unfold jhash, jhash_from. rewrite <- Hlen.
  destruct (jhash_blocks_ext (length k) k k' (length k)
              (let s := u32 (JHASH_INITVAL + length k + initval) in (s, s, s)))
    as (r & r' & l' & abc' & E & E' & Hr); [lia|done|].
  cbv zeta in E, E'. rewrite E, E'. by rewrite (jhash_tail_ext r r').
Qed.

End Bits.
