(* ===== verification/Crc.v ===== *)
(** * The CRC checksums of [src/crc]

    [fio_crc7], [fio_crc16], [fio_crc32], [crc32c_sw], [crc32c_intel] and
    [fio_crc64] as table-driven loops over the bytes of a buffer, the bit-serial
    division each of them implements, and what a CRC promises to the verify
    code: a change confined to as many bytes as the checksum is wide is always
    detected. *)
From S2P Require Import Prelude CrcTables.
Local Open Scope word_scope.

Module Crc.
Import CrcTables.

(** ** The code: one table lookup per byte ([while (len--)] is a left fold) *)

Definition crc7_byte (crc data : Z) : Z := tget crc7_syndrome_table ((crc .<< 1) .^ data).
Definition fio_crc7 (buffer : list Z) : Z := fold_left crc7_byte buffer 0.

Definition crc16_byte (crc data : Z) : Z :=
  (crc .>> 8) .^ tget crc16_table ((crc .^ data) .& 0xff).
Definition fio_crc16 (buffer : list Z) : Z := fold_left crc16_byte buffer 0.

Definition crc32_byte (crc cp : Z) : Z :=
  shlw 32 crc 8 .^ tget crctab (((crc .>> 24) .^ cp) .& 0xFF).
Definition fio_crc32 (buffer : list Z) : Z := fold_left crc32_byte buffer 0.

Definition crc32c_byte (crc data : Z) : Z :=
  tget crc32c_table ((crc .^ data) .& 0xFF) .^ (crc .>> 8).
Definition crc32c_sw (data : list Z) : Z := fold_left crc32c_byte data (notw 32 0).

Definition crc64_byte (crc b : Z) : Z :=
  tget crctab64 ((crc .^ b) .& 0xff) .^ (crc .>> 8).
Definition fio_crc64 (buffer : list Z) : Z := fold_left crc64_byte buffer 0.

(** [crc32c_intel]: the quadword and byte forms of the SSE4.2 CRC32 instruction
    are parameters. *)
Section intel.
Context (crc32q crc32b : Z -> Z -> Z).

Definition crc32c_intel_le_hw_byte (crc : Z) (data : list Z) : Z :=
  fold_left crc32b data crc.

(** [while (iquotient--)], eight bytes of [ptmp] per turn. *)
Fixpoint crc32c_intel_quads (iquotient : nat) (crc : Z) (ptmp : list Z) : Z * list Z :=
  match iquotient with
  | O => (crc, ptmp)
  | S n => crc32c_intel_quads n (crc32q crc (le_val (take 8 ptmp))) (drop 8 ptmp)
  end.

Definition crc32c_intel (data : list Z) : Z :=
  let length := Z.of_nat (length data) in
  let iquotient := u32 (length / 8) in
  let iremainder := u32 (length mod 8) in
  let '(crc, ptmp) := crc32c_intel_quads (Z.to_nat iquotient) (notw 32 0) data in
  if iremainder =? 0 then crc
  else crc32c_intel_le_hw_byte crc (take (Z.to_nat iremainder) ptmp).

Definition fio_crc32c (crc32c_intel_available : bool) (buf : list Z) : Z :=
  if crc32c_intel_available then crc32c_intel buf else crc32c_sw buf.
End intel.

(** ** The reference: division by the polynomial, one bit at a time *)

(** Reflected form: the low bit leaves the register. *)
Definition rstep (P x : Z) : Z := if Z.odd x then (x .>> 1) .^ P else x .>> 1.
Definition rbyte (P crc b : Z) : Z := Nat.iter 8 (rstep P) (crc .^ b).

(** Normal form of width [w]: the high bit leaves the register. *)
Definition mstep (w P x : Z) : Z :=
  if Z.testbit x (w - 1) then shlw w x 1 .^ P else shlw w x 1.
Definition mbyte (w P crc b : Z) : Z := Nat.iter 8 (mstep w P) (crc .^ (b .<< (w - 8))).

(** ** What a checksum promises *)
Class CrcAlgo := { crc_width : Z; crc_init : Z; crc_upd : Z -> Z -> Z }.
Arguments crc_width : clear implicits.
Arguments crc_init : clear implicits.
Arguments crc_upd : clear implicits.

Definition crc_run (A : CrcAlgo) (m : list Z) (s : Z) : Z := fold_left (crc_upd A) m s.

Class CrcLaws (A : CrcAlgo) := {
  crc_width_pos : 0 <= crc_width A;
  crc_init_word : is_word (crc_width A) (crc_init A);
  crc_upd_word s b : is_word (crc_width A) s -> is_byte b -> is_word (crc_width A) (crc_upd A s b);
  crc_upd_inj s s' b : is_word (crc_width A) s -> is_word (crc_width A) s' -> is_byte b ->
    crc_upd A s b = crc_upd A s' b -> s = s';
  crc_burst s m m' : is_word (crc_width A) s -> bytes m -> bytes m' ->
    length m = length m' -> 8 * length m <= crc_width A ->
    crc_run A m s = crc_run A m' s -> m = m' }.

Section crc_laws.
Context (A : CrcAlgo) `{!CrcLaws A}.

Lemma crc_run_word m s : bytes m -> is_word (crc_width A) s ->
  is_word (crc_width A) (crc_run A m s).
Proof. intros Hm. revert s. induction Hm; simpl; auto using crc_upd_word. Qed.

Lemma crc_run_inj m s s' : bytes m -> is_word (crc_width A) s -> is_word (crc_width A) s' ->
  crc_run A m s = crc_run A m s' -> s = s'.
Proof.
  intros Hm. revert s s'. induction Hm as [|b m Hb Hm IH]; intros s s' Hs Hs' E; [done|].
  eapply crc_upd_inj; eauto. apply IH; auto using crc_upd_word.
Qed.

Lemma crc_run_app m m' s : crc_run A (m ++ m') s = crc_run A m' (crc_run A m s).
Proof. apply fold_left_app. Qed.

(** A burst no wider than the checksum changes it, whatever surrounds it. *)
Lemma crc_detects pre m m' post :
  bytes pre -> bytes m -> bytes m' -> bytes post ->
  length m = length m' -> 8 * length m <= crc_width A -> m <> m' ->
  crc_run A (pre ++ m ++ post) (crc_init A) <> crc_run A (pre ++ m' ++ post) (crc_init A).
Proof.
  intros Hpre Hm Hm' Hpost Hlen Hw Hne E. apply Hne.
  rewrite !crc_run_app in E. apply crc_run_inj in E; auto using crc_run_word, crc_init_word.
  eapply crc_burst in E; eauto using crc_run_word, crc_init_word.
Qed.
End crc_laws.

(** ** The reflected step *)
Section reflected.
Context (w P : Z) (Hw : 8 <= w) (HP : is_word w P) (Htop : Z.testbit P (w - 1) = true).
Implicit Types (x y b : Z) (n : nat).

Lemma rstep_lxor Q x y : rstep Q (x .^ y) = rstep Q x .^ rstep Q y.
Proof.
  unfold rstep. rewrite <- !Z.bit0_odd, Z.lxor_spec, Z.shiftr_lxor.
  destruct (Z.testbit x 0), (Z.testbit y 0); simpl; zbitwise; tb_cases.
Qed.

Lemma rstep_iter_lxor Q n x y :
  Nat.iter n (rstep Q) (x .^ y) = Nat.iter n (rstep Q) x .^ Nat.iter n (rstep Q) y.
Proof. induction n as [|n IH]; [done|]. simpl. by rewrite IH, rstep_lxor. Qed.

Lemma rstep_iter_shift Q n x : Nat.iter n (rstep Q) (x .<< n) = x.
Proof.
  induction n as [|n IH]; [by rewrite Z.shiftl_0_r|].
  rewrite Nat.iter_succ_r. rewrite <- IH at 2. f_equal.
  unfold rstep. rewrite <- Z.bit0_odd, shiftl_testbit by lia.
  destruct (Z.leb_spec (S n) 0); [lia|]. simpl.
  rewrite Z.shiftr_shiftl_l by lia. f_equal. lia.
Qed.

Lemma rstep_word x : is_word w x -> is_word w (rstep P x).
Proof.
  intros. unfold rstep.
  destruct (Z.odd x); [apply lxor_is_word; [lia| |done]|]; apply shiftr_is_word; done || lia.
Qed.

Lemma rstep_inj x y : is_word w x -> is_word w y -> rstep P x = rstep P y -> x = y.
Proof.
  intros Hx Hy E.
  assert (T : forall z, is_word w z -> Z.testbit (rstep P z) (w - 1) = Z.odd z).
  { intros z Hz. unfold rstep.
    assert (Z.testbit (z .>> 1) (w - 1) = false)
      by (rewrite Z.shiftr_spec by lia; apply (word_high w); auto; lia).
    destruct (Z.odd z); [by rewrite Z.lxor_spec, H, Htop|done]. }
  assert (O : Z.odd x = Z.odd y) by (rewrite <- !T by done; by rewrite E).
  unfold rstep in E. rewrite <- O in E.
  assert (S : x .>> 1 = y .>> 1).
  { destruct (Z.odd x); [|done]. apply (f_equal (fun z => z .^ P)) in E.
    by rewrite !Z.lxor_assoc, !Z.lxor_nilpotent, !Z.lxor_0_r in E. }
  rewrite <- !Z.div2_spec in S.
  rewrite (Z.div2_odd x), (Z.div2_odd y). by rewrite S, O.
Qed.

Lemma rstep_iter_word n x : is_word w x -> is_word w (Nat.iter n (rstep P) x).
Proof. intros. induction n; simpl; auto using rstep_word. Qed.

Lemma rstep_iter_inj n x y : is_word w x -> is_word w y ->
  Nat.iter n (rstep P) x = Nat.iter n (rstep P) y -> x = y.
Proof. intros Hx Hy. induction n; simpl; [done|]. eauto using rstep_inj, rstep_iter_word. Qed.

(** A run over a message is one division of the whole message. *)
Lemma rbyte_run m s : bytes m ->
  fold_left (rbyte P) m s = Nat.iter (8 * length m) (rstep P) (s .^ le_val m).
Proof.
  intros Hm. revert s. induction Hm as [|b m Hb Hm IH]; intros s; [by rewrite Z.lxor_0_r|].
  cbn [fold_left length le_val]. rewrite IH. unfold rbyte.
  replace (8 * S (length m))%nat with (8 * length m + 8)%nat by lia.
  rewrite Nat.iter_add, byte_or_xor, <- Z.lxor_assoc by done. f_equal.
  rewrite <- (rstep_iter_shift P 8 (le_val m)) at 1. by rewrite <- rstep_iter_lxor.
Qed.

(** The table lookup is eight steps. *)
Lemma rbyte_table tbl crc b :
  (forall i, is_byte i -> tget tbl i = Nat.iter 8 (rstep P) i) ->
  is_byte b -> rbyte P crc b = tget tbl ((crc .^ b) .& 0xff) .^ (crc .>> 8).
Proof.
  intros Ht Hb. unfold rbyte. set (x := crc .^ b).
  assert (Hx := split_low 8%nat x ltac:(lia)).
  rewrite Hx at 1. rewrite rstep_iter_lxor, rstep_iter_shift. change (Z.of_nat 8) with 8.
  rewrite Ht by (change 0xff with (Z.ones 8); rewrite Z.land_ones by lia; by apply wrap_range).
  f_equal. unfold x. rewrite Z.shiftr_lxor.
  rewrite (Z.shiftr_eq_0 b 8); [by rewrite Z.lxor_0_r|apply Hb|].
  destruct (Z.eq_dec b 0) as [->|]; [done|]. apply Z.log2_lt_pow2; [|apply Hb].
  unfold is_byte, is_word in Hb; lia.
Qed.

Lemma rbyte_burst s m m' : is_word w s -> bytes m -> bytes m' -> length m = length m' ->
  8 * length m <= w -> fold_left (rbyte P) m s = fold_left (rbyte P) m' s -> m = m'.
Proof.
  intros Hs Hm Hm' Hl Hb E. rewrite !rbyte_run, <- Hl in E by done.
  assert (W : forall k, bytes k -> length k = length m -> is_word w (s .^ le_val k)).
  { intros k Hk Hkl. apply lxor_is_word; [lia|done|].
    apply (is_word_mono (8 * length k)); [lia..|by apply le_val_word]. }
  apply rstep_iter_inj in E; [|by apply W..].
  apply le_val_inj; [done..|]. apply (f_equal (Z.lxor s)) in E.
  by rewrite <- !Z.lxor_assoc, !Z.lxor_nilpotent, !Z.lxor_0_l in E.
Qed.
End reflected.

(** ** The normal step *)
Section normal.
Context (w P : Z) (Hw : 8 <= w) (HP : is_word w P) (Hlow : Z.testbit P 0 = true).
Implicit Types (x y b : Z) (n : nat).

Lemma shlw_lxor n x y : shlw w (x .^ y) n = shlw w x n .^ shlw w y n.
Proof using Hw. unfold shlw. zbitwise; tb_cases. Qed.

Lemma mstep_lxor x y : mstep w P (x .^ y) = mstep w P x .^ mstep w P y.
Proof.
  unfold mstep. rewrite Z.lxor_spec. change 1 with (Z.of_nat 1). rewrite shlw_lxor.
  destruct (Z.testbit x (w - 1%nat)), (Z.testbit y (w - 1%nat)); simpl; zbitwise; tb_cases.
Qed.

Lemma mstep_iter_lxor n x y :
  Nat.iter n (mstep w P) (x .^ y) = Nat.iter n (mstep w P) x .^ Nat.iter n (mstep w P) y.
Proof. induction n as [|n IH]; [done|]. simpl. by rewrite IH, mstep_lxor. Qed.

(** As long as no bit reaches the top, the steps only shift. *)
Lemma mstep_iter_low n x : n <= w -> is_word (w - n) x ->
  Nat.iter n (mstep w P) x = x .<< n.
Proof.
  revert x. induction n as [|n IH]; intros x Hn Hx; [by rewrite Z.shiftl_0_r|].
  rewrite Nat.iter_succ_r. unfold mstep at 2.
  rewrite (word_high (w - S n) x (w - 1)) by (done || lia).
  rewrite shlw_nowrap by (lia || (apply (is_word_mono (w - S n)); done || lia)).
  rewrite IH.
  - rewrite <- Z.shiftl_mul_pow2, Z.shiftl_shiftl by lia. f_equal. lia.
  - lia.
  - unfold is_word in *. replace (w - n) with (w - S n + 1) by lia.
    rewrite Z.pow_add_r by lia. lia.
Qed.

Lemma mstep_word x : is_word w (mstep w P x).
Proof.
  unfold mstep, shlw. destruct (Z.testbit x (w - 1)); [apply lxor_is_word; [lia| |done]|];
    apply wrap_range; lia.
Qed.

Lemma mstep_inj x y : is_word w x -> is_word w y -> mstep w P x = mstep w P y -> x = y.
Proof.
  intros Hx Hy E.
  assert (T : forall z, Z.testbit (mstep w P z) 0 = Z.testbit z (w - 1)).
  { intros z. unfold mstep, shlw.
    assert (B : Z.testbit (wrap w (z .<< 1)) 0 = false)
      by (rewrite wrap_testbit, shiftl_testbit by lia; by rewrite andb_false_r).
    destruct (Z.testbit z (w - 1)); [by rewrite Z.lxor_spec, B, Hlow|done]. }
  assert (O : Z.testbit x (w - 1) = Z.testbit y (w - 1)) by (by rewrite <- !T, E).
  unfold mstep in E. rewrite <- O in E.
  assert (S : shlw w x 1 = shlw w y 1).
  { destruct (Z.testbit x (w - 1)); [|done]. apply (f_equal (fun z => z .^ P)) in E.
    by rewrite !Z.lxor_assoc, !Z.lxor_nilpotent, !Z.lxor_0_r in E. }
  apply Z.bits_inj'. intros i Hi. destruct (Z.lt_ge_cases i w) as [Hiw|Hiw].
  2: { by rewrite !(word_high w) by (done || lia). }
  destruct (Z.eq_dec i (w - 1)) as [->|]; [done|].
  apply (f_equal (fun z => Z.testbit z (i + 1))) in S. unfold shlw in S.
  rewrite !wrap_testbit, !shiftl_testbit in S by lia. revert S. zbit_split.
  by replace (i + 1 - 1) with i by lia.
Qed.

Lemma mstep_iter_word n x : is_word w x -> is_word w (Nat.iter n (mstep w P) x).
Proof. destruct n; simpl; auto using mstep_word. Qed.

Lemma mstep_iter_inj n x y : is_word w x -> is_word w y ->
  Nat.iter n (mstep w P) x = Nat.iter n (mstep w P) y -> x = y.
Proof. intros Hx Hy. induction n; simpl; [done|]. eauto using mstep_inj, mstep_iter_word. Qed.

Lemma byte_top b : is_byte b -> is_word w (b .<< (w - 8)).
Proof.
  intros Hb. rewrite Z.shiftl_mul_pow2 by lia. unfold is_byte, is_word in *.
  replace (2 ^ w) with (2 ^ 8 * 2 ^ (w - 8)) by (rewrite <- Z.pow_add_r by lia; f_equal; lia).
  pose proof (pow2_pos (w - 8)). nia.
Qed.

Lemma mbyte_word s b : is_word w s -> is_byte b -> is_word w (mbyte w P s b).
Proof. intros. apply mstep_iter_word, lxor_is_word; auto using byte_top; lia. Qed.

Lemma mbyte_run m s : bytes m -> 8 * length m <= w ->
  fold_left (mbyte w P) m s =
  Nat.iter (8 * length m) (mstep w P) (s .^ (be_val m .<< (w - 8 * length m))).
Proof.
  intros Hm. revert s. induction Hm as [|b m Hb Hm IH]; intros s Hl; cbn [fold_left length].
  { unfold be_val. simpl. by rewrite Z.shiftl_0_l, Z.lxor_0_r. }
  cbn [length] in Hl. rewrite IH by lia. unfold mbyte.
  replace (8 * S (length m))%nat with (8 * length m + 8)%nat by lia.
  rewrite Nat.iter_add, be_val_cons, Z.shiftl_lxor, Z.shiftl_shiftl, <- Z.lxor_assoc by lia || done.
  f_equal. replace (8 * length m + (w - 8 * S (length m))) with (w - 8) by lia.
  rewrite (mstep_iter_lxor 8 (s .^ (b .<< (w - 8)))). f_equal.
  pose proof (be_val_word m Hm) as Hv.
  rewrite mstep_iter_low.
  - rewrite Z.shiftl_shiftl by lia. f_equal. lia.
  - lia.
  - rewrite Z.shiftl_mul_pow2 by lia. unfold is_word in *.
    replace (w - 8%nat) with (8 * length m + (w - 8 * S (length m))) by lia.
    rewrite (Z.pow_add_r 2) by lia. pose proof (pow2_pos (w - 8 * S (length m))). nia.
Qed.

Lemma mbyte_burst s m m' : is_word w s -> bytes m -> bytes m' -> length m = length m' ->
  8 * length m <= w -> fold_left (mbyte w P) m s = fold_left (mbyte w P) m' s -> m = m'.
Proof.
  intros Hs Hm Hm' Hl Hb E. rewrite !mbyte_run, <- Hl in E by (done || lia).
  assert (W : forall k, bytes k -> length k = length m ->
              is_word w (s .^ (be_val k .<< (w - 8 * length m)))).
  { intros k Hk Hkl. apply lxor_is_word; [lia|done|].
    pose proof (be_val_word k Hk). rewrite Z.shiftl_mul_pow2 by lia. unfold is_word in *.
    replace (2 ^ w) with (2 ^ (8 * length k) * 2 ^ (w - 8 * length m))
      by (rewrite <- Z.pow_add_r by lia; f_equal; lia).
    pose proof (pow2_pos (w - 8 * length m)). nia. }
  apply mstep_iter_inj in E; [|by apply W..].
  apply be_val_inj; [done..|]. apply (f_equal (Z.lxor s)) in E.
  rewrite <- !Z.lxor_assoc, !Z.lxor_nilpotent, !Z.lxor_0_l in E.
  rewrite !Z.shiftl_mul_pow2 in E by lia. pose proof (pow2_pos (w - 8 * length m)). nia.
Qed.

Lemma mbyte_table tbl crc b :
  (forall i, is_byte i -> tget tbl i = Nat.iter 8 (mstep w P) (i .<< (w - 8))) ->
  is_word w crc -> is_byte b ->
  mbyte w P crc b = shlw w crc 8 .^ tget tbl (((crc .>> (w - 8)) .^ b) .& 0xff).
Proof.
  intros Ht Hc Hb. unfold mbyte.
  set (top := (crc .>> (w - 8)) .^ b). set (low := crc .& Z.ones (w - 8)).
  assert (Htop : is_byte top).
  { apply lxor_is_word; [lia| |done]. unfold is_word in *. rewrite Z.shiftr_div_pow2 by lia.
    split; [apply Z.div_pos; pose proof (pow2_pos (w - 8)); lia|].
    apply Z.div_lt_upper_bound; [apply pow2_pos; lia|]. rewrite <- Z.pow_add_r by lia.
    replace (w - 8 + 8) with w by lia. lia. }
  assert (Hx : crc .^ (b .<< (w - 8)) = low .^ (top .<< (w - 8))).
  { unfold low, top. rewrite Z.shiftl_lxor, <- Z.lxor_assoc.
    by rewrite <- (split_low (w - 8) crc) by lia. }
  rewrite Hx, mstep_iter_lxor, mstep_iter_low.
  - rewrite <- Ht by done.
    replace (top .& 0xff) with top.
    2: { change 0xff with (Z.ones 8). rewrite Z.land_ones by lia. symmetry. by apply wrap_small. }
    f_equal. unfold low, shlw. zbitwise. by rewrite andb_true_r.
  - lia.
  - unfold low. rewrite Z.land_ones by lia. apply wrap_range. lia.
Qed.
End normal.

(** ** The five checksums *)

(** A table is right when each of its 256 entries is eight steps from its index. *)
Definition rtable_ok (P : Z) (tbl : list Z) : bool :=
  forallb (fun i => tget tbl (Z.of_nat i) =? Nat.iter 8 (rstep P) (Z.of_nat i)) (seq 0 256).
Definition mtable_ok (w P : Z) (tbl : list Z) : bool :=
  forallb (fun i => tget tbl (Z.of_nat i) =? Nat.iter 8 (mstep w P) (Z.of_nat i .<< (w - 8)))
          (seq 0 256).

Lemma table_entry (f : Z -> Z) tbl :
  forallb (fun i => tget tbl (Z.of_nat i) =? f (Z.of_nat i)) (seq 0 256) = true ->
  forall i, is_byte i -> tget tbl i = f i.
Proof.
  intros H i Hi. rewrite forallb_forall in H. unfold is_byte, is_word in Hi.
  specialize (H (Z.to_nat i)). rewrite Z2Nat.id in H by lia.
  apply Z.eqb_eq, H, in_seq. lia.
Qed.

Definition POLY16 : Z := 0xA001.
Definition POLY32 : Z := 0x04C11DB7.
Definition POLY32C : Z := 0x82F63B78.
Definition POLY64 : Z := 0x95AC9329AC4BC9B5.

Lemma crc16_table_ok : rtable_ok POLY16 crc16_table = true.
Proof. vm_compute. reflexivity. Qed.
Lemma crctab_ok : mtable_ok 32 POLY32 crctab = true.
Proof. vm_compute. reflexivity. Qed.
Lemma crc32c_table_ok : rtable_ok POLY32C crc32c_table = true.
Proof. vm_compute. reflexivity. Qed.
Lemma crctab64_ok : rtable_ok POLY64 crctab64 = true.
Proof. vm_compute. reflexivity. Qed.

Lemma crc16_byte_ref crc b : is_byte b -> crc16_byte crc b = rbyte POLY16 crc b.
Proof.
  intros. rewrite (rbyte_table _ crc16_table); [apply Z.lxor_comm| |done].
  apply table_entry, crc16_table_ok.
Qed.
Lemma crc32_byte_ref crc b : is_word 32 crc -> is_byte b -> crc32_byte crc b = mbyte 32 POLY32 crc b.
Proof.
  intros. rewrite (mbyte_table 32 POLY32 ltac:(lia) crctab); [done| |done..].
  apply table_entry, crctab_ok.
Qed.
Lemma crc32c_byte_ref crc b : is_byte b -> crc32c_byte crc b = rbyte POLY32C crc b.
Proof.
  intros. rewrite (rbyte_table _ crc32c_table); [done| |done].
  apply table_entry, crc32c_table_ok.
Qed.
Lemma crc64_byte_ref crc b : is_byte b -> crc64_byte crc b = rbyte POLY64 crc b.
Proof.
  intros. rewrite (rbyte_table _ crctab64); [done| |done].
  apply table_entry, crctab64_ok.
Qed.

(** The bit-serial algorithms, and the laws for every polynomial of the right
    shape. *)
Definition reflected_crc (w P init : Z) : CrcAlgo :=
  {| crc_width := w; crc_init := init; crc_upd := rbyte P |}.
Definition normal_crc (w P init : Z) : CrcAlgo :=
  {| crc_width := w; crc_init := init; crc_upd := mbyte w P |}.

Lemma reflected_laws w P init : 8 <= w -> is_word w P -> is_word w init ->
  Z.testbit P (w - 1) = true -> CrcLaws (reflected_crc w P init).
Proof.
  intros Hw HP Hi Ht.
  assert (W : forall s b, is_word w s -> is_byte b -> is_word w (s .^ b)).
  { intros. apply lxor_is_word; [lia|done|]. by apply (is_word_mono 8); [lia..|]. }
  split; simpl.
  - lia.
  - done.
  - intros. apply rstep_iter_word; auto.
  - intros s s' b Hs Hs' Hb E. apply (rstep_iter_inj w) in E; auto.
    apply (f_equal (fun z => z .^ b)) in E.
    by rewrite !Z.lxor_assoc, !Z.lxor_nilpotent, !Z.lxor_0_r in E.
  - intros. by apply (rbyte_burst w P) with s.
Qed.

Lemma normal_laws w P init : 8 <= w -> is_word w P -> is_word w init ->
  Z.testbit P 0 = true -> CrcLaws (normal_crc w P init).
Proof.
  intros Hw HP Hi Ht. split; simpl.
  - lia.
  - done.
  - intros. by apply mbyte_word.
  - intros s s' b Hs Hs' Hb E.
    apply mstep_iter_inj in E; auto using byte_top;
      try (apply lxor_is_word; auto using byte_top; lia).
    apply (f_equal (fun z => z .^ (b .<< (w - 8)))) in E.
    by rewrite !Z.lxor_assoc, !Z.lxor_nilpotent, !Z.lxor_0_r in E.
  - intros. by apply (mbyte_burst w P) with s.
Qed.

Definition ref_crc16 : CrcAlgo := reflected_crc 16 POLY16 0.
Definition ref_crc32 : CrcAlgo := normal_crc 32 POLY32 0.
Definition ref_crc32c : CrcAlgo := reflected_crc 32 POLY32C 0xFFFFFFFF.
Definition ref_crc64 : CrcAlgo := reflected_crc 64 POLY64 0.
(** CRC-7 in the high bits of a byte. *)
Definition ref_crc7 : CrcAlgo := normal_crc 8 0x12 0.

#[global] Instance ref_crc16_laws : CrcLaws ref_crc16.
Proof. by apply reflected_laws. Qed.
#[global] Instance ref_crc32_laws : CrcLaws ref_crc32.
Proof. by apply normal_laws. Qed.
#[global] Instance ref_crc32c_laws : CrcLaws ref_crc32c.
Proof. by apply reflected_laws. Qed.
#[global] Instance ref_crc64_laws : CrcLaws ref_crc64.
Proof. by apply reflected_laws. Qed.

Lemma fold_left_bytes (f g : Z -> Z -> Z) m s :
  (forall s b, is_byte b -> f s b = g s b) -> bytes m -> fold_left f m s = fold_left g m s.
Proof. intros H Hm. revert s. induction Hm; intros s; simpl; [done|]. by rewrite H. Qed.

Lemma fio_crc16_run m : bytes m -> fio_crc16 m = crc_run ref_crc16 m (crc_init ref_crc16).
Proof. intros. apply fold_left_bytes; auto using crc16_byte_ref. Qed.
Lemma crc32c_sw_run m : bytes m -> crc32c_sw m = crc_run ref_crc32c m (crc_init ref_crc32c).
Proof. intros. apply fold_left_bytes; auto using crc32c_byte_ref. Qed.
Lemma fio_crc64_run m : bytes m -> fio_crc64 m = crc_run ref_crc64 m (crc_init ref_crc64).
Proof. intros. apply fold_left_bytes; auto using crc64_byte_ref. Qed.
Lemma fio_crc32_run m : bytes m -> fio_crc32 m = crc_run ref_crc32 m (crc_init ref_crc32).
Proof.
  intros Hm. unfold fio_crc32, crc_run. simpl. assert (W : is_word 32 0) by done. revert W.
  generalize 0 as s. induction Hm as [|b m Hb Hm IH]; intros s W; simpl; [done|].
  rewrite crc32_byte_ref by done. apply IH. by apply mbyte_word.
Qed.

Lemma crc7_entry i : is_byte i ->
  tget crc7_syndrome_table i = Nat.iter 8 (mstep 8 0x12) i .>> 1.
Proof. apply (table_entry (fun i => Nat.iter 8 (mstep 8 0x12) i .>> 1)). vm_compute. reflexivity. Qed.

Lemma mstep_even w P x : 0 < w -> Z.testbit P 0 = false -> Z.testbit (mstep w P x) 0 = false.
Proof.
  intros Hw HP. unfold mstep, shlw.
  assert (B : Z.testbit (wrap w (x .<< 1)) 0 = false)
    by (rewrite wrap_testbit, shiftl_testbit by lia; by rewrite andb_false_r).
  by destruct (Z.testbit x (w - 1)); rewrite ?Z.lxor_spec, B.
Qed.

Lemma fio_crc7_run m : bytes m -> fio_crc7 m = crc_run ref_crc7 m (crc_init ref_crc7) .>> 1.
Proof.
  intros Hm. unfold fio_crc7, crc_run. simpl.
  assert (G : forall s, is_word 8 s -> Z.testbit s 0 = false ->
              fold_left crc7_byte m (s .>> 1) = fold_left (mbyte 8 0x12) m s .>> 1).
  { induction Hm as [|b m Hb Hm IH]; intros s Hs He; simpl; [done|].
    rewrite <- IH.
    - f_equal. unfold crc7_byte, mbyte. rewrite Z.shiftl_0_r.
      assert (E : (s .>> 1) .<< 1 = s).
      { zbitwise; [f_equal; lia|]. by replace i with 0 by lia. }
      rewrite E, crc7_entry; [done|]. by apply lxor_is_word.
    - by apply mbyte_word.
    - apply (mstep_even 8 0x12); done. }
  by apply (G 0).
Qed.

Section intel_correct.
Context (crc32q crc32b : Z -> Z -> Z).
(** The instruction, as its manual defines it: division of the operand by the
    CRC-32C polynomial, 8 or 64 bits at a time. *)
Hypothesis crc32b_spec : forall crc b, is_word 32 crc -> is_byte b ->
  crc32b crc b = Nat.iter 8 (rstep POLY32C) (crc .^ b).
Hypothesis crc32q_spec : forall crc x, is_word 32 crc -> is_word 64 x ->
  crc32q crc x = Nat.iter 64 (rstep POLY32C) (crc .^ x).

Lemma hw_byte_run m s : bytes m -> is_word 32 s ->
  crc32c_intel_le_hw_byte crc32b s m = crc_run ref_crc32c m s.
Proof.
  intros Hm. revert s. induction Hm as [|b m Hb Hm IH]; intros s Hs; [done|].
  unfold crc32c_intel_le_hw_byte. cbn [fold_left]. rewrite crc32b_spec by done.
  apply IH. by apply (crc_upd_word (A := ref_crc32c)).
Qed.

Lemma quads_run n : forall m s, bytes m -> is_word 32 s -> (8 * n <= length m)%nat ->
  crc32c_intel_quads crc32q n s m = (crc_run ref_crc32c (take (8 * n) m) s, drop (8 * n) m).
Proof.
  induction n as [|n IH]; intros m s Hm Hs Hl; [done|].
  cbn [crc32c_intel_quads].
  assert (H8 : bytes (take 8 m)) by by apply Forall_take.
  assert (L8 : length (take 8 m) = 8%nat) by (rewrite length_take; lia).
  pose proof (le_val_word _ H8) as W8. rewrite L8 in W8.
  assert (Q : crc32q s (le_val (take 8 m)) = crc_run ref_crc32c (take 8 m) s).
  { rewrite crc32q_spec by done. unfold crc_run. simpl crc_upd. rewrite rbyte_run by done.
    by rewrite L8. }
  rewrite Q, IH.
  - rewrite drop_drop, <- crc_run_app. f_equal; [|f_equal; lia]. f_equal.
    replace (8 * S n)%nat with (8 + 8 * n)%nat by lia. by rewrite take_take_drop.
  - by apply Forall_drop.
  - by apply (crc_run_word ref_crc32c).
  - rewrite length_drop. lia.
Qed.

Lemma crc32c_intel_sw data : bytes data -> length data < 2 ^ 35 ->
  crc32c_intel crc32q crc32b data = crc32c_sw data.
Proof.
  intros Hd Hl. unfold crc32c_intel.
  rewrite !(wrap_small 32) by (unfold is_word; Z.to_euclidean_division_equations; lia).
  set (q := Z.to_nat (length data / 8)). set (r := Z.to_nat (length data mod 8)).
  assert (Hqr : length data = (8 * q + r)%nat) by
    (unfold q, r; Z.to_euclidean_division_equations; lia).
  rewrite quads_run by (done || lia).
  assert (T : take r (drop (8 * q) data) = drop (8 * q) data)
    by (apply take_ge; rewrite length_drop; lia).
  rewrite T. rewrite crc32c_sw_run by done.
  transitivity (crc_run ref_crc32c (take (8 * q) data ++ drop (8 * q) data) (crc_init ref_crc32c));
    [|by rewrite take_drop]. rewrite crc_run_app.
  destruct (Z.eqb_spec (length data mod 8) 0) as [E|E].
  - rewrite drop_ge by (unfold r in Hqr; rewrite E in Hqr; lia). done.
  - apply hw_byte_run; [by apply Forall_drop|].
    apply (crc_run_word ref_crc32c); [by apply Forall_take|done].
Qed.
End intel_correct.

(** ** Main theorems *)

(** C15: On every byte string, the table-driven checksums whose files say what they compute
    are the bit-serial remainders of those polynomials: CRC-7 ([crc7.c]: x^7+x^3+1, kept in
    the high bits of a byte), CRC-16 ([crc16.h]: 0x8005, initial value 0, reflected) and
    CRC-32C ([crc32c.c]: 0x1EDC6F41 reflected; from all ones and without a final complement). *)
Theorem crc_tables_compute_remainder buf :
  bytes buf ->
  fio_crc7 buf = crc_run ref_crc7 buf 0 .>> 1 /\
  fio_crc16 buf = crc_run ref_crc16 buf 0 /\
  crc32c_sw buf = crc_run ref_crc32c buf 0xFFFFFFFF.
Proof. intros. repeat split; auto using fio_crc7_run, fio_crc16_run, crc32c_sw_run. Qed.

(** The check string "123456789". *)
Definition check_string : list Z := [49; 50; 51; 52; 53; 54; 55; 56; 57].

Lemma check_string_bytes : bytes check_string.
Proof. solve_bytes. Defined.

Lemma crc_tables_compute_remainder_witness :
  fio_crc16 check_string = 0xBB3D /\ crc32c_sw check_string = 0x1CF96D7C /\
  fio_crc16 check_string = crc_run ref_crc16 check_string 0.
Proof.
  split; [vm_compute; reflexivity|]. split; [vm_compute; reflexivity|].
  apply (crc_tables_compute_remainder check_string check_string_bytes).
Defined.

(** A corruption confined to a window no wider than the checksum (2 bytes for
    CRC-16, 4 for CRC-32 and CRC-32C, 8 for CRC-64) always changes the checksum,
    whatever precedes and follows the window. *)
Theorem crc_detects_burst pre m m' post :
  bytes pre -> bytes m -> bytes m' -> bytes post -> length m = length m' -> m <> m' ->
  (length m <= 2 -> fio_crc16 (pre ++ m ++ post) <> fio_crc16 (pre ++ m' ++ post)) /\
  (length m <= 4 -> fio_crc32 (pre ++ m ++ post) <> fio_crc32 (pre ++ m' ++ post)) /\
  (length m <= 4 -> crc32c_sw (pre ++ m ++ post) <> crc32c_sw (pre ++ m' ++ post)) /\
  (length m <= 8 -> fio_crc64 (pre ++ m ++ post) <> fio_crc64 (pre ++ m' ++ post)).
Proof.
  intros Hpre Hm Hm' Hpost Hl Hne.
  assert (B : bytes (pre ++ m ++ post)) by (repeat apply Forall_app_2; done).
  assert (B' : bytes (pre ++ m' ++ post)) by (repeat apply Forall_app_2; done).
  repeat split; intros Hw.
  - rewrite !fio_crc16_run by done. apply crc_detects; try done; simpl; (apply _ || lia).
  - rewrite !fio_crc32_run by done. apply crc_detects; try done; simpl; (apply _ || lia).
  - rewrite !crc32c_sw_run by done. apply crc_detects; try done; simpl; (apply _ || lia).
  - rewrite !fio_crc64_run by done. apply crc_detects; try done; simpl; (apply _ || lia).
Qed.

Lemma crc_detects_burst_witness :
  fio_crc32 ([1] ++ [2; 3] ++ [4; 5]) <> fio_crc32 ([1] ++ [2; 7] ++ [4; 5]).
Proof.
  apply (crc_detects_burst [1] [2; 3] [2; 7] [4; 5]); try solve_bytes; simpl; done || lia.
Defined.

(** With the SSE4.2 instruction as its manual defines it, [crc32c_intel] (eight
    bytes at a time, then the remainder byte by byte) and so [fio_crc32c], whether
    or not the CPU has the instruction, return what the table-driven [crc32c_sw]
    returns, for every buffer whose quadword count fits an [unsigned int]. *)
Theorem fio_crc32c_hardware_equals_software crc32q crc32b available data :
  (forall crc b, is_word 32 crc -> is_byte b ->
     crc32b crc b = Nat.iter 8 (rstep POLY32C) (crc .^ b)) ->
  (forall crc x, is_word 32 crc -> is_word 64 x ->
     crc32q crc x = Nat.iter 64 (rstep POLY32C) (crc .^ x)) ->
  bytes data -> length data < 2 ^ 35 ->
  fio_crc32c crc32q crc32b available data = crc32c_sw data.
Proof. intros. destruct available; [|done]. by apply crc32c_intel_sw. Qed.

Lemma fio_crc32c_hardware_equals_software_witness :
  fio_crc32c (fun crc x => Nat.iter 64 (rstep POLY32C) (crc .^ x))
             (fun crc b => Nat.iter 8 (rstep POLY32C) (crc .^ b)) true check_string
  = crc32c_sw check_string.
Proof.
  apply fio_crc32c_hardware_equals_software; try done. apply check_string_bytes.
Defined.

End Crc.
