(* ===== verification/Rand.v ===== *)
(** * The random generator and the buffer fillers of [src/lib/rand.c]

    The combined Tausworthe generator ([__rand], seeded by [init_rand] and
    [init_rand_seed]) and the functions that fill an I/O buffer from it.  A
    buffer is the list of its bytes; a store past its end makes the list
    longer, so that an overrun is visible in the model. *)
From S2P Require Import Prelude Bits.
Local Open Scope word_scope.

Module Rand.
Import Bits.

(** ** [struct frand_state] and [lib/rand.h] *)
Record frand_state := mk_frand { s1 : Z; s2 : Z; s3 : Z }.

Definition FRAND_MAX : Z := 2 ^ 32 - 1.

(** The mask [c] is an [unsigned long], so the first shift is done in 64 bits;
    the second one in 32.  The assignment truncates to 32 bits. *)
Definition TAUSWORTHE (s a b c d : Z) : Z :=
  u32 (((s .& c) .<< d) .^ ((shlw 32 s a .^ s) .>> b)).

Definition __rand (state : frand_state) : Z * frand_state :=
  let state' :=
    {| s1 := TAUSWORTHE (s1 state) 13 19 4294967294 12;
       s2 := TAUSWORTHE (s2 state) 2 25 4294967288 4;
       s3 := TAUSWORTHE (s3 state) 3 11 4294967280 17 |} in
  (s1 state' .^ s2 state' .^ s3 state', state').

(** ** Seeding *)
Definition __seed (x m : Z) : Z := if x <? m then u32 (x + m) else x.

(** [#define LCG(x, seed)  ((x) * 69069 ^ (seed))] on unsigned ints. *)
Definition LCG (x seed : Z) : Z := u32 (x * 69069) .^ seed.

(** The operand [(2^31) + (2^17) + (2^7)] of the source: [^] is exclusive or. *)
Definition seed_const : Z := (2 .^ 31) + (2 .^ 17) + (2 .^ 7).

Definition __init_rand (seed : Z) : frand_state :=
  let cranks := 6%nat in
  let s1' := __seed (LCG seed_const seed) 1 in
  let s2' := __seed (LCG s1' seed) 7 in
  let s3' := __seed (LCG s2' seed) 15 in
  Nat.iter cranks (fun st => snd (__rand st)) (mk_frand s1' s2' s3').

Definition init_rand : frand_state := __init_rand 1.
Definition init_rand_seed (seed : Z) : frand_state := __init_rand seed.

(** ** Filling buffers *)

(** The eight bytes of a long in memory (little endian). *)
Definition long_bytes (x : Z) : list Z :=
  map (fun i => u8 (x .>> (8 * Z.of_nat i))) (seq 0 8).

(** [memcpy]/[memset] of [bs] at offset [pos] of the buffer [mem]. *)
Definition store (mem : list Z) (pos : Z) (bs : list Z) : list Z :=
  take (Z.to_nat pos) mem ++ bs ++ drop (Z.to_nat pos + length bs) mem.

(** The bytes [__fill_random_buf] stores from [buf] on: it steps by a long
    while the pointer is below [buf + len]. *)
Fixpoint fill_longs (n : nat) (seed : Z) : list Z :=
  match n with
  | O => []
  | S n => long_bytes seed ++ fill_longs n (u64 (seed * GOLDEN_RATIO_PRIME) .>> 3)
  end.

Definition __fill_random_buf (mem : list Z) (pos len seed : Z) : list Z :=
  store mem pos (fill_longs (Z.to_nat ((len + 7) / 8)) seed).

Definition fill_random_buf (fs : frand_state) (mem : list Z) (len : Z)
  : Z * frand_state * list Z :=
  let '(r, fs) := __rand fs in
  let '(r2, fs) := __rand fs in
  let r := u64 (r * r2) in
  (r, fs, __fill_random_buf mem 0 len r).

(** The [while (len)] loop of [fill_random_buf_percentage]; [None] when the fuel
    runs out. *)
Fixpoint fill_percentage_loop (fuel : nat) (percentage segment r : Z)
    (mem : list Z) (pos len : Z) : option (list Z) :=
  match fuel with
  | O => None
  | S fuel =>
      if len =? 0 then Some mem else
      let this_len := u32 (segment * u32 (100 - percentage)) / 100 in
      let this_len := if len <? this_len then len else this_len in
      let mem := __fill_random_buf mem pos this_len r in
      let len := len - this_len in
      let pos := pos + this_len in
      let this_len := if len <? this_len then len else this_len in
      let mem := store mem pos (replicate (Z.to_nat this_len) 0) in
      let len := len - this_len in
      let pos := pos + this_len in
      fill_percentage_loop fuel percentage segment r mem pos len
  end.

Definition fill_random_buf_percentage (fuel : nat) (fs : frand_state) (mem : list Z)
    (percentage segment len : Z) : option (Z * frand_state * list Z) :=
  let '(r, fs) := __rand fs in
  if percentage =? 100 then Some (0, fs, store mem 0 (replicate (Z.to_nat len) 0)) else
  let segment := if len <? segment then len else segment in
  let '(r2, fs) := __rand fs in
  let r := u64 (r * r2) in
  match fill_percentage_loop fuel percentage segment r mem 0 len with
  | Some mem => Some (r, fs, mem)
  | None => None
  end.

(** ** Properties of the generator *)

(** The restriction of the file's opening comment: [s1 > 1, s2 > 7, s3 > 15]. *)
Definition good_state (st : frand_state) : Prop :=
  is_word 32 (s1 st) /\ is_word 32 (s2 st) /\ is_word 32 (s3 st) /\
  1 < s1 st /\ 7 < s2 st /\ 15 < s3 st.

Lemma tausworthe_word s a b c d : is_word 32 (TAUSWORTHE s a b c d).
Proof. by apply wrap_range. Qed.

(** [__rand] returns an [unsigned int] whatever the state. *)
Lemma rand_word st : is_word 32 (fst (__rand st)).
Proof. cbn. by repeat apply lxor_is_word; try apply tausworthe_word. Qed.

(** Bit [j] of a step whose mask clears the low [k] bits. *)
Lemma tausworthe_bit s a b d k j :
  is_word 32 s -> 0 <= a -> 0 <= b -> 0 <= d -> 0 <= k <= 32 -> 0 <= j < 32 ->
  Z.testbit (TAUSWORTHE s a b (2 ^ 32 - 2 ^ k) d) j =
  xorb ((d + k <=? j) && Z.testbit s (j - d))
       ((j + b <? 32) && xorb ((a <=? j + b) && Z.testbit s (j + b - a)) (Z.testbit s (j + b))).
Proof.
  intros Hs Ha Hb Hd Hk Hj. unfold TAUSWORTHE.
  replace (2 ^ 32 - 2 ^ k) with (Z.ones (32 - k) .<< k).
  2: { rewrite Z.ones_equiv, Z.shiftl_mul_pow2 by lia. unfold Z.pred. rewrite Z.mul_add_distr_r.
       rewrite <- Z.pow_add_r by lia. replace (32 - k + k) with 32 by lia. lia. }
  unfold shlw. autorewrite with zbits. zbit_split; autorewrite with zbits; zbit_split;
    rewrite ?andb_false_r, ?andb_true_r, ?xorb_false_r; try done.
  all: rewrite ?(word_high 32 s (j + b)) by (done || lia); tb_cases.
Qed.

(** A word below [2^k] has no bit from [k] on, and conversely. *)
Lemma small_of_bits k s : 0 <= k <= 32 -> is_word 32 s ->
  (forall i, k <= i < 32 -> Z.testbit s i = false) -> s < 2 ^ k.
Proof.
  intros Hk Hs H. assert (W : is_word k s); [|apply W].
  apply is_word_testbit; [lia|]. split; [apply Hs|]. intros i Hi.
  destruct (Z.lt_ge_cases i 32); [by apply H|]. by apply (word_high 32).
Qed.

(** A step keeps a component out of the degenerate range [0 .. 2^k): the high
    bits move down by [d], and each of the low [d] positions from the top is
    tied to one [a] below it, so no significant bit is lost. *)
Lemma tausworthe_good s a b d k :
  is_word 32 s -> 0 <= k <= 32 -> 0 <= d -> 0 < a -> 0 <= b -> d + k = 32 - b ->
  k <= 32 - d - a -> 2 ^ k <= s -> 2 ^ k <= TAUSWORTHE s a b (2 ^ 32 - 2 ^ k) d.
Proof.
  intros Hs Hk Hd Ha Hb Hdk Hka Hge. apply Z.nlt_ge. intros Hlt.
  assert (HT : is_word k (TAUSWORTHE s a b (2 ^ 32 - 2 ^ k) d))
    by (pose proof (tausworthe_word s a b (2 ^ 32 - 2 ^ k) d); unfold is_word in *; lia).
  enough (s < 2 ^ k) by lia. apply small_of_bits; [done..|].
  intros i Hi. destruct Hi as [Hki Hi32]. revert i Hki Hi32.
  refine (well_founded_ind (Z.lt_wf k) _ _). intros i IH Hki Hi32.
  destruct (Z.lt_ge_cases i (32 - d)).
  - assert (B := tausworthe_bit s a b d k (i + d) Hs ltac:(lia) ltac:(lia) ltac:(lia) Hk ltac:(lia)).
    rewrite (word_high k) in B by (done || lia).
    revert B. zbit_split. replace (i + d - d) with i by lia. rewrite xorb_false_r. by intros ->.
  - assert (B := tausworthe_bit s a b d k (i - b) Hs ltac:(lia) ltac:(lia) ltac:(lia) Hk ltac:(lia)).
    rewrite (word_high k) in B by (done || lia).
    replace (i - b + b) with i in B by lia. revert B. zbit_split.
    rewrite (IH (i - a)) by lia. simpl. by intros ->.
Qed.

(** C40: Non-degenerate seeds stay so: from a state that satisfies the restriction
    of the file's comment ([s1 > 1], [s2 > 7], [s3 > 15]) [__rand] returns a
    32-bit value and a state that satisfies it again, so no component of the
    generator ever collapses to zero. *)
Theorem rand_keeps_good_state st :
  good_state st -> is_word 32 (fst (__rand st)) /\ good_state (snd (__rand st)).
Proof.
  intros (H1 & H2 & H3 & L1 & L2 & L3). simpl. split.
  - repeat apply lxor_is_word; done || apply tausworthe_word.
  - unfold good_state. simpl.
    assert (2 ^ 1 <= TAUSWORTHE (s1 st) 13 19 4294967294 12)
      by (apply (tausworthe_good _ 13 19 12 1); done || lia).
    assert (2 ^ 3 <= TAUSWORTHE (s2 st) 2 25 4294967288 4)
      by (apply (tausworthe_good _ 2 25 4 3); done || lia).
    assert (2 ^ 4 <= TAUSWORTHE (s3 st) 3 11 4294967280 17)
      by (apply (tausworthe_good _ 3 11 17 4); done || lia).
    repeat split; try apply tausworthe_word; lia.
Qed.

Lemma rand_keeps_good_state_witness :
  good_state (init_rand_seed 42) /\ good_state (snd (__rand (init_rand_seed 42))).
Proof.
  assert (G : good_state (init_rand_seed 42)) by (vm_compute; repeat split; done).
  split; [exact G|]. apply (rand_keeps_good_state _ G).
Defined.

(** ** Seeding can produce a degenerate generator *)
Definition rand_next (st : frand_state) : frand_state := snd (__rand st).

Lemma tausworthe_dead s a b c d : s = 0 -> TAUSWORTHE s a b c d = 0.
Proof.
  intros ->. unfold TAUSWORTHE, shlw. rewrite Z.land_0_l, !Z.shiftl_0_l.
  by rewrite (wrap_small 32 0), Z.lxor_0_l, Z.shiftr_0_l.
Qed.

(** [init_rand_seed] does not establish the restriction of the file's comment:
    for the seed 53 * 69069 (53 is what [(2^31) + (2^17) + (2^7)] is in C) the
    first component is 1 after seeding and 0 in every state reached from it. *)
Theorem init_rand_seed_can_degenerate n :
  s1 (Nat.iter n rand_next (init_rand_seed 3660657)) = 0 /\
  ~ good_state (Nat.iter n rand_next (init_rand_seed 3660657)).
Proof.
  assert (D : s1 (Nat.iter n rand_next (init_rand_seed 3660657)) = 0).
  { induction n as [|n IH]; [vm_compute; reflexivity|]. simpl Nat.iter.
    unfold rand_next at 1. simpl s1. by apply tausworthe_dead. }
  split; [exact D|]. intros (_ & _ & _ & H & _). lia.
Qed.

(** ** Filling *)
Lemma length_long_bytes x : length (long_bytes x) = 8%nat.
Proof. done. Qed.

Lemma length_fill_longs n seed : length (fill_longs n seed) = (8 * n)%nat.
Proof.
  revert seed. induction n as [|n IH]; intros seed; [done|].
  cbn [fill_longs]. rewrite length_app, IH. simpl. lia.
Qed.

Lemma store_before mem pos bs (i : nat) : 0 <= pos <= length mem -> i < pos ->
  store mem pos bs !! i = mem !! i.
Proof.
  intros Hp Hi. unfold store. rewrite lookup_app_l by (rewrite length_take; lia).
  apply lookup_take_lt. lia.
Qed.

Lemma store_in mem pos bs (i : nat) : 0 <= pos <= length mem ->
  pos <= i < pos + length bs -> store mem pos bs !! i = bs !! (i - Z.to_nat pos)%nat.
Proof.
  intros Hp Hi. unfold store. rewrite lookup_app_r by (rewrite length_take; lia).
  rewrite length_take, lookup_app_l by lia. f_equal. lia.
Qed.

Lemma length_store_ge mem pos bs : 0 <= pos <= length mem ->
  (length mem <= length (store mem pos bs))%nat.
Proof. intros Hp. unfold store. rewrite !length_app, length_take, length_drop. lia. Qed.

(** [__fill_random_buf] stores whole longs: it leaves a buffer of [len] bytes
    at its length exactly when [len] is a multiple of 8, and otherwise writes
    [8 - len mod 8] bytes past its end. *)
Theorem fill_random_buf_extent mem seed :
  length (__fill_random_buf mem 0 (length mem) seed) = Z.to_nat (8 * ((length mem + 7) / 8)) /\
  (length (__fill_random_buf mem 0 (length mem) seed) = length mem <-> length mem mod 8 = 0).
Proof.
  assert (L : length (__fill_random_buf mem 0 (length mem) seed) =
              Z.to_nat (8 * ((length mem + 7) / 8))).
  { unfold __fill_random_buf, store. rewrite !length_app, length_take, length_drop, length_fill_longs.
    simpl. Z.to_euclidean_division_equations. lia. }
  split; [exact L|]. rewrite L. Z.to_euclidean_division_equations. lia.
Qed.

(** The length of the random and of the zero part of a segment. *)
Definition chunk (percentage segment : Z) : Z := u32 (segment * u32 (100 - percentage)) / 100.

Lemma chunk_nonneg percentage segment : 0 <= chunk percentage segment.
Proof. apply Z.div_pos; [|lia]. by apply (wrap_range 32). Qed.

Lemma fill_loop_done (fuel : nat) percentage segment r : forall mem pos len,
  0 < chunk percentage segment -> 0 <= len < fuel ->
  is_Some (fill_percentage_loop fuel percentage segment r mem pos len).
Proof.
  induction fuel as [|fuel IH]; intros mem pos len Hc Hl; [lia|].
  cbn [fill_percentage_loop]. destruct (Z.eqb_spec len 0); [by eexists|].
  fold (chunk percentage segment). apply IH; [done|].
  destruct (Z.ltb_spec len (chunk percentage segment)) as [H|H].
  - destruct (Z.ltb_spec (len - len) len); lia.
  - destruct (Z.ltb_spec (len - chunk percentage segment) (chunk percentage segment)); lia.
Qed.

Lemma fill_loop_stuck fuel percentage segment r : forall mem pos len,
  chunk percentage segment = 0 -> 0 < len ->
  fill_percentage_loop fuel percentage segment r mem pos len = None.
Proof.
  induction fuel as [|fuel IH]; intros mem pos len Hc Hl; [done|].
  cbn [fill_percentage_loop]. destruct (Z.eqb_spec len 0); [lia|].
  fold (chunk percentage segment). rewrite Hc.
  destruct (Z.ltb_spec len 0); [lia|]. rewrite !Z.sub_0_r.
  destruct (Z.ltb_spec len 0); [lia|]. rewrite Z.sub_0_r. by apply IH.
Qed.

(** The compression loop of [fill_random_buf_percentage] ends exactly when the
    random part [segment * (100 - percentage) / 100] is at least one byte (or there
    is nothing to fill); [len + 1] turns are then enough.  With a smaller segment
    it spins for ever without filling anything. *)
Theorem fill_percentage_terminates_iff percentage segment r mem pos len :
  0 <= len ->
  (exists fuel, is_Some (fill_percentage_loop fuel percentage segment r mem pos len)) <->
  len = 0 \/ 0 < chunk percentage segment.
Proof.
  intros Hl. split.
  - intros [fuel [m E]]. destruct (Z.eq_dec len 0); [by left|]. right.
    pose proof (chunk_nonneg percentage segment).
    destruct (Z.eq_dec (chunk percentage segment) 0) as [Hc|]; [|lia].
    by rewrite fill_loop_stuck in E by lia.
  - intros [->|Hc]; [by exists 1%nat|].
    exists (S (Z.to_nat len)). apply fill_loop_done; [done|lia].
Qed.

Lemma fill_percentage_terminates_iff_witness :
  ~ exists fuel, is_Some (fill_percentage_loop fuel 99 64 7 [] 0 4096).
Proof.
  intros H. apply (fill_percentage_terminates_iff 99 64 7 [] 0 4096) in H; [|lia].
  destruct H as [H|H]; [lia|]. vm_compute in H. discriminate.
Defined.

(** Later turns of the loop do not touch what is already filled. *)
Lemma fill_loop_keeps fuel percentage segment r : forall mem pos len mem' (i : nat),
  fill_percentage_loop fuel percentage segment r mem pos len = Some mem' ->
  0 <= pos -> 0 <= len -> pos + len <= length mem -> i < pos -> mem' !! i = mem !! i.
Proof.
  induction fuel as [|fuel IH]; intros mem pos len mem' i E Hp Hl Hm Hi; [done|].
  cbn [fill_percentage_loop] in E. destruct (Z.eqb_spec len 0); [by simplify_eq|].
  fold (chunk percentage segment) in E. pose proof (chunk_nonneg percentage segment).
  set (t1 := if len <? chunk percentage segment then len else chunk percentage segment) in *.
  set (t2 := if len - t1 <? t1 then len - t1 else t1) in *.
  assert (0 <= t1 <= len) by (unfold t1; destruct (Z.ltb_spec len (chunk percentage segment)); lia).
  assert (0 <= t2 <= len - t1) by (unfold t2; destruct (Z.ltb_spec (len - t1) t1); lia).
  assert (L1 := length_store_ge mem pos (fill_longs (Z.to_nat ((t1 + 7) / 8)) r) ltac:(lia)).
  fold (__fill_random_buf mem pos t1 r) in L1.
  assert (L2 := length_store_ge (__fill_random_buf mem pos t1 r) (pos + t1)
                  (replicate (Z.to_nat t2) 0) ltac:(lia)).
  apply (IH _ _ _ _ i) in E; try lia. rewrite E, store_before by lia.
  unfold __fill_random_buf. by rewrite store_before by lia.
Qed.

Lemma fill_loop_zeros fuel percentage segment r : forall mem pos len mem' (i : nat),
  fill_percentage_loop fuel percentage segment r mem pos len = Some mem' ->
  0 < chunk percentage segment -> 0 <= pos -> 0 <= len -> pos + len <= length mem ->
  pos <= i < pos + len -> Z.odd ((i - pos) / chunk percentage segment) = true ->
  mem' !! i = Some 0.
Proof.
  induction fuel as [|fuel IH]; intros mem pos len mem' i E Hc Hp Hl Hm Hi Hodd; [done|].
  cbn [fill_percentage_loop] in E. destruct (Z.eqb_spec len 0); [lia|].
  fold (chunk percentage segment) in E. set (c := chunk percentage segment) in *.
  assert (Hci : c <= i - pos).
  { destruct (Z.lt_ge_cases (i - pos) c); [|done]. rewrite Z.div_small in Hodd by lia. done. }
  destruct (Z.ltb_spec len c); [lia|].
  set (t2 := if len - c <? c then len - c else c) in *.
  assert (0 <= t2 <= c /\ t2 <= len - c /\ (t2 < c -> t2 = len - c))
    by (unfold t2; destruct (Z.ltb_spec (len - c) c); lia).
  set (mem1 := __fill_random_buf mem pos c r) in *.
  assert (L1 := length_store_ge mem pos (fill_longs (Z.to_nat ((c + 7) / 8)) r) ltac:(lia)).
  fold (__fill_random_buf mem pos c r) in L1. fold mem1 in L1.
  assert (L2 := length_store_ge mem1 (pos + c) (replicate (Z.to_nat t2) 0) ltac:(lia)).
  destruct (Z.lt_ge_cases i (pos + c + t2)).
  - rewrite (fill_loop_keeps _ _ _ _ _ _ _ _ i E) by lia.
    rewrite store_in by (rewrite ?length_replicate; lia).
    apply lookup_replicate_2. lia.
  - apply (IH _ _ _ _ i) in E; try done; try lia. fold c.
    replace (i - (pos + c + t2)) with (i - pos + (-2) * c) by lia.
    rewrite Z.div_add by lia. by rewrite Z.odd_add, Hodd.
Qed.

(** Whatever percentage is asked for, half of the buffer is zeroed: when the
    loop returns, every second run of [chunk] bytes is zero (the zero part of a
    segment is as long as its random part, not [percentage] percent of it). *)
Theorem fill_percentage_zeroes_every_second_chunk fuel percentage segment r mem len mem' (i : nat) :
  fill_percentage_loop fuel percentage segment r mem 0 len = Some mem' ->
  0 < chunk percentage segment -> len <= length mem -> i < len ->
  Z.odd (i / chunk percentage segment) = true -> mem' !! i = Some 0.
Proof.
  intros E Hc Hm Hi Hodd.
  apply (fill_loop_zeros _ _ _ _ _ _ _ _ i E); try lia. by rewrite Z.sub_0_r.
Qed.

(** At 75 percent and a segment of 32 bytes, bytes 8..15 and 24..31 are zero. *)
Lemma fill_percentage_zeroes_witness :
  exists mem', fill_percentage_loop 33 75 32 0xdeadbeefcafe (replicate 32 1) 0 32 = Some mem' /\
    mem' !! 12%nat = Some 0.
Proof.
  destruct (fill_percentage_loop 33 75 32 0xdeadbeefcafe (replicate 32 1) 0 32) as [mem'|] eqn:E;
    [|vm_compute in E; discriminate].
  exists mem'. split; [reflexivity|].
  apply (fill_percentage_zeroes_every_second_chunk _ _ _ _ _ _ _ 12%nat E);
    vm_compute; reflexivity || discriminate.
Defined.

End Rand.
