(* ===== verification/Types.v ===== *)
(** * The data the I/O path shares

    [struct thread_options], [struct fio_file], [struct io_u] and the part of
    [struct thread_data] that [src/io_u.c] reads and writes ([src/fio.h],
    [src/file.h], [src/ioengine.h], [src/io_ddir.h]).  A member the modelled functions neither read nor write is
    left out.  [unsigned int] is 32 bits wide, [unsigned long] and
    [unsigned long long] are 64. *)
From S2P Require Import Prelude Rand.
Local Open Scope word_scope.

Module Types.

(** ** [src/io_ddir.h] *)
Inductive fio_ddir :=
  | DDIR_READ | DDIR_WRITE | DDIR_SYNC | DDIR_DATASYNC | DDIR_SYNC_FILE_RANGE
  | DDIR_WAIT | DDIR_TRIM | DDIR_INVAL.

#[global] Instance fio_ddir_eq_dec : EqDecision fio_ddir.
Proof. solve_decision. Defined.

Definition ddir_sync (d : fio_ddir) : bool :=
  match d with DDIR_SYNC | DDIR_DATASYNC | DDIR_SYNC_FILE_RANGE => true | _ => false end.
Definition ddir_rw (d : fio_ddir) : bool :=
  match d with DDIR_READ | DDIR_WRITE => true | _ => false end.

(** [ddir ^ 1] on a read or write direction. *)
Definition odir (d : fio_ddir) : fio_ddir :=
  match d with DDIR_READ => DDIR_WRITE | _ => DDIR_READ end.

(** The arrays [x[2]] indexed by a read or write direction. *)
Definition per_ddir (A : Type) : Type := A * A.
Definition at2 {A} (x : per_ddir A) (d : fio_ddir) : A :=
  match d with DDIR_READ => fst x | _ => snd x end.
Definition set2 {A} (d : fio_ddir) (v : A) (x : per_ddir A) : per_ddir A :=
  match d with DDIR_READ => (v, snd x) | _ => (fst x, v) end.

Definition TD_DDIR_READ : Z := 1.
Definition TD_DDIR_WRITE : Z := 2.
Definition TD_DDIR_RAND : Z := 4.
Definition TD_DDIR_RW : Z := 3.

(** ** [struct thread_options] *)
Inductive rw_sequencer := RW_SEQ_SEQ | RW_SEQ_IDENT | RW_SEQ_UNKNOWN.

#[global] Instance rw_sequencer_eq_dec : EqDecision rw_sequencer.
Proof. solve_decision. Defined.

Record thread_options := {
  td_ddir : Z;
  rw_min_bs : Z;
  ba : per_ddir Z;
  min_bs : per_ddir Z;
  max_bs : per_ddir Z;
  bssplit : per_ddir (list (Z * Z));  (* (bs, perc), [bssplit_nr] entries *)
  bs_unaligned : bool;
  ddir_seq_nr : Z;
  ddir_seq_add : Z;                   (* a signed long *)
  rw_seq : rw_sequencer;
  time_based : bool;
  zone_range : Z;
  zone_size : Z;
  zone_skip : Z;
  norandommap : bool;
  randomagain_opt : bool;
  use_os_rand : bool;
  start_offset : Z;
  rwmix : per_ddir Z;
  fsync_blocks : Z;
  fdatasync_blocks : Z;
  barrier_blocks : Z;
  odirect : bool;
  override_sync : bool;
  rate : per_ddir Z;
  ratemin : per_ddir Z;
  rate_iops : per_ddir Z;
  rate_iops_min : per_ddir Z }.

Definition td_read (o : thread_options) : bool := negb ((td_ddir o .& TD_DDIR_READ) =? 0).
Definition td_write (o : thread_options) : bool := negb ((td_ddir o .& TD_DDIR_WRITE) =? 0).
Definition td_rw (o : thread_options) : bool := (td_ddir o .& TD_DDIR_RW) =? TD_DDIR_RW.
Definition td_random (o : thread_options) : bool := negb ((td_ddir o .& TD_DDIR_RAND) =? 0).

(** ** [struct fio_file] *)
Record fio_file := {
  real_file_size : Z;
  file_offset : Z;
  io_size : Z;
  last_pos : Z;
  last_start : Z;
  file_pos : Z;
  file_map : option (list Z);         (* [None] is the null pointer *)
  file_map2 : option (list Z);        (* the segment map, two bits per block *)
  num_maps : Z;
  last_free_lookup : Z;
  failed_rands : Z }.

Definition BLOCKS_PER_MAP : Z := 64.
Definition RAND_MAP_IDX (b : Z) : Z := b / BLOCKS_PER_MAP.
Definition RAND_MAP_BIT (b : Z) : Z := b .& (BLOCKS_PER_MAP - 1).
(** [-1ULL] and [-1UL] *)
Definition ALL_ONES : Z := 2 ^ 64 - 1.

Definition file_randommap (o : thread_options) (f : fio_file) : bool :=
  negb (norandommap o) && match file_map f with Some _ => true | None => false end.

(** [f->file_map[idx]], as the code reads it once the pointer was tested. *)
Definition map_word (f : fio_file) (idx : Z) : Z := tget (default [] (file_map f)) idx.

#[global] Instance eta_fio_file : Eta fio_file := fun f =>
  Build_fio_file (real_file_size f) (file_offset f) (io_size f) (last_pos f) (last_start f)
    (file_pos f) (file_map f) (file_map2 f) (num_maps f) (last_free_lookup f) (failed_rands f).

Definition set_file_map (m : list Z) (f : fio_file) : fio_file := f <| file_map := Some m |>.
Definition set_last_free_lookup (v : Z) (f : fio_file) : fio_file := f <| last_free_lookup := v |>.

(** [f->file_map[idx] |= mask] *)
Definition or_map_word (idx mask : Z) (f : fio_file) : fio_file :=
  set_file_map (<[Z.to_nat idx := map_word f idx .| mask]> (default [] (file_map f))) f.

(** [memset(m, 0, n * sizeof(unsigned long))] *)
Definition zero_words (n : Z) (m : list Z) : list Z :=
  replicate (Z.to_nat n) 0 ++ drop (Z.to_nat n) m.

(** [clean_map] of [src/seg_2bitsmap.c]: the segment map is cleared only when the
    job has no write history. *)
Definition clean_map (io_hist_len : Z) (num_maps : Z) (map2 : list Z) : list Z :=
  if io_hist_len =? 0 then zero_words (2 * num_maps) map2 else map2.

(** [fio_file_reset] of [src/file.h], for a file of a job whose history has
    [io_hist_len] entries. *)
Definition fio_file_reset (io_hist_len : Z) (f : fio_file) : fio_file :=
  f <| last_free_lookup := 0 |> <| failed_rands := 0 |> <| last_pos := file_offset f |>
    <| last_start := ALL_ONES |> <| file_pos := ALL_ONES |>
    <| file_map ::= fmap (zero_words (num_maps f)) |>
    <| file_map2 ::= fmap (clean_map io_hist_len (num_maps f)) |>.

(** ** [struct io_u] *)
Record io_u := {
  iou_ddir : fio_ddir;
  iou_offset : Z;
  iou_buflen : Z;
  iou_busy_ok : bool;                 (* IO_U_F_BUSY_OK *)
  iou_barrier : bool;                 (* IO_U_F_BARRIER *)
  iou_randomagain : bool }.

#[global] Instance eta_io_u : Eta io_u := fun u =>
  Build_io_u (iou_ddir u) (iou_offset u) (iou_buflen u) (iou_busy_ok u) (iou_barrier u)
    (iou_randomagain u).

Definition set_iou_buflen (v : Z) (u : io_u) : io_u := u <| iou_buflen := v |>.
Definition set_iou_randomagain (u : io_u) : io_u := u <| iou_randomagain := true |>.

(** ** Random draws

    Each random state of [struct thread_data] is a union of an [os_random_state_t]
    and a [frand_state]; [use_os_rand] says which one is drawn from. *)
Definition OS_RAND_MAX : Z := 2147483647.
Definition rand_max (use_os : bool) : Z := if use_os then OS_RAND_MAX else Rand.FRAND_MAX.

Class RandSource (G : Type) := rs_draw : bool -> G -> Z * G.
Class RandSourceOk (G : Type) `{RandSource G} := {
  rs_range use_os g : 0 <= fst (rs_draw use_os g) <= rand_max use_os }.

(** A random state drawn with [__rand] when [use_os_rand] is off; [os] stands for
    [os_random_long], of which only the range is used. *)
Definition frand_source (os : Rand.frand_state -> Z * Rand.frand_state)
  : RandSource Rand.frand_state :=
  fun use_os g => if use_os then os g else Rand.__rand g.

Lemma frand_source_ok os : (forall g, 0 <= fst (os g) <= OS_RAND_MAX) ->
  @RandSourceOk Rand.frand_state (frand_source os).
Proof.
  intros Hos. split. intros [|] g; [apply Hos|]. unfold rs_draw, frand_source.
  pose proof (Rand.rand_word g) as Hw. unfold rand_max, Rand.FRAND_MAX, is_word in *. lia.
Qed.

(** ** [struct thread_data]: what generating an io_u reads and writes *)
Record thread_data (G : Type) := {
  td_o : thread_options;
  random_state : G;
  bsrange_state : G;
  rwmix_state : G;
  td_ddir_seq_nr : Z;
  io_issues : per_ddir Z;
  rwmix_issues : Z;
  rwmix_ddir : fio_ddir;
  rate_pending_usleep : per_ddir Z;   (* signed longs *)
  sync_file_range_nr : Z;
  zone_bytes : Z;
  io_skip_bytes : Z;
  io_hist_len : Z;
  last_was_sync : bool;
  ops_noio : bool;                    (* FIO_NOIO of the engine's flags *)
  ops_barrier : bool;                 (* FIO_BARRIER *)
  iolog_f : option (list (fio_ddir * Z * Z)) }. (* lines written to [write_iolog_file] *)
Arguments td_o {G}.
Arguments random_state {G}.
Arguments bsrange_state {G}.
Arguments rwmix_state {G}.
Arguments td_ddir_seq_nr {G}.
Arguments io_issues {G}.
Arguments rwmix_issues {G}.
Arguments rwmix_ddir {G}.
Arguments rate_pending_usleep {G}.
Arguments sync_file_range_nr {G}.
Arguments zone_bytes {G}.
Arguments io_skip_bytes {G}.
Arguments io_hist_len {G}.
Arguments last_was_sync {G}.
Arguments ops_noio {G}.
Arguments ops_barrier {G}.
Arguments iolog_f {G}.

#[global] Instance eta_thread_data G : Eta (thread_data G) := fun t =>
  Build_thread_data G (td_o t) (random_state t) (bsrange_state t) (rwmix_state t)
    (td_ddir_seq_nr t) (io_issues t) (rwmix_issues t) (rwmix_ddir t) (rate_pending_usleep t)
    (sync_file_range_nr t) (zone_bytes t) (io_skip_bytes t) (io_hist_len t) (last_was_sync t)
    (ops_noio t) (ops_barrier t) (iolog_f t).

End Types.
