(* ===== verification/RandMap.v ===== *)
(** * The map of blocks already visited ([src/io_u.c], lines 22 to 205)

    [file_map] has one bit per block of [rw_min_bs] bytes.  This file models the
    functions that test, mark and search it, and relates them to the set of
    blocks it stands for. *)
From S2P Require Import Prelude Bits Rand Types.
Local Open Scope word_scope.

Module RandMap.
Import Types.

(** ** Operations *)

(** The index is an [unsigned int]. *)
Definition random_map_free (f : fio_file) (block : Z) : bool :=
  let idx := u32 (RAND_MAP_IDX block) in
  let bit := u32 (RAND_MAP_BIT block) in
  (map_word f idx .& (1 .<< bit)) =? 0.

(** The mask of [this_blocks] bits from [bit] on. *)
Definition block_mask (this_blocks bit : Z) : Z :=
  if this_blocks =? BLOCKS_PER_MAP then ALL_ONES
  else shlw 64 (u64 ((1 .<< this_blocks) - 1)) bit.

(** [this_blocks] clamped to the end of the word. *)
Definition clamp_blocks (nr_blocks bit : Z) : Z :=
  if BLOCKS_PER_MAP <? nr_blocks + bit then BLOCKS_PER_MAP - bit else nr_blocks.

(** The loop of [mark_bit_map]; [None] is a failed [fio_assert]. *)
Fixpoint mark_bit_loop (fuel : nat) (f : fio_file) (u : io_u) (block nr_blocks : Z)
  : option (fio_file * io_u) :=
  match fuel with
  | O => Some (f, u)
  | S fuel =>
      if nr_blocks =? 0 then Some (f, u) else
      let idx := u32 (RAND_MAP_IDX block) in
      let bit := u32 (RAND_MAP_BIT block) in
      if negb (idx <? num_maps f) then None else
      let this_blocks := clamp_blocks nr_blocks bit in
      let mask := block_mask this_blocks bit in
      let u := if (map_word f idx .& mask) =? 0 then u else set_iou_randomagain u in
      let f := or_map_word idx mask f in
      mark_bit_loop fuel f u (u64 (block + this_blocks)) (nr_blocks - this_blocks)
  end.

(** First block and number of blocks of an io_u. *)
Definition iou_block (o : thread_options) (f : fio_file) (u : io_u) : Z :=
  u64 (iou_offset u - file_offset f) / rw_min_bs o.
Definition iou_nr_blocks (o : thread_options) (u : io_u) : Z :=
  u32 (u64 (iou_buflen u + rw_min_bs o - 1) / rw_min_bs o).

Definition mark_bit_map (o : thread_options) (f : fio_file) (u : io_u)
  : option (fio_file * io_u) :=
  if iou_busy_ok u then Some (f, set_iou_randomagain u) else
  let nr_blocks := iou_nr_blocks o u in
  mark_bit_loop (Z.to_nat nr_blocks) f u (iou_block o f u) nr_blocks.

(** The [do { ... } while (this_blocks)] of [mark_random_map]: the longest run of
    at most [this_blocks] free blocks from [bit] on. *)
Fixpoint fit_blocks (word bit : Z) (this_blocks : nat) : Z :=
  match this_blocks with
  | O => 0
  | S n => if (word .& block_mask this_blocks bit) =? 0 then this_blocks
           else fit_blocks word bit n
  end.

(** The loop of [mark_random_map] when [busy_check] holds; returns the file and
    the number of blocks marked. *)
Fixpoint mark_random_loop (fuel : nat) (o : thread_options) (f : fio_file)
    (block nr_blocks blocks : Z) : option (fio_file * Z) :=
  match fuel with
  | O => Some (f, blocks)
  | S fuel =>
      if nr_blocks =? 0 then Some (f, blocks) else
      if (ddir_seq_nr o =? 1) && negb (random_map_free f block) then Some (f, blocks) else
      let idx := u32 (RAND_MAP_IDX block) in
      let bit := u32 (RAND_MAP_BIT block) in
      if negb (idx <? num_maps f) then None else
      let this_blocks := fit_blocks (map_word f idx) bit (Z.to_nat (clamp_blocks nr_blocks bit)) in
      if this_blocks =? 0 then Some (f, blocks) else
      let f := or_map_word idx (block_mask this_blocks bit) f in
      mark_random_loop fuel o f (u64 (block + this_blocks)) (nr_blocks - this_blocks)
                       (blocks + this_blocks)
  end.

Definition mark_random_map (o : thread_options) (f : fio_file) (u : io_u)
  : option (fio_file * io_u) :=
  let nr_blocks := iou_nr_blocks o u in
  let r := if iou_busy_ok u then Some (f, nr_blocks)
           else mark_random_loop (Z.to_nat nr_blocks) o f (iou_block o f u) nr_blocks 0 in
  match r with
  | None => None
  | Some (f, blocks) =>
      if u32 (blocks * rw_min_bs o) <? iou_buflen u
      then Some (f, set_iou_buflen (u32 (blocks * rw_min_bs o)) u)
      else Some (f, u)
  end.

Definition last_block (o : thread_options) (f : fio_file) (ddir : fio_ddir) : Z :=
  let max_size := io_size f in
  let max_size := if real_file_size f <? max_size then real_file_size f else max_size in
  let max_size := if negb (zone_range o =? 0) then zone_range o else max_size in
  max_size / at2 (ba o) ddir.

(** The search loop of [get_next_free_block] from map word [i]. *)
Fixpoint free_block_loop (fuel : nat) (o : thread_options) (f : fio_file) (lastb i block : Z)
  : option Z * fio_file :=
  match fuel with
  | O => (None, f)
  | S fuel =>
      if (u64 (block * rw_min_bs o) <? real_file_size f) && (u64 (block * rw_min_bs o) <? io_size f)
      then if negb (map_word f i =? ALL_ONES)
           then let block := u64 (block + Bits.ffz (map_word f i)) in
                if lastb <? block then (None, f)
                else (Some block, set_last_free_lookup i f)
           else free_block_loop fuel o f lastb (i + 1) (u64 (block + BLOCKS_PER_MAP))
      else (None, f)
  end.

(** [Some b] is the return value 0 with [*b] set, [None] the return value 1.  A
    map word beyond [num_maps] is never reached, so [num_maps + 1] turns are
    enough. *)
Definition get_next_free_block (o : thread_options) (f : fio_file) (ddir : fio_ddir)
  : option Z * fio_file :=
  let lastb := last_block o f ddir in
  if lastb =? 0 then (None, f) else
  let i := s32 (last_free_lookup f) in
  free_block_loop (S (Z.to_nat (num_maps f))) o f lastb i (u64 (i * BLOCKS_PER_MAP)).

(** [init_random_map] of [src/filesetup.c] for one file, when both allocations
    succeed. *)
Definition nr_map_words (real_size min_bs : Z) : Z :=
  let blocks := u64 (real_size + min_bs - 1) / min_bs in
  u64 (blocks + BLOCKS_PER_MAP - 1) / BLOCKS_PER_MAP.

(** ** The set of blocks the map stands for *)
Definition busy (f : fio_file) (b : Z) : bool :=
  Z.testbit (map_word f (RAND_MAP_IDX b)) (b mod BLOCKS_PER_MAP).

Record map_wf (f : fio_file) : Prop := {
  wf_map : exists m, file_map f = Some m /\ length m = Z.to_nat (num_maps f) /\ Forall (is_word 64) m;
  wf_num : 0 <= num_maps f < 2 ^ 32 }.

(** The blocks of the map. *)
Definition in_map (f : fio_file) (b : Z) : Prop := 0 <= b < BLOCKS_PER_MAP * num_maps f.

Lemma map_word_word f idx : map_wf f -> is_word 64 (map_word f idx).
Proof.
  intros [(m & Hm & Hl & Hw) _]. unfold map_word, tget. rewrite Hm. simpl.
  destruct (decide (Z.to_nat idx < length m)%nat) as [Hlt|Hge].
  - apply Forall_nth; done.
  - rewrite nth_overflow by lia. done.
Qed.

Lemma map_bit b : 0 <= b -> RAND_MAP_BIT b = b mod BLOCKS_PER_MAP.
Proof. intros. unfold RAND_MAP_BIT. change (BLOCKS_PER_MAP - 1) with (Z.ones 6). by rewrite Z.land_ones. Qed.

(** The conversions of index and bit to [unsigned int] lose nothing. *)
Lemma map_idx_word f b : map_wf f -> in_map f b ->
  u32 (RAND_MAP_IDX b) = RAND_MAP_IDX b /\ u32 (RAND_MAP_BIT b) = b mod BLOCKS_PER_MAP /\
  0 <= RAND_MAP_IDX b < num_maps f /\ 0 <= b mod BLOCKS_PER_MAP < 64.
Proof.
  intros [_ Hn] Hb. unfold in_map in Hb. rewrite map_bit by lia.
  unfold RAND_MAP_IDX, BLOCKS_PER_MAP in *.
  assert (0 <= b / 64 < num_maps f) by (Z.to_euclidean_division_equations; lia).
  assert (0 <= b mod 64 < 64) by (apply Z.mod_pos_bound; lia).
  rewrite !wrap_small by (unfold is_word; lia). done.
Qed.

Lemma land_pow2_eq0 x i : 0 <= i -> ((x .& (1 .<< i)) =? 0) = negb (Z.testbit x i).
Proof.
  intros Hi. destruct (Z.eqb_spec (x .& (1 .<< i)) 0) as [E|E].
  - apply (f_equal (fun z => Z.testbit z i)) in E.
    rewrite Z.land_spec, shiftl_testbit, Z.testbit_0_l in E by lia.
    revert E. zbit_split. replace (i - i) with 0 by lia. simpl. rewrite andb_true_r. by intros ->.
  - destruct (Z.testbit x i) eqn:B; [done|]. exfalso. apply E. apply Z.bits_inj'. intros j Hj.
    rewrite Z.land_spec, shiftl_testbit, Z.testbit_0_l by lia.
    destruct (Z.leb_spec i j); simpl; [|by rewrite andb_false_r].
    destruct (Z.eq_dec j i) as [->|]; [by rewrite B|].
    rewrite (Z.bits_above_log2 1 (j - i)) by (simpl; lia). by rewrite andb_false_r.
Qed.

Lemma random_map_free_spec f b : map_wf f -> in_map f b ->
  random_map_free f b = negb (busy f b).
Proof.
  intros Hf Hb. destruct (map_idx_word f b Hf Hb) as (E1 & E2 & H1 & H2).
  unfold random_map_free. rewrite E1, E2. apply land_pow2_eq0. lia.
Qed.

Lemma block_mask_testbit t bit j : 0 < t -> 0 <= bit -> bit + t <= 64 -> 0 <= j ->
  Z.testbit (block_mask t bit) j = (bit <=? j) && (j <? bit + t).
Proof.
  intros Ht Hb Hs Hj. unfold block_mask, BLOCKS_PER_MAP.
  destruct (Z.eqb_spec t 64) as [->|].
  - unfold ALL_ONES. rewrite pow2_sub1, ones_testbit by lia. replace bit with 0 by lia. zbit_split; done.
  - replace ((1 .<< t) - 1) with (Z.ones t) by (by rewrite Z.shiftl_1_l, Z.ones_equiv).
    unfold shlw. autorewrite with zbits. zbit_split; autorewrite with zbits; zbit_split; done.
Qed.

Lemma block_mask_word t bit : is_word 64 (block_mask t bit).
Proof.
  unfold block_mask. destruct (t =? BLOCKS_PER_MAP); [done|]. by apply wrap_range.
Qed.

(** Whether a word is free on the positions of a mask. *)
Lemma mask_free w t bit : 0 < t -> 0 <= bit -> bit + t <= 64 ->
  (w .& block_mask t bit) = 0 <-> forall j, bit <= j < bit + t -> Z.testbit w j = false.
Proof.
  intros Ht Hb Hs. split.
  - intros E j Hj. apply (f_equal (fun z => Z.testbit z j)) in E.
    rewrite Z.land_spec, block_mask_testbit, Z.testbit_0_l in E by lia.
    revert E. zbit_split. by rewrite andb_true_r.
  - intros H. apply Z.bits_inj'. intros j Hj.
    rewrite Z.land_spec, block_mask_testbit, Z.testbit_0_l by lia.
    zbit_split; rewrite ?andb_false_r; try done. by rewrite H by lia.
Qed.

Lemma mask_busy w t bit : 0 < t -> 0 <= bit -> bit + t <= 64 -> (w .& block_mask t bit) <> 0 ->
  exists j, bit <= j < bit + t /\ Z.testbit w j = true.
Proof.
  intros Ht Hb Hs E. set (m := w .& block_mask t bit) in *.
  assert (0 <= m) by (apply Z.land_nonneg; right; apply block_mask_word).
  assert (B := Z.bit_log2 m ltac:(lia)). pose proof (Z.log2_nonneg m).
  unfold m in B at 1. rewrite Z.land_spec, block_mask_testbit in B by lia.
  exists (Z.log2 m). revert B. rewrite !andb_true_iff, Z.leb_le, Z.ltb_lt. intuition lia.
Qed.

Lemma fit_blocks_spec w bit n : 0 <= bit -> bit + Z.of_nat n <= 64 ->
  0 <= fit_blocks w bit n <= n /\
  (forall j, bit <= j < bit + fit_blocks w bit n -> Z.testbit w j = false) /\
  (fit_blocks w bit n < n -> Z.testbit w (bit + fit_blocks w bit n) = true).
Proof.
  intros Hb. induction n as [|n IH]; intros Hs; cbn [fit_blocks]; [split; [lia|split; intros; lia]|].
  destruct (Z.eqb_spec (w .& block_mask (S n) bit) 0) as [E|E].
  - rewrite mask_free in E by lia. split; [lia|]. split; [done|lia].
  - destruct IH as (Hr & Hfree & Hmax); [lia|]. split; [lia|]. split; [done|]. intros _.
    destruct (decide (fit_blocks w bit n < n)) as [Hlt|Hge]; [by apply Hmax|].
    destruct (Z.testbit w (bit + fit_blocks w bit n)) eqn:B; [done|]. exfalso. apply E.
    apply mask_free; [lia..|]. intros j Hj.
    destruct (Z.eq_dec j (bit + fit_blocks w bit n)) as [->|]; [done|]. apply Hfree. lia.
Qed.

(** The fields marking does not touch. *)
Definition same_but_map (f f' : fio_file) : Prop :=
  real_file_size f' = real_file_size f /\ file_offset f' = file_offset f /\
  io_size f' = io_size f /\ last_pos f' = last_pos f /\ last_start f' = last_start f /\
  num_maps f' = num_maps f /\ last_free_lookup f' = last_free_lookup f /\
  failed_rands f' = failed_rands f.

Lemma same_but_map_refl f : same_but_map f f.
Proof. done. Qed.
Lemma same_but_map_trans f g h : same_but_map f g -> same_but_map g h -> same_but_map f h.
Proof. unfold same_but_map. intuition congruence. Qed.

Section or_word.
Context (f : fio_file) (Hf : map_wf f) (idx mask : Z) (Hidx : 0 <= idx < num_maps f).

Lemma or_map_word_wf : is_word 64 mask -> map_wf (or_map_word idx mask f).
Proof.
  intros Hm. pose proof (map_word_word f idx Hf) as Hw. destruct Hf as [(m & Em & Hl & Hfa) Hn].
  split; [|done]. unfold or_map_word. rewrite Em. simpl. eexists. split; [done|].
  split; [by rewrite length_insert|]. apply Forall_insert; [done|]. by apply lor_is_word.
Qed.

Lemma or_map_word_same : same_but_map f (or_map_word idx mask f).
Proof. done. Qed.

Lemma map_word_or j : 0 <= j ->
  map_word (or_map_word idx mask f) j =
  if decide (j = idx) then map_word f idx .| mask else map_word f j.
Proof.
  intros Hj. destruct Hf as [(m & Em & Hl & _) _].
  unfold or_map_word, map_word at 1. simpl. rewrite Em. simpl. unfold tget.
  rewrite !nth_lookup. case_decide as E.
  - subst j. by rewrite list_lookup_insert_eq by lia.
  - rewrite list_lookup_insert_ne by lia. unfold map_word, tget. rewrite Em. simpl.
    by rewrite nth_lookup.
Qed.

(** Marking [t] blocks of word [idx] from [bit] on marks just these. *)
Lemma busy_or t bit b : 0 < t -> 0 <= bit -> bit + t <= 64 -> mask = block_mask t bit -> 0 <= b ->
  busy (or_map_word idx mask f) b =
  busy f b || ((64 * idx + bit <=? b) && (b <? 64 * idx + bit + t)).
Proof.
  intros Ht Hbit Hs Hmask Hb. unfold busy, RAND_MAP_IDX, BLOCKS_PER_MAP.
  assert (Hd : b = 64 * (b / 64) + b mod 64) by (apply Z.div_mod; lia).
  assert (Hm := Z.mod_pos_bound b 64 ltac:(lia)).
  rewrite map_word_or by (apply Z.div_pos; lia). case_decide as E.
  - rewrite Hmask, Z.lor_spec, block_mask_testbit, E by lia. f_equal. zbit_split; done.
  - assert (R : (64 * idx + bit <=? b) && (b <? 64 * idx + bit + t) = false) by (zbit_split; done).
    by rewrite R, orb_false_r.
Qed.
End or_word.

(** What marking a range does: [f'] is [f] with blocks [block .. block + n) added. *)
Record marked (f f' : fio_file) (block n : Z) : Prop := {
  marked_wf : map_wf f';
  marked_same : same_but_map f f';
  marked_busy b : 0 <= b -> busy f' b = busy f b || ((block <=? b) && (b <? block + n)) }.

Lemma marked_nil f block : map_wf f -> marked f f block 0.
Proof.
  intros Hf. split; [done|done|]. intros b Hb.
  destruct (Z.leb_spec block b), (Z.ltb_spec b (block + 0)); simpl; rewrite ?orb_false_r; done || lia.
Qed.

Lemma marked_app f g h block n n' : 0 <= n -> 0 <= n' ->
  marked f g block n -> marked g h (block + n) n' -> marked f h block (n + n').
Proof.
  intros Hn Hn' [W S B] [W' S' B']. split; [done|by eapply same_but_map_trans|].
  intros b Hb. rewrite B', B by done. zbit_split; rewrite ?orb_false_r, ?orb_true_r; done.
Qed.

Lemma or_map_word_marked f block t : map_wf f -> in_map f block ->
  0 < t -> block mod 64 + t <= 64 ->
  marked f (or_map_word (RAND_MAP_IDX block) (block_mask t (block mod 64)) f) block t.
Proof.
  intros Hf Hb Ht Hs. destruct (map_idx_word f block Hf Hb) as (_ & _ & H1 & H2).
  unfold BLOCKS_PER_MAP in *.
  split; [by apply or_map_word_wf, block_mask_word|done|].
  intros b Hbb. rewrite (busy_or f Hf _ _ H1 t (block mod 64)) by (done || lia).
  unfold RAND_MAP_IDX, BLOCKS_PER_MAP. by rewrite <- Z.div_mod by lia.
Qed.

Lemma clamp_bounds nr bit : 0 < nr -> 0 <= bit < 64 ->
  0 < clamp_blocks nr bit <= nr /\ bit + clamp_blocks nr bit <= 64.
Proof.
  intros. unfold clamp_blocks, BLOCKS_PER_MAP. destruct (Z.ltb_spec 64 (nr + bit)); lia.
Qed.

Definition all_free (f : fio_file) (block n : Z) : Prop :=
  forall b, block <= b < block + n -> busy f b = false.

(** A run inside one word: block [block + i] is bit [block mod 64 + i]. *)
Lemma busy_in_word f block i : 0 <= block -> 0 <= i -> block mod 64 + i < 64 ->
  busy f (block + i) = Z.testbit (map_word f (RAND_MAP_IDX block)) (block mod 64 + i).
Proof.
  intros Hb Hi Hs. unfold busy, RAND_MAP_IDX, BLOCKS_PER_MAP.
  assert (Hm := Z.mod_pos_bound block 64 ltac:(lia)).
  assert (E : (block + i) / 64 = block / 64 /\ (block + i) mod 64 = block mod 64 + i)
    by (Z.to_euclidean_division_equations; lia).
  by destruct E as [-> ->].
Qed.

Lemma u64_block f block : map_wf f -> 0 <= block <= 64 * num_maps f -> u64 block = block.
Proof. intros [_ Hn] Hb. apply wrap_small. unfold is_word. lia. Qed.

(** One turn of [mark_random_map] inside a word. *)
Lemma mark_turn f block nr t : map_wf f -> in_map f block -> 0 < nr ->
  t = fit_blocks (map_word f (RAND_MAP_IDX block)) (block mod 64)
        (Z.to_nat (clamp_blocks nr (block mod 64))) ->
  0 <= t <= nr /\ block mod 64 + t <= 64 /\ all_free f block t /\ (t = 0 -> busy f block = true).
Proof.
  intros Hf Hb Hnr ->. assert (Hm := Z.mod_pos_bound block 64 ltac:(lia)).
  destruct (clamp_bounds nr (block mod 64) Hnr Hm) as [Hc1 Hc2].
  set (t := fit_blocks _ _ _).
  destruct (fit_blocks_spec (map_word f (RAND_MAP_IDX block)) (block mod 64)
              (Z.to_nat (clamp_blocks nr (block mod 64)))) as (Hr & Hfree & Hmax); [lia..|].
  fold t in Hr, Hfree, Hmax. unfold in_map in Hb. split; [lia|]. split; [lia|]. split.
  - intros b Hbb. replace b with (block + (b - block)) by lia.
    rewrite busy_in_word by lia. apply Hfree. lia.
  - intros E. replace block with (block + 0) by lia. rewrite busy_in_word by lia.
    rewrite E in Hmax. apply Hmax. lia.
Qed.

Lemma mark_random_loop_spec (fuel : nat) o : forall f block nr blocks,
  map_wf f -> 0 <= nr <= fuel -> 0 <= block -> block + nr <= 64 * num_maps f ->
  exists f' n, mark_random_loop fuel o f block nr blocks = Some (f', blocks + n) /\
    0 <= n <= nr /\ marked f f' block n /\ all_free f block n /\
    (n < nr -> busy f (block + n) = true).
Proof.
  induction fuel as [|fuel IH]; intros f block nr blocks Hf Hnr Hb Hs; cbn [mark_random_loop].
  { exists f, 0. rewrite Z.add_0_r. split; [done|]. split; [lia|].
    split; [by apply marked_nil|]. split; intros ?; lia. }
  assert (STOP : (nr = 0 \/ busy f block = true) -> exists f' n, Some (f, blocks) = Some (f', blocks + n) /\
    0 <= n <= nr /\ marked f f' block n /\ all_free f block n /\
    (n < nr -> busy f (block + n) = true)).
  { intros Hbusy. exists f, 0. rewrite !Z.add_0_r. split; [done|]. split; [lia|].
    split; [by apply marked_nil|]. split; [intros ?; lia|]. intros. destruct Hbusy; [lia|done]. }
  destruct (Z.eqb_spec nr 0) as [|Hnz]; [by apply STOP; left|].
  assert (Hin : in_map f block) by (unfold in_map, BLOCKS_PER_MAP; lia).
  rewrite random_map_free_spec, negb_involutive by done.
  destruct ((ddir_seq_nr o =? 1) && busy f block) eqn:B.
  { apply andb_true_iff in B as [_ B]. by apply STOP; right. }
  destruct (map_idx_word f block Hf Hin) as (-> & -> & H1 & H2). unfold BLOCKS_PER_MAP in *.
  destruct (Z.ltb_spec (RAND_MAP_IDX block) (num_maps f)); [|lia]. cbn [negb].
  set (t := fit_blocks _ _ _).
  destruct (mark_turn f block nr t) as (Ht & Hts & Hfree & Hz); [done|done|lia|done|].
  destruct (Z.eqb_spec t 0) as [|Htz]; [by apply STOP; right; apply Hz|].
  assert (M := or_map_word_marked f block t Hf Hin ltac:(lia) Hts).
  set (f1 := or_map_word _ _ f) in *. pose proof M as [W1 S1 B1].
  rewrite (u64_block f) by (done || lia).
  destruct (IH f1 (block + t) (nr - t) (blocks + t)) as (f' & n & E & Hn & Mn & Fn & Bn);
    [done|lia|lia|change (num_maps f1) with (num_maps f); lia|].
  exists f', (t + n). split; [by rewrite E, Z.add_assoc|]. split; [lia|].
  split; [by eapply marked_app; [lia..| |]|]. split.
  - intros b Hbb. destruct (Z.lt_ge_cases b (block + t)); [apply Hfree; lia|].
    specialize (Fn b ltac:(lia)). rewrite B1 in Fn by lia. by apply orb_false_iff in Fn as [? _].
  - intros Hlt. rewrite Z.add_assoc. specialize (Bn ltac:(lia)). rewrite B1 in Bn by lia.
    revert Bn. zbit_split. by rewrite orb_false_r.
Qed.

(** A write or read of [u] lies inside the map. *)
Record iou_wf (o : thread_options) (f : fio_file) (u : io_u) : Prop := {
  iou_bs : 0 < rw_min_bs o < 2 ^ 32;
  iou_off : is_word 64 (iou_offset u);
  iou_len : 0 <= iou_buflen u < 2 ^ 32;
  iou_foff : 0 <= file_offset f <= iou_offset u;
  iou_end : (iou_offset u - file_offset f) / rw_min_bs o + iou_nr_blocks o u <= 64 * num_maps f }.

Lemma iou_block_plain o f u : iou_wf o f u ->
  iou_block o f u = (iou_offset u - file_offset f) / rw_min_bs o /\
  0 <= iou_block o f u /\
  iou_nr_blocks o u = (iou_buflen u + rw_min_bs o - 1) / rw_min_bs o /\
  0 <= iou_nr_blocks o u /\ iou_buflen u <= iou_nr_blocks o u * rw_min_bs o.
Proof.
  intros [Hbs Ho Hl Hf _]. unfold iou_block, iou_nr_blocks, is_word in *.
  rewrite !(wrap_small 64) by (unfold is_word; lia).
  assert (0 <= (iou_buflen u + rw_min_bs o - 1) / rw_min_bs o) by (apply Z.div_pos; lia).
  assert ((iou_buflen u + rw_min_bs o - 1) / rw_min_bs o < 2 ^ 32)
    by (apply Z.div_lt_upper_bound; nia).
  rewrite wrap_small by (unfold is_word; lia).
  split; [done|]. split; [apply Z.div_pos; lia|]. split; [done|]. split; [done|].
  pose proof (Z.div_mod (iou_buflen u + rw_min_bs o - 1) (rw_min_bs o) ltac:(lia)).
  pose proof (Z.mod_pos_bound (iou_buflen u + rw_min_bs o - 1) (rw_min_bs o) ltac:(lia)). lia.
Qed.

(** [mark_random_map] marks the longest free run from the start of the io_u. *)
Lemma mark_random_map_spec o f u :
  map_wf f -> iou_wf o f u -> iou_busy_ok u = false ->
  exists f' n, mark_random_map o f u =
      Some (f', if u32 (n * rw_min_bs o) <? iou_buflen u
                then set_iou_buflen (u32 (n * rw_min_bs o)) u else u) /\
    0 <= n <= iou_nr_blocks o u /\ marked f f' (iou_block o f u) n /\
    all_free f (iou_block o f u) n /\
    (n < iou_nr_blocks o u -> busy f (iou_block o f u + n) = true).
Proof.
  intros Hf Hu Hbusy. destruct (iou_block_plain o f u Hu) as (Eb & Hb & En & Hn & _).
  pose proof (iou_end _ _ _ Hu) as He. rewrite <- Eb in He.
  unfold mark_random_map. rewrite Hbusy.
  destruct (mark_random_loop_spec (Z.to_nat (iou_nr_blocks o u)) o f (iou_block o f u)
              (iou_nr_blocks o u) 0) as (f' & n & E & Hn' & M & F & B); [done|lia..|].
  rewrite Z.add_0_l in E. rewrite E. exists f', n. split; [|done].
  by destruct (u32 (n * rw_min_bs o) <? iou_buflen u).
Qed.

(** C39: [mark_random_map] on an io_u that must not overlap earlier ones: it never
    trips the assertion, marks the longest run [n] of free blocks from the start
    of the io_u (at most its [nr_blocks]), each of which was free before, leaves
    every other block as it was, stops only at the end or at a busy block, and
    trims the transfer to the marked blocks (their size computed in 32 bits).  The map
    has 64-bit words, the io_u starts at or after the file's offset, its length is below
    [2^32] and its blocks are in the map ([iou_wf]). *)
Theorem mark_random_map_marks_free_run o f u :
  map_wf f -> iou_wf o f u -> iou_busy_ok u = false ->
  exists f' n, mark_random_map o f u =
      Some (f', if u32 (n * rw_min_bs o) <? iou_buflen u
                then set_iou_buflen (u32 (n * rw_min_bs o)) u else u) /\
    0 <= n <= iou_nr_blocks o u /\ marked f f' (iou_block o f u) n /\
    all_free f (iou_block o f u) n /\
    (n < iou_nr_blocks o u -> busy f (iou_block o f u + n) = true).
Proof. apply mark_random_map_spec. Qed.

Definition test_file : fio_file :=
  {| real_file_size := 40960; file_offset := 0; io_size := 40960; last_pos := 0;
     last_start := ALL_ONES; file_pos := ALL_ONES; file_map := Some [4]; file_map2 := None;
     num_maps := 1; last_free_lookup := 0; failed_rands := 0 |}.
Definition test_options : thread_options :=
  {| td_ddir := 6; rw_min_bs := 4096; ba := (4096, 4096); min_bs := (4096, 4096);
     max_bs := (4096, 4096); bssplit := ([], []); bs_unaligned := false; ddir_seq_nr := 1;
     ddir_seq_add := 0; rw_seq := RW_SEQ_SEQ; time_based := false; zone_range := 0;
     zone_size := 0; zone_skip := 0; norandommap := false; randomagain_opt := false;
     use_os_rand := false; start_offset := 0; rwmix := (50, 50); fsync_blocks := 0;
     fdatasync_blocks := 0; barrier_blocks := 0; odirect := false; override_sync := false;
     rate := (0, 0); ratemin := (0, 0); rate_iops := (0, 0); rate_iops_min := (0, 0) |}.
Definition test_io_u : io_u :=
  {| iou_ddir := DDIR_WRITE; iou_offset := 0; iou_buflen := 16384; iou_busy_ok := false;
     iou_barrier := false; iou_randomagain := false |}.

Lemma test_file_wf : map_wf test_file.
Proof. split; [|done]. exists [4]. repeat split; repeat constructor; done. Defined.
Lemma test_io_u_wf : iou_wf test_options test_file test_io_u.
Proof. by split. Defined.

(** Blocks 0 and 1 of the requested 0..3 are free, block 2 is not: the write is cut
    to two blocks. *)
Lemma mark_random_map_marks_free_run_witness :
  exists f' n, mark_random_map test_options test_file test_io_u =
      Some (f', if u32 (n * 4096) <? 16384 then set_iou_buflen (u32 (n * 4096)) test_io_u
                else test_io_u) /\
    0 <= n <= 4 /\ all_free test_file 0 n.
Proof.
  destruct (mark_random_map_marks_free_run test_options test_file test_io_u
              test_file_wf test_io_u_wf eq_refl) as (f' & n & E & Hn & _ & F & _).
  exists f', n. exact (conj E (conj Hn F)).
Defined.

(** ** Marking every block ([randomagain]) *)
Lemma mark_bit_loop_spec (fuel : nat) : forall f u block nr,
  map_wf f -> 0 <= nr <= fuel -> 0 <= block -> block + nr <= 64 * num_maps f ->
  exists f' u', mark_bit_loop fuel f u block nr = Some (f', u') /\ marked f f' block nr /\
    (u' = u \/ u' = set_iou_randomagain u) /\
    (iou_randomagain u' = true <-> iou_randomagain u = true \/
       exists b, block <= b < block + nr /\ busy f b = true).
Proof.
  induction fuel as [|fuel IH]; intros f u block nr Hf Hnr Hb Hs; cbn [mark_bit_loop].
  { exists f, u. replace nr with 0 by lia. split; [done|]. split; [by apply marked_nil|].
    split; [by left|]. split; [by left|]. intros [?|(b & ? & _)]; [done|lia]. }
  destruct (Z.eqb_spec nr 0) as [->|Hnz].
  { exists f, u. split; [done|]. split; [by apply marked_nil|].
    split; [by left|]. split; [by left|]. intros [?|(b & ? & _)]; [done|lia]. }
  assert (Hin : in_map f block) by (unfold in_map, BLOCKS_PER_MAP; lia).
  destruct (map_idx_word f block Hf Hin) as (-> & -> & H1 & H2). unfold BLOCKS_PER_MAP in *.
  destruct (Z.ltb_spec (RAND_MAP_IDX block) (num_maps f)); [|lia]. cbn [negb].
  destruct (clamp_bounds nr (block mod 64)) as [Hc1 Hc2]; [lia..|].
  set (t := clamp_blocks nr (block mod 64)) in *.
  assert (M := or_map_word_marked f block t Hf Hin ltac:(lia) Hc2).
  set (f1 := or_map_word _ _ f) in *. pose proof M as [W1 S1 B1].
  rewrite (u64_block f) by (done || lia).
  set (u1 := if _ =? 0 then u else _).
  assert (Hu1 : (u1 = u \/ u1 = set_iou_randomagain u) /\ (iou_randomagain u1 = true <->
     iou_randomagain u = true \/ exists b, block <= b < block + t /\ busy f b = true)).
  { unfold u1. destruct (Z.eqb_spec (map_word f (RAND_MAP_IDX block) .& block_mask t (block mod 64)) 0)
      as [E|E].
    - rewrite mask_free in E by lia. split; [by left|]. split; [by left|].
      intros [?|(b & Hbb & Hbusy)]; [done|].
      replace b with (block + (b - block)) in Hbusy by lia.
      rewrite busy_in_word, E in Hbusy by lia. done.
    - split; [by right|]. split; [|done]. intros _. right.
      apply mask_busy in E as (j & Hj & Hbit); [|lia..].
      exists (block + (j - block mod 64)). split; [lia|]. rewrite busy_in_word by lia.
      by replace (block mod 64 + (j - block mod 64)) with j by lia. }
  destruct (IH f1 u1 (block + t) (nr - t)) as (f' & u' & E & M' & Hu' & R');
    [done|lia|lia|change (num_maps f1) with (num_maps f); lia|].
  exists f', u'. rewrite E. split; [done|]. destruct Hu1 as [Hu1 R1]. split.
  { replace nr with (t + (nr - t)) by lia. by eapply marked_app; [lia..| |]. }
  split; [destruct Hu1 as [Hu1|Hu1], Hu' as [Hu2|Hu2]; rewrite Hu2, Hu1; auto|].
  rewrite R', R1. split.
  - intros [[?|(b & Hbb & ?)]|(b & Hbb & Hbusy)]; [by left|right; exists b; split; [lia|done]|].
    right. exists b. split; [lia|]. rewrite B1 in Hbusy by lia. revert Hbusy. zbit_split.
    by rewrite orb_false_r.
  - intros [?|(b & Hbb & Hbusy)]; [by left; left|].
    destruct (Z.lt_ge_cases b (block + t)).
    + left. right. exists b. split; [lia|done].
    + right. exists b. split; [lia|]. by rewrite B1, Hbusy by lia.
Qed.

(** [mark_bit_map] marks every block of the io_u. *)
Lemma mark_bit_map_spec o f u :
  map_wf f -> iou_wf o f u -> iou_busy_ok u = false ->
  exists f' u', mark_bit_map o f u = Some (f', u') /\
    marked f f' (iou_block o f u) (iou_nr_blocks o u) /\
    (u' = u \/ u' = set_iou_randomagain u) /\
    (iou_randomagain u' = true <-> iou_randomagain u = true \/
       exists b, iou_block o f u <= b < iou_block o f u + iou_nr_blocks o u /\ busy f b = true).
Proof.
  intros Hf Hu Hbusy. destruct (iou_block_plain o f u Hu) as (Eb & Hb & En & Hn & _).
  pose proof (iou_end _ _ _ Hu) as He. rewrite <- Eb in He.
  unfold mark_bit_map. rewrite Hbusy. apply mark_bit_loop_spec; done || lia.
Qed.

(** [mark_bit_map] (the map of a [randomagain] job) marks exactly the blocks of
    the io_u, and flags the io_u as a repeat if and only if it was flagged before
    or one of its blocks was already marked. *)
Theorem mark_bit_map_detects_repeats o f u :
  map_wf f -> iou_wf o f u -> iou_busy_ok u = false ->
  exists f' u', mark_bit_map o f u = Some (f', u') /\
    marked f f' (iou_block o f u) (iou_nr_blocks o u) /\
    (u' = u \/ u' = set_iou_randomagain u) /\
    (iou_randomagain u' = true <-> iou_randomagain u = true \/
       exists b, iou_block o f u <= b < iou_block o f u + iou_nr_blocks o u /\ busy f b = true).
Proof. apply mark_bit_map_spec. Qed.

Lemma mark_bit_map_detects_repeats_witness :
  exists f' u', mark_bit_map test_options test_file test_io_u = Some (f', u') /\
    iou_randomagain u' = true.
Proof.
  destruct (mark_bit_map_detects_repeats test_options test_file test_io_u
              test_file_wf test_io_u_wf eq_refl) as (f' & u' & E & _ & _ & R).
  exists f', u'. split; [exact E|]. apply R. right. exists 2. split; [vm_compute; split; congruence|reflexivity].
Defined.

(** ** The search for a free block *)

(** The map covers the file, and the search position lies in it. *)
Record search_wf (o : thread_options) (f : fio_file) : Prop := {
  sw_map : map_wf f;
  sw_bs : 0 < rw_min_bs o;
  sw_cover : 0 <= real_file_size f <= 64 * num_maps f * rw_min_bs o;
  sw_word : 64 * num_maps f * rw_min_bs o < 2 ^ 64;
  sw_int : num_maps f < 2 ^ 31;
  sw_pos : 0 <= last_free_lookup f <= num_maps f }.

(** The blocks the search looks at: those whose map word starts in the file. *)
Definition within (o : thread_options) (f : fio_file) (b : Z) : Prop :=
  64 * (b / 64) * rw_min_bs o < real_file_size f /\ 64 * (b / 64) * rw_min_bs o < io_size f.

Lemma full_word_busy f i b : map_word f i = ALL_ONES -> 64 * i <= b < 64 * i + 64 -> busy f b = true.
Proof.
  intros E Hb. unfold busy, RAND_MAP_IDX, BLOCKS_PER_MAP.
  replace (b / 64) with i by (Z.to_euclidean_division_equations; lia).
  rewrite E. unfold ALL_ONES. rewrite pow2_sub1 by lia.
  pose proof (Z.mod_pos_bound b 64 ltac:(lia)). rewrite ones_testbit by lia. apply Z.ltb_lt. lia.
Qed.

Lemma ffz_block f i : map_wf f -> 0 <= i -> map_word f i <> ALL_ONES ->
  0 <= Bits.ffz (map_word f i) < 64 /\ busy f (64 * i + Bits.ffz (map_word f i)) = false /\
  forall b, 64 * i <= b < 64 * i + Bits.ffz (map_word f i) -> busy f b = true.
Proof.
  intros Hf Hi Hne. destruct (Bits.ffz_lowest_clear (map_word f i)) as (Hr & Hc & Hl);
    [by apply map_word_word|done|]. split; [done|].
  assert (B : forall j, 0 <= j < 64 -> busy f (64 * i + j) = Z.testbit (map_word f i) j).
  { intros j Hj. unfold busy, RAND_MAP_IDX, BLOCKS_PER_MAP.
    replace ((64 * i + j) / 64) with i by (Z.to_euclidean_division_equations; lia).
    f_equal. Z.to_euclidean_division_equations; lia. }
  split; [by rewrite B|]. intros b Hb. replace b with (64 * i + (b - 64 * i)) by lia.
  rewrite B by lia. apply Hl. lia.
Qed.

Lemma free_block_loop_spec (fuel : nat) o f lastb : search_wf o f -> forall i,
  0 <= i <= num_maps f -> num_maps f - i < fuel ->
  match free_block_loop fuel o f lastb i (64 * i) with
  | (Some b, f') => 64 * i <= b <= lastb /\ within o f b /\ busy f b = false /\
      (forall b', 64 * i <= b' < b -> busy f b' = true) /\ f' = set_last_free_lookup (b / 64) f
  | (None, f') => f' = f /\ forall b, 64 * i <= b <= lastb -> within o f b -> busy f b = true
  end.
Proof.
  intros Hsw. destruct Hsw as [Hf Hbs Hcov Hword Hint Hpos].
  induction fuel as [|fuel IH]; intros i Hi Hfu; [lia|]. cbn [free_block_loop].
  rewrite (wrap_small 64 (64 * i * rw_min_bs o)) by (unfold is_word; nia).
  destruct ((64 * i * rw_min_bs o <? real_file_size f) && (64 * i * rw_min_bs o <? io_size f)) eqn:C.
  2: { split; [done|]. intros b Hb [W1 W2]. exfalso.
       apply andb_false_iff in C. rewrite !Z.ltb_ge in C.
       assert (i <= b / 64) by (apply Z.div_le_lower_bound; lia).
       assert (64 * i * rw_min_bs o <= 64 * (b / 64) * rw_min_bs o) by (apply Z.mul_le_mono_nonneg_r; lia).
       lia. }
  apply andb_true_iff in C as [C1 C2]. apply Z.ltb_lt in C1, C2.
  assert (Hi' : i < num_maps f) by (apply Z.nle_gt; intros ?; nia).
  destruct (Z.eqb_spec (map_word f i) ALL_ONES) as [E|E]; cbn [negb].
  - rewrite (u64_block f) by (done || unfold BLOCKS_PER_MAP; lia).
    replace (64 * i + BLOCKS_PER_MAP) with (64 * (i + 1)) by (unfold BLOCKS_PER_MAP; lia).
    specialize (IH (i + 1) ltac:(lia) ltac:(lia)).
    destruct (free_block_loop fuel o f lastb (i + 1) (64 * (i + 1))) as [[b|] f'].
    + destruct IH as (Hb & Hw & Hfree & Hbusy & ->). split; [lia|]. split; [done|]. split; [done|].
      split; [|done].
      intros b' Hb'. destruct (Z.lt_ge_cases b' (64 * i + 64)); [apply (full_word_busy f i); [done|lia]|].
      apply Hbusy. lia.
    + destruct IH as [-> Hbusy]. split; [done|]. intros b Hb Hw.
      destruct (Z.lt_ge_cases b (64 * i + 64)); [apply (full_word_busy f i); [done|lia]|]. apply Hbusy; [lia|done].
  - destruct (ffz_block f i Hf ltac:(lia) E) as (Hr & Hfree & Hbusy).
    rewrite (u64_block f) by (done || lia).
    destruct (Z.ltb_spec lastb (64 * i + Bits.ffz (map_word f i))).
    + split; [done|]. intros b Hb _. apply Hbusy. lia.
    + assert (Ei : (64 * i + Bits.ffz (map_word f i)) / 64 = i)
        by (Z.to_euclidean_division_equations; lia).
      split; [lia|]. split; [by unfold within; rewrite Ei|]. split; [done|]. split; [done|].
      by rewrite Ei.
Qed.

(** [get_next_free_block] is a first-fit search from the last lookup position: a
    block it returns is free, not beyond [lastb], and every block between the
    search position and it is busy; when it fails, every block of the file from
    the search position up to [lastb] is busy. *)
Lemma get_next_free_block_spec o f ddir :
  search_wf o f -> 0 < last_block o f ddir ->
  match get_next_free_block o f ddir with
  | (Some b, f') =>
      64 * last_free_lookup f <= b <= last_block o f ddir /\ within o f b /\ busy f b = false /\
      (forall b', 64 * last_free_lookup f <= b' < b -> busy f b' = true) /\
      f' = set_last_free_lookup (b / 64) f
  | (None, f') => f' = f /\
      forall b, 64 * last_free_lookup f <= b <= last_block o f ddir -> within o f b -> busy f b = true
  end.
Proof.
  intros Hsw Hl. pose proof Hsw as [Hf _ _ _ Hint Hpos]. unfold get_next_free_block.
  destruct (Z.eqb_spec (last_block o f ddir) 0); [lia|].
  assert (S : s32 (last_free_lookup f) = last_free_lookup f).
  { unfold swrap. rewrite Z.mod_small by lia. destruct (Z.ltb_spec (last_free_lookup f) (2 ^ (32 - 1))); lia. }
  rewrite S, (u64_block f) by (done || unfold BLOCKS_PER_MAP; lia).
  rewrite (Z.mul_comm _ BLOCKS_PER_MAP). apply free_block_loop_spec; done || lia.
Qed.


(** [init_random_map] sizes the map so that the search stays inside it. *)
Lemma nr_map_words_cover size bs :
  0 <= size -> 0 < bs < 2 ^ 32 -> size + 64 * bs < 2 ^ 64 ->
  size <= 64 * nr_map_words size bs * bs < 2 ^ 64.
Proof.
  intros Hs Hb Hsum. unfold nr_map_words, BLOCKS_PER_MAP.
  rewrite (wrap_small 64 (size + bs - 1)) by (unfold is_word; lia).
  set (n := (size + bs - 1) / bs).
  assert (Hn : size <= n * bs <= size + bs - 1 /\ 0 <= n).
  { unfold n. pose proof (Z.div_mod (size + bs - 1) bs ltac:(lia)).
    pose proof (Z.mod_pos_bound (size + bs - 1) bs ltac:(lia)).
    assert (0 <= (size + bs - 1) / bs) by (apply Z.div_pos; lia). nia. }
  assert (n < 2 ^ 64 - 64) by nia.
  rewrite (wrap_small 64 (n + 64 - 1)) by (unfold is_word; lia).
  set (w := (n + 64 - 1) / 64).
  assert (n <= 64 * w <= n + 63) by (unfold w; Z.to_euclidean_division_equations; lia). nia.
Qed.

End RandMap.
