(* ===== verification/Offset.v ===== *)
(** * Choosing the next offset and length ([src/io_u.c], lines 207 to 498)

    The functions that pick where the next transfer goes (random block with or
    without the map, sequential position, the [rw_sequencer] variants) and how
    long it is.  The code scales random numbers in [double] arithmetic; the model
    computes the same roundings exactly. *)
From S2P Require Import Prelude Rand Types RandMap.
Local Open Scope word_scope.

Module Offset.
Import Types RandMap.

(** ** Scaling by a fraction in double precision *)

(** The nearest double (53 significant bits, ties to even) of [x >= 0]. *)
Definition fl (x : Z) : Z :=
  let e := Z.log2 x - 52 in
  if e <=? 0 then x else
  let q := x / 2 ^ e in
  let m := x mod 2 ^ e in
  let up := (2 ^ (e - 1) <? m) || ((m =? 2 ^ (e - 1)) && Z.odd q) in
  (if up then q + 1 else q) * 2 ^ e.

(** [(unsigned long long) (n * (r / (rmax + 1.0)))] with [n] converted to double.
    [rmax + 1] is a power of two and [r] has at most 32 bits, so the quotient is
    exact, and scaling by a power of two commutes with rounding. *)
Definition rand_scale (n r rmax : Z) : Z := fl (fl n * r) / (rmax + 1).

(** ** Random offsets *)
Section random.
Context {G : Type} `{RandSource G}.
Implicit Types (o : thread_options) (f : fio_file) (g : G).

(** The first loop of [get_next_rand_offset]: at most [loops] draws of a block;
    returns the block accepted, the last number drawn and the generator. *)
Fixpoint draw_loop (loops : nat) o f (lastb : Z) (r : Z) g : option Z * Z * G :=
  match loops with
  | O => (None, r, g)
  | S loops =>
      let '(r, g) := rs_draw (use_os_rand o) g in
      let b := rand_scale (lastb - 1) r (rand_max (use_os_rand o)) in
      if negb (file_randommap o f) || randomagain_opt o then (Some b, r, g) else
      if random_map_free f b then (Some b, r, g) else
      draw_loop loops o f lastb r g
  end.

(** The second loop: at most [loops] searches from a random map word. *)
Fixpoint probe_loop (loops : nat) o f (ddir : fio_ddir) (r : Z) g : option Z * fio_file * G :=
  match loops with
  | O => (None, f, g)
  | S loops =>
      let f := set_last_free_lookup
                 (rand_scale (u64 (num_maps f - 1)) r (rand_max (use_os_rand o))) f in
      match get_next_free_block o f ddir with
      | (Some b, f) => (Some b, f, g)
      | (None, f) =>
          let '(r, g) := rs_draw (use_os_rand o) g in
          probe_loop loops o f ddir r g
      end
  end.

(** From the label [ffz] on. *)
Definition exhaustive o f (ddir : fio_ddir) : option Z * fio_file :=
  match get_next_free_block o f ddir with
  | (Some b, f) => (Some b, f)
  | (None, f) => get_next_free_block o (set_last_free_lookup 0 f) ddir
  end.

(** [Some b] stands for the return value 0 with [*b] set, [None] for 1. *)
Definition get_next_rand_offset o f (ddir : fio_ddir) g : option Z * fio_file * G :=
  let lastb := last_block o f ddir in
  if lastb =? 0 then (None, f, g) else
  if 200 <=? failed_rands f then
    let '(b, f) := exhaustive o f ddir in (b, f, g)
  else
    match draw_loop 5 o f lastb 0 g with
    | (Some b, _, g) => (Some b, f <| failed_rands := 0 |>, g)
    | (None, r, g) =>
        let f := if failed_rands f =? 0 then set_last_free_lookup 0 f else f in
        let f := f <| failed_rands ::= fun n => u32 (n + 1) |> in
        match probe_loop 10 o f ddir r g with
        | (Some b, f, g) => (Some b, f, g)
        | (None, f, g) =>
            let '(b, f) := exhaustive o (set_last_free_lookup 0 f) ddir in (b, f, g)
        end
    end.

Definition get_next_rand_block (hist_len : Z) o f (ddir : fio_ddir) g
  : option Z * fio_file * G :=
  match get_next_rand_offset o f ddir g with
  | (Some b, f, g) => (Some b, f, g)
  | (None, f, g) =>
      if time_based o then
        match get_next_rand_offset o (fio_file_reset hist_len f) ddir g with
        | (Some b, f, g) => (Some b, f, g)
        | (None, f, g) => (None, f, g)
        end
      else (None, f, g)
  end.

(** ** Sequential offsets *)
Definition get_next_seq_offset o f : option Z * fio_file :=
  let f := if (io_size f <=? last_pos f) && time_based o
           then f <| last_pos := u64 (last_pos f - io_size f) |> else f in
  if last_pos f <? real_file_size f then
    let f := if (last_pos f =? file_offset f) && (ddir_seq_add o <? 0)
             then f <| last_pos := real_file_size f |> else f in
    let pos := u64 (last_pos f - file_offset f) in
    let pos := if negb (pos =? 0) then u64 (pos + ddir_seq_add o) else pos in
    (Some pos, f)
  else (None, f).

(** ** [get_next_block] and [__get_next_offset]

    [b] and [offset] start as [-1ULL]; a generator that fails leaves its variable
    so. *)
Definition pick_offset (b offset ba : Z) : option Z :=
  if negb (offset =? ALL_ONES) then Some offset
  else if negb (b =? ALL_ONES) then Some (u64 (b * ba)) else None.

Definition get_next_block (td : thread_data G) f (u : io_u) (ddir : fio_ddir) (rw_seq_hit : bool)
  : bool * thread_data G * fio_file * io_u :=
  let o := td_o td in
  let finish (ret : option (Z * Z)) td f u :=
    match ret with
    | None => (false, td, f, u)
    | Some (b, offset) =>
        match pick_offset b offset (at2 (ba o) ddir) with
        | Some x => (true, td, f, u <| iou_offset := x |>)
        | None => (false, td, f, u)
        end
    end in
  let rand td f u :=
    let '(b, f, g) := get_next_rand_block (io_hist_len td) o f ddir (random_state td) in
    finish ((fun b => (b, ALL_ONES)) <$> b) (td <| random_state := g |>) f u in
  if rw_seq_hit then
    if td_random o then rand td f u
    else let '(off, f) := get_next_seq_offset o f in
         finish ((fun x => (ALL_ONES, x)) <$> off) td f u
  else
    let u := u <| iou_busy_ok := true |> in
    match rw_seq o with
    | RW_SEQ_SEQ =>
        let '(off, f) := get_next_seq_offset o f in
        match off with
        | Some x => finish (Some (ALL_ONES, x)) td f u
        | None => rand td f u
        end
    | RW_SEQ_IDENT =>
        let offset := if negb (last_start f =? ALL_ONES)
                      then u64 (last_start f - file_offset f) else 0 in
        finish (Some (ALL_ONES, offset)) td f u
    | RW_SEQ_UNKNOWN => finish None td f u
    end.

(** The boolean is true when the C function returns 0. *)
Definition __get_next_offset (td : thread_data G) f (u : io_u)
  : bool * thread_data G * fio_file * io_u :=
  let o := td_o td in
  let '(hit, td) :=
    if negb (ddir_seq_nr o =? 0) then
      let n := u32 (td_ddir_seq_nr td - 1) in
      if n =? 0 then (true, td <| td_ddir_seq_nr := ddir_seq_nr o |>)
      else (false, td <| td_ddir_seq_nr := n |>)
    else (false, td) in
  let '(ok, td, f, u) := get_next_block td f u (iou_ddir u) hit in
  if negb ok then (false, td, f, u) else
  if io_size f <=? iou_offset u then (false, td, f, u) else
  let u := u <| iou_offset := u64 (iou_offset u + file_offset f) |> in
  if real_file_size f <=? iou_offset u then (false, td, f, u) else (true, td, f, u).

(** ** Transfer lengths *)
Definition io_u_fits o f (u : io_u) (buflen : Z) : bool :=
  u64 (iou_offset u + buflen) <=? u64 (io_size f + start_offset o).

Definition is_power_of_2 (val : Z) : bool := negb (val =? 0) && ((val .& (val - 1)) =? 0).

(** The [for] loop over [bssplit]: the first entry whose cumulated percentage
    covers [r] and that fits, or else the last entry. *)
Fixpoint bssplit_pick o f (u : io_u) (rmax r : Z) (split : list (Z * Z)) (perc buflen : Z) : Z :=
  match split with
  | [] => buflen
  | (bs, p) :: split =>
      let perc := perc + p in
      if (r <=? (rmax / 100) * perc) && io_u_fits o f u bs then bs
      else bssplit_pick o f u rmax r split perc bs
  end.

(** One turn of the [do] loop of [__get_next_buflen]. *)
Definition buflen_turn o f (u : io_u) (r : Z) : Z :=
  let d := iou_ddir u in
  let minbs := at2 (min_bs o) d in
  let maxbs := at2 (max_bs o) d in
  let rmax := rand_max (use_os_rand o) in
  let buflen :=
    match at2 (bssplit o) d with
    | [] => let x := u32 (1 + u32 (rand_scale maxbs r rmax)) in if x <? minbs then minbs else x
    | split => bssplit_pick o f u rmax r split 0 0
    end in
  if negb (bs_unaligned o) && is_power_of_2 minbs
  then u32 (buflen + minbs - 1) .& notw 32 (minbs - 1) else buflen.

Fixpoint buflen_loop (fuel : nat) o f (u : io_u) g : option Z * G :=
  match fuel with
  | O => (None, g)
  | S fuel =>
      let '(r, g) := rs_draw (use_os_rand o) g in
      let buflen := buflen_turn o f u r in
      if io_u_fits o f u buflen then (Some buflen, g) else buflen_loop fuel o f u g
  end.

(** [None]: the loop has not ended after [fuel] turns. *)
Definition __get_next_buflen (fuel : nat) (td : thread_data G) f (u : io_u)
  : option Z * thread_data G :=
  let o := td_o td in
  let minbs := at2 (min_bs o) (iou_ddir u) in
  let maxbs := at2 (max_bs o) (iou_ddir u) in
  if minbs =? maxbs then (Some minbs, td) else
  if negb (io_u_fits o f u minbs) then (Some 0, td) else
  let '(buflen, g) := buflen_loop fuel o f u (bsrange_state td) in
  ((fun b => u32 (b / minbs * minbs)) <$> buflen, td <| bsrange_state := g |>).

End random.

(** ** Rounding *)
Lemma fl_exact x : 0 <= x < 2 ^ 53 -> fl x = x.
Proof.
  intros Hx. unfold fl. destruct (Z.leb_spec (Z.log2 x - 52) 0); [done|].
  assert (2 ^ 53 <= 2 ^ Z.log2 x) by (apply Z.pow_le_mono_r; lia).
  assert (x <> 0) by (intros ->; simpl in *; lia).
  pose proof (Z.log2_spec x ltac:(lia)). lia.
Qed.

(** The rounding error is at most half a unit in the last place. *)
Lemma fl_error x : 0 <= x -> 2 ^ 53 * Z.abs (fl x - x) <= x.
Proof.
  intros Hx. unfold fl. destruct (Z.leb_spec (Z.log2 x - 52) 0) as [|He]; [lia|].
  set (e := Z.log2 x - 52) in *.
  assert (Hx0 : 0 < x) by (destruct (Z.eq_dec x 0) as [E|]; [subst e; rewrite E in He; simpl in He; lia|lia]).
  assert (H2e : 2 ^ e = 2 * 2 ^ (e - 1)) by (rewrite <- Z.pow_succ_r by lia; f_equal; lia).
  assert (Hh := pow2_pos (e - 1) ltac:(lia)).
  assert (Hlow : 2 ^ 53 * 2 ^ (e - 1) <= x).
  { rewrite <- Z.pow_add_r by lia. replace (53 + (e - 1)) with (Z.log2 x) by lia.
    apply (Z.log2_spec x Hx0). }
  pose proof (Z.div_mod x (2 ^ e) ltac:(lia)). pose proof (Z.mod_pos_bound x (2 ^ e) ltac:(lia)).
  set (q := x / 2 ^ e) in *. set (m := x mod 2 ^ e) in *.
  destruct ((2 ^ (e - 1) <? m) || ((m =? 2 ^ (e - 1)) && Z.odd q)) eqn:U.
  - assert (2 ^ (e - 1) <= m) by (revert U; destruct (Z.ltb_spec (2 ^ (e - 1)) m),
      (Z.eqb_spec m (2 ^ (e - 1))); simpl; intros; done || lia). nia.
  - assert (m <= 2 ^ (e - 1)) by (revert U; destruct (Z.ltb_spec (2 ^ (e - 1)) m); simpl; intros; done || lia).
    nia.
Qed.

Lemma fl_nonneg x : 0 <= x -> 0 <= fl x.
Proof. intros Hx. pose proof (fl_error x Hx). nia. Qed.

(** A draw scaled to [n] stays below [n]. *)
Lemma rand_scale_lt n r k : 0 < n < 2 ^ 53 -> 0 <= k <= 53 -> 0 <= r < 2 ^ k ->
  0 <= rand_scale n r (2 ^ k - 1) < n.
Proof.
  intros Hn Hk Hr. unfold rand_scale. rewrite (fl_exact n) by lia.
  replace (2 ^ k - 1 + 1) with (2 ^ k) by lia.
  assert (Hp := pow2_pos k ltac:(lia)).
  assert (2 ^ k <= 2 ^ 53) by (apply Z.pow_le_mono_r; lia).
  assert (Hnr : 0 <= n * r <= n * 2 ^ k - n) by nia.
  pose proof (fl_error (n * r) ltac:(lia)). pose proof (fl_nonneg (n * r) ltac:(lia)).
  split; [apply Z.div_pos; lia|]. apply Z.div_lt_upper_bound; [lia|]. nia.
Qed.

(** Below 2^53 nothing is rounded. *)
Lemma rand_scale_exact n r k : 0 <= n -> 0 <= k -> n * 2 ^ k < 2 ^ 53 -> 0 <= r < 2 ^ k ->
  rand_scale n r (2 ^ k - 1) = n * r / 2 ^ k.
Proof.
  intros Hn Hk Hm Hr. unfold rand_scale. assert (Hp := pow2_pos k Hk).
  rewrite (fl_exact n), (fl_exact (n * r)) by nia. f_equal. lia.
Qed.

Lemma rand_max_pow2 use_os : exists k, 31 <= k <= 32 /\ rand_max use_os = 2 ^ k - 1.
Proof. destruct use_os; [exists 31|exists 32]; done. Qed.

(** ** The random block search *)

(** [f'] is [f] with another search position and failure count. *)
Definition searched (f f' : fio_file) : Prop :=
  exists a c, 0 <= a <= num_maps f /\ f' = f <| last_free_lookup := a |> <| failed_rands := c |>.

(** A job that keeps a random map and a file the search applies to. *)
Record rand_wf (o : thread_options) (f : fio_file) (ddir : fio_ddir) : Prop := {
  rw_search : search_wf o f;
  rw_maps : 0 < num_maps f;
  rw_last : 0 < last_block o f ddir < 2 ^ 53;
  rw_in_map : last_block o f ddir <= 64 * num_maps f;
  rw_uses_map : file_randommap o f = true;
  rw_once : randomagain_opt o = false }.

(** What a search may answer. *)
Definition found (o : thread_options) (f : fio_file) (ddir : fio_ddir) (r : option Z) : Prop :=
  match r with
  | Some b => 0 <= b <= last_block o f ddir /\ busy f b = false /\
              (b < last_block o f ddir \/ within o f b)
  | None => forall b, 0 <= b <= last_block o f ddir -> within o f b -> busy f b = true
  end.

Section rand_spec.
Context {G : Type} `{RandSourceOk G}.
Context (o : thread_options) (f : fio_file) (ddir : fio_ddir) (Hwf : rand_wf o f ddir).

Lemma draw_bounds n g : 0 < n < 2 ^ 53 ->
  0 <= rand_scale n (fst (rs_draw (use_os_rand o) g)) (rand_max (use_os_rand o)) < n.
Proof.
  intros Hn. pose proof (rs_range (use_os_rand o) g) as Hr.
  destruct (rand_max_pow2 (use_os_rand o)) as (k & Hk & E). rewrite E in *.
  apply rand_scale_lt; lia.
Qed.

Lemma draw_loop_spec loops : forall g r,
  match draw_loop loops o f (last_block o f ddir) r g with
  | (Some b, _, _) => 0 <= b < last_block o f ddir /\ busy f b = false
  | (None, r', g') => (loops = O /\ r' = r) \/ exists g0, r' = fst (rs_draw (use_os_rand o) g0)
  end.
Proof using Hwf H0.
  destruct Hwf as [Hs Hm Hl Hin Hu Ho].
  induction loops as [|loops IH]; intros g r; simpl; [by left|].
  destruct (rs_draw (use_os_rand o) g) as [r1 g1] eqn:Ed.
  rewrite Hu, Ho. simpl.
  assert (B : 0 <= rand_scale (last_block o f ddir - 1) r1 (rand_max (use_os_rand o))
              < last_block o f ddir).
  { destruct (Z.eq_dec (last_block o f ddir) 1) as [->|].
    - unfold rand_scale. simpl. destruct (rand_max_pow2 (use_os_rand o)) as (k & Hk & ->).
      rewrite Z.div_0_l; [lia|]. pose proof (pow2_pos k). lia.
    - pose proof (draw_bounds (last_block o f ddir - 1) g ltac:(lia)) as B.
      rewrite Ed in B. simpl in B. lia. }
  set (b := rand_scale _ _ _) in *.
  rewrite (random_map_free_spec f b (sw_map _ _ Hs)) by (unfold in_map, BLOCKS_PER_MAP; lia).
  destruct (busy f b) eqn:Eb; simpl; [|split; [lia|done]].
  specialize (IH g1 r1). destruct (draw_loop loops o f (last_block o f ddir) r1 g1) as [[[b'|] r'] g'];
    [done|]. right. destruct IH as [[_ ->]|IH]; [|done].
  exists g. by rewrite Ed.
Qed.

(** Any search position of the map. *)
Lemma moved_search_wf a c : 0 <= a <= num_maps f ->
  search_wf o (f <| last_free_lookup := a |> <| failed_rands := c |>).
Proof using Hwf. intros Ha. destruct Hwf as [[? ? ? ? ? ?] _ _ _ _ _]. split; try done. by split; destruct sw_map0. Qed.

Lemma free_block_moved a c : 0 <= a <= num_maps f ->
  match get_next_free_block o (f <| last_free_lookup := a |> <| failed_rands := c |>) ddir with
  | (Some b, f') => found o f ddir (Some b) /\ searched f f'
  | (None, f') => f' = f <| last_free_lookup := a |> <| failed_rands := c |> /\
      forall b, 64 * a <= b <= last_block o f ddir -> within o f b -> busy f b = true
  end.
Proof using Hwf.
  intros Ha. set (fa := f <| last_free_lookup := a |> <| failed_rands := c |>).
  pose proof (get_next_free_block_spec o fa ddir (moved_search_wf a c Ha)
                ltac:(exact (proj1 (rw_last _ _ _ Hwf)))) as S.
  destruct (get_next_free_block o fa ddir) as [[b|] f']; [|done].
  destruct S as (Hb & Hw & Hfree & _ & ->).
  pose proof (rw_in_map _ _ _ Hwf). change (last_free_lookup fa) with a in Hb.
  change (last_block o fa ddir) with (last_block o f ddir) in Hb.
  split; [split; [lia|split; [done|by right]]|].
  exists (b / 64), c. split; [|done]. Z.to_euclidean_division_equations; lia.
Qed.

Lemma exhaustive_moved a c : 0 <= a <= num_maps f ->
  let '(r, f') := exhaustive o (f <| last_free_lookup := a |> <| failed_rands := c |>) ddir in
  searched f f' /\ found o f ddir r.
Proof using Hwf.
  intros Ha. unfold exhaustive. pose proof (free_block_moved a c Ha) as S.
  destruct (get_next_free_block o _ ddir) as [[b|] f'].
  { by destruct S. }
  destruct S as [-> _]. pose proof (free_block_moved 0 c ltac:(lia)) as S.
  change (set_last_free_lookup 0 (f <| last_free_lookup := a |> <| failed_rands := c |>))
    with (f <| last_free_lookup := 0 |> <| failed_rands := c |>).
  destruct (get_next_free_block o _ ddir) as [[b|] f'].
  - by destruct S.
  - destruct S as [-> Hb]. split; [by exists 0, c; split; [lia|]|]. intros b Hbb. apply Hb. lia.
Qed.

Lemma probe_loop_spec loops c : forall a g g0, 0 <= a <= num_maps f ->
  match probe_loop loops o (f <| last_free_lookup := a |> <| failed_rands := c |>) ddir
          (fst (rs_draw (use_os_rand o) g0)) g with
  | (r, f', _) => searched f f' /\ match r with Some b => found o f ddir (Some b)
                  | None => exists a', 0 <= a' <= num_maps f /\
                        f' = f <| last_free_lookup := a' |> <| failed_rands := c |> end
  end.
Proof using Hwf H0.
  induction loops as [|loops IH]; intros a g g0 Ha; cbn [probe_loop].
  { split; [by exists a, c|]. by exists a. }
  set (x := rand_scale _ _ _).
  assert (Hx : 0 <= x <= num_maps f).
  { subst x. change (num_maps (f <| last_free_lookup := a |> <| failed_rands := c |>)) with (num_maps f).
    pose proof (rw_maps _ _ _ Hwf). pose proof (sw_int _ _ (rw_search _ _ _ Hwf)).
    rewrite wrap_small by (unfold is_word; lia).
    destruct (Z.eq_dec (num_maps f) 1) as [->|].
    - unfold rand_scale. simpl. destruct (rand_max_pow2 (use_os_rand o)) as (k & Hk & ->).
      rewrite Z.div_0_l; [lia|]. pose proof (pow2_pos k). lia.
    - pose proof (draw_bounds (num_maps f - 1) g0 ltac:(lia)). lia. }
  change (set_last_free_lookup x (f <| last_free_lookup := a |> <| failed_rands := c |>))
    with (f <| last_free_lookup := x |> <| failed_rands := c |>).
  pose proof (free_block_moved x c Hx) as S.
  destruct (get_next_free_block o _ ddir) as [[b|] f'].
  - by destruct S.
  - destruct S as [-> _]. destruct (rs_draw (use_os_rand o) g) as [r1 g1] eqn:Ed.
    pose proof (IH x g1 g Hx) as S. by rewrite Ed in S.
Qed.

(** The random search answers with a free block, or there is none. *)
Lemma get_next_rand_offset_spec g :
  let '(r, f', _) := get_next_rand_offset o f ddir g in searched f f' /\ found o f ddir r.
Proof using Hwf H0.
  pose proof (rw_last _ _ _ Hwf) as Hl. pose proof (sw_pos _ _ (rw_search _ _ _ Hwf)) as Hp.
  unfold get_next_rand_offset. destruct (Z.eqb_spec (last_block o f ddir) 0); [lia|].
  assert (Hself : f = f <| last_free_lookup := last_free_lookup f |> <| failed_rands := failed_rands f |>)
    by by destruct f.
  destruct (200 <=? failed_rands f).
  { pose proof (exhaustive_moved _ (failed_rands f) Hp) as S. rewrite <- Hself in S.
    by destruct (exhaustive o f ddir) as [r f']. }
  pose proof (draw_loop_spec 5 g 0) as S.
  destruct (draw_loop 5 o f (last_block o f ddir) 0 g) as [[[b|] r] g1].
  { split; [exists (last_free_lookup f), 0; split; [lia|done]|].
    destruct S as [Hb Hfree]. split; [lia|]. split; [done|by left; lia]. }
  destruct S as [[S _]|(g0 & ->)]; [done|].
  set (f1 := (if failed_rands f =? 0 then set_last_free_lookup 0 f else f)
               <| failed_rands ::= fun n => u32 (n + 1) |>).
  assert (H1 : exists a c, 0 <= a <= num_maps f /\ f1 = f <| last_free_lookup := a |> <| failed_rands := c |>).
  { unfold f1. destruct (failed_rands f =? 0).
    - exists 0, (u32 (failed_rands f + 1)). split; [lia|done].
    - exists (last_free_lookup f), (u32 (failed_rands f + 1)). split; [lia|done]. }
  destruct H1 as (a & c & Ha & ->).
  pose proof (probe_loop_spec 10 c a g1 g0 Ha) as S.
  destruct (probe_loop 10 o _ ddir _ g1) as [[[b|] f2] g2]; [done|].
  destruct S as [_ (a' & Ha' & ->)].
  change (set_last_free_lookup 0 (f <| last_free_lookup := a' |> <| failed_rands := c |>))
    with (f <| last_free_lookup := 0 |> <| failed_rands := c |>).
  pose proof (exhaustive_moved 0 c ltac:(lia)) as S.
  by destruct (exhaustive o _ ddir) as [r f'].
Qed.
End rand_spec.

(** ** Starting over ([time_based]) *)
Lemma zero_words_all n m : length m = Z.to_nat n -> zero_words n m = replicate (Z.to_nat n) 0.
Proof. intros E. unfold zero_words. by rewrite <- E, drop_all, app_nil_r. Qed.

Lemma tget_zeros n i : tget (replicate n 0) i = 0.
Proof.
  unfold tget. generalize (Z.to_nat i). induction n as [|n IH]; intros [|k]; simpl; auto.
Qed.

Lemma reset_not_busy hist f b : map_wf f -> busy (fio_file_reset hist f) b = false.
Proof.
  intros [(m & Em & El & _) _]. unfold busy, map_word. simpl. rewrite Em. simpl.
  rewrite (zero_words_all _ _ El), tget_zeros. apply Z.testbit_0_l.
Qed.

Lemma reset_rand_wf hist o f ddir : rand_wf o f ddir -> rand_wf o (fio_file_reset hist f) ddir.
Proof.
  intros [[[(m & Em & El & Hm) Hn] ? ? ? ? ?] ? ? ? Hu ?]. split; try done.
  - split; try done; [|simpl; lia]. split; [|done]. simpl. rewrite Em. simpl.
    eexists. split; [done|]. rewrite (zero_words_all _ _ El), length_replicate. split; [done|].
    by apply Forall_replicate.
  - revert Hu. unfold file_randommap. simpl. by rewrite Em.
Qed.

(** The blocks the search looks at are all busy. *)
Definition full (o : thread_options) (f : fio_file) (ddir : fio_ddir) : Prop :=
  found o f ddir None.

(** C14: The random search of a job with a map, for every generator: the block it
    returns is free (when a [time_based] job had to start over, free in the
    cleared map, and then every block was busy before); it fails only when every
    block is busy and the job is not [time_based]; and it changes nothing of the
    file but its search position and failure count. *)
Theorem rand_block_is_free {G} `{RandSourceOk G} hist o f ddir (g : G) :
  rand_wf o f ddir -> 0 < real_file_size f -> 0 < io_size f ->
  match get_next_rand_block hist o f ddir g with
  | (Some b, f', _) =>
      0 <= b <= last_block o f ddir /\
      ((busy f b = false /\ searched f f') \/
       (full o f ddir /\ time_based o = true /\ searched (fio_file_reset hist f) f'))
  | (None, f', _) => full o f ddir /\ time_based o = false /\ searched f f'
  end.
Proof.
  intros Hwf Hrs Hio. unfold get_next_rand_block.
  pose proof (get_next_rand_offset_spec o f ddir Hwf g) as S1.
  destruct (get_next_rand_offset o f ddir g) as [[[b|] f1] g1].
  { destruct S1 as [Hs (Hb & Hfree & _)]. split; [done|]. by left. }
  destruct S1 as [Hs1 Hfull]. destruct (time_based o) eqn:Etb; [|done].
  destruct Hs1 as (a & c & Ha & ->).
  change (fio_file_reset hist (f <| last_free_lookup := a |> <| failed_rands := c |>))
    with (fio_file_reset hist f).
  pose proof (get_next_rand_offset_spec o _ ddir (reset_rand_wf hist o f ddir Hwf) g1) as S2.
  destruct (get_next_rand_offset o (fio_file_reset hist f) ddir g1) as [[[b|] f2] g2].
  { destruct S2 as [Hs2 (Hb & _)]. split; [done|]. by right. }
  destruct S2 as [_ Hfull2]. exfalso. apply (diff_true_false). symmetry.
  rewrite <- (reset_not_busy hist f 0 (sw_map _ _ (rw_search _ _ _ Hwf))). apply Hfull2.
  - pose proof (rw_last _ _ _ Hwf).
    change (last_block o (fio_file_reset hist f) ddir) with (last_block o f ddir). lia.
  - unfold within. rewrite Z.div_0_l by done. simpl. lia.
Qed.

Definition test_source : RandSource Rand.frand_state := frand_source (fun g => (0, g)).
#[global] Instance test_source_ok : @RandSourceOk _ test_source.
Proof. by apply frand_source_ok. Defined.

Lemma test_rand_wf : rand_wf test_options test_file DDIR_WRITE.
Proof. split; try done. split; try done. exact test_file_wf. Defined.

Lemma rand_block_is_free_witness :
  let '(r, _, _) := get_next_rand_block (H := test_source) 0 test_options test_file DDIR_WRITE
                      Rand.init_rand in
  match r with Some b => busy test_file b = false | None => full test_options test_file DDIR_WRITE end.
Proof.
  pose proof (rand_block_is_free (H := test_source) 0 test_options test_file DDIR_WRITE
                Rand.init_rand test_rand_wf eq_refl eq_refl) as S.
  destruct (get_next_rand_block _ _ _ _ _) as [[[b|] f'] g']; [|exact (proj1 S)].
  destruct S as [_ [[S _]|(_ & S & _)]]; [exact S|discriminate S].
Defined.

(** ** Which blocks a draw can reach *)

(** A generator that always returns [r]. *)
Definition const_source (r : Z) : RandSource unit := fun _ g => (r, g).

Lemma rand_offset_nomap {G} `{RandSource G} o f ddir (g : G) :
  file_randommap o f = false -> 0 < last_block o f ddir -> failed_rands f < 200 ->
  get_next_rand_offset o f ddir g =
  (Some (rand_scale (last_block o f ddir - 1) (fst (rs_draw (use_os_rand o) g))
           (rand_max (use_os_rand o))),
   f <| failed_rands := 0 |>, snd (rs_draw (use_os_rand o) g)).
Proof.
  intros Hn Hl Hf. unfold get_next_rand_offset.
  destruct (Z.eqb_spec (last_block o f ddir) 0); [lia|].
  destruct (Z.leb_spec 200 (failed_rands f)); [lia|].
  cbn [draw_loop]. destruct (rs_draw (use_os_rand o) g) as [r g']. by rewrite Hn.
Qed.

Lemma rand_scale_onto n k b : 0 < n < 2 ^ 21 -> 31 <= k <= 32 -> 0 <= b < n ->
  exists r, 0 <= r < 2 ^ k /\ rand_scale n r (2 ^ k - 1) = b.
Proof.
  intros Hn Hk Hb. assert (Hlo : 2 ^ 31 <= 2 ^ k) by (apply Z.pow_le_mono_r; lia).
  assert (Hhi : 2 ^ k <= 2 ^ 32) by (apply Z.pow_le_mono_r; lia).
  assert (D := Z.div_mod (b * 2 ^ k + n - 1) n ltac:(lia)).
  assert (M := Z.mod_pos_bound (b * 2 ^ k + n - 1) n ltac:(lia)).
  set (r := (b * 2 ^ k + n - 1) / n) in *.
  assert (Hr : 0 <= r < 2 ^ k) by (split; [apply Z.div_pos; nia|apply Z.div_lt_upper_bound; nia]).
  exists r. split; [done|]. rewrite rand_scale_exact by nia.
  symmetry. apply Z.div_unique with (r := n * r - 2 ^ k * b); nia.
Qed.

(** Without a map, the blocks a random draw can produce are exactly all the
    blocks of the file but its last one: block [last_block - 1] is never chosen,
    whatever the generator, and every lower block is chosen for some draw (here
    for files of up to 2^21 blocks, where no rounding occurs). *)
Theorem rand_offset_reaches_all_but_last o f ddir b :
  file_randommap o f = false -> 1 < last_block o f ddir <= 2 ^ 21 -> failed_rands f < 200 ->
  (exists r, 0 <= r <= rand_max (use_os_rand o) /\
     fst (fst (get_next_rand_offset (H := const_source r) o f ddir tt)) = Some b)
  <-> 0 <= b < last_block o f ddir - 1.
Proof.
  intros Hn Hl Hf. destruct (rand_max_pow2 (use_os_rand o)) as (k & Hk & E). rewrite E. split.
  - intros (r & Hr & Eb). rewrite rand_offset_nomap in Eb by (done || lia). injection Eb as <-.
    rewrite E. apply rand_scale_lt; simpl; lia.
  - intros Hb. destruct (rand_scale_onto (last_block o f ddir - 1) k b) as (r & Hr & <-); [lia..|].
    exists r. split; [lia|]. rewrite rand_offset_nomap by (done || lia). by rewrite E.
Qed.

Definition test_file_nomap : fio_file := test_file <| file_map := None |>.

Lemma rand_offset_reaches_all_but_last_witness :
  ~ exists r, 0 <= r <= rand_max false /\
      fst (fst (get_next_rand_offset (H := const_source r) test_options
                  test_file_nomap DDIR_READ tt)) = Some 9.
Proof.
  intros Hr.
  apply (rand_offset_reaches_all_but_last test_options test_file_nomap DDIR_READ 9
           eq_refl ltac:(vm_compute; split; congruence) eq_refl) in Hr.
  vm_compute in Hr. destruct Hr as [_ Hr]. discriminate Hr.
Defined.

(** ** Transfer lengths *)
Definition round_up (x m : Z) : Z := (x + m - 1) / m * m.

Lemma round_up_bounds x m : 0 < m -> x <= round_up x m < x + m.
Proof.
  intros Hm. unfold round_up. pose proof (Z.div_mod (x + m - 1) m ltac:(lia)).
  pose proof (Z.mod_pos_bound (x + m - 1) m Hm). lia.
Qed.

Lemma round_up_mono x y m : 0 < m -> x <= y -> round_up x m <= round_up y m.
Proof.
  intros Hm Hxy. unfold round_up. apply Z.mul_le_mono_nonneg_r; [lia|].
  apply Z.div_le_mono; lia.
Qed.

Lemma round_up_divide x m : (m | round_up x m).
Proof. by exists ((x + m - 1) / m). Qed.

Lemma is_power_of_2_spec m : 0 < m -> is_power_of_2 m = true -> m = 2 ^ Z.log2 m.
Proof.
  intros Hm Hp. unfold is_power_of_2 in Hp. apply andb_true_iff in Hp as [_ Hp].
  apply Z.eqb_eq in Hp. pose proof (Z.log2_spec m Hm) as Hl. pose proof (Z.log2_nonneg m).
  destruct (Z.eq_dec m (2 ^ Z.log2 m)) as [|Hne]; [done|]. exfalso.
  assert (El : Z.log2 (m - 1) = Z.log2 m) by (apply Z.log2_unique; lia).
  assert (0 < m - 1) by (pose proof (pow2_pos (Z.log2 m)); lia).
  apply (f_equal (fun z => Z.testbit z (Z.log2 m))) in Hp.
  rewrite Z.land_spec, Z.testbit_0_l, Z.bit_log2 in Hp by done.
  rewrite <- El, Z.bit_log2 in Hp by lia. done.
Qed.

Lemma mask_floor y k : is_word 32 y -> 0 <= k <= 32 -> y .& notw 32 (2 ^ k - 1) = y / 2 ^ k * 2 ^ k.
Proof.
  intros Hy Hk. rewrite <- Z.shiftr_div_pow2, <- Z.shiftl_mul_pow2 by lia.
  rewrite pow2_sub1 by lia. unfold notw. apply Z.bits_inj'. intros i Hi.
  autorewrite with zbits. rewrite Z.lnot_spec, ones_testbit by lia.
  destruct (Z.lt_ge_cases i 32).
  - zbit_split; rewrite ?andb_true_r, ?andb_false_r; try done.
    rewrite Z.shiftr_spec by lia. f_equal. lia.
  - simpl. zbit_split; rewrite ?Z.shiftr_spec by lia; rewrite ?(word_high 32 y) by (done || lia); done.
Qed.

Lemma align_up x m : 0 < m -> is_power_of_2 m = true -> 0 < x -> x + m <= 2 ^ 32 ->
  u32 (x + m - 1) .& notw 32 (m - 1) = round_up x m.
Proof.
  intros Hm Hp Hx Hs. rewrite wrap_small by (unfold is_word; lia).
  pose proof (is_power_of_2_spec m Hm Hp) as E.
  assert (Z.log2 m < 32) by (apply Z.log2_lt_pow2; lia). pose proof (Z.log2_nonneg m).
  assert (exists k, 0 <= k <= 32 /\ m = 2 ^ k) as (k & Hk & ->) by (exists (Z.log2 m); split; [lia|done]).
  apply mask_floor; [unfold is_word; lia|lia].
Qed.

Section lengths.
Context {G : Type} `{RandSourceOk G}.
Context (o : thread_options) (f : fio_file) (u : io_u).
Let minbs := at2 (min_bs o) (iou_ddir u).
Let maxbs := at2 (max_bs o) (iou_ddir u).
Let k_max := rand_max (use_os_rand o).

(** A block size range without [bssplit], and a file whose end is a 64-bit offset. *)
Record len_wf : Prop := {
  len_range : 0 < minbs < maxbs;
  len_word : maxbs + minbs <= 2 ^ 32;
  len_nosplit : at2 (bssplit o) (iou_ddir u) = [];
  len_off : 0 <= iou_offset u < 2 ^ 63;
  len_end : 0 <= io_size f + start_offset o < 2 ^ 64 }.
Context (Hlen : len_wf).

Lemma buflen_raw r : 0 <= r <= k_max ->
  0 <= rand_scale maxbs r k_max < maxbs.
Proof using Hlen.
  intros Hr. destruct Hlen as [? ? _ _ _]. subst k_max.
  destruct (rand_max_pow2 (use_os_rand o)) as (k & Hk & E). rewrite E in *.
  apply rand_scale_lt; lia.
Qed.

Lemma buflen_turn_bounds r : 0 <= r <= k_max ->
  minbs <= buflen_turn o f u r <= round_up maxbs minbs /\
  (rand_scale maxbs r k_max < minbs -> buflen_turn o f u r = minbs).
Proof using Hlen.
  intros Hr. pose proof (buflen_raw r Hr) as Hs. destruct Hlen as [Hm Hw Hn _ _].
  pose proof (round_up_bounds maxbs minbs ltac:(lia)) as Hup.
  unfold buflen_turn. rewrite Hn. fold minbs maxbs k_max.
  set (x := rand_scale maxbs r k_max) in *.
  rewrite (wrap_small 32 x), (wrap_small 32 (1 + x)) by (unfold is_word; lia).
  set (y := if 1 + x <? minbs then minbs else 1 + x).
  assert (Hy : minbs <= y <= maxbs /\ (x < minbs -> y = minbs)).
  { unfold y. destruct (Z.ltb_spec (1 + x) minbs); lia. }
  destruct (negb (bs_unaligned o) && is_power_of_2 minbs) eqn:Ea; [|lia].
  apply andb_true_iff in Ea as [_ Ea]. rewrite align_up by (done || lia).
  pose proof (round_up_bounds y minbs ltac:(lia)).
  pose proof (round_up_mono y maxbs minbs ltac:(lia) ltac:(lia)). split; [lia|].
  intros Hx. destruct Hy as [_ ->]; [|done]. unfold round_up.
  replace ((minbs + minbs - 1) / minbs) with 1; [lia|].
  apply Z.div_unique with (r := minbs - 1); lia.
Qed.

Lemma io_u_fits_spec b : 0 <= b < 2 ^ 33 ->
  io_u_fits o f u b = true <-> iou_offset u + b <= io_size f + start_offset o.
Proof using Hlen.
  intros Hb. destruct Hlen as [_ _ _ Hoff Hend]. unfold io_u_fits.
  rewrite !wrap_small by (unfold is_word; lia). apply Z.leb_le.
Qed.

(** The value of the [n]-th draw from [g]. *)
Fixpoint nth_draw (n : nat) (g : G) : Z :=
  let '(r, g) := rs_draw (use_os_rand o) g in
  match n with O => r | S n => nth_draw n g end.

Lemma buflen_loop_spec n : io_u_fits o f u minbs = true -> forall fuel g, (n < fuel)%nat ->
  rand_scale maxbs (nth_draw n g) k_max < minbs ->
  exists b, fst (buflen_loop fuel o f u g) = Some b /\
    minbs <= b <= round_up maxbs minbs /\ io_u_fits o f u b = true.
Proof using Hlen H0.
  intros Hfit. induction n as [|n IH]; intros [|fuel] g Hfu Hsmall; try lia;
    cbn [buflen_loop nth_draw] in *; pose proof (rs_range (use_os_rand o) g) as Hr;
    destruct (rs_draw (use_os_rand o) g) as [r g']; cbn [fst] in Hr;
    destruct (buflen_turn_bounds r Hr) as [Hb Hmin].
  - rewrite Hmin, Hfit by done. exists minbs. split; [done|]. split; [|done].
    rewrite Hmin in Hb; done.
  - destruct (io_u_fits o f u (buflen_turn o f u r)) eqn:E; [|by apply IH; [lia|]].
    by exists (buflen_turn o f u r).
Qed.
End lengths.

(** Transfer lengths of a block size range: the length is 0 exactly when not
    even the minimum fits; otherwise the rejection loop ends as soon as a draw
    selects the minimum (draw [n] here), and its result is a multiple of the
    minimum, at least the minimum, at most the maximum rounded up to the minimum,
    and ends inside the file. *)
Theorem next_buflen_shape {G} `{RandSourceOk G} (td : thread_data G) f u (n fuel : nat) :
  let o := td_o td in
  let minbs := at2 (min_bs o) (iou_ddir u) in
  let maxbs := at2 (max_bs o) (iou_ddir u) in
  len_wf o f u -> (n < fuel)%nat ->
  rand_scale maxbs (nth_draw o n (bsrange_state td)) (rand_max (use_os_rand o)) < minbs ->
  exists b td', __get_next_buflen fuel td f u = (Some b, td') /\
    if io_size f + start_offset o <? iou_offset u + minbs then b = 0
    else (minbs | b) /\ minbs <= b <= round_up maxbs minbs /\
         iou_offset u + b <= io_size f + start_offset o.
Proof.
  intros o minbs maxbs Hlen Hn Hsmall. pose proof Hlen as [Hm Hw _ _ _].
  fold minbs in Hm, Hw. fold maxbs in Hm, Hw. unfold __get_next_buflen.
  fold o. fold minbs. fold maxbs. destruct (Z.eqb_spec minbs maxbs); [lia|].
  pose proof (io_u_fits_spec o f u Hlen minbs ltac:(lia)) as F.
  destruct (io_u_fits o f u minbs) eqn:E.
  - destruct (Z.ltb_spec (io_size f + start_offset o) (iou_offset u + minbs)); [lia|].
    destruct (buflen_loop_spec o f u Hlen n E fuel (bsrange_state td) Hn Hsmall) as (b & Eb & Hb & Hf).
    fold minbs in Hb. fold maxbs in Hb.
    pose proof (round_up_bounds maxbs minbs ltac:(lia)).
    destruct (buflen_loop fuel o f u (bsrange_state td)) as [r g]. cbn [fst] in Eb. subst r.
    eexists _, _. split; [done|]. rewrite io_u_fits_spec in Hf by (done || lia).
    pose proof (Z.div_mod b minbs ltac:(lia)). pose proof (Z.mod_pos_bound b minbs ltac:(lia)).
    assert (1 <= b / minbs) by (apply Z.div_le_lower_bound; lia).
    assert (b / minbs * minbs <= b) by lia.
    rewrite wrap_small by (unfold is_word; nia). split; [by exists (b / minbs)|]. nia.
  - destruct (Z.ltb_spec (io_size f + start_offset o) (iou_offset u + minbs)).
    + by eexists _, _.
    + assert (false = true) by (apply F; lia). done.
Qed.

Definition test_td : thread_data unit :=
  {| td_o := test_options; random_state := tt; bsrange_state := tt; rwmix_state := tt;
     td_ddir_seq_nr := 1; io_issues := (0, 0); rwmix_issues := 0; rwmix_ddir := DDIR_READ;
     rate_pending_usleep := (0, 0); sync_file_range_nr := 0; zone_bytes := 0; io_skip_bytes := 0;
     io_hist_len := 0; last_was_sync := false; ops_noio := false; ops_barrier := false;
     iolog_f := None |}.

#[global] Instance eta_thread_options : Eta thread_options := fun o =>
  Build_thread_options (td_ddir o) (rw_min_bs o) (ba o) (min_bs o) (max_bs o) (bssplit o)
    (bs_unaligned o) (ddir_seq_nr o) (ddir_seq_add o) (rw_seq o) (time_based o) (zone_range o)
    (zone_size o) (zone_skip o) (norandommap o) (randomagain_opt o) (use_os_rand o)
    (start_offset o) (rwmix o) (fsync_blocks o) (fdatasync_blocks o) (barrier_blocks o)
    (odirect o) (override_sync o) (rate o) (ratemin o) (rate_iops o) (rate_iops_min o).

(** [bsrange=4096-5000] *)
Definition range_td : thread_data unit :=
  test_td <| td_o := test_options <| max_bs := (5000, 5000) |> |>.

Lemma const_source_ok r : 0 <= r <= OS_RAND_MAX -> @RandSourceOk unit (const_source r).
Proof. intros Hr. split. intros [|] []; unfold rand_max, OS_RAND_MAX, Rand.FRAND_MAX in *; simpl; lia. Defined.

Lemma range_len_wf : len_wf (td_o range_td) test_file test_io_u.
Proof. by split. Defined.

Lemma next_buflen_shape_witness :
  exists b td', __get_next_buflen (H := const_source 0) 1 range_td test_file test_io_u = (Some b, td') /\
    (4096 | b) /\ 4096 <= b <= 8192 /\ b <= 40960.
Proof.
  destruct (next_buflen_shape (H := const_source 0) (H0 := const_source_ok 0 ltac:(by vm_compute))
              range_td test_file test_io_u 0 1 range_len_wf ltac:(lia) ltac:(by vm_compute))
    as (b & td' & E & S).
  exists b, td'. exact (conj E S).
Defined.

(** The largest draw selects the maximum. *)
Lemma rand_scale_top n k : 0 < n < 2 ^ 30 -> 31 <= k <= 32 -> rand_scale n (2 ^ k - 1) (2 ^ k - 1) = n - 1.
Proof.
  intros Hn Hk. assert (Hlo : 2 ^ 31 <= 2 ^ k) by (apply Z.pow_le_mono_r; lia).
  assert (Hhi : 2 ^ k <= 2 ^ 32) by (apply Z.pow_le_mono_r; lia).
  pose proof (rand_scale_lt n (2 ^ k - 1) k ltac:(lia) ltac:(lia) ltac:(lia)) as Hr.
  unfold rand_scale in *. rewrite (fl_exact n) in * by lia.
  replace (2 ^ k - 1 + 1) with (2 ^ k) in * by lia.
  pose proof (fl_error (n * (2 ^ k - 1)) ltac:(nia)).
  assert (n - 1 <= fl (n * (2 ^ k - 1)) / 2 ^ k) by (apply Z.div_le_lower_bound; nia). lia.
Qed.

(** A length can exceed [max_bs], the size the transfer buffers are allocated
    with: when the minimum is a power of two that does not divide the maximum, the
    largest draw is rounded up past the maximum, and the result is returned
    whenever it fits in the file. *)
Theorem next_buflen_exceeds_max_bs (td : thread_data unit) f u :
  let o := td_o td in
  let minbs := at2 (min_bs o) (iou_ddir u) in
  let maxbs := at2 (max_bs o) (iou_ddir u) in
  len_wf o f u -> maxbs < 2 ^ 30 -> bs_unaligned o = false -> is_power_of_2 minbs = true ->
  ~ (minbs | maxbs) -> iou_offset u + round_up maxbs minbs <= io_size f + start_offset o ->
  exists b, __get_next_buflen (H := const_source (rand_max (use_os_rand o))) 1 td f u = (Some b, td) /\
    maxbs < b.
Proof.
  intros o minbs maxbs Hlen Hmax Hal Hp Hnd Hfit. pose proof Hlen as [Hm Hw Hns _ _].
  fold minbs in Hm, Hw. fold maxbs in Hm, Hw.
  pose proof (round_up_bounds maxbs minbs ltac:(lia)) as Hup.
  assert (Hmin : io_u_fits o f u minbs = true) by (apply io_u_fits_spec; [done|lia|lia]).
  assert (Hbig : io_u_fits o f u (round_up maxbs minbs) = true) by (apply io_u_fits_spec; [done|lia|lia]).
  assert (Ht : buflen_turn o f u (rand_max (use_os_rand o)) = round_up maxbs minbs).
  { unfold buflen_turn. rewrite Hns, Hal. fold minbs. fold maxbs. rewrite Hp.
    destruct (rand_max_pow2 (use_os_rand o)) as (k & Hk & ->).
    rewrite rand_scale_top by (done || lia).
    rewrite (wrap_small 32 (maxbs - 1)), (wrap_small 32 (1 + (maxbs - 1))) by (unfold is_word; lia).
    replace (1 + (maxbs - 1)) with maxbs by lia.
    destruct (Z.ltb_spec maxbs minbs); [lia|]. simpl. by rewrite align_up by (done || lia). }
  exists (round_up maxbs minbs). split.
  - unfold __get_next_buflen. fold o minbs maxbs. destruct (Z.eqb_spec minbs maxbs); [lia|].
    rewrite Hmin. cbn [negb buflen_loop]. unfold rs_draw at 1. cbn [const_source].
    rewrite Ht, Hbig. cbn [fmap option_fmap option_map].
    replace (round_up maxbs minbs / minbs * minbs) with (round_up maxbs minbs).
    + rewrite wrap_small by (unfold is_word; lia). by destruct td as [? ? []].
    + unfold round_up at 2. rewrite Z.div_mul by lia. done.
  - pose proof (round_up_divide maxbs minbs). destruct (Z.eq_dec maxbs (round_up maxbs minbs)) as [E|]; [|lia].
    rewrite E in Hnd at 1. done.
Qed.

Lemma next_buflen_exceeds_max_bs_witness :
  exists b, __get_next_buflen (H := const_source (2 ^ 32 - 1)) 1 range_td test_file test_io_u
              = (Some b, range_td) /\ 5000 < b.
Proof.
  apply (next_buflen_exceeds_max_bs range_td test_file test_io_u range_len_wf); try (by vm_compute).
  intros [z Hz]. change (5000 = z * 4096) in Hz. lia.
Defined.

End Offset.
