(* ===== verification/IoU.v ===== *)
(** * Direction of the next transfer and [fill_io_u] ([src/io_u.c], lines 500 to 788)

    The read/write mix, the periodic syncs, the rate limiter, zones, and the
    composition of all of them with the offset and length generators. *)
From S2P Require Import Prelude Rand Types RandMap Offset.
Local Open Scope word_scope.

Module IoU.
Import Types RandMap Offset.

Section direction.
Context {G : Type} `{RandSource G}.
Implicit Types td : thread_data G.

(** ** The read/write mix *)
Definition set_rwmix_bytes td : thread_data G :=
  let diff := at2 (rwmix (td_o td)) (odir (rwmix_ddir td)) in
  td <| rwmix_issues := u64 (at2 (io_issues td) (rwmix_ddir td) * diff) / 100 |>.

Definition get_rand_ddir td : fio_ddir * thread_data G :=
  let o := td_o td in
  let '(r, g) := rs_draw (use_os_rand o) (rwmix_state td) in
  let v := 1 + rand_scale 100 r (rand_max (use_os_rand o)) in
  (if v <=? fst (rwmix o) then DDIR_READ else DDIR_WRITE, td <| rwmix_state := g |>).

(** ** [src/fio.h] *)
Definition should_fsync td : bool :=
  let o := td_o td in
  if last_was_sync td then false else
  if odirect o then false else
  td_write o || td_rw o || override_sync o.

Definition __should_check_rate (o : thread_options) (ddir : fio_ddir) : bool :=
  negb (at2 (rate o) ddir =? 0) || negb (at2 (ratemin o) ddir =? 0) ||
  negb (at2 (rate_iops o) ddir =? 0) || negb (at2 (rate_iops_min o) ddir =? 0).

(** ** The rate limiter

    [flush] is the completion of the requests in flight ([io_u_queued_complete],
    the identity when none is); [elapsed usec] is what [utime_since_now] measures
    around [usec_sleep(td, usec)]. *)
Context (flush : thread_data G -> thread_data G) (elapsed : Z -> Z).

Definition rate_ddir td (ddir : fio_ddir) : fio_ddir * thread_data G :=
  let o := td_o td in
  let od := odir ddir in
  let pending d := at2 (rate_pending_usleep td) d in
  if pending ddir <=? 0 then (ddir, td) else
  if td_rw o && (pending od <? 100000) then (od, td) else
  let '(usec, ddir) :=
    if td_rw o then
      if pending ddir <=? pending od then (pending ddir, ddir) else (pending od, od)
    else (pending ddir, ddir) in
  let td := flush td in
  let usec := elapsed usec in
  let td := td <| rate_pending_usleep ::= fun p => set2 ddir (s64 (at2 p ddir - usec)) p |> in
  let od := odir ddir in
  let td := if td_rw o && __should_check_rate o od
            then td <| rate_pending_usleep ::= fun p => set2 od (s64 (at2 p od - usec)) p |>
            else td in
  (ddir, td).

(** A periodic action is due: [n] is set and the number of writes issued is a
    positive multiple of it. *)
Definition periodic td (n : Z) : bool :=
  negb (n =? 0) && (snd (io_issues td) mod n =? 0) && negb (snd (io_issues td) =? 0).

Definition get_rw_ddir td : fio_ddir * thread_data G :=
  let o := td_o td in
  if periodic td (fsync_blocks o) && should_fsync td then (DDIR_SYNC, td) else
  if periodic td (fdatasync_blocks o) && should_fsync td then (DDIR_DATASYNC, td) else
  if periodic td (sync_file_range_nr td) && should_fsync td then (DDIR_SYNC_FILE_RANGE, td) else
  let '(ddir, td) :=
    if td_rw o then
      let td :=
        if rwmix_issues td <=? at2 (io_issues td) (rwmix_ddir td) then
          let '(ddir, td) := get_rand_ddir td in
          let td := if decide (ddir = rwmix_ddir td) then td else set_rwmix_bytes td in
          td <| rwmix_ddir := ddir |>
        else td in
      (rwmix_ddir td, td)
    else if td_read o then (DDIR_READ, td) else (DDIR_WRITE, td) in
  let '(ddir, td) := rate_ddir td ddir in
  (ddir, td <| rwmix_ddir := ddir |>).

Definition set_rw_ddir td (u : io_u) : thread_data G * io_u :=
  let '(ddir, td) := get_rw_ddir td in
  let u := u <| iou_ddir := ddir |> in
  if decide (ddir = DDIR_WRITE) then
    if ops_barrier td && periodic td (barrier_blocks (td_o td))
    then (td, u <| iou_barrier := true |>) else (td, u)
  else (td, u).

(** ** [fill_io_u] *)

(** [log_io_u] of [src/iolog.c]; the file name of the line is left out. *)
Definition log_io_u td (u : io_u) : thread_data G :=
  td <| iolog_f ::= fmap (fun l => l ++ [(iou_ddir u, iou_offset u, iou_buflen u)]) |>.

Inductive fill_result :=
  | Filled (td : thread_data G) (f : fio_file) (u : io_u)     (* return 0 *)
  | FillFailed (td : thread_data G) (f : fio_file) (u : io_u) (* return 1 *)
  | FillAssert                                               (* a failed [fio_assert] *)
  | FillDiverges.                                            (* the length loop did not end *)

(** The label [out]. *)
Definition fill_out td f (u : io_u) : fill_result :=
  Filled (log_io_u (td <| zone_bytes := u64 (zone_bytes td + iou_buflen u) |>) u) f u.

(** The marking of the map. *)
Definition fill_mark (o : thread_options) (f : fio_file) (u : io_u) : option (fio_file * io_u) :=
  let r := if td_random o && file_randommap o f && negb (randomagain_opt o)
           then mark_random_map o f u else Some (f, u) in
  match r with
  | None => None
  | Some (f, u) =>
      if randomagain_opt o then mark_bit_map o f u
      else if norandommap o then Some (f, set_iou_randomagain u) else Some (f, u)
  end.

(** The switch to a new zone. *)
Definition switch_zone td (f : fio_file) : thread_data G * fio_file :=
  let o := td_o td in
  if (zone_size o <=? zone_bytes td) && negb (zone_skip o =? 0) then
    let off := u64 (file_offset f + u64 (zone_range o + zone_skip o)) in
    (td <| zone_bytes := 0 |> <| io_skip_bytes ::= fun n => u64 (n + zone_skip o) |>,
     f <| file_offset := off |> <| last_pos := off |>)
  else (td, f).

Definition fill_io_u (fuel : nat) td (f : fio_file) (u : io_u) : fill_result :=
  if ops_noio td then fill_out td f u else
  let '(td, u) := set_rw_ddir td u in
  if negb (ddir_rw (iou_ddir u)) then fill_out td f u else
  let '(td, f) := switch_zone td f in
  let '(ok, td, f, u) := __get_next_offset td f u in
  if negb ok then FillFailed td f u else
  match __get_next_buflen fuel td f u with
  | (None, _) => FillDiverges
  | (Some buflen, td) =>
      let u := u <| iou_buflen := buflen |> in
      if buflen =? 0 then FillFailed td f u else
      if real_file_size f <? u64 (iou_offset u + buflen) then FillFailed td f u else
      match fill_mark (td_o td) f u with
      | None => FillAssert
      | Some (f, u) => fill_out td f u
      end
  end.
End direction.

(** ** Direction *)

(** The random direction is a read exactly when the draw, as a fraction of the
    generator's range, is below [rwmix_read] percent: the scaling in floating point
    loses nothing. *)
Theorem rand_ddir_share {G} `{RandSourceOk G} (td : thread_data G) :
  let o := td_o td in
  let '(r, g) := rs_draw (use_os_rand o) (rwmix_state td) in
  get_rand_ddir td =
  (if 100 * r <? fst (rwmix o) * (rand_max (use_os_rand o) + 1) then DDIR_READ else DDIR_WRITE,
   td <| rwmix_state := g |>).
Proof.
  intros o. pose proof (rs_range (use_os_rand o) (rwmix_state td)) as Hr. unfold get_rand_ddir.
  fold o. destruct (rs_draw (use_os_rand o) (rwmix_state td)) as [r g]. cbn [fst] in Hr. f_equal.
  destruct (rand_max_pow2 (use_os_rand o)) as (k & Hk & E). rewrite E in *.
  assert (Hp : 2 ^ 31 <= 2 ^ k <= 2 ^ 32) by (split; apply Z.pow_le_mono_r; lia).
  rewrite rand_scale_exact by lia. replace (2 ^ k - 1 + 1) with (2 ^ k) by lia.
  destruct (Z.ltb_spec (100 * r) (fst (rwmix o) * 2 ^ k)) as [Hlt|Hge].
  - assert (100 * r / 2 ^ k < fst (rwmix o)) by (apply Z.div_lt_upper_bound; lia).
    destruct (Z.leb_spec (1 + 100 * r / 2 ^ k) (fst (rwmix o))); [done|lia].
  - assert (fst (rwmix o) <= 100 * r / 2 ^ k) by (apply Z.div_le_lower_bound; lia).
    destruct (Z.leb_spec (1 + 100 * r / 2 ^ k) (fst (rwmix o))); [lia|done].
Qed.

Lemma td_rw_both o : td_rw o = true -> td_read o = true /\ td_write o = true.
Proof.
  unfold td_rw, td_read, td_write, TD_DDIR_RW, TD_DDIR_READ, TD_DDIR_WRITE. rewrite Z.eqb_eq.
  intros E. assert (B : forall i, 0 <= i < 2 -> Z.testbit (td_ddir o) i = true).
  { intros i Hi. apply (f_equal (fun z => Z.testbit z i)) in E. rewrite Z.land_spec in E.
    assert (i = 0 \/ i = 1) as [-> | ->] by lia; simpl in E; by rewrite andb_true_r in E. }
  split; apply negb_true_iff, Z.eqb_neq; intros E0.
  - apply (f_equal (fun z => Z.testbit z 0)) in E0. rewrite Z.land_spec, B in E0 by lia. done.
  - apply (f_equal (fun z => Z.testbit z 1)) in E0. rewrite Z.land_spec, B in E0 by lia. done.
Qed.

Section directions.
Context {G : Type} `{RandSource G}.
Context (flush : thread_data G -> thread_data G) (elapsed : Z -> Z).
Implicit Types td : thread_data G.

Definition allowed (o : thread_options) (d : fio_ddir) : Prop :=
  (d = DDIR_READ /\ td_read o = true) \/ (d = DDIR_WRITE /\ td_write o = true).

Lemma rate_ddir_allowed td d : allowed (td_o td) d -> allowed (td_o td) (fst (rate_ddir flush elapsed td d)).
Proof.
  intros Hd. unfold rate_ddir. destruct (_ <=? 0); [done|].
  destruct (td_rw (td_o td)) eqn:E; cbn [andb].
  - assert (A : allowed (td_o td) (odir d)).
    { destruct (td_rw_both _ E). destruct Hd as [[-> _]|[-> _]]; [right|left]; done. }
    destruct (_ <? 100000); [done|]. by destruct (_ <=? _).
  - done.
Qed.

Lemma get_rand_ddir_opts td : td_o (snd (get_rand_ddir td)) = td_o td.
Proof. unfold get_rand_ddir. by destruct (rs_draw _ _). Qed.

Lemma get_rand_ddir_rw td : ddir_rw (fst (get_rand_ddir td)) = true.
Proof. unfold get_rand_ddir. destruct (rs_draw _ _). simpl. by destruct (_ <=? _). Qed.

Lemma set_rwmix_opts td : td_o (set_rwmix_bytes td) = td_o td.
Proof. done. Qed.

(** A job only gets directions it was configured for: [get_rw_ddir] answers a
    read only for a job that reads, a write only for a job that writes (so the
    assertion of [fio_ro_check] holds), and a sync only when writes were issued, the
    job may sync, and the previous io_u was not a sync. *)
Theorem rw_ddir_respects_job td :
  td_read (td_o td) || td_write (td_o td) = true -> ddir_rw (rwmix_ddir td) = true ->
  let d := fst (get_rw_ddir flush elapsed td) in
  allowed (td_o td) d \/
  (ddir_sync d = true /\ should_fsync td = true /\ last_was_sync td = false /\ snd (io_issues td) <> 0).
Proof.
  intros Hjob Hrw. unfold get_rw_ddir.
  assert (Hsync : forall n, periodic td n && should_fsync td = true ->
    should_fsync td = true /\ last_was_sync td = false /\ snd (io_issues td) <> 0).
  { intros n Hp. apply andb_true_iff in Hp as [Hp Hs]. split; [done|]. split.
    - revert Hs. unfold should_fsync. by destruct (last_was_sync td).
    - apply andb_true_iff in Hp as [_ Hp]. by apply negb_true_iff, Z.eqb_neq in Hp. }
  repeat (destruct (periodic td _ && should_fsync td) eqn:Hp; [right; by split; [|eapply Hsync]|clear Hp]).
  left. match goal with |- context [let '(_, _) := ?x in _] => set (p := x) end.
  assert (Hp : allowed (td_o td) (fst p) /\ td_o (snd p) = td_o td).
  { unfold p. destruct (td_rw (td_o td)) eqn:E.
    - destruct (td_rw_both _ E) as [Er Ew].
      assert (A : forall d, ddir_rw d = true -> allowed (td_o td) d) by (intros [] ?; done || by (left + right)).
      destruct (_ <=? _).
      + pose proof (get_rand_ddir_opts td) as Ho. pose proof (get_rand_ddir_rw td) as Hd.
        destruct (get_rand_ddir td) as [d td1]. simpl in *. split; [by apply A|].
        by destruct (decide _).
      + split; [by apply A|done].
    - destruct (td_read (td_o td)) eqn:Er; split; try done; [by left|right; done]. }
  destruct p as [d td1]. destruct Hp as [Hd Ho]. simpl in Hd, Ho.
  pose proof (rate_ddir_allowed td1 d) as Hrate. rewrite Ho in Hrate. specialize (Hrate Hd).
  by destruct (rate_ddir flush elapsed td1 d).
Qed.
End directions.

Lemma rw_ddir_respects_job_witness :
  allowed test_options (fst (get_rw_ddir (H := const_source 0) id id test_td)) \/
  (ddir_sync (fst (get_rw_ddir (H := const_source 0) id id test_td)) = true /\
   should_fsync test_td = true /\ last_was_sync test_td = false /\ snd (io_issues test_td) <> 0).
Proof. exact (rw_ddir_respects_job (H := const_source 0) id id test_td eq_refl eq_refl). Defined.

End IoU.
