(* ===== verification/RandJob.v ===== *)
(** * Random jobs: runs of [fill_io_u] on one file

    A run is a sequence of calls of [fill_io_u] on a file of a random job that
    keeps a map, interleaved with the bookkeeping of [get_io_u]; the thread state
    may be any at each call.  The theorems say what the whole run does to the
    file. *)
From S2P Require Import Prelude Rand Types RandMap Offset IoU.
Local Open Scope word_scope.

Module RandJob.
Import Types RandMap Offset IoU.

(** A random job with a map whose blocks are its block size alignment. *)
Record random_job (o : thread_options) : Prop := {
  rj_random : td_random o = true;
  rj_map : norandommap o = false;
  rj_once : randomagain_opt o = false;
  rj_seq : ddir_seq_nr o = 1;
  rj_zone : zone_skip o = 0;
  rj_time : time_based o = false;
  rj_bs : 0 < rw_min_bs o;
  rj_ba d : at2 (ba o) d = rw_min_bs o;
  rj_min d : 0 < at2 (min_bs o) d;
  rj_max d : at2 (min_bs o) d + rw_min_bs o <= 2 ^ 32 /\ at2 (max_bs o) d + rw_min_bs o <= 2 ^ 32 }.

Record job_file (o : thread_options) (f : fio_file) : Prop := {
  jf_rand d : ddir_rw d = true -> rand_wf o f d;
  jf_real : 0 < real_file_size f < 2 ^ 63;
  jf_io : 0 < io_size f < 2 ^ 63;
  jf_off : 0 <= file_offset f < 2 ^ 63 }.

(** Fields that neither the search nor the marking touches. *)
Definition same_shape (f f' : fio_file) : Prop :=
  real_file_size f' = real_file_size f /\ file_offset f' = file_offset f /\
  io_size f' = io_size f /\ num_maps f' = num_maps f.

Lemma job_file_kept o f f' : job_file o f -> same_shape f f' -> map_wf f' ->
  0 <= last_free_lookup f' <= num_maps f' -> job_file o f'.
Proof.
  intros [Hr Hreal Hio Hoff] (E1 & E2 & E3 & E4) Hm Hp. split; rewrite ?E1, ?E2, ?E3; try done.
  intros d Hd. destruct (Hr d Hd) as [[? ? ? ? ? ?] ? Hl Hin Hu ?].
  assert (El : last_block o f' d = last_block o f d) by (unfold last_block; by rewrite E1, E3).
  split; rewrite ?El, ?E4; try done.
  - split; rewrite ?E1, ?E4; try done. by rewrite <- E4.
  - destruct Hm as [(m & Em & _) _]. revert Hu. unfold file_randommap. rewrite Em.
    intros [-> _]%andb_true_iff. done.
Qed.

Lemma searched_kept o f f' : job_file o f -> searched f f' -> job_file o f'.
Proof.
  intros Hj (a & c & Ha & ->). apply (job_file_kept o f); try done.
  destruct (sw_map _ _ (rw_search _ _ _ (jf_rand _ _ Hj DDIR_READ eq_refl))) as [Hm Hn]. by split.
Qed.

Lemma searched_busy f f' b : searched f f' -> busy f' b = busy f b.
Proof. by intros (a & c & _ & ->). Qed.

Lemma marked_kept o f f' block n : job_file o f -> marked f f' block n -> job_file o f'.
Proof.
  intros Hj [Hm (E1 & E2 & E3 & _ & _ & E4 & E5 & _) _]. apply (job_file_kept o f); try done.
  rewrite E4, E5. exact (sw_pos _ _ (rw_search _ _ _ (jf_rand _ _ Hj DDIR_READ eq_refl))).
Qed.

(** Choosing a direction keeps every component of the thread that its own
    assignments and completions keep. *)
Section keeps.
Context {G A : Type} `{RandSource G}.
Context (flush : thread_data G -> thread_data G) (elapsed : Z -> Z) (proj : thread_data G -> A).
Context (Hstate : forall td g, proj (td <| rwmix_state := g |>) = proj td)
  (Hissues : forall td n, proj (td <| rwmix_issues := n |>) = proj td)
  (Hddir : forall td d, proj (td <| rwmix_ddir := d |>) = proj td)
  (Hpend : forall td h, proj (td <| rate_pending_usleep ::= h |>) = proj td)
  (Hflush : forall td, proj (flush td) = proj td).

Lemma rate_ddir_proj td d : proj (snd (rate_ddir flush elapsed td d)) = proj td.
Proof using Hpend Hflush.
  unfold rate_ddir. destruct (_ <=? 0); [done|]. destruct (td_rw _ && _); [done|].
  match goal with |- context [let '(_, _) := ?x in _] => destruct x as [usec d'] end.
  destruct (td_rw _ && __should_check_rate _ _); cbn [snd]; by rewrite ?Hpend, Hflush.
Qed.

Lemma get_rw_ddir_proj td : proj (snd (get_rw_ddir flush elapsed td)) = proj td.
Proof using All.
  unfold get_rw_ddir. repeat (destruct (periodic td _ && should_fsync td); [done|]).
  match goal with |- context [let '(_, _) := ?x in _] => set (p := x) end.
  assert (Kp : proj (snd p) = proj td).
  { unfold p. destruct (td_rw (td_o td)); [|by destruct (td_read _)].
    destruct (_ <=? _); [|done]. unfold get_rand_ddir, set_rwmix_bytes.
    destruct (rs_draw _ _) as [r g]. cbn [snd]. rewrite Hddir.
    destruct (decide _); by rewrite ?Hissues, Hstate. }
  destruct p as [d td1]. simpl in Kp. pose proof (rate_ddir_proj td1 d) as Kr.
  destruct (rate_ddir flush elapsed td1 d) as [d' td2]. cbn [snd] in *. rewrite Hddir. congruence.
Qed.

Lemma set_rw_ddir_proj td u : proj (fst (set_rw_ddir flush elapsed td u)) = proj td.
Proof using All.
  unfold set_rw_ddir. pose proof (get_rw_ddir_proj td) as K.
  destruct (get_rw_ddir flush elapsed td) as [d td'].
  destruct (decide _); [destruct (ops_barrier td' && _)|]; done.
Qed.
End keeps.

Section job.
Context {G : Type} `{RandSourceOk G}.
Context (flush : thread_data G -> thread_data G) (elapsed : Z -> Z).
Implicit Types td : thread_data G.

(** Completions do not change the options or the sequence counter. *)
Context (Hflush : forall td, td_o (flush td) = td_o td /\ td_ddir_seq_nr (flush td) = td_ddir_seq_nr td).

Lemma set_rw_ddir_keeps td u : let '(td', u') := set_rw_ddir flush elapsed td u in
  td_o td' = td_o td /\ td_ddir_seq_nr td' = td_ddir_seq_nr td /\ iou_busy_ok u' = iou_busy_ok u.
Proof using Hflush.
  pose proof (set_rw_ddir_proj flush elapsed (fun t => (td_o t, td_ddir_seq_nr t)) ltac:(done)
                ltac:(done) ltac:(done) ltac:(done)
                (fun t => f_equal2 pair (proj1 (Hflush t)) (proj2 (Hflush t))) td u) as K.
  assert (Ku : iou_busy_ok (snd (set_rw_ddir flush elapsed td u)) = iou_busy_ok u).
  { unfold set_rw_ddir. destruct (get_rw_ddir _ _ _) as [d t].
    destruct (decide _); [destruct (ops_barrier t && _)|]; done. }
  destruct (set_rw_ddir flush elapsed td u) as [td' u']. simpl in *. by injection K as -> ->.
Qed.

(** ** The offset of a random job *)
Lemma next_offset_random td f u :
  random_job (td_o td) -> job_file (td_o td) f -> td_ddir_seq_nr td = 1 -> ddir_rw (iou_ddir u) = true ->
  let '(ok, td', f', u') := __get_next_offset td f u in
  td_o td' = td_o td /\ td_ddir_seq_nr td' = 1 /\ searched f f' /\
  iou_busy_ok u' = iou_busy_ok u /\ iou_ddir u' = iou_ddir u /\
  (ok = true -> exists b, 0 <= b /\ busy f b = false /\ iou_offset u' = file_offset f + b * rw_min_bs (td_o td) /\
     b * rw_min_bs (td_o td) < io_size f /\ iou_offset u' < real_file_size f).
Proof using H0.
  intros Hj Hf Hs Hd. unfold __get_next_offset. rewrite (rj_seq _ Hj), Hs. simpl negb.
  change (u32 (1 - 1) =? 0) with true. cbn iota.
  unfold get_next_block. simpl td_o. rewrite (rj_random _ Hj). simpl.
  assert (Hblk : get_next_rand_block (io_hist_len td) (td_o td) f (iou_ddir u) (random_state td) =
                 get_next_rand_offset (td_o td) f (iou_ddir u) (random_state td)).
  { unfold get_next_rand_block. rewrite (rj_time _ Hj).
    by destruct (get_next_rand_offset _ _ _ _) as [[[b|] f'] g']. }
  rewrite Hblk.
  pose proof (get_next_rand_offset_spec (td_o td) f (iou_ddir u) (jf_rand _ _ Hf _ Hd) (random_state td)) as S.
  destruct (get_next_rand_offset _ _ _ _) as [[[b|] f'] g']; simpl; [|by destruct S; split_and!].
  destruct S as [Hs' (Hb & Hfree & _)]. pose proof Hs' as (a & c & Ha & Ef).
  pose proof (rw_last _ _ _ (jf_rand _ _ Hf _ Hd)) as Hlast. destruct Hf as [Hrand Hreal Hio Hoff].
  assert (Hlb : last_block (td_o td) f (iou_ddir u) * rw_min_bs (td_o td) < 2 ^ 64).
  { pose proof (rw_in_map _ _ _ (Hrand _ Hd)). pose proof (sw_word _ _ (rw_search _ _ _ (Hrand _ Hd))).
    pose proof (rj_bs _ Hj). nia. }
  unfold pick_offset. rewrite Z.eqb_refl. cbn [negb].
  destruct (Z.eqb_spec b ALL_ONES) as [Eb|_]; [unfold ALL_ONES in Eb; lia|]. cbn [negb].
  rewrite (rj_ba _ Hj). pose proof (rj_bs _ Hj).
  rewrite (wrap_small 64 (b * rw_min_bs (td_o td))) by (unfold is_word; nia). simpl.
  assert (Ei : io_size f' = io_size f) by by rewrite Ef.
  assert (Eo : file_offset f' = file_offset f) by by rewrite Ef.
  assert (Er : real_file_size f' = real_file_size f) by by rewrite Ef.
  rewrite Ei. destruct (Z.leb_spec (io_size f) (b * rw_min_bs (td_o td))) as [|Hlt]; simpl; [by split_and!|].
  rewrite Eo, Er, (wrap_small 64 (b * _ + _)) by (unfold is_word; nia).
  destruct (Z.leb_spec (real_file_size f) (b * rw_min_bs (td_o td) + file_offset f)); [by split_and!|].
  split; [done|]. split; [done|]. split; [done|]. split; [done|]. split; [done|]. intros _.
  exists b. simpl. split; [lia|]. split; [done|]. split; [lia|]. split; lia.
Qed.

Lemma buflen_word fuel td f u b td' : random_job (td_o td) ->
  __get_next_buflen fuel td f u = (Some b, td') -> 0 <= b < 2 ^ 32 /\ td_o td' = td_o td.
Proof.
  intros Hj. pose proof (rj_min _ Hj (iou_ddir u)). pose proof (rj_max _ Hj (iou_ddir u)).
  pose proof (rj_bs _ Hj). unfold __get_next_buflen.
  destruct (Z.eqb_spec (at2 (min_bs (td_o td)) (iou_ddir u)) (at2 (max_bs (td_o td)) (iou_ddir u))).
  { intros [= <- <-]. split; [lia|done]. }
  destruct (io_u_fits _ _ _ _); simpl; [|by intros [= <- <-]].
  destruct (buflen_loop _ _ _ _ _) as [[x|] g]; simpl; [|done]. intros [= <- <-].
  split; [|done]. by apply wrap_range.
Qed.

(** What one successful fill does: blocks [b .. b + n), all free before, are now
    busy, and the transfer lies in them and in the file. *)
Record filled (o : thread_options) (f f' : fio_file) (u : io_u) (b n : Z) : Prop := {
  fd_start : 0 <= b;
  fd_some : 0 < n;
  fd_off : iou_offset u = file_offset f + b * rw_min_bs o;
  fd_len : 0 <= iou_buflen u <= n * rw_min_bs o;
  fd_end : iou_offset u + iou_buflen u <= real_file_size f;
  fd_free : all_free f b n;
  fd_busy x : 0 <= x -> busy f' x = busy f x || ((b <=? x) && (x <? b + n));
  fd_file : job_file o f';
  fd_shape : same_shape f f' }.

Lemma mark_fills o f u b :
  random_job o -> job_file o f -> iou_busy_ok u = false -> 0 <= b -> busy f b = false ->
  iou_offset u = file_offset f + b * rw_min_bs o -> 0 < iou_buflen u < 2 ^ 32 ->
  iou_offset u + iou_buflen u <= real_file_size f ->
  exists f' u' n, mark_random_map o f u = Some (f', u') /\ filled o f f' u' b n /\ iou_ddir u' = iou_ddir u.
Proof.
  intros Hj Hf Hbk Hb Hfree Eo Hl He. pose proof (rj_bs _ Hj) as Hbs.
  pose proof (jf_rand _ _ Hf DDIR_READ eq_refl) as Hr. pose proof (rw_search _ _ _ Hr) as Hs.
  destruct (jf_real _ _ Hf), (jf_off _ _ Hf).
  set (bs := rw_min_bs o) in *.
  pose proof (rj_max _ Hj DDIR_READ) as Hmx. pose proof (rj_min _ Hj DDIR_READ). fold bs in Hmx.
  assert (Eblk : (iou_offset u - file_offset f) / bs = b).
  { rewrite Eo. replace (file_offset f + b * bs - file_offset f) with (b * bs) by lia.
    apply Z.div_mul. lia. }
  assert (Hup := round_up_bounds (iou_buflen u) bs Hbs). unfold round_up in Hup.
  assert (Hcov : b * bs + iou_buflen u <= 64 * num_maps f * bs)
    by (pose proof (sw_cover _ _ Hs) as Hc; fold bs in Hc; lia).
  assert (Hnr : (iou_buflen u + bs - 1) / bs <= 64 * num_maps f - b)
    by (apply Z.lt_succ_r, Z.div_lt_upper_bound; nia).
  assert (Hw : iou_wf o f u).
  { split; fold bs; [lia|unfold is_word; lia|lia|nia|]. rewrite Eblk. unfold iou_nr_blocks. fold bs.
    rewrite (wrap_small 64) by (unfold is_word; lia).
    assert (u32 ((iou_buflen u + bs - 1) / bs) <= (iou_buflen u + bs - 1) / bs); [|lia].
    apply Z.mod_le; [apply Z.div_pos; lia|lia]. }
  destruct (iou_block_plain o f u Hw) as (Eb & _ & En & _ & Hn). fold bs in Eb, En, Hn.
  rewrite Eblk in Eb.
  destruct (mark_random_map_spec o f u (sw_map _ _ Hs) Hw Hbk) as (f' & n & E & Hnn & M & F & Hstop).
  rewrite Eb in M, F, Hstop. fold bs in E.
  assert (Hn0 : 0 < n).
  { destruct (Z.eq_dec n 0) as [->|]; [|lia]. rewrite Z.add_0_r in Hstop.
    rewrite Hfree in Hstop. discriminate Hstop. nia. }
  eexists f', _, n. split; [exact E|].
  assert (Hu32 : 0 <= u32 (n * bs) <= n * bs)
    by (split; [apply Z.mod_pos_bound; lia|apply Z.mod_le; nia]).
  split.
  - pose proof M as [_ (E1 & E2 & E3 & _ & _ & E4 & _) MB].
    destruct (Z.ltb_spec (u32 (n * bs)) (iou_buflen u)); split; simpl; fold bs; try done; try lia;
      try (by eapply marked_kept).
  - by destruct (u32 (n * bs) <? iou_buflen u).
Qed.

Lemma fill_random fuel td f u :
  random_job (td_o td) -> job_file (td_o td) f -> td_ddir_seq_nr td = 1 ->
  iou_busy_ok u = false -> ops_noio td = false ->
  match fill_io_u flush elapsed fuel td f u with
  | Filled td' f' u' =>
      if ddir_rw (iou_ddir u') then exists b n, filled (td_o td) f f' u' b n else f' = f
  | FillFailed _ f' _ => searched f f'
  | FillAssert => False
  | FillDiverges => True
  end.
Proof using H0 Hflush.
  intros Hj Hf Hs Hbk Hn. unfold fill_io_u. rewrite Hn.
  pose proof (set_rw_ddir_keeps td u) as K.
  destruct (set_rw_ddir flush elapsed td u) as [td1 u1]. destruct K as (Eo & Es & Eb).
  destruct (ddir_rw (iou_ddir u1)) eqn:Ed; simpl; [|by rewrite Ed].
  unfold switch_zone. rewrite Eo, (rj_zone _ Hj), andb_false_r.
  pose proof (next_offset_random td1 f u1 ltac:(by rewrite Eo) ltac:(by rewrite Eo)
                ltac:(by rewrite Es) Ed) as S.
  destruct (__get_next_offset td1 f u1) as [[[ok td2] f2] u2].
  destruct S as (Eo2 & Es2 & Hsr & Eb2 & Ed2 & S). rewrite Eo in *.
  destruct ok; simpl; [|done]. destruct (S eq_refl) as (b & Hb & Hfree & Eoff & Hio & Hreal).
  destruct (__get_next_buflen fuel td2 f2 u2) as [[len|] td3] eqn:El; [|done].
  apply buflen_word in El as [Hlen Eo3]; [|by rewrite Eo2].
  destruct (Z.eqb_spec len 0) as [|Hlen0]; [done|].
  pose proof Hsr as (a & c & Ha & Ef2).
  assert (Er : real_file_size f2 = real_file_size f) by by rewrite Ef2.
  destruct (jf_real _ _ Hf). destruct (jf_off _ _ Hf). pose proof (rj_bs _ Hj).
  rewrite Er, wrap_small by (unfold is_word; simpl; nia).
  destruct (Z.ltb_spec (real_file_size f) (iou_offset u2 + len)) as [|Hend]; [done|].
  rewrite Eo3, Eo2. unfold fill_mark.
  assert (Eu : file_randommap (td_o td) f2 = true)
    by (rewrite Ef2; exact (rw_uses_map _ _ _ (jf_rand _ _ Hf DDIR_READ eq_refl))).
  rewrite (rj_random _ Hj), Eu, (rj_once _ Hj), (rj_map _ Hj). simpl.
  destruct (mark_fills (td_o td) f2 (u2 <| iou_buflen := len |>) b Hj (searched_kept _ _ _ Hf Hsr))
    as (f' & u' & n & E & Hfd & Ed'); simpl; try done; try lia.
  { by rewrite Eb2, Eb. }
  { by rewrite (searched_busy f f2). }
  { by rewrite Ef2. }
  rewrite E. simpl. rewrite Ed'. simpl. rewrite Ed2, Ed. exists b, n.
  destruct Hfd as [? ? Ho ? He Hfr Hbb ? Hsh]. rewrite Ef2 in *. by split.
Qed.

(** ** Runs *)

(** [run o f ls f']: from [f], the transfers [ls] (offset, length) were filled and
    the file is now [f'].  [run_book] is what [get_io_u] does to the file after a
    fill. *)
Inductive run (o : thread_options) (f : fio_file) : list (Z * Z) -> fio_file -> Prop :=
  | run_start : run o f [] f
  | run_book ls f1 pos start : run o f ls f1 ->
      run o f ls (f1 <| last_pos := pos |> <| last_start := start |>)
  | run_other ls f1 fuel td u td' f2 u' : run o f ls f1 ->
      td_o td = o -> td_ddir_seq_nr td = 1 -> iou_busy_ok u = false -> ops_noio td = false ->
      fill_io_u flush elapsed fuel td f1 u = Filled td' f2 u' -> ddir_rw (iou_ddir u') = false ->
      run o f ls f2
  | run_failed ls f1 fuel td u td' f2 u' : run o f ls f1 ->
      td_o td = o -> td_ddir_seq_nr td = 1 -> iou_busy_ok u = false -> ops_noio td = false ->
      fill_io_u flush elapsed fuel td f1 u = FillFailed td' f2 u' -> run o f ls f2
  | run_fill ls f1 fuel td u td' f2 u' : run o f ls f1 ->
      td_o td = o -> td_ddir_seq_nr td = 1 -> iou_busy_ok u = false -> ops_noio td = false ->
      fill_io_u flush elapsed fuel td f1 u = Filled td' f2 u' -> ddir_rw (iou_ddir u') = true ->
      run o f ((iou_offset u', iou_buflen u') :: ls) f2.

(** No byte belongs to both transfers. *)
Definition disjoint (x y : Z * Z) : Prop :=
  forall p, ~ (fst x <= p < fst x + snd x /\ fst y <= p < fst y + snd y).

(** Every block a transfer touches is busy. *)
Definition covered (o : thread_options) (f : fio_file) (x : Z * Z) : Prop :=
  exists b n, 0 <= b /\ fst x = file_offset f + b * rw_min_bs o /\ 0 <= snd x <= n * rw_min_bs o /\
    forall y, b <= y < b + n -> busy f y = true.

(** No block that is busy shares a byte with a transfer. *)
Definition avoids_busy (o : thread_options) (f : fio_file) (x : Z * Z) : Prop :=
  forall b, 0 <= b -> busy f b = true -> disjoint x (file_offset f + b * rw_min_bs o, rw_min_bs o).

Lemma covered_mono o f f' x : file_offset f' = file_offset f ->
  (forall y, 0 <= y -> busy f y = true -> busy f' y = true) -> covered o f x -> covered o f' x.
Proof.
  intros E Hm (b & n & Hb & Ho & Hl & Hy). exists b, n. rewrite E. split_and!; try done; try lia.
  intros y Hyy. apply Hm; [lia|by apply Hy].
Qed.

Lemma filled_disjoint o f f' u b n x : 0 < rw_min_bs o -> filled o f f' u b n -> covered o f x ->
  disjoint (iou_offset u, iou_buflen u) x.
Proof.
  intros Hbs [Hb Hn Eo Hl _ Hfree _ _ _] (c & m & Hc & Ec & Hm & Hbusy) p [Hp1 Hp2].
  simpl in Hp1. rewrite Eo in Hp1. rewrite Ec in Hp2.
  set (y := (p - file_offset f) / rw_min_bs o).
  assert (Hy : b <= y < b + n /\ c <= y < c + m).
  { unfold y. split; split; try (apply Z.div_le_lower_bound; lia); apply Z.div_lt_upper_bound; nia. }
  specialize (Hfree y ltac:(lia)). rewrite Hbusy in Hfree by lia. done.
Qed.

(** What holds along a run. *)
Record run_inv (o : thread_options) (f : fio_file) (ls : list (Z * Z)) (f' : fio_file) : Prop := {
  ri_file : job_file o f';
  ri_shape : same_shape f f';
  ri_mono y : 0 <= y -> busy f y = true -> busy f' y = true;
  ri_cov : Forall (covered o f') ls;
  ri_in : Forall (fun x => file_offset f <= fst x /\ 0 <= snd x /\ fst x + snd x <= real_file_size f) ls;
  ri_free : Forall (avoids_busy o f) ls;
  ri_disj : ForallOrdPairs disjoint ls }.

(** A change of the file that keeps its blocks keeps the invariant. *)
Lemma run_inv_keeps o f ls f1 f2 : run_inv o f ls f1 -> job_file o f2 -> same_shape f1 f2 ->
  (forall y, busy f2 y = busy f1 y) -> run_inv o f ls f2.
Proof.
  intros [Hf Hs Hm Hc Hi Hfr Hd] Hf2 Hs2 Hb. split; try done.
  - destruct Hs as (? & ? & ? & ?), Hs2 as (? & ? & ? & ?). repeat split; congruence.
  - intros y ? ?. rewrite Hb. auto.
  - eapply Forall_impl; [|exact Hc]. intros x. apply covered_mono; [apply Hs2|].
    intros y _. by rewrite Hb.
Qed.

Lemma searched_shape f f' : searched f f' -> same_shape f f'.
Proof. by intros (a & c & _ & ->). Qed.

Lemma run_inv_fill o f ls f1 f2 u b n : 0 < rw_min_bs o -> run_inv o f ls f1 -> filled o f1 f2 u b n ->
  run_inv o f ((iou_offset u, iou_buflen u) :: ls) f2.
Proof.
  intros Hbs [Hf Hs Hm Hc Hi Hfr Hd] Hfd. pose proof Hfd as [Hb Hn Eo Hl He Hfree Hbz Hf2 Hs2].
  destruct Hs as (E1 & E2 & E3 & E4), Hs2 as (F1 & F2 & F3 & F4).
  assert (Hm2 : forall y, 0 <= y -> busy f1 y = true -> busy f2 y = true)
    by (intros y Hy E; by rewrite Hbz, E).
  split; [done|repeat split; congruence|auto| | | |].
  - constructor.
    + exists b, n. simpl. rewrite F2. split_and!; try done; try lia.
      intros y Hy. rewrite Hbz by lia. zbit_split.
    + eapply Forall_impl; [|exact Hc]. intros x. by apply covered_mono.
  - constructor; [|done]. simpl. nia.
  - constructor; [|done]. intros y Hy Ey. rewrite <- E2. eapply filled_disjoint; [done|done|]. exists y, 1. cbn [fst snd].
    split_and!; try lia; try done. intros z Hz. replace z with y by lia. by apply Hm.
  - constructor; [|done]. eapply Forall_impl; [|exact Hc]. intros x. by eapply filled_disjoint.
Qed.

Lemma run_invariant o f ls f' : random_job o -> job_file o f -> run o f ls f' -> run_inv o f ls f'.
Proof using H0 Hflush.
  intros Hj Hf Hrun. pose proof (rj_bs _ Hj) as Hbs.
  induction Hrun as [|ls f1 pos start _ IH|ls f1 fuel td u td' f2 u' _ IH Eo Es Ek En E Ed
    |ls f1 fuel td u td' f2 u' _ IH Eo Es Ek En E|ls f1 fuel td u td' f2 u' _ IH Eo Es Ek En E Ed].
  - split; try done; constructor.
  - apply (run_inv_keeps o f ls f1); try done.
    apply (job_file_kept o f1); [apply IH|done| |].
    + destruct (sw_map _ _ (rw_search _ _ _ (jf_rand _ _ (ri_file _ _ _ _ IH) DDIR_READ eq_refl))).
      by split.
    + exact (sw_pos _ _ (rw_search _ _ _ (jf_rand _ _ (ri_file _ _ _ _ IH) DDIR_READ eq_refl))).
  - subst o. pose proof (fill_random fuel td f1 u Hj (ri_file _ _ _ _ IH) Es Ek En) as S.
    rewrite E, Ed in S. by subst f2.
  - subst o. pose proof (fill_random fuel td f1 u Hj (ri_file _ _ _ _ IH) Es Ek En) as S.
    rewrite E in S. apply (run_inv_keeps _ f ls f1); try done.
    + by eapply searched_kept; [apply IH|].
    + by apply searched_shape.
    + intros y. by apply searched_busy.
  - subst o. pose proof (fill_random fuel td f1 u Hj (ri_file _ _ _ _ IH) Es Ek En) as S.
    rewrite E, Ed in S. destruct S as (b & n & S). by eapply run_inv_fill.
Qed.

(** C1: Along any run of a random job that keeps a map ([random_job]: a new random
    offset for every transfer, no zones, no time limit that makes it start over, offsets
    aligned to the smallest block), whatever the generator, the thread state at each call
    and the lengths drawn: no byte of the file is transferred twice, every transfer lies
    in the file, no transfer touches a block that was busy at the start, and the blocks
    of every transfer are busy at the end. *)
Theorem random_run_never_repeats o f ls f' :
  random_job o -> job_file o f -> run o f ls f' ->
  ForallOrdPairs disjoint ls /\
  Forall (fun x => file_offset f <= fst x /\ 0 <= snd x /\ fst x + snd x <= real_file_size f) ls /\
  Forall (avoids_busy o f) ls /\ Forall (covered o f') ls.
Proof using H0 Hflush.
  intros Hj Hf Hr. destruct (run_invariant o f ls f' Hj Hf Hr). by split_and!.
Qed.
End job.

Definition job_td : thread_data Rand.frand_state :=
  {| td_o := test_options; random_state := Rand.init_rand; bsrange_state := Rand.init_rand;
     rwmix_state := Rand.init_rand; td_ddir_seq_nr := 1; io_issues := (0, 0); rwmix_issues := 0;
     rwmix_ddir := DDIR_READ; rate_pending_usleep := (0, 0); sync_file_range_nr := 0;
     zone_bytes := 0; io_skip_bytes := 0; io_hist_len := 0; last_was_sync := false;
     ops_noio := false; ops_barrier := false; iolog_f := None |}.

Lemma test_random_job : random_job test_options.
Proof. split; try done; intros []; done. Defined.
Lemma test_job_file : job_file test_options test_file.
Proof. split; try done. intros [] ?; try done; split; try done; split; try done; exact test_file_wf. Defined.

Definition fst_fill {G} (r : @fill_result G) : option (thread_data G * fio_file * io_u) :=
  match r with Filled td f u => Some (td, f, u) | _ => None end.

Definition first_fill := Eval vm_compute in
  default (job_td, test_file, test_io_u)
    (fst_fill (fill_io_u (H := test_source) id id 1 job_td test_file test_io_u)).
Definition second_fill := Eval vm_compute in
  default (job_td, test_file, test_io_u)
    (fst_fill (fill_io_u (H := test_source) id id 1 first_fill.1.1 first_fill.1.2 test_io_u)).

Lemma first_fill_eq : fill_io_u (H := test_source) id id 1 job_td test_file test_io_u
  = Filled first_fill.1.1 first_fill.1.2 first_fill.2.
Proof. vm_compute. reflexivity. Qed.
Lemma second_fill_eq : fill_io_u (H := test_source) id id 1 first_fill.1.1 first_fill.1.2 test_io_u
  = Filled second_fill.1.1 second_fill.1.2 second_fill.2.
Proof. vm_compute. reflexivity. Qed.

Lemma random_run_never_repeats_witness :
  disjoint (iou_offset second_fill.2, iou_buflen second_fill.2)
           (iou_offset first_fill.2, iou_buflen first_fill.2).
Proof.
  assert (R1 : run (H := test_source) id id test_options test_file
                [(iou_offset first_fill.2, iou_buflen first_fill.2)] first_fill.1.2)
    by exact (run_fill (H := test_source) id id test_options test_file [] test_file 1 job_td test_io_u
                _ _ _ (run_start id id test_options test_file) eq_refl eq_refl eq_refl eq_refl
                first_fill_eq eq_refl).
  pose proof (run_fill (H := test_source) id id test_options test_file _ first_fill.1.2 1 first_fill.1.1
                test_io_u _ _ _ R1 eq_refl eq_refl eq_refl eq_refl second_fill_eq eq_refl) as R.
  pose proof (proj1 (random_run_never_repeats (H := test_source) id id (fun td => conj eq_refl eq_refl)
                       test_options test_file _ _ test_random_job test_job_file R)) as D.
  inversion D as [|x l D1 D2]. exact (Forall_inv D1).
Defined.

(** ** Stopping early *)

(** 150 blocks in three map words, of which only block 0 is still free. *)
Definition almost_full : fio_file :=
  {| real_file_size := 614400; file_offset := 0; io_size := 614400; last_pos := 0;
     last_start := ALL_ONES; file_pos := ALL_ONES;
     file_map := Some [ALL_ONES - 1; ALL_ONES; 2 ^ 22 - 1]; file_map2 := None;
     num_maps := 3; last_free_lookup := 0; failed_rands := 0 |}.

(** A random job can give a file up although a block of it was never visited:
    the search started at a random map word runs over the end of the file, accepts
    the bit one past the last block as a free block (the comparison with the last
    block is strict), and the offset is then rejected.  Here, with the generator's
    own numbers from the default seed, [fill_io_u] fails while block 0 is free. *)
Theorem random_job_stops_early :
  random_job test_options /\ job_file test_options almost_full /\
  busy almost_full 0 = false /\ within test_options almost_full 0 /\
  exists td' f' u', fill_io_u (H := test_source) id id 1 job_td almost_full test_io_u = FillFailed td' f' u'.
Proof.
  split; [exact test_random_job|]. split.
  { assert (M : map_wf almost_full).
    { split; [|done]. eexists. split; [done|]. split; [done|]. repeat constructor; done. }
    split; try done. intros [] ?; try done; split; try done; split; try done. }
  split; [done|]. split; [done|]. vm_compute. by do 3 eexists.
Qed.

(** ** Transfers stay in the file, for every kind of job *)
Section in_file.
Context {G : Type} `{RandSource G}.
Context (flush : thread_data G -> thread_data G) (elapsed : Z -> Z).
Implicit Types td : thread_data G.

Abbreviation keeps_size f f' := (real_file_size f' = real_file_size f).

Lemma free_block_loop_size fuel o f lastb : forall i block,
  keeps_size f (snd (free_block_loop fuel o f lastb i block)).
Proof.
  induction fuel as [|fuel IH]; intros i block; simpl; [done|].
  destruct (_ && _); [|done]. destruct (negb _); [|by apply IH]. by destruct (lastb <? _).
Qed.

Lemma get_next_free_block_size o f d : keeps_size f (snd (get_next_free_block o f d)).
Proof. unfold get_next_free_block. destruct (_ =? 0); [done|]. apply free_block_loop_size. Qed.

Lemma exhaustive_size o f d : keeps_size f (snd (exhaustive o f d)).
Proof.
  unfold exhaustive. pose proof (get_next_free_block_size o f d) as E.
  destruct (get_next_free_block o f d) as [[b|] f1]; [done|]. simpl in E. rewrite <- E.
  apply (get_next_free_block_size o (set_last_free_lookup 0 f1) d).
Qed.

Lemma probe_loop_size loops o d : forall f r g, keeps_size f (snd (fst (probe_loop loops o f d r g))).
Proof.
  induction loops as [|loops IH]; intros f r g; cbn [probe_loop]; [done|].
  set (f0 := set_last_free_lookup _ f). pose proof (get_next_free_block_size o f0 d) as E.
  destruct (get_next_free_block o f0 d) as [[b|] f1]; [done|]. simpl in E.
  destruct (rs_draw _ _) as [r' g']. by rewrite IH, E.
Qed.

Lemma get_next_rand_offset_size o f d g : keeps_size f (snd (fst (get_next_rand_offset o f d g))).
Proof.
  unfold get_next_rand_offset. destruct (_ =? 0); [done|]. destruct (200 <=? _).
  { pose proof (exhaustive_size o f d). by destruct (exhaustive o f d). }
  destruct (draw_loop 5 o f _ 0 g) as [[[b|] r] g']; [done|].
  set (f1 := (if failed_rands f =? 0 then _ else _) <| failed_rands ::= _ |>).
  assert (E1 : keeps_size f f1) by (unfold f1; by destruct (failed_rands f =? 0)). clearbody f1.
  pose proof (probe_loop_size 10 o d f1 r g') as E2.
  destruct (probe_loop 10 o f1 d r g') as [[[b|] f2] g2]; simpl in E2 |- *; [congruence|].
  pose proof (exhaustive_size o (set_last_free_lookup 0 f2) d) as E3. simpl in E3.
  destruct (exhaustive o _ d) as [b f3]. simpl in *. congruence.
Qed.

Lemma get_next_rand_block_size hist o f d g : keeps_size f (snd (fst (get_next_rand_block hist o f d g))).
Proof.
  unfold get_next_rand_block. pose proof (get_next_rand_offset_size o f d g) as E.
  destruct (get_next_rand_offset o f d g) as [[[b|] f1] g1]; [done|]. destruct (time_based o); [|done].
  pose proof (get_next_rand_offset_size o (fio_file_reset hist f1) d g1) as E2. simpl in E, E2.
  destruct (get_next_rand_offset o _ d g1) as [[[b|] f2] g2]; simpl in *; congruence.
Qed.

Lemma get_next_seq_offset_size o f : keeps_size f (snd (get_next_seq_offset o f)).
Proof.
  unfold get_next_seq_offset.
  set (f1 := if (_ <=? _) && _ then _ else f).
  assert (E : keeps_size f f1) by (unfold f1; by destruct (_ && _)). clearbody f1.
  destruct (_ <? _); [|exact E]. cbn [snd]. destruct (_ && _); exact E.
Qed.

(** [get_next_block] changes nothing of the io_u but its offset and flag, and
    nothing of the thread but its generator. *)
Lemma get_next_block_keeps td f u d hit :
  let '(ok, td', f', u') := get_next_block td f u d hit in
  keeps_size f f' /\ td_o td' = td_o td /\ iou_ddir u' = iou_ddir u.
Proof.
  unfold get_next_block.
  pose proof (get_next_rand_block_size (io_hist_len td) (td_o td)) as ER.
  pose proof (get_next_seq_offset_size (td_o td)) as ES.
  destruct hit; [destruct (td_random (td_o td))|destruct (rw_seq (td_o td))].
  - specialize (ER f d (random_state td)).
    destruct (get_next_rand_block _ _ _ _ _) as [[[b|] f1] g]; simpl in *; [|done].
    by destruct (pick_offset _ _ _).
  - specialize (ES f). destruct (get_next_seq_offset _ f) as [[x|] f1]; simpl in *; [|done].
    by destruct (pick_offset _ _ _).
  - specialize (ES f). destruct (get_next_seq_offset _ f) as [[x|] f1]; simpl in *.
    { by destruct (pick_offset _ _ _). }
    specialize (ER f1 d (random_state td)).
    destruct (get_next_rand_block _ _ _ _ _) as [[[b|] f2] g]; simpl in *; [|split; [congruence|done]].
    destruct (pick_offset _ _ _); simpl; (split; [congruence|done]).
  - by destruct (pick_offset _ _ _).
  - done.
Qed.

Lemma get_next_offset_in td f u :
  let '(ok, td', f', u') := __get_next_offset td f u in
  keeps_size f f' /\ td_o td' = td_o td /\ iou_ddir u' = iou_ddir u /\
  (ok = true -> 0 <= iou_offset u' < real_file_size f).
Proof.
  unfold __get_next_offset.
  match goal with |- context [if negb (ddir_seq_nr ?o =? 0) then ?x else ?y] =>
    set (p := if negb (ddir_seq_nr o =? 0) then x else y) end.
  assert (Ep : td_o (snd p) = td_o td)
    by (unfold p; destruct (negb _); [|done]; by destruct (_ =? 0)).
  destruct p as [hit td1]. simpl in Ep. pose proof (get_next_block_keeps td1 f u (iou_ddir u) hit) as K.
  destruct (get_next_block td1 f u (iou_ddir u) hit) as [[[ok td2] f2] u2].
  destruct K as (E1 & E2 & E3). rewrite Ep in E2. destruct ok; simpl; [|by split_and!].
  destruct (_ <=? iou_offset u2); [by split_and!|].
  destruct (Z.leb_spec (real_file_size f2) (u64 (iou_offset u2 + file_offset f2))); [by split_and!|].
  split_and!; try done. intros _. rewrite <- E1. simpl.
  pose proof (wrap_range 64 (iou_offset u2 + file_offset f2) ltac:(lia)) as Hw. unfold is_word in Hw. lia.
Qed.

Lemma mark_random_loop_size fuel o : forall f block nr blocks f' n,
  mark_random_loop fuel o f block nr blocks = Some (f', n) -> keeps_size f f'.
Proof.
  induction fuel as [|fuel IH]; intros f block nr blocks f' n; cbn [mark_random_loop];
    [by intros [= <- <-]|].
  destruct (_ =? 0); [by intros [= <- <-]|]. destruct (_ && _); [by intros [= <- <-]|].
  destruct (negb _); [done|]. destruct (_ =? 0); [by intros [= <- <-]|].
  intros E%IH. exact E.
Qed.

Lemma mark_bit_loop_size fuel : forall f u block nr f' u',
  mark_bit_loop fuel f u block nr = Some (f', u') ->
  keeps_size f f' /\ iou_offset u' = iou_offset u /\ iou_buflen u' = iou_buflen u /\ iou_ddir u' = iou_ddir u.
Proof.
  induction fuel as [|fuel IH]; intros f u block nr f' u'; cbn [mark_bit_loop];
    [by intros [= <- <-]|].
  destruct (_ =? 0); [by intros [= <- <-]|]. destruct (negb _); [done|].
  intros E%IH. revert E. simpl. by destruct (_ =? 0).
Qed.

(** Marking keeps the offset and never lengthens the transfer. *)
Lemma fill_mark_keeps o f u f' u' : 0 <= iou_buflen u -> fill_mark o f u = Some (f', u') ->
  keeps_size f f' /\ iou_offset u' = iou_offset u /\ 0 <= iou_buflen u' <= iou_buflen u /\
  iou_ddir u' = iou_ddir u.
Proof.
  intros Hl. unfold fill_mark.
  assert (M : forall f1 u1, (if td_random o && file_randommap o f && negb (randomagain_opt o)
      then mark_random_map o f u else Some (f, u)) = Some (f1, u1) ->
    keeps_size f f1 /\ iou_offset u1 = iou_offset u /\ 0 <= iou_buflen u1 <= iou_buflen u /\
    iou_ddir u1 = iou_ddir u).
  { intros f1 u1. destruct (_ && _); [|intros [= <- <-]; split_and!; done || lia].
    unfold mark_random_map.
    destruct (iou_busy_ok u).
    - destruct (_ <? iou_buflen u) eqn:E; intros [= <- <-]; split_and!; simpl; try done; try lia;
        first [by apply wrap_range|apply Z.ltb_lt in E; lia].
    - destruct (mark_random_loop _ _ _ _ _ _) as [[f2 n]|] eqn:L; [|done].
      apply mark_random_loop_size in L.
      destruct (_ <? iou_buflen u) eqn:E; intros [= <- <-]; split_and!; simpl; try done; try lia;
        first [by apply wrap_range|apply Z.ltb_lt in E; lia]. }
  destruct (if td_random o && _ && _ then _ else _) as [[f1 u1]|]; [|done].
  destruct (M f1 u1 eq_refl) as (E1 & E2 & [E3 E3'] & E4).
  destruct (randomagain_opt o).
  - unfold mark_bit_map. destruct (iou_busy_ok u1); [intros [= <- <-]; unfold set_iou_randomagain; simpl; by split_and!|].
    intros (F1 & F2 & F3 & F4)%mark_bit_loop_size. rewrite F1, F2, F3, F4. by split_and!.
  - destruct (norandommap o); intros [= <- <-]; unfold set_iou_randomagain; simpl; by split_and!.
Qed.

(** C13: For every kind of job (sequential or random, with or without a map, zones,
    block size ranges or splits), a read or write that [fill_io_u] accepts ends at
    or before the end of the file. *)
Theorem filled_transfer_in_file fuel td f u td' f' u' :
  (forall t, td_o (flush t) = td_o t) ->
  (forall d, is_word 32 (at2 (min_bs (td_o td)) d)) -> 0 <= real_file_size f < 2 ^ 63 ->
  ops_noio td = false -> fill_io_u flush elapsed fuel td f u = Filled td' f' u' ->
  ddir_rw (iou_ddir u') = true ->
  0 <= iou_offset u' /\ 0 <= iou_buflen u' /\ iou_offset u' + iou_buflen u' <= real_file_size f'.
Proof.
  intros Hfl Hmin Hreal Hn E Hrw. unfold fill_io_u in E. rewrite Hn in E.
  pose proof (set_rw_ddir_proj flush elapsed td_o ltac:(done) ltac:(done) ltac:(done) ltac:(done) Hfl td u) as Eo.
  destruct (set_rw_ddir flush elapsed td u) as [td1 u1]. simpl in Eo.
  destruct (ddir_rw (iou_ddir u1)) eqn:Ed; simpl in E; [|injection E as _ _ <-; by rewrite Ed in Hrw].
  destruct (switch_zone td1 f) as [td2 f2] eqn:Ez.
  assert (keeps_size f f2 /\ td_o td2 = td_o td1) as [Es2 Eo2]
    by (revert Ez; unfold switch_zone; destruct (_ && _); by intros [= <- <-]).
  pose proof (get_next_offset_in td2 f2 u1) as K.
  destruct (__get_next_offset td2 f2 u1) as [[[ok td3] f3] u3]. destruct K as (Es3 & Eo3 & _ & Hoff).
  destruct ok; simpl in E; [|done]. specialize (Hoff eq_refl).
  destruct (__get_next_buflen fuel td3 f3 u3) as [[len|] td4] eqn:El; [|done].
  assert (Hlen : is_word 32 len).
  { revert El. unfold __get_next_buflen. rewrite Eo3, Eo2, Eo.
    destruct (at2 _ _ =? at2 _ _); [intros E1; simplify_eq; apply Hmin|].
    destruct (negb (io_u_fits _ _ _ _)); [intros E1; by simplify_eq|].
    destruct (buflen_loop _ _ _ _ _) as [[x|] g]; simpl; [|done]. intros E1. simplify_eq.
    by apply wrap_range. }
  unfold is_word in Hlen. destruct (len =? 0); [done|].
  rewrite (wrap_small 64 (iou_offset u3 + len)) in E by (unfold is_word; simpl; lia).
  destruct (Z.ltb_spec (real_file_size f3) (iou_offset u3 + len)); [done|].
  destruct (fill_mark _ _ _) as [[f4 u4]|] eqn:Em; [|done]. injection E as _ <- <-.
  apply fill_mark_keeps in Em as (F1 & F2 & F3 & _); [|simpl; lia]. simpl in *. lia.
Qed.
End in_file.

Lemma filled_transfer_in_file_witness :
  0 <= iou_offset first_fill.2 /\ 0 <= iou_buflen first_fill.2 /\
  iou_offset first_fill.2 + iou_buflen first_fill.2 <= 40960.
Proof.
  apply (filled_transfer_in_file (H := test_source) id id 1 job_td test_file test_io_u
           first_fill.1.1 first_fill.1.2 first_fill.2); try done.
  intros []; done.
Defined.

End RandJob.
