(* ===== verification/Buckets.v ===== *)
(** * Latency and depth buckets ([src/stat.c], [src/stat.h], [src/io_u.c])

    The logarithmic histogram behind the completion latency percentiles, the
    percentile computation over it, and the fixed tables of submission depth,
    completion depth, queue depth and latency ranges. *)
From S2P Require Import Prelude.
From Stdlib Require Import QArith Lqa.
From stdpp Require Import sorting.
Local Open Scope Z_scope.
Local Open Scope word_scope.

Module Buckets.

(** ** The percentile histogram *)
Definition FIO_IO_U_PLAT_BITS : Z := 6.
Definition FIO_IO_U_PLAT_VAL : Z := 1 .<< FIO_IO_U_PLAT_BITS.
Definition FIO_IO_U_PLAT_GROUP_NR : Z := 19.
Definition FIO_IO_U_PLAT_NR : Z := FIO_IO_U_PLAT_GROUP_NR * FIO_IO_U_PLAT_VAL.

(** [val] is an [unsigned int]; [msb] is the position of its highest bit. *)
Definition plat_val_to_idx (val : Z) : Z :=
  let msb := if val =? 0 then 0 else Z.log2 val in
  if msb <=? FIO_IO_U_PLAT_BITS then val else
  let error_bits := msb - FIO_IO_U_PLAT_BITS in
  let base := (error_bits + 1) .<< FIO_IO_U_PLAT_BITS in
  let offset := (FIO_IO_U_PLAT_VAL - 1) .& (val .>> error_bits) in
  if base + offset <? FIO_IO_U_PLAT_NR - 1 then base + offset else FIO_IO_U_PLAT_NR - 1.

(** [None] is the failed assertion.  The mean of a bucket is computed in double
    precision, [(k + 0.5) * (1 << error_bits)], an integer since [error_bits > 0]. *)
Definition plat_idx_to_val (idx : Z) : option Z :=
  if negb (idx <? FIO_IO_U_PLAT_NR) then None else
  if idx <? FIO_IO_U_PLAT_VAL .<< 1 then Some idx else
  let error_bits := (idx .>> FIO_IO_U_PLAT_BITS) - 1 in
  let base := 1 .<< (error_bits + FIO_IO_U_PLAT_BITS) in
  let k := idx mod FIO_IO_U_PLAT_VAL in
  Some (u32 (base + (2 * k + 1) * 2 ^ error_bits / 2)).

(** [add_clat_percentile_sample]: one more sample in the bucket of [usec]
    (an [unsigned long] converted to [unsigned int]). *)
Definition add_clat_percentile_sample (io_u_plat : list Z) (usec : Z) : list Z :=
  let idx := plat_val_to_idx (u32 usec) in
  <[Z.to_nat idx := u32 (tget io_u_plat idx + 1)]> io_u_plat.

(** ** Percentiles

    A [double] is the rational number it stands for, and [fl] rounds the exact result
    of an operation, or an [unsigned long], to a [double]. *)
Definition FIO_IO_U_LIST_MAX_LEN : nat := 20.

(** The scan for the length: [while (len < FIO_IO_U_LIST_MAX_LEN && plist[len] != 0.0)]. *)
Fixpoint plist_len (fuel : nat) (plist : list Q) : nat :=
  match fuel, plist with
  | S fuel, p :: plist => if Qeq_bool p 0 then O else S (plist_len fuel plist)
  | _, _ => O
  end.

Definition double_cmp (fa fb : Q) : Z :=
  if negb (Qle_bool fa fb) then 1 else if negb (Qle_bool fb fa) then -1 else 0.
(** [qsort] with [double_cmp] on the first [len] entries. *)
Definition cmp_ordered (fa fb : Q) : Prop := double_cmp fa fb <= 0.
#[export] Instance cmp_ordered_dec : RelDecision cmp_ordered := fun fa fb => Z_le_dec (double_cmp fa fb) 0.
Definition sort_plist (len : nat) (plist : list Q) : list Q :=
  if (1 <? len)%nat then merge_sort cmp_ordered (take len plist) ++ drop len plist else plist.

Section percentiles.
Context (fl : Q -> Q).

(** [plist[j].u.f / 100.0 * nr], and [sum >= plist[j].u.f / 100.0 * nr]. *)
Definition percentile_mark (p : Q) (nr : Z) : Q := fl (fl (p / 100) * fl (inject_Z nr)).
Definition reached (plist : list Q) (nr : Z) (j : nat) (sum : Z) : bool :=
  Qle_bool (percentile_mark (nth j plist 0%Q) nr) (fl (inject_Z sum)).

Context (plist : list Q) (nr : Z) (len : nat).

(** The inner loop at bucket [i]: the values recorded (in order), the next
    percentile, and [is_last].  [None] is a failed assertion. *)
Fixpoint record_percentiles (fuel : nat) (i sum : Z) (j : nat) (ovals : list Z)
  : option (list Z * nat * bool) :=
  match fuel with
  | O => Some (ovals, j, false)
  | S fuel =>
      if reached plist nr j sum then
        if negb (Qle_bool (nth j plist 0%Q) 100) then None else
        match plat_idx_to_val i with
        | None => None
        | Some v =>
            if (j =? len - 1)%nat then Some (ovals ++ [v], j, true)
            else record_percentiles fuel i sum (S j) (ovals ++ [v])
        end
      else Some (ovals, j, false)
  end.

Fixpoint percentile_loop (plat : list Z) (i sum : Z) (j : nat) (ovals : list Z) : option (list Z) :=
  match plat with
  | [] => Some ovals
  | n :: plat =>
      let sum := u64 (sum + n) in
      match record_percentiles (S len) i sum j ovals with
      | None => None
      | Some (ovals, j, true) => Some ovals
      | Some (ovals, j, false) => percentile_loop plat (i + 1) sum j ovals
      end
  end.
End percentiles.

(** The list as [qsort] leaves it, the values computed, and their minimum and maximum
    ([-1U] and 0 when there is none). *)
Definition calc_clat_percentiles (fl : Q -> Q) (io_u_plat : list Z) (nr : Z) (plist : list Q)
    : option (list Q * list Z * Z * Z) :=
  let len := plist_len FIO_IO_U_LIST_MAX_LEN plist in
  if (len =? 0)%nat then Some (plist, [], 2 ^ 32 - 1, 0) else
  let plist := sort_plist len plist in
  ovals ← percentile_loop fl plist nr len io_u_plat 0 0 0 [];
  Some (plist, ovals, foldl Z.min (2 ^ 32 - 1) ovals, foldl Z.max 0 ovals).

(** ** Depth and latency tables ([src/io_u.c]) *)
Definition bump (map : list Z) (idx n : Z) : list Z :=
  <[Z.to_nat idx := u32 (tget map idx + n)]> map.

Definition mark_map_idx (nr : Z) : Z :=
  if nr =? 0 then 0
  else if (1 <=? nr) && (nr <=? 4) then 1
  else if (5 <=? nr) && (nr <=? 8) then 2
  else if (9 <=? nr) && (nr <=? 16) then 3
  else if (17 <=? nr) && (nr <=? 32) then 4
  else if (33 <=? nr) && (nr <=? 64) then 5
  else 6.
Definition __io_u_mark_map (map : list Z) (nr : Z) : list Z := bump map (mark_map_idx nr) 1.

(** A histogram and the total kept beside it. *)
Definition io_u_mark_submit (submit : list Z * Z) (nr : Z) : list Z * Z :=
  (__io_u_mark_map (fst submit) nr, u64 (snd submit + 1)).
Definition io_u_mark_complete (complete : list Z * Z) (nr : Z) : list Z * Z :=
  (__io_u_mark_map (fst complete) nr, u64 (snd complete + 1)).

Definition mark_depth_idx (cur_depth : Z) : Z :=
  if cur_depth =? 1 then 0
  else if (2 <=? cur_depth) && (cur_depth <=? 3) then 1
  else if (4 <=? cur_depth) && (cur_depth <=? 7) then 2
  else if (8 <=? cur_depth) && (cur_depth <=? 15) then 3
  else if (16 <=? cur_depth) && (cur_depth <=? 31) then 4
  else if (32 <=? cur_depth) && (cur_depth <=? 63) then 5
  else 6.
Definition io_u_mark_depth (io_u_map : list Z) (cur_depth nr : Z) : list Z :=
  bump io_u_map (mark_depth_idx cur_depth) nr.

Definition lat_usec_idx (usec : Z) : Z :=
  if (750 <=? usec) && (usec <=? 999) then 9
  else if (500 <=? usec) && (usec <=? 749) then 8
  else if (250 <=? usec) && (usec <=? 499) then 7
  else if (100 <=? usec) && (usec <=? 249) then 6
  else if (50 <=? usec) && (usec <=? 99) then 5
  else if (20 <=? usec) && (usec <=? 49) then 4
  else if (10 <=? usec) && (usec <=? 19) then 3
  else if (4 <=? usec) && (usec <=? 9) then 2
  else if (2 <=? usec) && (usec <=? 3) then 1
  else 0.
(** [None] is the failed assertion [usec < 1000]. *)
Definition io_u_mark_lat_usec (lat_u : list Z) (usec : Z) : option (list Z) :=
  if negb (usec <? 1000) then None else Some (bump lat_u (lat_usec_idx usec) 1).

Definition lat_msec_idx (msec : Z) : Z :=
  if (1000 <=? msec) && (msec <=? 1999) then 10
  else if (750 <=? msec) && (msec <=? 999) then 9
  else if (500 <=? msec) && (msec <=? 749) then 8
  else if (250 <=? msec) && (msec <=? 499) then 7
  else if (100 <=? msec) && (msec <=? 249) then 6
  else if (50 <=? msec) && (msec <=? 99) then 5
  else if (20 <=? msec) && (msec <=? 49) then 4
  else if (10 <=? msec) && (msec <=? 19) then 3
  else if (4 <=? msec) && (msec <=? 9) then 2
  else if (2 <=? msec) && (msec <=? 3) then 1
  else if (0 <=? msec) && (msec <=? 1) then 0
  else 11.
Definition io_u_mark_lat_msec (lat_m : list Z) (msec : Z) : list Z :=
  bump lat_m (lat_msec_idx msec) 1.

Definition io_u_mark_latency (lat_u lat_m : list Z) (usec : Z) : option (list Z * list Z) :=
  if usec <? 1000
  then (fun l => (l, lat_m)) <$> io_u_mark_lat_usec lat_u usec
  else Some (lat_u, io_u_mark_lat_msec lat_m (usec / 1000)).

(** The upper bounds that [show_lat_u] and [show_lat_m] print as "2=", "4=", ...
    (the last range of the milliseconds, ">=2000=", has none). *)
Definition show_lat_u_ranges : list Z := [2; 4; 10; 20; 50; 100; 250; 500; 750; 1000].
Definition show_lat_m_ranges : list Z := [2; 4; 10; 20; 50; 100; 250; 500; 750; 1000; 2000].

(** ** The histogram is accurate *)
Lemma plat_small v : 0 <= v < 128 -> plat_val_to_idx v = v.
Proof.
  intros Hv. unfold plat_val_to_idx, FIO_IO_U_PLAT_BITS.
  destruct (Z.eqb_spec v 0) as [->|]; [done|].
  assert (Z.log2 v < 7) by (apply Z.log2_lt_pow2; simpl; lia).
  destruct (Z.leb_spec (Z.log2 v) 6); [done|lia].
Qed.

(** A larger value [v] with [n + 7] significant bits, [q] its 7 highest. *)
Lemma plat_large v : 128 <= v < 2 ^ 24 ->
  let e := Z.log2 v - 6 in let q := v / 2 ^ e in
  1 <= e <= 17 /\ 64 <= q < 128 /\ plat_val_to_idx v = e * 64 + q /\ 64 * 2 ^ e <= v < 128 * 2 ^ e.
Proof.
  intros Hv e q. pose proof (Z.log2_spec v ltac:(lia)) as Hl.
  assert (7 <= Z.log2 v) by (apply Z.log2_le_pow2; simpl; lia).
  assert (Z.log2 v < 24) by (apply Z.log2_lt_pow2; lia).
  assert (He : 1 <= e <= 17) by lia. assert (Hp := pow2_pos e ltac:(lia)).
  assert (Hv2 : 64 * 2 ^ e <= v < 128 * 2 ^ e).
  { replace 64 with (2 ^ 6) by done. replace 128 with (2 ^ 7) by done.
    rewrite <- !Z.pow_add_r by lia. replace (6 + e) with (Z.log2 v) by lia.
    by replace (7 + e) with (Z.succ (Z.log2 v)) by lia. }
  assert (Hq : 64 <= q < 128).
  { unfold q. split; [apply Z.div_le_lower_bound; lia|apply Z.div_lt_upper_bound; lia]. }
  split; [done|]. split; [done|]. split; [|done].
  unfold plat_val_to_idx, FIO_IO_U_PLAT_BITS, FIO_IO_U_PLAT_NR, FIO_IO_U_PLAT_GROUP_NR, FIO_IO_U_PLAT_VAL,
    FIO_IO_U_PLAT_BITS.
  destruct (Z.eqb_spec v 0); [lia|]. destruct (Z.leb_spec (Z.log2 v) 6); [lia|]. fold e.
  rewrite Z.shiftr_div_pow2 by lia. fold q. change (1 .<< 6 - 1) with (Z.ones 6).
  rewrite Z.land_comm, Z.land_ones, Z.shiftl_mul_pow2 by lia.
  replace (q mod 2 ^ 6) with (q - 64) by (apply (Z.mod_unique_pos q (2 ^ 6) 1); lia).
  change (2 ^ 6) with 64. change (1 .<< 6) with 64.
  destruct (Z.ltb_spec ((e + 1) * 64 + (q - 64)) (19 * 64 - 1)); lia.
Qed.

Lemma plat_huge v : 2 ^ 24 <= v -> plat_val_to_idx v = FIO_IO_U_PLAT_NR - 1.
Proof.
  intros Hv. assert (24 <= Z.log2 v) by (apply Z.log2_le_pow2; lia).
  unfold plat_val_to_idx. destruct (Z.eqb_spec v 0); [lia|].
  unfold FIO_IO_U_PLAT_BITS at 1. destruct (Z.leb_spec (Z.log2 v) 6); [lia|].
  set (off := _ .& _). assert (0 <= off) by (apply Z.land_nonneg; left; done).
  destruct (Z.ltb_spec ((Z.log2 v - FIO_IO_U_PLAT_BITS + 1) .<< FIO_IO_U_PLAT_BITS + off)
              (FIO_IO_U_PLAT_NR - 1)) as [Hlt|]; [|done].
  exfalso. revert Hlt. change (FIO_IO_U_PLAT_NR - 1) with 1215.
  rewrite Z.shiftl_mul_pow2 by done. unfold FIO_IO_U_PLAT_BITS. change (2 ^ 6) with 64. lia.
Qed.

Lemma plat_idx_range v : 0 <= v -> 0 <= plat_val_to_idx v < FIO_IO_U_PLAT_NR.
Proof.
  intros Hv. change FIO_IO_U_PLAT_NR with 1216.
  destruct (Z.lt_ge_cases v 128); [rewrite plat_small by lia; lia|].
  destruct (Z.lt_ge_cases v (2 ^ 24)).
  - destruct (plat_large v ltac:(lia)) as (He & Hq & -> & _). lia.
  - rewrite plat_huge by done. done.
Qed.

Lemma plat_idx_to_val_large e q : 1 <= e <= 17 -> 64 <= q < 128 ->
  plat_idx_to_val (e * 64 + q) = Some (q * 2 ^ e + 2 ^ (e - 1)).
Proof.
  intros He Hq. unfold plat_idx_to_val. change FIO_IO_U_PLAT_NR with 1216.
  change (FIO_IO_U_PLAT_VAL .<< 1) with 128. change FIO_IO_U_PLAT_VAL with 64.
  unfold FIO_IO_U_PLAT_BITS.
  destruct (Z.ltb_spec (e * 64 + q) 1216); [|lia]. cbn [negb].
  destruct (Z.ltb_spec (e * 64 + q) 128); [lia|].
  assert (Hp := pow2_pos (e - 1) ltac:(lia)).
  assert (Hp18 : 2 ^ (e - 1) <= 2 ^ 16) by (apply Z.pow_le_mono_r; lia).
  assert (Hp2 : 2 ^ e = 2 * 2 ^ (e - 1)) by (rewrite <- Z.pow_succ_r by lia; f_equal; lia).
  rewrite Z.shiftr_div_pow2 by lia. change (2 ^ 6) with 64.
  replace ((e * 64 + q) / 64) with (e + 1) by (apply (Z.div_unique_pos _ 64 _ (q - 64)); lia).
  replace ((e * 64 + q) mod 64) with (q - 64) by (apply (Z.mod_unique_pos _ 64 (e + 1)); lia).
  replace (e + 1 - 1) with e by lia. rewrite Z.shiftl_1_l, Z.pow_add_r by lia.
  change (2 ^ 6) with 64. rewrite Hp2.
  replace ((2 * (q - 64) + 1) * (2 * 2 ^ (e - 1)) / 2) with ((2 * (q - 64) + 1) * 2 ^ (e - 1))
    by (apply Z.div_unique_exact; lia).
  f_equal. rewrite wrap_small by (unfold is_word; nia). lia.
Qed.

(** C38: The value reported for a latency below 2^24 microseconds is within 1/2^7
    of it (the documented error bound), exact below 128; the bucket of a larger
    latency is the last one; and the bucket number is always inside the table. *)
Theorem plat_error_bound v : is_word 32 v ->
  0 <= plat_val_to_idx v < FIO_IO_U_PLAT_NR /\
  exists w, plat_idx_to_val (plat_val_to_idx v) = Some w /\
    (v < 2 ^ 24 -> 2 ^ (FIO_IO_U_PLAT_BITS + 1) * Z.abs (w - v) <= v) /\
    (v < 128 -> w = v) /\
    (2 ^ 24 <= v -> plat_val_to_idx v = FIO_IO_U_PLAT_NR - 1).
Proof.
  intros [Hv _]. split; [by apply plat_idx_range|].
  destruct (Z.lt_ge_cases v 128) as [Hs|Hl].
  { exists v. rewrite plat_small by lia. unfold plat_idx_to_val. change FIO_IO_U_PLAT_NR with 1216.
    change (FIO_IO_U_PLAT_VAL .<< 1) with 128.
    destruct (Z.ltb_spec v 1216); [|lia]. destruct (Z.ltb_spec v 128); [|lia].
    split; [done|]. split; [|split; [done|lia]]. intros _. rewrite Z.sub_diag. simpl. lia. }
  destruct (Z.lt_ge_cases v (2 ^ 24)) as [Hm|Hh].
  - destruct (plat_large v ltac:(lia)) as (He & Hq & -> & Hb).
    set (e := Z.log2 v - 6) in *. rewrite plat_idx_to_val_large by done.
    eexists. split; [done|]. split; [|split; lia]. intros _.
    unfold FIO_IO_U_PLAT_BITS. change (2 ^ (6 + 1)) with 128.
    assert (Hp2 : 2 ^ e = 2 * 2 ^ (e - 1)) by (rewrite <- Z.pow_succ_r by lia; f_equal; lia).
    pose proof (Z.div_mod v (2 ^ e) ltac:(lia)). pose proof (Z.mod_pos_bound v (2 ^ e) ltac:(lia)). nia.
  - rewrite plat_huge by done. eexists. split; [vm_compute; done|]. split; [lia|]. split; [lia|done].
Qed.

Lemma plat_error_bound_witness :
  exists w, plat_idx_to_val (plat_val_to_idx 123456) = Some w /\ 128 * Z.abs (w - 123456) <= 123456.
Proof.
  destruct (plat_error_bound 123456 ltac:(done)) as (_ & w & E & B & _). exists w.
  exact (conj E (B eq_refl)).
Defined.

(** Every bucket is in use and the two conversions agree: the value of bucket
    [i] falls in bucket [i], for all buckets of the table; and a larger latency
    never falls in a lower bucket. *)
Theorem plat_conversions_agree :
  (forall i, 0 <= i < FIO_IO_U_PLAT_NR ->
     exists w, plat_idx_to_val i = Some w /\ plat_val_to_idx w = i) /\
  (forall v v', 0 <= v <= v' -> plat_val_to_idx v <= plat_val_to_idx v').
Proof.
  split.
  - intros i Hi.
    assert (A : forallb (fun n => match plat_idx_to_val (Z.of_nat n) with
                 | Some w => plat_val_to_idx w =? Z.of_nat n | None => false end)
                 (seq 0 (Z.to_nat FIO_IO_U_PLAT_NR)) = true) by (vm_compute; done).
    rewrite forallb_forall in A. specialize (A (Z.to_nat i)).
    rewrite Z2Nat.id in A by lia. specialize (A ltac:(apply in_seq; lia)).
    destruct (plat_idx_to_val i) as [w|]; [|done]. exists w. by rewrite <- Z.eqb_eq.
  - intros v v' Hv. destruct (Z.lt_ge_cases v' 128) as [|Hl'].
    { rewrite !plat_small by lia. lia. }
    destruct (Z.lt_ge_cases v' (2 ^ 24)) as [Hm'|].
    2: { rewrite (plat_huge v') by done. pose proof (plat_idx_range v). lia. }
    destruct (plat_large v' ltac:(lia)) as (He' & Hq' & -> & Hb').
    destruct (Z.lt_ge_cases v 128); [rewrite plat_small by lia; lia|].
    destruct (plat_large v ltac:(lia)) as (He & Hq & -> & Hb).
    set (e := Z.log2 v - 6) in *. set (e' := Z.log2 v' - 6) in *.
    assert (Hee : e <= e') by (unfold e, e'; pose proof (Z.log2_le_mono v v' ltac:(lia)); lia).
    destruct (Z.eq_dec e e') as [<-|]; [|lia].
    pose proof (Z.div_le_mono v v' (2 ^ e) ltac:(lia) ltac:(lia)). lia.
Qed.

(** ** Percentiles are order statistics *)
Definition total (l : list Z) : Z := fold_right Z.add 0 l.

Lemma total_app l l' : total (l ++ l') = total l + total l'.
Proof. induction l as [|x l IH]; simpl; lia. Qed.

Lemma total_nonneg l : Forall (Z.le 0) l -> 0 <= total l.
Proof. induction 1; simpl; lia. Qed.

Section percentile_spec.
Context (fl : Q -> Q) (plist : list Q) (nr : Z) (len : nat).
#[local] Abbreviation reached := (reached fl plist nr).

(** No percentile is more than 100, the comparison is monotone in the number of samples
    seen, and a larger percentile needs at least as many: [percentiles_are_order_statistics]
    derives this from the sorted list. *)
Context (Hmax : forall j, (j < len)%nat -> Qle_bool (nth j plist 0%Q) 100 = true).
Context (Hmono : forall j s s', s <= s' -> reached j s = true -> reached j s' = true).
Context (Hsorted : forall j s, (S j < len)%nat -> reached (S j) s = true -> reached j s = true).

(** [i] is the first bucket at which percentile [j] is reached. *)
Definition first_bucket (plat : list Z) (j i : nat) : Prop :=
  (i < length plat)%nat /\ reached j (total (take (S i) plat)) = true /\
  forall i', (i' < i)%nat -> reached j (total (take (S i') plat)) = false.

Lemma record_spec fuel i sum v : plat_idx_to_val i = Some v -> forall j ovals,
  (j < len)%nat -> (len - j <= fuel)%nat ->
  exists (m : nat) (b : bool), record_percentiles fl plist nr len fuel i sum j ovals =
      Some (ovals ++ replicate m v, if b then (len - 1)%nat else (j + m)%nat, b) /\
    (forall k, (j <= k < j + m)%nat -> reached k sum = true) /\
    if b then (j + m)%nat = len else (j + m < len)%nat /\ reached (j + m) sum = false.
Proof using Hmax.
  intros Ev. induction fuel as [|fuel IH]; intros j ovals Hj Hf; [lia|]. cbn [record_percentiles].
  destruct (reached j sum) eqn:Er.
  - rewrite Hmax by done. cbn [negb]. rewrite Ev. destruct (Nat.eqb_spec j (len - 1)) as [E|E].
    + exists 1%nat, true. split; [by rewrite E|]. split; [|lia].
      intros k Hk. by replace k with j by lia.
    + destruct (IH (S j) (ovals ++ [v])) as (m & b & E1 & H1 & H2); [lia..|].
      exists (S m), b. rewrite E1, <- app_assoc. simpl.
      replace (j + S m)%nat with (S j + m)%nat by lia. split; [done|]. split; [|done].
      intros k Hk. destruct (Nat.eq_dec k j) as [->|]; [done|]. apply H1. lia.
  - exists 0%nat, false. rewrite app_nil_r, Nat.add_0_r. split; [done|]. split; [lia|done].
Qed.

Definition recorded (plat ovals : list Z) : Prop :=
  forall k v, ovals !! k = Some v ->
    exists i : nat, first_bucket plat k i /\ plat_idx_to_val i = Some v.

(** The loop from bucket [length pre] on, with the first [j] percentiles recorded
    and percentile [j] not reached so far. *)
Lemma percentile_loop_spec plat : forall pre j ovals,
  Forall (Z.le 0) (pre ++ plat) -> total (pre ++ plat) < 2 ^ 64 ->
  Z.of_nat (length (pre ++ plat)) <= FIO_IO_U_PLAT_NR ->
  length ovals = j -> (j < len)%nat -> recorded (pre ++ plat) ovals ->
  (pre = [] \/ reached j (total pre) = false) ->
  exists ovals', percentile_loop fl plist nr len plat (length pre) (total pre) j ovals = Some ovals' /\
    recorded (pre ++ plat) ovals' /\
    (length ovals' = len \/ (length ovals' < len)%nat /\
       (pre ++ plat = [] \/ reached (length ovals') (total (pre ++ plat)) = false)).
Proof using Hmax Hmono Hsorted.
  induction plat as [|n plat IH]; intros pre j ovals Hnn Htot Hlp Hl Hj Hrec Hnot; cbn [percentile_loop].
  { exists ovals. split; [done|]. split; [done|]. right. rewrite app_nil_r, Hl. by split. }
  assert (Epre : pre ++ n :: plat = (pre ++ [n]) ++ plat) by by rewrite <- app_assoc.
  assert (Esum : total (pre ++ [n]) = total pre + n) by (rewrite total_app; simpl; lia).
  assert (Hpos : 0 <= total pre + n /\ total pre + n <= total (pre ++ n :: plat)).
  { rewrite <- Esum. rewrite Epre in *. apply Forall_app in Hnn as [H1 H2].
    pose proof (total_nonneg _ H1). pose proof (total_nonneg _ H2).
    rewrite (total_app (pre ++ [n])). lia. }
  rewrite wrap_small by (unfold is_word; lia). rewrite <- Esum.
  destruct (plat_idx_to_val (length pre)) as [v|] eqn:Ev.
  2: { exfalso. revert Ev. unfold plat_idx_to_val. rewrite length_app in Hlp. simpl in Hlp.
       destruct (Z.ltb_spec (length pre) FIO_IO_U_PLAT_NR); [simpl; by destruct (_ <? _)|lia]. }
  destruct (record_spec (S len) (length pre) (total (pre ++ [n])) v Ev j ovals)
    as (m & b & E & Hr & Hb); [done|lia|].
  rewrite E.
  assert (Hnew : recorded (pre ++ n :: plat) (ovals ++ replicate m v)).
  { intros k w Hk. apply lookup_app_Some in Hk as [Hk|[Hge Hk]]; [by apply Hrec|].
    apply lookup_replicate in Hk as [-> Hk]. exists (length pre). split; [|done].
    rewrite Epre. split; [rewrite !length_app; simpl; lia|]. split.
    - rewrite take_app_le by (rewrite length_app; simpl; lia).
      rewrite take_ge by (rewrite length_app; simpl; lia). apply Hr. lia.
    - intros i' Hi'. rewrite <- app_assoc, take_app_le by lia.
      destruct (reached k _) eqn:Ek; [|done]. exfalso.
      destruct Hnot as [->|Hnot]; [simpl in Hi'; lia|].
      assert (Hj0 : reached j (total pre) = true); [|congruence].
      assert (Hk0 : reached k (total pre) = true).
      { eapply Hmono; [|exact Ek]. rewrite <- (take_drop (S i') pre) at 2. rewrite total_app.
        apply Forall_app in Hnn as [Hnn _]. pose proof (total_nonneg _ (Forall_drop _ (S i') _ Hnn)). lia. }
      assert (Hkl : (k < len)%nat) by (destruct b; lia).
      clear -Hk0 Hkl Hge Hl Hsorted. assert (Hjk : (j <= k)%nat) by lia. revert Hk0 Hkl.
      induction Hjk as [|k Hjk IH]; [done|]. intros Hk Hkl. apply IH; [lia|by apply Hsorted|lia]. }
  destruct b.
  - exists (ovals ++ replicate m v). split; [done|]. split; [done|]. left.
    rewrite length_app, length_replicate. lia.
  - destruct Hb as [Hb1 Hb2].
    destruct (IH (pre ++ [n]) (j + m)%nat (ovals ++ replicate m v)) as (ovals' & E' & R' & F');
      rewrite <- ?Epre; try done.
    + rewrite length_app, length_replicate. lia.
    + by right.
    + rewrite <- Epre in R', F'. exists ovals'. rewrite <- E'. split; [|by split].
      f_equal. rewrite length_app. simpl. lia.
Qed.

Lemma percentile_loop_complete plat :
  Forall (Z.le 0) plat -> total plat < 2 ^ 64 -> Z.of_nat (length plat) = FIO_IO_U_PLAT_NR ->
  (0 < len)%nat -> reached (len - 1) (total plat) = true ->
  exists ovals, percentile_loop fl plist nr len plat 0 0 0 [] = Some ovals /\ length ovals = len /\ recorded plat ovals.
Proof using Hmax Hmono Hsorted.
  intros Hnn Ht Hl Hpos Hlast.
  destruct (percentile_loop_spec plat [] 0 []) as (ovals & E & R & F); simpl; try done; try lia; [by left|].
  exists ovals. split; [exact E|]. split; [|done].
  simpl in F. destruct F as [?|[Hlt [Hn|Hn]]]; [done|by subst plat|]. exfalso.
  assert (A : forall d, (d < len)%nat -> reached (len - 1 - d) (total plat) = true).
  { induction d as [|d IH]; intros Hd; [by rewrite Nat.sub_0_r|].
    apply Hsorted; [lia|]. by replace (S (len - 1 - S d)) with (len - 1 - d)%nat by lia; apply IH; lia. }
  specialize (A (len - 1 - length ovals)%nat ltac:(lia)).
  replace (len - 1 - (len - 1 - length ovals))%nat with (length ovals) in A by lia. congruence.
Qed.
End percentile_spec.

(** *** The sorted list *)
Lemma cmp_ordered_le a b : cmp_ordered a b <-> (a <= b)%Q.
Proof.
  unfold cmp_ordered, double_cmp. rewrite <- (Qle_bool_iff a b). destruct (Qle_bool a b); cbn [negb]; [|lia].
  destruct (Qle_bool b a); cbn [negb]; lia.
Qed.
#[local] Instance cmp_ordered_trans : Transitive cmp_ordered.
Proof. intros a b c. rewrite !cmp_ordered_le. apply Qle_trans. Qed.
#[local] Instance cmp_ordered_total : Total cmp_ordered.
Proof. intros a b. rewrite !cmp_ordered_le. destruct (Qlt_le_dec a b); [left; by apply Qlt_le_weak|by right]. Qed.

Lemma strongly_sorted_impl {A} (R R' : A -> A -> Prop) l : (forall x y, R x y -> R' x y) -> StronglySorted R l -> StronglySorted R' l.
Proof. intros H. induction 1 as [|x l S IH F]; constructor; [done|]. eapply Forall_impl; [exact F|]. auto. Qed.
Lemma sort_plist_spec len plist : sort_plist len plist ≡ₚ plist /\ drop len (sort_plist len plist) = drop len plist /\
  take len (sort_plist len plist) ≡ₚ take len plist /\
  StronglySorted Qle (take len (sort_plist len plist)).
Proof.
  unfold sort_plist. destruct (Nat.ltb_spec 1 len) as [L|L].
  - pose proof (merge_sort_Permutation cmp_ordered (take len plist)) as P. pose proof (Permutation_length P) as E.
    assert (Et : take len (merge_sort cmp_ordered (take len plist) ++ drop len plist) = merge_sort cmp_ordered (take len plist)).
    { destruct (decide (len <= length plist)%nat).
      - rewrite length_take_le in E by done. rewrite <- E at 1. apply take_app_length.
      - rewrite (drop_ge plist) by lia. rewrite app_nil_r. apply take_ge. rewrite E, length_take. lia. }
    split_and!.
    + rewrite P. by rewrite take_drop.
    + rewrite drop_app, E, length_take. rewrite (drop_ge (merge_sort _ _)) by (rewrite E, length_take; lia).
      cbn [app]. destruct (decide (len <= length plist)%nat); [by replace (len - len `min` length plist)%nat with 0%nat by lia|].
      rewrite (drop_ge plist) by lia. by rewrite drop_nil.
    + by rewrite Et.
    + rewrite Et. pose proof (StronglySorted_merge_sort cmp_ordered (take len plist)) as S.
      eapply strongly_sorted_impl; [|exact S]. intros x y. apply cmp_ordered_le.
  - split_and!; [done..|]. destruct plist as [|p plist]; [rewrite take_nil; constructor|].
    destruct len as [|[|len]]; [constructor|constructor; constructor|lia].
Qed.
Lemma sorted_nth l : StronglySorted Qle l -> forall j, (S j < length l)%nat -> (nth j l 0 <= nth (S j) l 0)%Q.
Proof.
  induction 1 as [|x l S IH F]; intros j Hj; cbn [length] in Hj; [lia|]. destruct j as [|j].
  - destruct l as [|y l]; [cbn in Hj; lia|]. by inversion F.
  - cbn [nth]. apply IH. lia.
Qed.
Lemma plist_len_spec fuel : forall plist, (plist_len fuel plist <= fuel)%nat /\ (plist_len fuel plist <= length plist)%nat /\
  Forall (fun p => ~ (p == 0)%Q) (take (plist_len fuel plist) plist).
Proof.
  induction fuel as [|fuel IH]; intros [|p plist]; cbn [plist_len take]; try (split; [lia|split; [cbn; lia|constructor]]).
  destruct (Qeq_bool p 0) eqn:E; [split; [lia|split; [cbn; lia|constructor]]|]. destruct (IH plist) as (H1 & H2 & H3).
  split; [lia|split; [cbn; lia|]]. cbn [take]. constructor; [by apply Qeq_bool_neq|done].
Qed.
Lemma nth_take_lt {A} (l : list A) n j d : (j < n)%nat -> nth j (take n l) d = nth j l d.
Proof. revert n j. induction l as [|x l IH]; intros [|n] [|j] H; try lia; try done. cbn. apply IH. lia. Qed.
Lemma plat_val_range i v : 0 <= i -> plat_idx_to_val i = Some v -> 0 <= v < 2 ^ 32.
Proof.
  intros Hi. unfold plat_idx_to_val. destruct (Z.ltb_spec i FIO_IO_U_PLAT_NR) as [E|]; cbn [negb]; [|done].
  change FIO_IO_U_PLAT_NR with 1216 in E.
  destruct (i <? FIO_IO_U_PLAT_VAL .<< 1); intros H; apply (inj Some) in H; subst v; [lia|]. apply Z.mod_pos_bound. lia.
Qed.

(** The rounding of IEEE arithmetic: it keeps the order, and the numbers that are
    [double]s already, 1 among them. *)
Record rounding (fl : Q -> Q) : Prop := {
  fl_mono : forall x y, (x <= y)%Q -> (fl x <= fl y)%Q;
  fl_idem : forall x, (fl (fl x) == fl x)%Q;
  fl_0 : (fl 0 == 0)%Q;
  fl_1 : (fl 1 == 1)%Q }.

Section rounded.
Context (fl : Q -> Q) (Hfl : rounding fl).

Lemma fl_nr_nonneg nr : 0 <= nr -> (0 <= fl (inject_Z nr))%Q.
Proof using Hfl. intros H. rewrite <- (fl_0 fl Hfl). apply fl_mono; [done|]. rewrite Zle_Qle in H. exact H. Qed.
Lemma percentile_mark_mono nr p p' : 0 <= nr -> (p <= p')%Q -> (percentile_mark fl p nr <= percentile_mark fl p' nr)%Q.
Proof using Hfl.
  intros Hn Hp. unfold percentile_mark. apply fl_mono; [done|]. apply Qmult_le_compat_r; [|by apply fl_nr_nonneg].
  apply fl_mono; [done|]. unfold Qdiv. by apply Qmult_le_compat_r.
Qed.
Lemma reached_mono plist nr j s s' : s <= s' -> reached fl plist nr j s = true -> reached fl plist nr j s' = true.
Proof using Hfl.
  unfold reached. rewrite !Qle_bool_iff. intros Hs H. eapply Qle_trans; [exact H|]. apply fl_mono; [done|]. by rewrite <- Zle_Qle.
Qed.
(** All samples together reach every percentile up to 100. *)
Lemma reached_total plist nr j : 0 <= nr -> (nth j plist 0 <= 100)%Q -> reached fl plist nr j nr = true.
Proof using Hfl.
  intros Hn Hp. unfold reached. rewrite Qle_bool_iff. eapply Qle_trans; [by apply percentile_mark_mono|]. unfold percentile_mark.
  assert (E : (fl (100 / 100) == 1)%Q).
  { transitivity (fl 1); [|apply (fl_1 fl Hfl)]. apply Qle_antisym; (apply fl_mono; [done|]); discriminate. }
  eapply Qle_trans; [|apply Qle_lteq; right; apply (fl_idem fl Hfl)]. apply fl_mono; [done|]. rewrite E. lra.
Qed.
End rounded.

(** C37: [calc_clat_percentiles], for any rounding of the [double]s that keeps the order,
    0, 1 and the numbers already rounded, for a histogram of all [FIO_IO_U_PLAT_NR] buckets
    that holds the [nr] samples, fewer than 2^64, and for a list of at least one percentile
    none of which is above 100: no assertion fails, the percentiles (up to the first 0.0,
    at most 20) are sorted and the rest of the list left alone, and there is one value for
    each, in order, that of the first bucket at which the number of samples so far
    is at least [p / 100.0 * nr], as the [double]s compare; the minimum and the maximum are
    those of the values. *)
Theorem percentiles_are_order_statistics fl plat nr plist : rounding fl ->
  Forall (Z.le 0) plat -> Z.of_nat (length plat) = FIO_IO_U_PLAT_NR -> total plat = nr -> nr < 2 ^ 64 ->
  let len := plist_len FIO_IO_U_LIST_MAX_LEN plist in
  (0 < len)%nat -> Forall (fun p => p <= 100)%Q (take len plist) ->
  exists plist' ovals minv maxv, calc_clat_percentiles fl plat nr plist = Some (plist', ovals, minv, maxv) /\
    take len plist' ≡ₚ take len plist /\ StronglySorted Qle (take len plist') /\ drop len plist' = drop len plist /\
    length ovals = len /\
    (forall k v, ovals !! k = Some v -> exists i : nat, (i < length plat)%nat /\ plat_idx_to_val i = Some v /\
       (percentile_mark fl (nth k plist' 0%Q) nr <= fl (inject_Z (total (take (S i) plat))))%Q /\
       forall i', (i' < i)%nat -> (fl (inject_Z (total (take (S i') plat))) < percentile_mark fl (nth k plist' 0%Q) nr)%Q) /\
    least minv ovals /\ largest maxv ovals.
Proof.
  intros Hfl Hnn Hl Hnr H64 len Hpos H100. unfold calc_clat_percentiles. fold len.
  destruct (Nat.eqb_spec len 0) as [|_]; [lia|]. destruct (sort_plist_spec len plist) as (_ & Hd & Ht & Hs).
  set (pl := sort_plist len plist) in *. assert (0 <= nr) by (subst nr; by apply total_nonneg).
  destruct (plist_len_spec FIO_IO_U_LIST_MAX_LEN plist) as (_ & Hlen & _). fold len in Hlen.
  assert (Elen : length (take len pl) = len) by (rewrite (Permutation_length Ht); apply length_take_le; lia).
  assert (Hmax : forall j, (j < len)%nat -> (nth j pl 0 <= 100)%Q).
  { intros j Hj. rewrite <- Ht in H100. rewrite Forall_forall in H100. apply H100. rewrite <- (nth_take_lt pl len) by done.
    apply list_elem_of_In, nth_In. lia. }
  destruct (percentile_loop_complete fl pl nr len) with (plat := plat) as (ovals & E & Ho & R); try (done || lia).
  - intros j Hj. apply Qle_bool_iff, Hmax, Hj.
  - intros j s s'. by apply reached_mono.
  - intros j s Hj. unfold reached. rewrite !Qle_bool_iff. intros Hr. eapply Qle_trans; [|exact Hr]. apply percentile_mark_mono; [done..|].
    rewrite <- !(nth_take_lt pl len) by lia. apply sorted_nth; [done|lia].
  - rewrite Hnr. apply reached_total; [done..|]. apply Hmax. lia.
  - rewrite E. cbn [mbind option_bind]. eexists _, _, _, _. split; [done|].
    assert (Hv : Forall (fun v => 0 <= v < 2 ^ 32) ovals).
    { apply Forall_lookup. intros k v Hk. destruct (R k v Hk) as (i & _ & Ei). eapply plat_val_range; [|exact Ei]. lia. }
    assert (ovals <> []) by (intros ->; rewrite <- Ho in Hpos; cbn in Hpos; lia).
    split_and!; [done|done|done|done| | |].
    + intros k v Hk. destruct (R k v Hk) as (i & (Hi & H1 & H2) & Ei). exists i. split_and!; [done|done|by apply Qle_bool_iff|].
      intros i' Hi'. specialize (H2 i' Hi'). unfold reached in H2. apply Qnot_le_lt. intros H3. apply Qle_bool_iff in H3. congruence.
    + apply foldl_least; [done|]. eapply Forall_impl; [exact Hv|]. cbn. lia.
    + apply foldl_largest; [done|]. eapply Forall_impl; [exact Hv|]. cbn. lia.
Qed.

(** Percentiles of a histogram of 200 samples, 150 of 3 and 50 of 300 microseconds, with
    the arithmetic exact. *)
Definition example_plat : list Z :=
  Nat.iter 150 (fun l => add_clat_percentile_sample l 3)
    (Nat.iter 50 (fun l => add_clat_percentile_sample l 300) (replicate 1216 0)).

Lemma percentiles_are_order_statistics_witness :
  exists plist' ovals minv maxv,
    calc_clat_percentiles id example_plat 200 [99.9; 50; 75; 0; 100]%Q = Some (plist', ovals, minv, maxv) /\
    length ovals = 3%nat /\ StronglySorted Qle (take 3 plist') /\ least minv ovals.
Proof.
  destruct (percentiles_are_order_statistics id example_plat 200 [99.9; 50; 75; 0; 100]%Q)
    as (pl & ovals & mn & mx & E & _ & S & _ & L & _ & M & _).
  - split; try reflexivity. done.
  - apply Forall_forall. intros x Hx. assert (A : forallb (Z.leb 0) example_plat = true) by (vm_compute; reflexivity).
    rewrite forallb_forall in A. apply Z.leb_le, A. by apply list_elem_of_In.
  - vm_compute. reflexivity.
  - vm_compute. reflexivity.
  - reflexivity.
  - vm_compute. lia.
  - repeat constructor; discriminate.
  - exists pl, ovals, mn, mx. split; [exact E|]. split; [exact L|]. split; [exact S|exact M].
Defined.
(** The list is sorted before it is used; 75% of the samples are 3 microseconds, and 300
    is in the bucket from 300 to 303. *)
Lemma example_percentiles :
  calc_clat_percentiles id example_plat 200 [99.9; 50; 75; 0; 100]%Q = Some ([50; 75; 99.9; 0; 100]%Q, [3; 3; 302], 3, 302).
Proof. vm_compute. reflexivity. Qed.
(** A percentile above 100 that is reached fails the assertion. *)
Lemma percentile_above_100 : calc_clat_percentiles id (replicate 1216 1) 1216 [-1; 101]%Q = Some ([-1; 101]%Q, [0], 0, 0) /\
  calc_clat_percentiles id (replicate 1216 2) 1216 [101]%Q = None.
Proof. split; vm_compute; reflexivity. Qed.

(** ** Depth and latency tables *)

(** Every completion is counted in exactly one latency bucket, and the range
    printed for that bucket contains the latency: bucket [i] of the microseconds
    holds the latencies from the previous bound up to bound [i] (excluded), and so
    do the milliseconds, whose last bucket holds 2000 and more. *)
Theorem latency_bucket_matches_label lat_u lat_m usec :
  0 <= usec ->
  if usec <? 1000 then
    let i := lat_usec_idx usec in
    io_u_mark_latency lat_u lat_m usec = Some (bump lat_u i 1, lat_m) /\ 0 <= i < 10 /\
    usec < tget show_lat_u_ranges i /\ (0 < i -> tget show_lat_u_ranges (i - 1) <= usec)
  else
    let msec := usec / 1000 in
    let i := lat_msec_idx msec in
    io_u_mark_latency lat_u lat_m usec = Some (lat_u, bump lat_m i 1) /\ 0 <= i < 12 /\
    (i < 11 -> msec < tget show_lat_m_ranges i) /\ (0 < i -> tget show_lat_m_ranges (i - 1) <= msec).
Proof.
  intros Hu. unfold io_u_mark_latency, io_u_mark_lat_usec, io_u_mark_lat_msec.
  destruct (Z.ltb_spec usec 1000) as [Hlt|Hge]; cbn zeta.
  - split; [done|]. unfold lat_usec_idx. zbit_split; vm_compute tget; repeat split; intros; try lia.
  - assert (Hm : 0 <= usec / 1000) by (apply Z.div_pos; lia). revert Hm. generalize (usec / 1000).
    intros m Hm. split; [done|]. unfold lat_msec_idx. zbit_split; vm_compute tget; repeat split; intros; try lia.
Qed.

Lemma latency_bucket_matches_label_witness :
  io_u_mark_latency (replicate 10 0) (replicate 12 0) 63 = Some (bump (replicate 10 0) 5 1, replicate 12 0) /\
  63 < 100.
Proof.
  destruct (latency_bucket_matches_label (replicate 10 0) (replicate 12 0) 63 ltac:(lia)) as (E & _ & L & _).
  exact (conj E L).
Defined.

(** The depth tables are logarithmic: a submission or completion batch of
    [nr > 0] goes to bucket [ceil(log2 nr) - 1] and a queue depth [d > 0] to bucket
    [floor(log2 d)], both cut off at 6; a batch of 0 has a bucket of its own, and a
    queue depth of 0, which never occurs while an io_u is queued, would be counted
    as 64 or more. *)
Theorem depth_buckets_logarithmic :
  (forall map nr, 0 < nr ->
     __io_u_mark_map map nr = bump map (Z.min 6 (Z.max 1 (Z.log2_up nr - 1))) 1) /\
  (forall map, __io_u_mark_map map 0 = bump map 0 1) /\
  (forall map d nr, 0 < d -> io_u_mark_depth map d nr = bump map (Z.min 6 (Z.log2 d)) nr) /\
  (forall map nr, io_u_mark_depth map 0 nr = bump map 6 nr).
Proof.
  split; [|split; [done|split; [|done]]].
  - intros map nr Hn. unfold __io_u_mark_map. f_equal. unfold mark_map_idx.
    destruct (Z.eqb_spec nr 0); [lia|].
    assert (L : forall k, 0 < k -> Z.log2_up nr <= k <-> nr <= 2 ^ k)
      by (intros k Hk; symmetry; by apply Z.log2_up_le_pow2).
    pose proof (L 2 ltac:(lia)) as L2. pose proof (L 3 ltac:(lia)) as L3. pose proof (L 4 ltac:(lia)) as L4.
    pose proof (L 5 ltac:(lia)) as L5. pose proof (L 6 ltac:(lia)) as L6. clear L.
    change (2 ^ 2) with 4 in *. change (2 ^ 3) with 8 in *. change (2 ^ 4) with 16 in *.
    change (2 ^ 5) with 32 in *. change (2 ^ 6) with 64 in *. zbit_split; lia.
  - intros map d nr Hd. unfold io_u_mark_depth. f_equal. unfold mark_depth_idx.
    assert (L : forall k, 0 <= k -> k <= Z.log2 d <-> 2 ^ k <= d)
      by (intros k Hk; symmetry; by apply Z.log2_le_pow2).
    pose proof (L 1 ltac:(lia)) as L1.
    pose proof (L 2 ltac:(lia)) as L2. pose proof (L 3 ltac:(lia)) as L3. pose proof (L 4 ltac:(lia)) as L4.
    pose proof (L 5 ltac:(lia)) as L5. pose proof (L 6 ltac:(lia)) as L6. clear L.
    change (2 ^ 1) with 2 in *. change (2 ^ 2) with 4 in *. change (2 ^ 3) with 8 in *.
    change (2 ^ 4) with 16 in *. change (2 ^ 5) with 32 in *. change (2 ^ 6) with 64 in *.
    pose proof (Z.log2_nonneg d). destruct (Z.eqb_spec d 1); [lia|]. zbit_split; lia.
Qed.

End Buckets.
