(* ===== verification/IoPool.v ===== *)
(** * The life cycle of io_u's ([src/io_u.c], [src/ioengines.c], [src/filesetup.c], [src/backend.c])

    A job owns [iodepth] io_u's.  Each is on the free list, the busy list, the
    requeue list or, with asynchronous verification, the verify list; its flags,
    the depth counters and the reference counts of the files follow it around.
    This file models the operations that move io_u's, submit and reap them, and
    the invariant they maintain. *)
From stdpp Require Import relations.
From S2P Require Import Prelude Types.
Local Open Scope word_scope.

Module IoPool.
Import Types.

(** ** State *)
Record iou := {
  u_free : bool;                      (* IO_U_F_FREE *)
  u_flight : bool;                    (* IO_U_F_FLIGHT *)
  u_free_def : bool;                  (* IO_U_F_FREE_DEF *)
  u_in_depth : bool;                  (* IO_U_F_IN_CUR_DEPTH *)
  u_busy_ok : bool;                   (* IO_U_F_BUSY_OK *)
  u_trimmed : bool;                   (* IO_U_F_TRIMMED *)
  u_barrier : bool;                   (* IO_U_F_BARRIER *)
  u_ver_list : bool;                  (* IO_U_F_VER_LIST *)
  u_ddir : fio_ddir;
  u_buflen : Z;
  u_resid : Z;
  u_error : Z;
  u_file : option nat;                (* index into the job's files *)
  u_end_io : bool;                    (* a completion callback is set *)
  u_randomagain : bool }.
#[global] Instance eta_iou : Eta iou := fun u =>
  Build_iou (u_free u) (u_flight u) (u_free_def u) (u_in_depth u) (u_busy_ok u) (u_trimmed u)
    (u_barrier u) (u_ver_list u) (u_ddir u) (u_buflen u) (u_resid u) (u_error u) (u_file u)
    (u_end_io u) (u_randomagain u).

Record file_st := { fs_open : bool; fs_closing : bool; fs_done : bool; fs_refs : Z }.
#[global] Instance eta_file_st : Eta file_st := fun f =>
  Build_file_st (fs_open f) (fs_closing f) (fs_done f) (fs_refs f).

Record pool := {
  units : list iou;
  io_u_freelist : list nat;
  io_u_busylist : list nat;
  io_u_requeues : list nat;
  verify_list : list nat;
  cur_depth : Z;
  io_u_queued : Z;
  io_u_in_flight : Z;
  p_io_issues : per_ddir Z;
  p_files : list file_st;
  nr_open_files : Z;
  p_error : Z }.
#[global] Instance eta_pool : Eta pool := fun p =>
  Build_pool (units p) (io_u_freelist p) (io_u_busylist p) (io_u_requeues p) (verify_list p)
    (cur_depth p) (io_u_queued p) (io_u_in_flight p) (p_io_issues p) (p_files p) (nr_open_files p)
    (p_error p).

Definition unit0 : iou :=
  {| u_free := true; u_flight := false; u_free_def := false; u_in_depth := false; u_busy_ok := false;
     u_trimmed := false; u_barrier := false; u_ver_list := false; u_ddir := DDIR_READ; u_buflen := 0;
     u_resid := 0; u_error := 0; u_file := None; u_end_io := false; u_randomagain := false |}.

Definition uget (p : pool) (id : nat) : iou := default unit0 (units p !! id).
Definition uset (id : nat) (h : iou -> iou) (p : pool) : pool :=
  p <| units := <[id := h (uget p id)]> (units p) |>.

Definition file0 : file_st := {| fs_open := false; fs_closing := false; fs_done := false; fs_refs := 0 |}.
Definition fget (p : pool) (n : nat) : file_st := default file0 (p_files p !! n).
Definition fset (n : nat) (h : file_st -> file_st) (p : pool) : pool :=
  p <| p_files := <[n := h (fget p n)]> (p_files p) |>.

(** [flist_del] of an entry of one of the lists. *)
Definition ldel (id : nat) (l : list nat) : list nat := filter (fun x => x <> id) l.
Definition flist_del (id : nat) (p : pool) : pool :=
  p <| io_u_freelist ::= ldel id |> <| io_u_busylist ::= ldel id |>
    <| io_u_requeues ::= ldel id |> <| verify_list ::= ldel id |>.

Definition td_verror (e : Z) (p : pool) : pool := if p_error p =? 0 then p <| p_error := e |> else p.

(** [queue_full] *)
Definition queue_full (p : pool) : bool := match io_u_freelist p with [] => true | _ => false end.

(** ** References to files ([src/filesetup.c]); [None] is a failed assertion. *)
Definition get_file (n : nat) (p : pool) : option pool :=
  if fs_open (fget p n) then Some (fset n (fun f => f <| fs_refs ::= Z.succ |>) p) else None.

(** [close_ret] is what the engine's [close_file] (or the [fsync] before it) returns
    when the last reference goes. *)
Definition put_file (close_ret : Z) (n : nat) (p : pool) : option (Z * pool) :=
  if negb (fs_open (fget p n)) then Some (0, p) else
  if fs_refs (fget p n) =? 0 then None else
  let p := fset n (fun f => f <| fs_refs ::= Z.pred |>) p in
  if negb (fs_refs (fget p n) =? 0) then Some (0, p) else
  Some (close_ret, fset n (fun f => f <| fs_open := false |>) (p <| nr_open_files ::= Z.pred |>)).

Definition put_file_log (close_ret : Z) (n : nat) (p : pool) : option pool :=
  match put_file close_ret n p with
  | None => None
  | Some (ret, p) => Some (if ret =? 0 then p else td_verror ret p)
  end.

(** ** Moving io_u's ([src/io_u.c]) *)
Definition mark_free (u : iou) : iou :=
  u <| u_file := None |> <| u_free_def := false |> <| u_free := true |>.
Definition put_io_u (close_ret : Z) (id : nat) (p : pool) : option pool :=
  let u := uget p id in
  let p1 := match u_file u with
            | Some n => if u_free_def u then Some p else put_file_log close_ret n p
            | None => Some p
            end in
  match p1 with
  | None => None
  | Some p =>
      let p := uset id mark_free p in
      let p := if u_in_depth u then p <| cur_depth ::= fun d => u32 (d - 1) |> else p in
      let p := flist_del id p in
      Some (p <| io_u_freelist ::= cons id |>)
  end.

Definition clear_io_u (close_ret : Z) (id : nat) (p : pool) : option pool :=
  put_io_u close_ret id (uset id (fun u => u <| u_flight := false |>) p).

Definition requeue_io_u (id : nat) (p : pool) : pool :=
  let p := uset id (fun u => u <| u_free := true |>) p in
  let u := uget p id in
  let p := if u_flight u && ddir_rw (u_ddir u)
           then p <| p_io_issues ::= fun i => set2 (u_ddir u) (u64 (at2 i (u_ddir u) - 1)) i |> else p in
  let p := uset id (fun u => u <| u_flight := false |>) p in
  let p := if u_in_depth u then p <| cur_depth ::= fun d => u32 (d - 1) |> else p in
  let p := flist_del id p in
  p <| io_u_requeues ::= fun l => l ++ [id] |>.

Inductive get_result :=
  | Got (id : nat) (p : pool)
  | GetNone (p : pool)                (* NULL, or a wait for the verify threads *)
  | GetAssert.                        (* the io_u was not free *)

(** What [__get_io_u] does to the io_u it picked. *)
Definition taken (u : iou) : iou :=
  u <| u_free := false |> <| u_free_def := false |> <| u_trimmed := false |> <| u_barrier := false |>
    <| u_ver_list := false |> <| u_randomagain := false |> <| u_error := 0 |>.
Definition take_io_u (id : nat) (p : pool) : get_result :=
  if negb (u_free (uget p id)) then GetAssert else
  let p := uset id taken p in
  let p := flist_del id p in
  let p := p <| io_u_busylist ::= cons id |> <| cur_depth ::= fun d => u32 (d + 1) |> in
  Got id (uset id (fun u => u <| u_in_depth := true |>) p).

Definition __get_io_u (p : pool) : get_result :=
  match io_u_requeues p with
  | id :: _ => take_io_u id p
  | [] =>
      match io_u_freelist p with
      | [] => GetNone p
      | id :: _ =>
          take_io_u id (uset id (fun u => u <| u_buflen := 0 |> <| u_resid := 0 |> <| u_file := None |>
                                  <| u_end_io := false |>) p)
      end
  end.

(** [verify_io_u_async] of [src/verify.c], the completion callback of asynchronous
    verification. *)
Definition verify_io_u_async (close_ret : Z) (id : nat) (p : pool) : option pool :=
  let p1 := match u_file (uget p id) with
            | Some n => put_file_log close_ret n p
            | None => Some p
            end in
  match p1 with
  | None => None
  | Some p =>
      let p := if u_in_depth (uget p id)
               then uset id (fun u => u <| u_in_depth := false |>) (p <| cur_depth ::= fun d => u32 (d - 1) |>)
               else p in
      let p := flist_del id p in
      let p := p <| verify_list ::= fun l => l ++ [id] |> in
      Some (uset id (fun u => u <| u_free_def := true |>) p)
  end.

(** ** Submission ([src/ioengines.c]) *)
Inductive q_ret := FIO_Q_COMPLETED | FIO_Q_QUEUED | FIO_Q_BUSY | FIO_Q_ERROR (e : Z).

(** The answer of the engine's [queue] hook: its return value and what it stored
    in the io_u. *)
Record answer := { a_ret : q_ret; a_error : Z; a_resid : Z }.

(** [td_io_commit]; the value of the engine's commit hook only reaches [td_verror]. *)
Definition td_io_commit (commit_ret : Z) (p : pool) : pool :=
  if (cur_depth p =? 0) || (io_u_queued p =? 0) then p else
  let p := if commit_ret =? 0 then p else td_verror (- commit_ret) p in
  p <| io_u_in_flight := u32 (io_u_in_flight p + io_u_queued p) |> <| io_u_queued := 0 |>.

(** [td_io_queue] for a job that may write to its files (or an io_u that does not
    write); [None] is a failed assertion. *)
Definition td_io_queue (iodepth_batch commit_ret : Z) (ans : answer) (id : nat) (p : pool)
  : option (q_ret * pool) :=
  let u := uget p id in
  if u_flight u then None else
  let p := uset id (fun u => u <| u_flight := true |>) p in
  match u_file u with
  | None => None
  | Some n =>
      if negb (fs_open (fget p n)) then None else
      let p := if ddir_rw (u_ddir u)
               then p <| p_io_issues ::= fun i => set2 (u_ddir u) (u64 (at2 i (u_ddir u) + 1)) i |> else p in
      let p := uset id (fun u => u <| u_error := a_error ans |> <| u_resid := a_resid ans |>) p in
      match a_ret ans with
      | FIO_Q_QUEUED =>
          let p := if ddir_rw (u_ddir u) then p <| io_u_queued ::= fun n => u32 (n + 1) |> else p in
          Some (FIO_Q_QUEUED,
                if iodepth_batch <=? io_u_queued p then td_io_commit commit_ret p else p)
      | r => Some (r, p)
      end
  end.

(** [td_io_getevents] when the engine's hook returned [r >= 0] events. *)
Definition reap_events (r : Z) (p : pool) : pool :=
  p <| io_u_in_flight ::= fun n => u32 (n - r) |>.

(** The flags part of [io_completed]; [None] is the failed assertion that the io_u is
    in flight. *)
Definition io_completed_flags (id : nat) (p : pool) : option pool :=
  if u_flight (uget p id)
  then Some (uset id (fun u => u <| u_flight := false |> <| u_busy_ok := false |>) p) else None.

(** One turn of [ios_completed] and of [io_u_sync_complete], with [end_io] the
    completion callback (asynchronous verification or a verification that leaves the
    pool alone). *)
Definition complete_one (close_ret : Z) (async : bool) (id : nat) (p : pool) : option pool :=
  match io_completed_flags id p with
  | None => None
  | Some p =>
      let u := uget p id in
      let p1 := if (u_error u =? 0) && ddir_rw (u_ddir u) && u_end_io u && async
                then verify_io_u_async close_ret id p else Some p in
      match p1 with
      | None => None
      | Some p => if u_free_def (uget p id) then Some p else put_io_u close_ret id p
      end
  end.

(** The events of [io_u_queued_complete]: each io_u of the list is completed in turn. *)
Fixpoint ios_completed (close_ret : Z) (async : bool) (ids : list nat) (p : pool) : option pool :=
  match ids with
  | [] => Some p
  | id :: ids =>
      match complete_one close_ret async id p with
      | None => None
      | Some p => ios_completed close_ret async ids p
      end
  end.

(** [fio_io_sync] of [src/backend.c] from the label [requeue] on: [answers] are the
    successive answers of the engine, [events] what it reports when the sync was
    queued.  The boolean is the return value (true for 1); [None] is a failed
    assertion. *)
Fixpoint sync_loop (close_ret commit_ret batch : Z) (answers : list answer) (events : list nat)
    (id : nat) (p : pool) : option (bool * pool) :=
  match answers with
  | [] => Some (true, p)
  | a :: answers =>
      match td_io_queue batch commit_ret a id p with
      | None => None
      | Some (FIO_Q_ERROR e, p) =>
          (fun p => (true, p)) <$> put_io_u close_ret id (td_verror (u_error (uget p id)) p)
      | Some (FIO_Q_QUEUED, p) => (fun p => (false, p)) <$> ios_completed close_ret false events p
      | Some (FIO_Q_COMPLETED, p) =>
          if negb (u_error (uget p id) =? 0) then Some (true, td_verror (u_error (uget p id)) p)
          else (fun p => (false, p)) <$> complete_one close_ret false id p
      | Some (FIO_Q_BUSY, p) =>
          sync_loop close_ret commit_ret batch answers events id (td_io_commit commit_ret p)
      end
  end.

(** [prep_ok]: the engine's [prep] hook succeeded. *)
Definition fio_io_sync (close_ret commit_ret batch : Z) (prep_ok : bool) (answers : list answer)
    (events : list nat) (n : nat) (p : pool) : option (bool * pool) :=
  match __get_io_u p with
  | GetAssert => None
  | GetNone p => Some (true, p)
  | Got id p =>
      let p := uset id (fun u => u <| u_ddir := DDIR_SYNC |> <| u_file := Some n |>) p in
      if negb prep_ok then (fun p => (true, p)) <$> put_io_u close_ret id p
      else sync_loop close_ret commit_ret batch answers events id p
  end.

(** ** Initialisation: [init_io_u] of [src/backend.c] adds each io_u at the head. *)
Definition init_pool (iodepth : nat) (files : list file_st) : pool :=
  {| units := replicate iodepth unit0; io_u_freelist := rev (seq 0 iodepth); io_u_busylist := [];
     io_u_requeues := []; verify_list := []; cur_depth := 0; io_u_queued := 0; io_u_in_flight := 0;
     p_io_issues := (0, 0); p_files := files; nr_open_files := 0; p_error := 0 |}.

(** ** The invariant *)

(** All io_u's, in the order of the lists. *)
Definition where_ (p : pool) : list nat :=
  io_u_freelist p ++ io_u_busylist p ++ io_u_requeues p ++ verify_list p.

Record wf (p : pool) : Prop := {
  wf_perm : where_ p ≡ₚ seq 0 (length (units p));
  wf_free id : id ∈ io_u_freelist p \/ id ∈ io_u_requeues p -> u_free (uget p id) = true;
  wf_busy id : id ∈ io_u_busylist p ->
    u_free (uget p id) = false /\ u_in_depth (uget p id) = true /\ u_free_def (uget p id) = false;
  wf_ver id : id ∈ verify_list p ->
    u_free (uget p id) = false /\ u_in_depth (uget p id) = false /\ u_free_def (uget p id) = true;
  wf_depth : cur_depth p = length (io_u_busylist p);
  wf_small : Z.of_nat (length (units p)) < 2 ^ 32 }.

Lemma uget_uset_eq p id h : (id < length (units p))%nat -> uget (uset id h p) id = h (uget p id).
Proof. intros Hid. unfold uget at 1, uset. simpl. by rewrite list_lookup_insert_eq. Qed.

Lemma uget_uset_ne p id j h : j <> id -> uget (uset id h p) j = uget p j.
Proof. intros Hj. unfold uget at 1, uset. simpl. by rewrite list_lookup_insert_ne. Qed.

Lemma units_uset p id h : length (units (uset id h p)) = length (units p).
Proof. apply length_insert. Qed.

Lemma ldel_notin id l : id ∉ l -> ldel id l = l.
Proof.
  intros H. unfold ldel. induction l as [|x l IH]; [done|].
  apply not_elem_of_cons in H as [H1 H2]. rewrite filter_cons, decide_True by done. by rewrite IH.
Qed.

Lemma elem_of_ldel id j l : j ∈ ldel id l <-> j ∈ l /\ j <> id.
Proof. unfold ldel. rewrite list_elem_of_filter. tauto. Qed.

Lemma ldel_perm id l : NoDup l -> id ∈ l -> l ≡ₚ id :: ldel id l.
Proof.
  intros Hn Hin. apply NoDup_Permutation; [done| |].
  - constructor; [by rewrite elem_of_ldel; intros []|]. by apply list.NoDup_filter.
  - intros x. rewrite elem_of_cons, elem_of_ldel. destruct (decide (x = id)) as [->|]; tauto.
Qed.

Lemma wf_nodup p : wf p -> NoDup (where_ p).
Proof. intros Hw. rewrite (wf_perm _ Hw). apply NoDup_ListNoDup, seq_NoDup. Qed.

Lemma wf_in p id : wf p -> id ∈ where_ p <-> (id < length (units p))%nat.
Proof. intros Hw. rewrite (wf_perm _ Hw). rewrite elem_of_seq. lia. Qed.

Lemma where_del p id : where_ (flist_del id p) = ldel id (where_ p).
Proof. unfold where_, ldel. simpl. by rewrite !list.filter_app. Qed.

(** A step that moves io_u [id] to one list and touches no other io_u keeps the
    invariant. *)
Lemma wf_move p p' id fl bl rl vl : wf p -> (id < length (units p))%nat ->
  length (units p') = length (units p) -> (forall j, j <> id -> uget p' j = uget p j) ->
  io_u_freelist p' = fl ++ ldel id (io_u_freelist p) ->
  io_u_busylist p' = bl ++ ldel id (io_u_busylist p) ->
  io_u_requeues p' = ldel id (io_u_requeues p) ++ rl ->
  verify_list p' = ldel id (verify_list p) ++ vl ->
  fl ++ bl ++ rl ++ vl = [id] ->
  cur_depth p' = length (io_u_busylist p') ->
  (id ∈ fl \/ id ∈ rl -> u_free (uget p' id) = true) ->
  (id ∈ bl -> u_free (uget p' id) = false /\ u_in_depth (uget p' id) = true /\
              u_free_def (uget p' id) = false) ->
  (id ∈ vl -> u_free (uget p' id) = false /\ u_in_depth (uget p' id) = false /\
              u_free_def (uget p' id) = true) -> wf p'.
Proof.
  intros Hw Hid Hlen Hoth Ef Eb Er Ev Eid Hd HF HB HV.
  assert (Honly : forall j l, In l [fl; bl; rl; vl] -> j ∈ l -> j = id).
  { intros j l Hl Hj. assert (j ∈ fl ++ bl ++ rl ++ vl) as Hj'.
    { rewrite !elem_of_app. simpl in Hl. destruct Hl as [<-|[<-|[<-|[<-|[]]]]]; tauto. }
    rewrite Eid in Hj'. by apply list_elem_of_singleton in Hj'. }
  assert (Hsplit : forall j l l', In l [fl; bl; rl; vl] -> j ∈ l \/ j ∈ ldel id l' ->
            (j = id /\ j ∈ l) \/ (j <> id /\ j ∈ l')).
  { intros j l l' Hl [Hj|Hj]; [left; split; [by eapply Honly|done]|right].
    by apply elem_of_ldel in Hj as []. }
  split.
  - rewrite Hlen, <- (wf_perm _ Hw). rewrite (ldel_perm id (where_ p)) by
      (by apply wf_nodup || by apply wf_in). rewrite <- where_del. unfold where_. simpl.
    rewrite Ef, Eb, Er, Ev.
    match goal with |- _ ≡ₚ id :: ?l => change (id :: l) with ([id] ++ l) end.
    rewrite <- Eid. solve_Permutation.
  - intros j Hj. rewrite Ef, Er, !elem_of_app in Hj.
    assert ((j = id /\ (j ∈ fl \/ j ∈ rl)) \/ (j <> id /\ (j ∈ io_u_freelist p \/ j ∈ io_u_requeues p)))
      as [[-> ?]|[Hne ?]].
    { destruct Hj as [Hj|Hj].
      - apply Hsplit in Hj; [|simpl; tauto]. tauto.
      - apply or_comm, Hsplit in Hj; [|simpl; tauto]. tauto. }
    + by apply HF.
    + rewrite Hoth by done. by apply (wf_free _ Hw).
  - intros j Hj. rewrite Eb, elem_of_app in Hj. apply Hsplit in Hj as [[-> ?]|[Hne ?]]; [by apply HB| |simpl; tauto].
    rewrite Hoth by done. by apply (wf_busy _ Hw).
  - intros j Hj. rewrite Ev, elem_of_app in Hj. apply or_comm, Hsplit in Hj as [[-> ?]|[Hne ?]]; [by apply HV| |simpl; tauto].
    rewrite Hoth by done. by apply (wf_ver _ Hw).
  - done.
  - rewrite Hlen. apply (wf_small _ Hw).
Qed.

(** Steps that leave the lists, the depth and the io_u's alone. *)
Definition same_units (p p' : pool) : Prop :=
  units p' = units p /\ io_u_freelist p' = io_u_freelist p /\ io_u_busylist p' = io_u_busylist p /\
  io_u_requeues p' = io_u_requeues p /\ verify_list p' = verify_list p /\ cur_depth p' = cur_depth p.

Lemma wf_same p p' : same_units p p' -> wf p -> wf p'.
Proof.
  intros (E1 & E2 & E3 & E4 & E5 & E6) Hw.
  assert (Eg : forall j, uget p' j = uget p j) by (intros j; unfold uget; by rewrite E1).
  split; unfold where_; rewrite ?E1, ?E2, ?E3, ?E4, ?E5, ?E6; try apply Hw; intros j; rewrite Eg; apply Hw.
Qed.

Lemma td_verror_same e p : same_units p (td_verror e p).
Proof. unfold td_verror. by destruct (_ =? 0). Qed.

Lemma put_file_log_same c n p p' : put_file_log c n p = Some p' -> same_units p p'.
Proof.
  unfold put_file_log, put_file. destruct (fs_open _); simpl.
  - destruct (_ =? 0); [done|]. destruct (fs_refs (fget _ n) =? 0); simpl.
    + intros [= <-]. destruct (c =? 0); [done|]. unfold td_verror. by destruct (_ =? 0).
    + by intros [= <-].
  - by intros [= <-].
Qed.

Lemma td_io_commit_same c p : same_units p (td_io_commit c p).
Proof.
  unfold td_io_commit. destruct (_ || _); [done|].
  destruct (c =? 0); [done|]. unfold td_verror. by destruct (p_error p =? 0).
Qed.

(** A step that changes one io_u but not its place nor its list flags. *)
Lemma wf_uset p id h : wf p ->
  (forall u, u_free (h u) = u_free u /\ u_in_depth (h u) = u_in_depth u /\ u_free_def (h u) = u_free_def u) ->
  wf (uset id h p).
Proof.
  intros Hw Hh.
  assert (Eg : forall j, u_free (uget (uset id h p) j) = u_free (uget p j) /\
     u_in_depth (uget (uset id h p) j) = u_in_depth (uget p j) /\
     u_free_def (uget (uset id h p) j) = u_free_def (uget p j)).
  { intros j. destruct (decide (j = id)) as [->|]; [|by rewrite uget_uset_ne].
    destruct (decide (id < length (units p))%nat); [rewrite uget_uset_eq by done; apply Hh|].
    assert (E : uset id h p = p); [|by rewrite E].
    unfold uset. rewrite list_insert_ge by lia. by destruct p. }
  split; rewrite ?units_uset; try apply Hw; intros j; destruct (Eg j) as (E1 & E2 & E3);
    rewrite ?E1, ?E2, ?E3; apply Hw.
Qed.

Section places.
Context (p : pool) (Hw : wf p) (id : nat).

Lemma place_excl : NoDup (io_u_freelist p) /\ NoDup (io_u_busylist p) /\
  (id ∈ io_u_busylist p -> (id ∉ io_u_freelist p) /\ (id ∉ io_u_requeues p) /\ (id ∉ verify_list p)) /\
  (id ∈ verify_list p -> id ∉ io_u_busylist p) /\
  (id ∈ io_u_freelist p \/ id ∈ io_u_requeues p -> id ∉ io_u_busylist p).
Proof.
  pose proof (wf_nodup p Hw) as Hn. unfold where_ in Hn.
  rewrite !list.NoDup_app in Hn. destruct Hn as (N1 & D1 & N2 & D2 & N3 & D3 & N4).
  setoid_rewrite elem_of_app in D1. setoid_rewrite elem_of_app in D1. setoid_rewrite elem_of_app in D2.
  split; [done|]. split; [done|]. split; [|split].
  - intros Hb. split; [intros Hf; by apply (D1 id Hf); left|].
    split; intros Hx; apply (D2 id Hb); tauto.
  - intros Hv Hb. apply (D2 id Hb). tauto.
  - intros [Hf|Hr] Hb; [by apply (D1 id Hf); left|apply (D2 id Hb); tauto].
Qed.

Lemma busy_lt : id ∈ io_u_busylist p -> (id < length (units p))%nat.
Proof. intros H. apply (wf_in p id Hw). unfold where_. rewrite !elem_of_app. tauto. Qed.
Lemma verify_lt : id ∈ verify_list p -> (id < length (units p))%nat.
Proof. intros H. apply (wf_in p id Hw). unfold where_. rewrite !elem_of_app. tauto. Qed.

Lemma busy_count : id ∈ io_u_busylist p ->
  u32 (cur_depth p - 1) = length (ldel id (io_u_busylist p)).
Proof.
  intros H. destruct place_excl as (_ & Hn & _).
  pose proof (Permutation_length (ldel_perm id _ Hn H)) as E. simpl in E.
  rewrite (wf_depth _ Hw), E. pose proof (wf_small _ Hw).
  assert (length (io_u_busylist p) <= length (units p))%nat.
  { pose proof (Permutation_length (wf_perm _ Hw)) as El. unfold where_ in El.
    rewrite !length_app, length_seq in El. lia. }
  rewrite wrap_small by (unfold is_word; lia). lia.
Qed.

Lemma busy_bound : (length (io_u_busylist p) <= length (units p))%nat.
Proof.
  pose proof (Permutation_length (wf_perm _ Hw)) as El. unfold where_ in El.
  rewrite !length_app, length_seq in El. lia.
Qed.

Lemma free_bound : id ∈ io_u_freelist p \/ id ∈ io_u_requeues p ->
  (length (io_u_busylist p) < length (units p))%nat.
Proof.
  intros Hin. pose proof (Permutation_length (wf_perm _ Hw)) as El. unfold where_ in El.
  rewrite !length_app, length_seq in El.
  destruct Hin as [Hin|Hin]; apply list_elem_of_split in Hin as (l1 & l2 & E); rewrite E in El;
    rewrite length_app in El; simpl in El; lia.
Qed.

(** Taking a free or requeued io_u. *)
Lemma take_io_u_spec : id ∈ io_u_freelist p \/ id ∈ io_u_requeues p ->
  exists p', take_io_u id p = Got id p' /\ wf p' /\ id ∈ io_u_busylist p' /\
    u_flight (uget p' id) = u_flight (uget p id) /\ u_file (uget p' id) = u_file (uget p id).
Proof.
  intros Hin. unfold take_io_u. rewrite (wf_free _ Hw id Hin). cbn [negb].
  assert (Hlt : (id < length (units p))%nat).
  { apply (wf_in p id Hw). unfold where_. rewrite !elem_of_app. tauto. }
  eexists. split; [done|].
  set (p1 := uset id _ p).
  match goal with |- context [uset id _ ?q] => set (q0 := q) end.
  assert (L1 : length (units q0) = length (units p)) by exact (units_uset p id _).
  assert (E : uget q0 id = taken (uget p id)) by exact (uget_uset_eq p id _ Hlt).
  assert (En : forall j, j <> id -> uget q0 j = uget p j) by exact (fun j => uget_uset_ne p id j _).
  split; [|split; [by left|by rewrite uget_uset_eq, E by (rewrite L1; done)]].
  apply (wf_move p _ id [] [id] [] []); try done.
  - by rewrite units_uset.
  - intros j Hj. rewrite uget_uset_ne by done. by apply En.
  - simpl. by rewrite app_nil_r.
  - simpl. by rewrite app_nil_r.
  - simpl. rewrite (wf_depth _ Hw).
    destruct place_excl as (_ & _ & _ & _ & Hnb). rewrite (ldel_notin id) by auto.
    pose proof (free_bound Hin). pose proof (wf_small _ Hw).
    rewrite wrap_small by (unfold is_word; lia). lia.
  - by intros [?%elem_of_nil|?%elem_of_nil].
  - intros _. by rewrite uget_uset_eq, E by (rewrite L1; done).
  - by intros ?%elem_of_nil.
Qed.
End places.

(** Getting an io_u from a well-formed pool. *)
Lemma get_io_u_spec p : wf p ->
  match __get_io_u p with
  | Got id p' => wf p' /\ id ∈ io_u_busylist p' /\ (id ∉ io_u_busylist p) /\ (id ∉ verify_list p) /\
      head (io_u_requeues p ++ io_u_freelist p) = Some id
  | GetNone p' => p' = p /\ io_u_freelist p = [] /\ io_u_requeues p = []
  | GetAssert => False
  end.
Proof.
  intros Hw. unfold __get_io_u.
  assert (Hex : forall id, id ∈ io_u_freelist p \/ id ∈ io_u_requeues p ->
            (id ∉ io_u_busylist p) /\ (id ∉ verify_list p)).
  { intros id Hin. pose proof (place_excl p Hw id) as (_ & _ & _ & _ & H5). split; [by apply H5|].
    intros Hv. pose proof (wf_nodup p Hw) as Hn. unfold where_ in Hn. rewrite !list.NoDup_app in Hn.
    destruct Hn as (_ & D1 & _ & _ & _ & D3 & _).
    destruct Hin as [Hf|Hr]; [apply (D1 id Hf); rewrite !elem_of_app; tauto|by apply (D3 id Hr)]. }
  destruct (io_u_requeues p) as [|id rq] eqn:Er.
  - destruct (io_u_freelist p) as [|id fr] eqn:Ef; [done|].
    set (q := uset id _ p).
    assert (Hq : wf q) by (by apply wf_uset).
    destruct (take_io_u_spec q Hq id) as (p' & -> & Hw' & Hb & _).
    { left. subst q. simpl. rewrite Ef. by left. }
    destruct (Hex id) as [? ?]; [left; by left|]. by split_and!.
  - destruct (take_io_u_spec p Hw id) as (p' & -> & Hw' & Hb & _).
    { right. rewrite Er. by left. }
    destruct (Hex id) as [? ?]; [right; by left|]. by split_and!.
Qed.

Lemma put_io_u_wf c id p p' : wf p -> id ∈ io_u_busylist p \/ id ∈ verify_list p ->
  put_io_u c id p = Some p' -> wf p'.
Proof.
  intros Hw Hin E. unfold put_io_u in E.
  match type of E with match ?x with _ => _ end = _ => destruct x as [p1|] eqn:E1; [|done] end.
  assert (Hs : same_units p p1).
  { destruct (u_file (uget p id)) as [n|]; [|by injection E1 as <-].
    destruct (u_free_def (uget p id)); [by injection E1 as <-|]. by eapply put_file_log_same. }
  assert (Eu : uget p id = uget p1 id) by (unfold uget; by rewrite (proj1 Hs)).
  assert (Hin1 : id ∈ io_u_busylist p1 \/ id ∈ verify_list p1)
    by (destruct Hs as (_ & _ & -> & _ & -> & _); done).
  rewrite Eu in E. apply (wf_same _ _ Hs) in Hw. clear E1 Hs Eu Hin p. rename p1 into p.
  injection E as <-.
  assert (Hlt : (id < length (units p))%nat) by (destruct Hin1; [by apply busy_lt|by apply verify_lt]).
  set (h := mark_free).
  set (q := if u_in_depth (uget p id) then _ else uset id h p).
  assert (Q : units q = units (uset id h p) /\ io_u_freelist q = io_u_freelist p /\
     io_u_busylist q = io_u_busylist p /\ io_u_requeues q = io_u_requeues p /\ verify_list q = verify_list p)
    by (unfold q; by destruct (u_in_depth (uget p id))).
  destruct Q as (Q1 & Q2 & Q3 & Q4 & Q5).
  assert (Qg : forall j, uget q j = uget (uset id h p) j) by (intros j; unfold uget at 1; by rewrite Q1).
  apply (wf_move p _ id [id] [] [] []); try done.
  - simpl. rewrite Q1. apply units_uset.
  - intros j Hj. etransitivity; [exact (Qg j)|]. by apply uget_uset_ne.
  - simpl. by rewrite Q2.
  - simpl. by rewrite Q3.
  - simpl. by rewrite Q4, app_nil_r.
  - simpl. by rewrite Q5, app_nil_r.
  - simpl. rewrite Q3. destruct Hin1 as [Hb|Hv].
    + unfold q. destruct (wf_busy _ Hw id Hb) as (_ & -> & _). simpl. by apply busy_count.
    + unfold q. destruct (wf_ver _ Hw id Hv) as (_ & -> & _). simpl.
      destruct (place_excl p Hw id) as (_ & _ & _ & Hnb & _).
      rewrite ldel_notin by auto. apply (wf_depth _ Hw).
  - intros _. transitivity (u_free (uget q id)); [done|]. rewrite Qg, uget_uset_eq by done. done.
  - by intros ?%elem_of_nil.
  - by intros ?%elem_of_nil.
Qed.

Lemma requeue_io_u_wf id p : wf p -> id ∈ io_u_busylist p -> wf (requeue_io_u id p).
Proof.
  intros Hw Hb. pose proof (busy_lt p Hw id Hb) as Hlt. unfold requeue_io_u.
  set (p1 := uset id _ p). assert (Hg1 : uget p1 id = (uget p id) <| u_free := true |>) by by apply uget_uset_eq.
  rewrite Hg1. simpl u_flight. simpl u_ddir. simpl u_in_depth.
  destruct (wf_busy _ Hw id Hb) as (_ & -> & _).
  set (p2 := if _ && _ then _ else p1).
  assert (Q : units p2 = units p1 /\ io_u_freelist p2 = io_u_freelist p /\
     io_u_busylist p2 = io_u_busylist p /\ io_u_requeues p2 = io_u_requeues p /\
     verify_list p2 = verify_list p /\ cur_depth p2 = cur_depth p)
    by (unfold p2; by destruct (_ && _)).
  clearbody p2. destruct Q as (Q1 & Q2 & Q3 & Q4 & Q5 & Q6).
  assert (Qg : forall j, uget p2 j = uget p1 j) by (intros j; unfold uget; by rewrite Q1).
  assert (Ql : length (units p2) = length (units p)) by (rewrite Q1; apply units_uset).
  set (p3 := uset id _ p2).
  apply (wf_move p _ id [] [] [id] []); try done.
  - etransitivity; [exact (units_uset p2 id _)|done].
  - intros j Hj. etransitivity; [exact (uget_uset_ne p2 id j _ Hj)|]. rewrite Qg. by apply uget_uset_ne.
  - simpl. by rewrite Q2.
  - simpl. by rewrite Q3.
  - simpl. by rewrite Q4.
  - simpl. by rewrite Q5, app_nil_r.
  - simpl. rewrite Q3, Q6. by apply busy_count.
  - intros _. transitivity (u_free (uget p3 id)); [done|]. unfold p3.
    rewrite uget_uset_eq, Qg, Hg1 by (by rewrite Ql). done.
  - by intros ?%elem_of_nil.
  - by intros ?%elem_of_nil.
Qed.

Lemma verify_io_u_async_wf c id p p' : wf p -> id ∈ io_u_busylist p ->
  verify_io_u_async c id p = Some p' -> wf p' /\ id ∈ verify_list p'.
Proof.
  intros Hw Hb E. unfold verify_io_u_async in E.
  match type of E with match ?x with _ => _ end = _ => destruct x as [p1|] eqn:E1; [|done] end.
  assert (Hs : same_units p p1).
  { destruct (u_file (uget p id)) as [n|]; [by eapply put_file_log_same|by injection E1 as <-]. }
  assert (Hb1 : id ∈ io_u_busylist p1) by (destruct Hs as (_ & _ & -> & _); done).
  apply (wf_same _ _ Hs) in Hw. clear E1 Hs Hb p. rename p1 into p.
  injection E as <-. destruct (wf_busy _ Hw id Hb1) as (Hf & Hd & _). rewrite Hd.
  pose proof (busy_lt p Hw id Hb1) as Hlt.
  set (p1 := uset id _ (p <| cur_depth ::= _ |>)).
  assert (G1 : uget p1 id = (uget p id) <| u_in_depth := false |>) by exact (uget_uset_eq _ id _ Hlt).
  assert (G1' : forall j, j <> id -> uget p1 j = uget p j) by exact (fun j => uget_uset_ne _ id j _).
  set (p2 := (flist_del id p1) <| verify_list ::= fun l => l ++ [id] |>).
  assert (Ql : length (units p2) = length (units p)) by exact (units_uset p id _).
  split.
  - apply (wf_move p _ id [] [] [] [id]); try done.
    + by rewrite units_uset.
    + intros j Hj. rewrite uget_uset_ne by done. by apply G1'.
    + simpl. by rewrite app_nil_r.
    + simpl. by apply busy_count.
    + by intros [?%elem_of_nil|?%elem_of_nil].
    + by intros ?%elem_of_nil.
    + intros _.
      assert (E2 : uget (uset id (fun u => u <| u_free_def := true |>) p2) id
                   = (uget p1 id) <| u_free_def := true |>) by (etransitivity; [apply uget_uset_eq; by rewrite Ql|done]).
      rewrite G1 in E2.
      refine (_ : let v := uget (uset id (fun u => u <| u_free_def := true |>) p2) id in
                  u_free v = false /\ u_in_depth v = false /\ u_free_def v = true).
      cbn zeta. by rewrite E2.
  - simpl. apply elem_of_app. right. by left.
Qed.

Lemma td_io_queue_wf b c a id p r p' : wf p -> td_io_queue b c a id p = Some (r, p') -> wf p'.
Proof.
  intros Hw. unfold td_io_queue. destruct (u_flight _); [done|]. destruct (u_file _) as [n|]; [|done].
  destruct (negb _); [done|].
  set (p1 := uset id _ p). assert (H1 : wf p1) by by apply wf_uset.
  set (p2 := if ddir_rw _ then _ else p1).
  assert (H2 : wf p2) by (apply (wf_same p1); [unfold p2; by destruct (ddir_rw _)|done]). clearbody p2.
  set (p3 := uset id _ p2). assert (H3 : wf p3) by by apply wf_uset.
  destruct (a_ret a); intros [= <- <-]; try done.
  set (p4 := if ddir_rw _ then _ else p3).
  assert (H4 : wf p4) by (apply (wf_same p3); [unfold p4; by destruct (ddir_rw _)|done]). clearbody p4.
  destruct (b <=? io_u_queued p4); [|done]. by apply (wf_same p4); [apply td_io_commit_same|].
Qed.

Lemma complete_one_wf c async id p p' : wf p -> id ∈ io_u_busylist p ->
  complete_one c async id p = Some p' -> wf p'.
Proof.
  intros Hw Hb. unfold complete_one, io_completed_flags. destruct (u_flight _); [|done].
  set (p1 := uset id _ p). assert (H1 : wf p1) by by apply wf_uset.
  assert (Hb1 : id ∈ io_u_busylist p1) by done. clearbody p1.
  destruct (_ && _ && _ && _).
  - destruct (verify_io_u_async c id p1) as [p2|] eqn:E; [|done].
    destruct (verify_io_u_async_wf c id p1 p2 H1 Hb1 E) as [H2 Hv].
    destruct (u_free_def _); [by intros [= <-]|]. apply put_io_u_wf; auto.
  - destruct (u_free_def _); [by intros [= <-]|]. apply put_io_u_wf; auto.
Qed.

(** ** The state machine *)

(** A step of the job, of the engine or of a verify thread.  [st_setup] stands for the
    owner of a busy io_u filling in its direction, file, length and callback, [st_retire]
    for a verify thread or an error path giving an io_u back. *)
Inductive pstep : pool -> pool -> Prop :=
  | st_get p id p' : __get_io_u p = Got id p' -> pstep p p'
  | st_setup p id d n len cb : id ∈ io_u_busylist p ->
      pstep p (uset id (fun u => u <| u_ddir := d |> <| u_file := n |> <| u_buflen := len |> <| u_end_io := cb |>) p)
  | st_queue p batch c a id r p' : id ∈ io_u_busylist p ->
      td_io_queue batch c a id p = Some (r, p') -> pstep p p'
  | st_commit p c : pstep p (td_io_commit c p)
  | st_reap p r : pstep p (reap_events r p)
  | st_complete p c async id p' : id ∈ io_u_busylist p -> complete_one c async id p = Some p' -> pstep p p'
  | st_retire p c id p' : id ∈ io_u_busylist p \/ id ∈ verify_list p -> put_io_u c id p = Some p' -> pstep p p'
  | st_clear p c id p' : id ∈ io_u_busylist p -> clear_io_u c id p = Some p' -> pstep p p'
  | st_requeue p id : id ∈ io_u_busylist p -> pstep p (requeue_io_u id p)
  | st_async p c id p' : id ∈ io_u_busylist p -> verify_io_u_async c id p = Some p' -> pstep p p'
  | st_file p n p' : get_file n p = Some p' -> pstep p p'.

Lemma pstep_wf p p' : pstep p p' -> wf p -> wf p'.
Proof.
  destruct 1 as [p id p' E|p id d n len cb Hb|p batch c a id r p' Hb E|p c|p r|p c async id p' Hb E
    |p c id p' Hb E|p c id p' Hb E|p id Hb|p c id p' Hb E|p n p' E]; intros Hw.
  - pose proof (get_io_u_spec p Hw) as S. rewrite E in S. by destruct S.
  - by apply wf_uset.
  - by eapply td_io_queue_wf.
  - by apply (wf_same p); [apply td_io_commit_same|].
  - by apply (wf_same p).
  - by eapply complete_one_wf.
  - by eapply put_io_u_wf.
  - unfold clear_io_u in E. refine (put_io_u_wf c id _ p' _ _ E); [by apply wf_uset|by left].
  - by apply requeue_io_u_wf.
  - by eapply verify_io_u_async_wf.
  - revert E. unfold get_file. destruct (fs_open _); [|done]. intros [= <-]. by apply (wf_same p).
Qed.

Lemma init_pool_wf (iodepth : nat) files : Z.of_nat iodepth < 2 ^ 32 -> wf (init_pool iodepth files).
Proof.
  intros Hd. assert (Hg : forall id, uget (init_pool iodepth files) id = unit0).
  { intros id. unfold uget, init_pool. simpl.
    destruct (replicate iodepth unit0 !! id) as [u|] eqn:E; [|done]. by apply lookup_replicate in E as [-> _]. }
  split; simpl.
  - unfold where_. simpl. rewrite app_nil_r, length_replicate. symmetry. apply Permutation_rev.
  - intros id _. by rewrite Hg.
  - by intros id ?%elem_of_nil.
  - by intros id ?%elem_of_nil.
  - done.
  - by rewrite length_replicate.
Qed.

Lemma reachable_wf iodepth files p : Z.of_nat iodepth < 2 ^ 32 ->
  rtc pstep (init_pool iodepth files) p -> wf p.
Proof.
  intros Hd Hr. pose proof (init_pool_wf iodepth files Hd) as Hw. revert Hw.
  induction Hr as [|x y z Hxy _ IH]; [done|]. intros Hx. by apply IH, (pstep_wf x).
Qed.

(** C2: In every reachable state of the io_u pool, whatever the engine answers and
    however submissions, completions, requeues and asynchronous verifications
    interleave: every io_u is on exactly one of the four lists; the depth counter is
    the number of busy io_u's, so it never exceeds [iodepth] nor wraps; and
    [__get_io_u] never trips its assertion, hands out a requeued io_u first (oldest
    first), never one that is busy or being verified, and fails only when none is
    left. *)
Theorem pool_invariant iodepth files p :
  Z.of_nat iodepth < 2 ^ 32 -> rtc pstep (init_pool iodepth files) p ->
  where_ p ≡ₚ seq 0 (length (units p)) /\
  cur_depth p = length (io_u_busylist p) /\ cur_depth p <= length (units p) /\
  match __get_io_u p with
  | Got id p' => (id ∉ io_u_busylist p) /\ (id ∉ verify_list p) /\ id ∈ io_u_busylist p' /\
      head (io_u_requeues p ++ io_u_freelist p) = Some id
  | GetNone p' => p' = p /\ io_u_freelist p = [] /\ io_u_requeues p = []
  | GetAssert => False
  end.
Proof.
  intros Hd Hr. pose proof (reachable_wf iodepth files p Hd Hr) as Hw.
  split; [apply (wf_perm _ Hw)|]. split; [apply (wf_depth _ Hw)|]. split.
  - rewrite (wf_depth _ Hw). pose proof (busy_bound p Hw). lia.
  - pose proof (get_io_u_spec p Hw) as S. destruct (__get_io_u p); tauto.
Qed.

Definition test_files : list file_st :=
  [{| fs_open := true; fs_closing := false; fs_done := false; fs_refs := 1 |}].
Definition got_one : pool := Eval vm_compute in
  match __get_io_u (init_pool 2 test_files) with Got _ p => p | _ => init_pool 2 test_files end.

Lemma pool_invariant_witness :
  where_ (requeue_io_u 1 got_one) ≡ₚ [0; 1]%nat /\ cur_depth (requeue_io_u 1 got_one) = 0.
Proof.
  assert (R : rtc pstep (init_pool 2 test_files) (requeue_io_u 1 got_one)).
  { eapply rtc_l; [apply (st_get _ 1); reflexivity|]. eapply rtc_l; [|apply rtc_refl].
    apply (st_requeue got_one 1). vm_compute. by left. }
  destruct (pool_invariant 2 test_files _ ltac:(done) R) as (P & D & _).
  exact (conj P D).
Defined.

(** ** Submission and requeueing *)
Lemma set2_undo d (i : per_ddir Z) : is_word 64 (at2 i d) ->
  set2 d (u64 (at2 (set2 d (u64 (at2 i d + 1)) i) d - 1)) (set2 d (u64 (at2 i d + 1)) i) = i.
Proof.
  intros Hw. assert (E : u64 (u64 (at2 i d + 1) - 1) = at2 i d).
  { rewrite wrap_sub_l. replace (at2 i d + 1 - 1) with (at2 i d) by lia. by apply wrap_small. }
  revert E. by destruct d, i as [x y]; simpl; intros ->.
Qed.

(** What [td_io_queue] leaves when the engine did not queue the io_u. *)
Lemma td_io_queue_plain b c a id p r p' : (id < length (units p))%nat ->
  td_io_queue b c a id p = Some (r, p') -> r <> FIO_Q_QUEUED ->
  let u := uget p id in
  u_flight u = false /\ r = a_ret a /\
  uget p' id = u <| u_flight := true |> <| u_error := a_error a |> <| u_resid := a_resid a |> /\
  io_u_requeues p' = io_u_requeues p /\ io_u_freelist p' = io_u_freelist p /\
  io_u_busylist p' = io_u_busylist p /\ cur_depth p' = cur_depth p /\
  length (units p') = length (units p) /\
  p_io_issues p' = if ddir_rw (u_ddir u) then set2 (u_ddir u) (u64 (at2 (p_io_issues p) (u_ddir u) + 1)) (p_io_issues p)
                   else p_io_issues p.
Proof.
  intros Hlt E Hr u. unfold td_io_queue in E. fold u in E.
  destruct (u_flight u) eqn:Ef; [done|]. destruct (u_file u) as [n|]; [|done].
  destruct (negb _); [done|]. set (p1 := uset id _ p) in E.
  assert (G1 : uget p1 id = u <| u_flight := true |>) by by apply uget_uset_eq.
  assert (L1 : length (units p1) = length (units p)) by apply units_uset.
  set (p2 := if ddir_rw (u_ddir u) then _ else p1) in E.
  assert (Q : uget p2 id = uget p1 id /\ units p2 = units p1 /\ io_u_requeues p2 = io_u_requeues p /\
    io_u_freelist p2 = io_u_freelist p /\ io_u_busylist p2 = io_u_busylist p /\ cur_depth p2 = cur_depth p /\
    p_io_issues p2 = if ddir_rw (u_ddir u)
      then set2 (u_ddir u) (u64 (at2 (p_io_issues p) (u_ddir u) + 1)) (p_io_issues p) else p_io_issues p)
    by (unfold p2; by destruct (ddir_rw (u_ddir u))).
  clearbody p2. destruct Q as (Q1 & Q2 & Q3 & Q4 & Q5 & Q6 & Q7).
  assert (G : uget (uset id (fun v => v <| u_error := a_error a |> <| u_resid := a_resid a |>) p2) id
    = u <| u_flight := true |> <| u_error := a_error a |> <| u_resid := a_resid a |>).
  { rewrite uget_uset_eq by (by rewrite Q2, L1). by rewrite Q1, G1. }
  destruct (a_ret a); simplify_eq; split_and!; try done; by rewrite units_uset, Q2.
Qed.

(** What [requeue_io_u] does to a busy io_u and the counters. *)
Lemma requeue_effect id p : wf p -> id ∈ io_u_busylist p ->
  let u := uget p id in let p' := requeue_io_u id p in
  uget p' id = u <| u_free := true |> <| u_flight := false |> /\
  io_u_requeues p' = io_u_requeues p ++ [id] /\ cur_depth p' = cur_depth p - 1 /\
  p_io_issues p' = if u_flight u && ddir_rw (u_ddir u)
    then set2 (u_ddir u) (u64 (at2 (p_io_issues p) (u_ddir u) - 1)) (p_io_issues p) else p_io_issues p.
Proof.
  intros Hw Hb u p'. pose proof (busy_lt p Hw id Hb) as Hlt.
  assert (Hrq : id ∉ io_u_requeues p) by (by apply (place_excl p Hw id)).
  unfold p', requeue_io_u. set (q1 := uset id _ p).
  assert (G1 : uget q1 id = u <| u_free := true |>) by by apply uget_uset_eq.
  rewrite G1. simpl u_flight. simpl u_ddir. simpl u_in_depth.
  destruct (wf_busy _ Hw id Hb) as (_ & Hd & _). fold u in Hd. rewrite Hd.
  set (q2 := if u_flight u && ddir_rw (u_ddir u) then _ else q1).
  assert (Q : units q2 = units q1 /\ io_u_requeues q2 = io_u_requeues p /\ cur_depth q2 = cur_depth p /\
    p_io_issues q2 = if u_flight u && ddir_rw (u_ddir u)
      then set2 (u_ddir u) (u64 (at2 (p_io_issues p) (u_ddir u) - 1)) (p_io_issues p) else p_io_issues p)
    by (unfold q2; by destruct (_ && _)).
  clearbody q2. destruct Q as (Q1 & Q2 & Q3 & Q4).
  assert (G2 : uget q2 id = uget q1 id) by (unfold uget; by rewrite Q1).
  set (q3 := uset id (fun v => v <| u_flight := false |>) q2).
  assert (G3 : uget q3 id = u <| u_free := true |> <| u_flight := false |>).
  { unfold q3. rewrite uget_uset_eq by (rewrite Q1; unfold q1; by rewrite units_uset). by rewrite G2, G1. }
  split; [exact G3|]. simpl. rewrite Q2, ldel_notin by done. split; [done|]. split; [|exact Q4].
  rewrite Q3. rewrite (busy_count p Hw id Hb). destruct (place_excl p Hw id) as (_ & Hn & _).
  pose proof (Permutation_length (ldel_perm id _ Hn Hb)) as E. simpl in E.
  rewrite (wf_depth _ Hw), E. lia.
Qed.

(** What [take_io_u] leaves in the io_u. *)
Lemma take_effect id p p' : (id < length (units p))%nat -> take_io_u id p = Got id p' ->
  let u := uget p id in let u' := uget p' id in
  u_ddir u' = u_ddir u /\ u_file u' = u_file u /\ u_buflen u' = u_buflen u /\ u_flight u' = u_flight u.
Proof.
  intros Hlt E u u'. unfold take_io_u in E. destruct (negb _); [done|].
  assert (L : (id < length (units (flist_del id (uset id taken p))))%nat)
    by exact (eq_ind_r (fun n => (id < n)%nat) Hlt (units_uset p id taken)).
  assert (Hu : u' = (taken u) <| u_in_depth := true |>).
  { unfold u'. injection E as <-. etransitivity; [exact (uget_uset_eq _ id _ L)|].
    f_equal. exact (uget_uset_eq p id taken Hlt). }
  by rewrite Hu.
Qed.

(** An io_u the engine had no room for is not lost and leaves no trace in the
    accounting: after [td_io_queue] answered BUSY and [requeue_io_u] put it back, the
    issue counters are what they were before, the io_u is last in the requeue list, no
    longer in flight nor counted in the depth, and, when nothing else is requeued, the
    next [__get_io_u] returns it with its direction, file and length intact. *)
Theorem busy_then_requeue_restores b c a id p p1 :
  wf p -> id ∈ io_u_busylist p -> is_word 64 (at2 (p_io_issues p) (u_ddir (uget p id))) ->
  td_io_queue b c a id p = Some (FIO_Q_BUSY, p1) ->
  let p2 := requeue_io_u id p1 in
  p_io_issues p2 = p_io_issues p /\ u_flight (uget p2 id) = false /\
  io_u_requeues p2 = io_u_requeues p ++ [id] /\ cur_depth p2 = cur_depth p - 1 /\
  (io_u_requeues p = [] -> exists p3, __get_io_u p2 = Got id p3 /\
     u_ddir (uget p3 id) = u_ddir (uget p id) /\ u_file (uget p3 id) = u_file (uget p id) /\
     u_buflen (uget p3 id) = u_buflen (uget p id) /\ u_flight (uget p3 id) = false).
Proof.
  intros Hw Hb Hi E p2. pose proof (busy_lt p Hw id Hb) as Hlt.
  pose proof (td_io_queue_wf _ _ _ _ _ _ _ Hw E) as Hw1.
  destruct (td_io_queue_plain _ _ _ _ _ _ _ Hlt E ltac:(done)) as (Hf & _ & G & Er & Ef & Eb & Ed & El & Ei).
  assert (Hb1 : id ∈ io_u_busylist p1) by by rewrite Eb.
  pose proof (requeue_effect id p1 Hw1 Hb1) as R. pose proof (requeue_io_u_wf id p1 Hw1 Hb1) as Hw2.
  cbn zeta in R. fold p2 in R, Hw2. clearbody p2. destruct R as (G2 & Er2 & Ed2 & Ei2).
  rewrite G in G2, Ei2. rewrite Er in Er2. rewrite Ed in Ed2. simpl in Ei2.
  split; [|split; [by rewrite G2|split; [done|split; [done|]]]].
  - rewrite Ei2, Ei. destruct (ddir_rw _); [by apply set2_undo|done].
  - intros Hnil. rewrite Hnil in Er2. simpl in Er2.
    assert (Hin : id ∈ io_u_requeues p2) by (rewrite Er2; by left).
    destruct (take_io_u_spec p2 Hw2 id (or_intror Hin)) as (p3 & Et & _).
    exists p3. unfold __get_io_u. rewrite Er2. split; [done|].
    assert (L2 : (id < length (units p2))%nat)
      by (apply (wf_in p2 id Hw2); unfold where_; rewrite !elem_of_app; tauto).
    destruct (take_effect id p2 p3 L2 Et) as (-> & -> & -> & ->). by rewrite G2.
Qed.

Definition ready_pool : pool := Eval vm_compute in
  uset 1 (fun u => u <| u_file := Some 0%nat |> <| u_ddir := DDIR_WRITE |> <| u_buflen := 4096 |>) got_one.
Definition busy_answer : answer := {| a_ret := FIO_Q_BUSY; a_error := 0; a_resid := 0 |}.
Definition refused_pool : pool := Eval vm_compute in
  match td_io_queue 1 0 busy_answer 1 ready_pool with Some (_, p) => p | None => ready_pool end.

Lemma ready_pool_wf : wf ready_pool.
Proof.
  apply (reachable_wf 2 test_files); [done|].
  eapply rtc_l; [apply (st_get _ 1); reflexivity|]. eapply rtc_l; [|apply rtc_refl].
  apply (st_setup got_one 1 DDIR_WRITE (Some 0%nat) 4096 false). vm_compute. by left.
Defined.

Lemma busy_then_requeue_restores_witness :
  p_io_issues (requeue_io_u 1 refused_pool) = (0, 0) /\ cur_depth (requeue_io_u 1 refused_pool) = 0.
Proof.
  destruct (busy_then_requeue_restores 1 0 busy_answer 1 ready_pool refused_pool ready_pool_wf
              ltac:(vm_compute; by left) ltac:(by vm_compute) ltac:(reflexivity)) as (A & _ & _ & B & _).
  exact (conj A B).
Defined.

(** What [put_io_u] leaves: the io_u at the head of the free list, its in-flight mark
    unchanged. *)
Lemma put_effect c id p p' : put_io_u c id p = Some p' -> (id < length (units p))%nat ->
  u_flight (uget p' id) = u_flight (uget p id) /\
  exists fl, io_u_freelist p' = id :: fl /\ io_u_requeues p' = ldel id (io_u_requeues p).
Proof.
  intros E Hlt. unfold put_io_u in E.
  match type of E with match ?x with _ => _ end = _ => destruct x as [p1|] eqn:E1; [|done] end.
  assert (Hs : same_units p p1).
  { destruct (u_file (uget p id)) as [n|]; [|by injection E1 as <-].
    destruct (u_free_def (uget p id)); [by injection E1 as <-|]. by eapply put_file_log_same. }
  destruct Hs as (S1 & _ & _ & S4 & _ & _).
  assert (L : (id < length (units p1))%nat) by by rewrite S1.
  assert (G : uget (uset id mark_free p1) id = mark_free (uget p id)).
  { rewrite uget_uset_eq by done. unfold uget. by rewrite S1. }
  set (q := if u_in_depth (uget p id) then _ else _) in E.
  assert (Q : uget q id = uget (uset id mark_free p1) id /\ io_u_requeues q = io_u_requeues p)
    by (unfold q; by destruct (u_in_depth (uget p id))).
  clearbody q. destruct Q as [Q1 Q2]. injection E as <-. split.
  - transitivity (u_flight (uget q id)); [done|]. by rewrite Q1, G.
  - eexists. simpl. by rewrite Q2.
Qed.

(** ** Error paths *)

(** A sync that the engine refuses once can only abort: [fio_io_sync] retries by
    jumping back to [td_io_queue] with the io_u still marked in flight, and the
    assertion at its top fails, whatever the pool, the later answers and the events. *)
Theorem sync_retry_asserts cl c b a rest events id p p1 :
  (id < length (units p))%nat ->
  td_io_queue b c a id p = Some (FIO_Q_BUSY, p1) -> rest <> [] ->
  sync_loop cl c b (a :: rest) events id p = None.
Proof.
  intros Hlt E Hr. destruct (td_io_queue_plain _ _ _ _ _ _ _ Hlt E ltac:(done)) as (_ & _ & G & _).
  cbn [sync_loop]. rewrite E. destruct rest as [|a' rest]; [done|]. cbn [sync_loop].
  assert (F : u_flight (uget (td_io_commit c p1) id) = true).
  { assert (Eu : uget (td_io_commit c p1) id = uget p1 id)
      by (unfold uget; by rewrite (proj1 (td_io_commit_same c p1))).
    by rewrite Eu, G. }
  unfold td_io_queue at 1. by rewrite F.
Qed.

Lemma sync_retry_asserts_witness :
  sync_loop 0 0 1 [busy_answer; {| a_ret := FIO_Q_COMPLETED; a_error := 0; a_resid := 0 |}] [] 1 ready_pool = None.
Proof. apply (sync_retry_asserts 0 0 1 busy_answer _ [] 1 ready_pool refused_pool); [vm_compute; lia|reflexivity|done]. Defined.

(** An io_u given back with [put_io_u] after [td_io_queue] (the paths of [do_io] for
    a transfer that moved no byte and for an engine error, where [clear_io_u] is not
    used) keeps its in-flight mark: when nothing is requeued it is the next io_u handed
    out, and queueing it again fails the assertion of [td_io_queue], however the io_u is
    set up. *)
Theorem put_in_flight_poisons_io_u b c a id p r p1 cl p2 :
  wf p -> id ∈ io_u_busylist p -> io_u_requeues p = [] ->
  td_io_queue b c a id p = Some (r, p1) -> r <> FIO_Q_QUEUED -> put_io_u cl id p1 = Some p2 ->
  exists p3, __get_io_u p2 = Got id p3 /\
    forall b' c' a' d n len cb,
      td_io_queue b' c' a' id
        (uset id (fun u => u <| u_ddir := d |> <| u_file := n |> <| u_buflen := len |> <| u_end_io := cb |>) p3)
      = None.
Proof.
  intros Hw Hb Hnil E Hr Ep. pose proof (busy_lt p Hw id Hb) as Hlt.
  pose proof (td_io_queue_wf _ _ _ _ _ _ _ Hw E) as Hw1.
  destruct (td_io_queue_plain _ _ _ _ _ _ _ Hlt E Hr) as (_ & _ & G & Er & _ & Eb & _ & El & _).
  assert (Hb1 : id ∈ io_u_busylist p1) by by rewrite Eb.
  pose proof (put_io_u_wf cl id p1 p2 Hw1 (or_introl Hb1) Ep) as Hw2.
  destruct (put_effect cl id p1 p2 Ep ltac:(by rewrite El)) as (Gf & fl & Ef & Er2).
  rewrite Er, Hnil in Er2. unfold ldel in Er2. simpl in Er2.
  unfold __get_io_u. rewrite Er2, Ef.
  set (q := uset id _ p2). assert (Hq : wf q) by by apply wf_uset.
  assert (Lq : (id < length (units q))%nat).
  { unfold q. rewrite units_uset. apply (wf_in p2 id Hw2). unfold where_. rewrite Ef. by left. }
  destruct (take_io_u_spec q Hq id) as (p3 & Et & Hw3 & Hb3 & F3 & _).
  { left. simpl. rewrite Ef. by left. }
  exists p3. split; [done|]. intros b' c' a' d n len cb. unfold td_io_queue.
  rewrite uget_uset_eq by (by apply busy_lt). simpl. rewrite F3.
  unfold q. rewrite uget_uset_eq by (unfold q in Lq; by rewrite units_uset in Lq). simpl.
  by rewrite Gf, G.
Qed.

(** ** References of files *)

Lemma fget_fset_eq p n h : (n < length (p_files p))%nat -> fget (fset n h p) n = h (fget p n).
Proof. intros Hn. unfold fget at 1, fset. simpl. by rewrite list_lookup_insert_eq. Qed.

(** Giving an io_u back drops one reference of its file, and closes it with the last. *)
Lemma put_io_u_refs c id n p : u_file (uget p id) = Some n -> u_free_def (uget p id) = false ->
  (n < length (p_files p))%nat -> fs_open (fget p n) = true -> 0 < fs_refs (fget p n) ->
  exists p', put_io_u c id p = Some p' /\
    fs_refs (fget p' n) = fs_refs (fget p n) - 1 /\ fs_open (fget p' n) = (1 <? fs_refs (fget p n)).
Proof.
  intros Hf Hd Hn Ho Hr. unfold put_io_u. rewrite Hf, Hd. unfold put_file_log, put_file.
  rewrite Ho. cbn [negb]. destruct (Z.eqb_spec (fs_refs (fget p n)) 0); [lia|].
  set (p1 := fset n _ p).
  assert (G : fget p1 n = (fget p n) <| fs_refs ::= Z.pred |>) by by apply fget_fset_eq.
  rewrite G. simpl fs_refs.
  assert (T : forall q : pool, fget ((flist_del id (if u_in_depth (uget p id)
      then (uset id mark_free q) <| cur_depth ::= fun d => u32 (d - 1) |> else uset id mark_free q))
      <| io_u_freelist ::= cons id |>) n = fget q n) by (intros q; by destruct (u_in_depth (uget p id))).
  destruct (Z.eqb_spec (Z.pred (fs_refs (fget p n))) 0) as [Hz|Hz]; cbn [negb].
  - eexists. split; [done|]. rewrite T.
    set (p2 := fset n _ (p1 <| nr_open_files ::= Z.pred |>)).
    assert (G2 : fget p2 n = (fget p1 n) <| fs_open := false |>).
    { etransitivity; [apply fget_fset_eq|done]. unfold p1. simpl. by rewrite length_insert. }
    assert (G3 : fget (if c =? 0 then p2 else td_verror c p2) n = fget p2 n)
      by (destruct (c =? 0); [done|]; unfold td_verror; by destruct (_ =? 0)).
    rewrite G3, G2, G. simpl. destruct (Z.ltb_spec 1 (fs_refs (fget p n))); split; done || lia.
  - eexists. split; [done|]. rewrite T. simpl. rewrite G. simpl.
    destruct (Z.ltb_spec 1 (fs_refs (fget p n))); split; done || lia.
Qed.

Lemma take_files id p p' : take_io_u id p = Got id p' ->
  p_files p' = p_files p.
Proof. unfold take_io_u. destruct (negb _); [done|]. by intros [= <-]. Qed.

(** A final sync gives back a file reference it never took: on success
    [fio_io_sync] leaves the file with one reference less, and when the only one was
    that of the open file, the file is closed under the job. *)
Theorem sync_drops_a_reference cl c b a events n p :
  wf p -> (n < length (p_files p))%nat -> fs_open (fget p n) = true -> 0 < fs_refs (fget p n) ->
  (forall id, id ∈ io_u_freelist p -> u_flight (uget p id) = false) ->
  io_u_requeues p = [] -> io_u_freelist p <> [] -> a_ret a = FIO_Q_COMPLETED -> a_error a = 0 ->
  exists p', fio_io_sync cl c b true [a] events n p = Some (false, p') /\
    fs_refs (fget p' n) = fs_refs (fget p n) - 1 /\
    fs_open (fget p' n) = (1 <? fs_refs (fget p n)).
Proof.
  intros Hw Hn Ho Hr Hfl Hnil Hne Ea Ee. unfold fio_io_sync, __get_io_u. rewrite Hnil.
  destruct (io_u_freelist p) as [|id fr] eqn:Ef; [done|].
  set (q := uset id _ p). assert (Hq : wf q) by by apply wf_uset.
  assert (Hlt : (id < length (units p))%nat) by (apply (wf_in p id Hw); unfold where_; rewrite Ef; by left).
  destruct (take_io_u_spec q Hq id) as (p1 & Et & Hw1 & Hb1 & F1 & _); [left; simpl; rewrite Ef; by left|].
  pose proof (take_files id q p1 Et) as P1. rewrite Et. cbn [negb].
  assert (F1' : u_flight (uget p1 id) = false).
  { rewrite F1. unfold q. rewrite uget_uset_eq by done. simpl. apply Hfl. by left. }
  pose proof (busy_lt p1 Hw1 id Hb1) as L1. destruct (wf_busy _ Hw1 id Hb1) as (_ & _ & D1).
  set (p2 := uset id _ p1).
  assert (G2 : uget p2 id = (uget p1 id) <| u_ddir := DDIR_SYNC |> <| u_file := Some n |>) by by apply uget_uset_eq.
  cbn [sync_loop]. unfold td_io_queue. rewrite G2. cbn zeta. simpl u_flight. rewrite F1'. simpl u_file. simpl u_ddir.
  set (p3 := uset id _ p2).
  assert (G3 : uget p3 id = (uget p2 id) <| u_flight := true |>) by (apply uget_uset_eq; unfold p2; by rewrite units_uset).
  assert (Fg : forall k, fget p3 k = fget p k) by (intros k; unfold fget; simpl; by rewrite P1).
  cbn iota.   rewrite Fg, Ho. cbn [negb ddir_rw].
  set (p4 := uset id _ p3).
  assert (L3 : (id < length (units p3))%nat) by (unfold p3, p2; by rewrite !units_uset).
  assert (G4 : uget p4 id = (uget p3 id) <| u_error := a_error a |> <| u_resid := a_resid a |>) by by apply uget_uset_eq.
  rewrite Ea. rewrite G4. simpl u_error. rewrite Ee. simpl negb. cbn iota.
  unfold complete_one, io_completed_flags. rewrite G4, G3. simpl u_flight. cbn iota.
  set (p5 := uset id _ p4).
  assert (G5 : uget p5 id = (uget p4 id) <| u_flight := false |> <| u_busy_ok := false |>)
    by (apply uget_uset_eq; unfold p4; by rewrite units_uset).
  rewrite G5, G4, G3, G2. simpl u_error. simpl u_ddir. rewrite Ee. cbn [ddir_rw]. rewrite andb_false_r. cbn [andb].
  rewrite G5, G4, G3, G2. simpl u_free_def. rewrite D1.
  destruct (put_io_u_refs cl id n p5) as (p' & Ep & R1 & R2).
  { by rewrite G5, G4, G3, G2. }
  { by rewrite G5, G4, G3, G2. }
  { simpl. by rewrite P1. }
  { change (fget p5 n) with (fget p3 n). by rewrite Fg. }
  { change (fget p5 n) with (fget p3 n). by rewrite Fg. }
  exists p'. rewrite Ep. change (fget p5 n) with (fget p3 n) in R1, R2. rewrite Fg in R1, R2. by split.
Qed.

Lemma put_in_flight_poisons_io_u_witness :
  exists p3, __get_io_u (default ready_pool (put_io_u 0 1 refused_pool)) = Got 1 p3.
Proof.
  destruct (put_in_flight_poisons_io_u 1 0 busy_answer 1 ready_pool FIO_Q_BUSY refused_pool 0
              (default ready_pool (put_io_u 0 1 refused_pool)) ready_pool_wf ltac:(vm_compute; by left)
              eq_refl eq_refl ltac:(done) eq_refl) as (p3 & E & _).
  exists p3. exact E.
Defined.

Definition done_answer : answer := {| a_ret := FIO_Q_COMPLETED; a_error := 0; a_resid := 0 |}.
Lemma sync_drops_a_reference_witness :
  exists p', fio_io_sync 0 0 1 true [done_answer] [] 0 (init_pool 1 test_files) = Some (false, p') /\
    fs_open (fget p' 0) = false.
Proof.
  destruct (sync_drops_a_reference 0 0 1 done_answer [] 0 (init_pool 1 test_files)
              (init_pool_wf 1 test_files eq_refl) ltac:(vm_compute; lia) eq_refl eq_refl) as (p' & E & _ & O); try done.
  { intros id Hid. vm_compute in Hid. apply list_elem_of_singleton in Hid as ->. done. }
  exists p'. exact (conj E O).
Defined.

End IoPool.
