(* ===== verification/Compress.v ===== *)
(** * Compression functions of the message digests

    The block transforms of [src/crc/md5.c], [src/crc/sha1.c],
    [src/crc/sha256.c] and [src/crc/sha512.c] for a little endian CPU, and the
    standards they implement (RFC 1321 and FIPS 180).

    The sources unroll the rounds and, instead of moving the working variables
    along, permute their names from one line to the next.  A transform is kept
    here the way it is written, as the list of its lines with the names of the
    registers each line mentions, run on a register file; the reference moves the
    variables. *)
From S2P Require Import Prelude CrcTables.
Local Open Scope word_scope.

Module Compress.
Import CrcTables.

(** Registers are numbered; [rd] reads one. *)
Definition rd (r : list Z) (i : nat) : Z := nth i r 0.

Definition rA : nat := 0.
Definition rB : nat := 1.
Definition rC : nat := 2.
Definition rD : nat := 3.
Definition rE : nat := 4.
Definition rF : nat := 5.
Definition rG : nat := 6.
Definition rH : nat := 7.

(** Words of a block in memory order. *)
Definition le32_at (blk : list Z) (i : Z) : Z := le_val (take 4 (drop (Z.to_nat (4 * i)) blk)).
Definition be32_at (blk : list Z) (i : Z) : Z := be_val (take 4 (drop (Z.to_nat (4 * i)) blk)).
Definition be64_at (blk : list Z) (i : Z) : Z := be_val (take 8 (drop (Z.to_nat (8 * i)) blk)).

(** [state[k] += reg[k]] for every [k], at width [w]. *)
Definition add_regs (w : Z) (state r : list Z) : list Z :=
  zip_with (fun x y => wrap w (x + y)) state r.

(** ** [crc/md5.h], [crc/md5.c] *)
Inductive md5_fn := F1 | F2 | F3 | F4.

Definition md5_F1 (x y z : Z) : Z := z .^ (x .& (y .^ z)).
Definition md5_fun (f : md5_fn) (x y z : Z) : Z :=
  match f with
  | F1 => md5_F1 x y z
  | F2 => md5_F1 z x y
  | F3 => (x .^ y) .^ z
  | F4 => y .^ (x .| notw 32 z)
  end.

(** [MD5STEP(f, w, x, y, z, in[i] + k, s)] *)
Record md5_line := MD5STEP {
  m_f : md5_fn; m_w : nat; m_x : nat; m_y : nat; m_z : nat; m_in : Z; m_k : Z; m_s : Z }.

Definition md5_exec (inp : list Z) (l : md5_line) (r : list Z) : list Z :=
  let w := rd r (m_w l) in
  let x := rd r (m_x l) in
  let y := rd r (m_y l) in
  let z := rd r (m_z l) in
  let w := u32 (w + u32 (md5_fun (m_f l) x y z + u32 (le32_at inp (m_in l) + m_k l))) in
  <[m_w l := u32 (rolw 32 w (m_s l) + x)]> r.

Definition md5_code : list md5_line := [
  MD5STEP F1 rA rB rC rD 0 0xd76aa478 7; MD5STEP F1 rD rA rB rC 1 0xe8c7b756 12;
  MD5STEP F1 rC rD rA rB 2 0x242070db 17; MD5STEP F1 rB rC rD rA 3 0xc1bdceee 22;
  MD5STEP F1 rA rB rC rD 4 0xf57c0faf 7; MD5STEP F1 rD rA rB rC 5 0x4787c62a 12;
  MD5STEP F1 rC rD rA rB 6 0xa8304613 17; MD5STEP F1 rB rC rD rA 7 0xfd469501 22;
  MD5STEP F1 rA rB rC rD 8 0x698098d8 7; MD5STEP F1 rD rA rB rC 9 0x8b44f7af 12;
  MD5STEP F1 rC rD rA rB 10 0xffff5bb1 17; MD5STEP F1 rB rC rD rA 11 0x895cd7be 22;
  MD5STEP F1 rA rB rC rD 12 0x6b901122 7; MD5STEP F1 rD rA rB rC 13 0xfd987193 12;
  MD5STEP F1 rC rD rA rB 14 0xa679438e 17; MD5STEP F1 rB rC rD rA 15 0x49b40821 22;
  MD5STEP F2 rA rB rC rD 1 0xf61e2562 5; MD5STEP F2 rD rA rB rC 6 0xc040b340 9;
  MD5STEP F2 rC rD rA rB 11 0x265e5a51 14; MD5STEP F2 rB rC rD rA 0 0xe9b6c7aa 20;
  MD5STEP F2 rA rB rC rD 5 0xd62f105d 5; MD5STEP F2 rD rA rB rC 10 0x02441453 9;
  MD5STEP F2 rC rD rA rB 15 0xd8a1e681 14; MD5STEP F2 rB rC rD rA 4 0xe7d3fbc8 20;
  MD5STEP F2 rA rB rC rD 9 0x21e1cde6 5; MD5STEP F2 rD rA rB rC 14 0xc33707d6 9;
  MD5STEP F2 rC rD rA rB 3 0xf4d50d87 14; MD5STEP F2 rB rC rD rA 8 0x455a14ed 20;
  MD5STEP F2 rA rB rC rD 13 0xa9e3e905 5; MD5STEP F2 rD rA rB rC 2 0xfcefa3f8 9;
  MD5STEP F2 rC rD rA rB 7 0x676f02d9 14; MD5STEP F2 rB rC rD rA 12 0x8d2a4c8a 20;
  MD5STEP F3 rA rB rC rD 5 0xfffa3942 4; MD5STEP F3 rD rA rB rC 8 0x8771f681 11;
  MD5STEP F3 rC rD rA rB 11 0x6d9d6122 16; MD5STEP F3 rB rC rD rA 14 0xfde5380c 23;
  MD5STEP F3 rA rB rC rD 1 0xa4beea44 4; MD5STEP F3 rD rA rB rC 4 0x4bdecfa9 11;
  MD5STEP F3 rC rD rA rB 7 0xf6bb4b60 16; MD5STEP F3 rB rC rD rA 10 0xbebfbc70 23;
  MD5STEP F3 rA rB rC rD 13 0x289b7ec6 4; MD5STEP F3 rD rA rB rC 0 0xeaa127fa 11;
  MD5STEP F3 rC rD rA rB 3 0xd4ef3085 16; MD5STEP F3 rB rC rD rA 6 0x04881d05 23;
  MD5STEP F3 rA rB rC rD 9 0xd9d4d039 4; MD5STEP F3 rD rA rB rC 12 0xe6db99e5 11;
  MD5STEP F3 rC rD rA rB 15 0x1fa27cf8 16; MD5STEP F3 rB rC rD rA 2 0xc4ac5665 23;
  MD5STEP F4 rA rB rC rD 0 0xf4292244 6; MD5STEP F4 rD rA rB rC 7 0x432aff97 10;
  MD5STEP F4 rC rD rA rB 14 0xab9423a7 15; MD5STEP F4 rB rC rD rA 5 0xfc93a039 21;
  MD5STEP F4 rA rB rC rD 12 0x655b59c3 6; MD5STEP F4 rD rA rB rC 3 0x8f0ccc92 10;
  MD5STEP F4 rC rD rA rB 10 0xffeff47d 15; MD5STEP F4 rB rC rD rA 1 0x85845dd1 21;
  MD5STEP F4 rA rB rC rD 8 0x6fa87e4f 6; MD5STEP F4 rD rA rB rC 15 0xfe2ce6e0 10;
  MD5STEP F4 rC rD rA rB 6 0xa3014314 15; MD5STEP F4 rB rC rD rA 13 0x4e0811a1 21;
  MD5STEP F4 rA rB rC rD 4 0xf7537e82 6; MD5STEP F4 rD rA rB rC 11 0xbd3af235 10;
  MD5STEP F4 rC rD rA rB 2 0x2ad7d2bb 15; MD5STEP F4 rB rC rD rA 9 0xeb86d391 21].

Definition md5_transform (hash inp : list Z) : list Z :=
  add_regs 32 hash (fold_left (fun r l => md5_exec inp l r) md5_code hash).

(** ** [crc/sha1.c] *)
Inductive sha1_kind := K_0_15 | K_16_19 | K_20_39 | K_40_59 | K_60_79.

Record sha1_line := SHA_ROUND {
  h_kind : sha1_kind; h_t : Z; h_A : nat; h_B : nat; h_C : nat; h_D : nat; h_E : nat }.

Definition T_0_15 : Z -> nat -> nat -> nat -> nat -> nat -> sha1_line := SHA_ROUND K_0_15.
Definition T_16_19 : Z -> nat -> nat -> nat -> nat -> nat -> sha1_line := SHA_ROUND K_16_19.
Definition T_20_39 : Z -> nat -> nat -> nat -> nat -> nat -> sha1_line := SHA_ROUND K_20_39.
Definition T_40_59 : Z -> nat -> nat -> nat -> nat -> nat -> sha1_line := SHA_ROUND K_40_59.
Definition T_60_79 : Z -> nat -> nat -> nat -> nat -> nat -> sha1_line := SHA_ROUND K_60_79.

Definition SHA_ROL (x n : Z) : Z := rolw 32 x n.
Definition SHA_ROR (x n : Z) : Z := rorw 32 x n.

(** [W(x)] indexes the rolling array modulo 16. *)
Definition sha1_Wx (array : list Z) (x : Z) : Z := tget array (x .& 15).
Definition SHA_MIX (array : list Z) (t : Z) : Z :=
  SHA_ROL (sha1_Wx array (t + 13) .^ sha1_Wx array (t + 8) .^ sha1_Wx array (t + 2)
           .^ sha1_Wx array t) 1.
Definition SHA_SRC (data : list Z) (t : Z) : Z := be32_at data t.

Definition sha1_input (k : sha1_kind) (data array : list Z) (t : Z) : Z :=
  match k with K_0_15 => SHA_SRC data t | _ => SHA_MIX array t end.
Definition sha1_fn (k : sha1_kind) (B C D : Z) : Z :=
  match k with
  | K_0_15 | K_16_19 => ((C .^ D) .& B) .^ D
  | K_20_39 | K_60_79 => (B .^ C) .^ D
  | K_40_59 => (B .& C) + (D .& (B .^ C))
  end.
Definition sha1_const (k : sha1_kind) : Z :=
  match k with
  | K_0_15 | K_16_19 => 0x5a827999
  | K_20_39 => 0x6ed9eba1
  | K_40_59 => 0x8f1bbcdc
  | K_60_79 => 0xca62c1d6
  end.

(** One line on the array and the registers. *)
Definition sha1_exec (data : list Z) (l : sha1_line) (s : list Z * list Z) : list Z * list Z :=
  let '(array, r) := s in
  let TEMP := sha1_input (h_kind l) data array (h_t l) in
  let array := <[Z.to_nat (h_t l .& 15) := TEMP]> array in
  let fn := sha1_fn (h_kind l) (rd r (h_B l)) (rd r (h_C l)) (rd r (h_D l)) in
  let r := <[h_E l := u32 (rd r (h_E l) + u32 (TEMP + SHA_ROL (rd r (h_A l)) 5 + fn
                                               + sha1_const (h_kind l)))]> r in
  (array, <[h_B l := SHA_ROR (rd r (h_B l)) 2]> r).

Definition sha1_code : list sha1_line := [
  T_0_15 0 rA rB rC rD rE; T_0_15 1 rE rA rB rC rD; T_0_15 2 rD rE rA rB rC;
  T_0_15 3 rC rD rE rA rB; T_0_15 4 rB rC rD rE rA; T_0_15 5 rA rB rC rD rE;
  T_0_15 6 rE rA rB rC rD; T_0_15 7 rD rE rA rB rC; T_0_15 8 rC rD rE rA rB;
  T_0_15 9 rB rC rD rE rA; T_0_15 10 rA rB rC rD rE; T_0_15 11 rE rA rB rC rD;
  T_0_15 12 rD rE rA rB rC; T_0_15 13 rC rD rE rA rB; T_0_15 14 rB rC rD rE rA;
  T_0_15 15 rA rB rC rD rE; T_16_19 16 rE rA rB rC rD; T_16_19 17 rD rE rA rB rC;
  T_16_19 18 rC rD rE rA rB; T_16_19 19 rB rC rD rE rA; T_20_39 20 rA rB rC rD rE;
  T_20_39 21 rE rA rB rC rD; T_20_39 22 rD rE rA rB rC; T_20_39 23 rC rD rE rA rB;
  T_20_39 24 rB rC rD rE rA; T_20_39 25 rA rB rC rD rE; T_20_39 26 rE rA rB rC rD;
  T_20_39 27 rD rE rA rB rC; T_20_39 28 rC rD rE rA rB; T_20_39 29 rB rC rD rE rA;
  T_20_39 30 rA rB rC rD rE; T_20_39 31 rE rA rB rC rD; T_20_39 32 rD rE rA rB rC;
  T_20_39 33 rC rD rE rA rB; T_20_39 34 rB rC rD rE rA; T_20_39 35 rA rB rC rD rE;
  T_20_39 36 rE rA rB rC rD; T_20_39 37 rD rE rA rB rC; T_20_39 38 rC rD rE rA rB;
  T_20_39 39 rB rC rD rE rA; T_40_59 40 rA rB rC rD rE; T_40_59 41 rE rA rB rC rD;
  T_40_59 42 rD rE rA rB rC; T_40_59 43 rC rD rE rA rB; T_40_59 44 rB rC rD rE rA;
  T_40_59 45 rA rB rC rD rE; T_40_59 46 rE rA rB rC rD; T_40_59 47 rD rE rA rB rC;
  T_40_59 48 rC rD rE rA rB; T_40_59 49 rB rC rD rE rA; T_40_59 50 rA rB rC rD rE;
  T_40_59 51 rE rA rB rC rD; T_40_59 52 rD rE rA rB rC; T_40_59 53 rC rD rE rA rB;
  T_40_59 54 rB rC rD rE rA; T_40_59 55 rA rB rC rD rE; T_40_59 56 rE rA rB rC rD;
  T_40_59 57 rD rE rA rB rC; T_40_59 58 rC rD rE rA rB; T_40_59 59 rB rC rD rE rA;
  T_60_79 60 rA rB rC rD rE; T_60_79 61 rE rA rB rC rD; T_60_79 62 rD rE rA rB rC;
  T_60_79 63 rC rD rE rA rB; T_60_79 64 rB rC rD rE rA; T_60_79 65 rA rB rC rD rE;
  T_60_79 66 rE rA rB rC rD; T_60_79 67 rD rE rA rB rC; T_60_79 68 rC rD rE rA rB;
  T_60_79 69 rB rC rD rE rA; T_60_79 70 rA rB rC rD rE; T_60_79 71 rE rA rB rC rD;
  T_60_79 72 rD rE rA rB rC; T_60_79 73 rC rD rE rA rB; T_60_79 74 rB rC rD rE rA;
  T_60_79 75 rA rB rC rD rE; T_60_79 76 rE rA rB rC rD; T_60_79 77 rD rE rA rB rC;
  T_60_79 78 rC rD rE rA rB; T_60_79 79 rB rC rD rE rA].

(** [array] is an uninitialised local; its initial contents are an argument. *)
Definition blk_SHA1Block (array H data : list Z) : list Z :=
  add_regs 32 H (snd (fold_left (fun s l => sha1_exec data l s) sha1_code (array, H))).

(** ** [crc/sha256.c] and [crc/sha512.c]: what the two files share *)
Definition Ch (x y z : Z) : Z := z .^ (x .& (y .^ z)).
Definition Maj (x y z : Z) : Z := (x .& y) .| (z .& (x .| y)).

Definition ror32 (word shift : Z) : Z := rorw 32 word shift.
Definition RORuint64_t (x y : Z) : Z := rorw 64 x y.

(** The width and the four rotation macros of one of the files. *)
Record sha2 := {
  s_w : Z; e0 : Z -> Z; e1 : Z -> Z; s0 : Z -> Z; s1 : Z -> Z }.

Definition sha256 : sha2 := {|
  s_w := 32;
  e0 := fun x => ror32 x 2 .^ ror32 x 13 .^ ror32 x 22;
  e1 := fun x => ror32 x 6 .^ ror32 x 11 .^ ror32 x 25;
  s0 := fun x => ror32 x 7 .^ ror32 x 18 .^ (x .>> 3);
  s1 := fun x => ror32 x 17 .^ ror32 x 19 .^ (x .>> 10) |}.

Definition sha512 : sha2 := {|
  s_w := 64;
  e0 := fun x => RORuint64_t x 28 .^ RORuint64_t x 34 .^ RORuint64_t x 39;
  e1 := fun x => RORuint64_t x 14 .^ RORuint64_t x 18 .^ RORuint64_t x 41;
  s0 := fun x => RORuint64_t x 1 .^ RORuint64_t x 8 .^ (x .>> 7);
  s1 := fun x => RORuint64_t x 19 .^ RORuint64_t x 61 .^ (x .>> 6) |}.

(** [t1 = h + e1(e) + Ch(e,f,g) + K + W[i]; t2 = e0(a) + Maj(a,b,c); d += t1;
    h = t1 + t2] *)
Record sha2_line := LINE {
  l_a : nat; l_b : nat; l_c : nat; l_d : nat; l_e : nat; l_f : nat; l_g : nat; l_h : nat;
  l_K : Z; l_i : Z }.

Definition sha2_exec (p : sha2) (W : list Z) (l : sha2_line) (r : list Z) : list Z :=
  let t1 := wrap (s_w p) (rd r (l_h l) + e1 p (rd r (l_e l))
                          + Ch (rd r (l_e l)) (rd r (l_f l)) (rd r (l_g l)) + l_K l + tget W (l_i l)) in
  let t2 := wrap (s_w p) (e0 p (rd r (l_a l)) + Maj (rd r (l_a l)) (rd r (l_b l)) (rd r (l_c l))) in
  let r := <[l_d l := wrap (s_w p) (rd r (l_d l) + t1)]> r in
  <[l_h l := wrap (s_w p) (t1 + t2)]> r.

Definition BLEND_OP (p : sha2) (I : Z) (W : list Z) : list Z :=
  W ++ [wrap (s_w p) (s1 p (tget W (I - 2)) + tget W (I - 7) + s0 p (tget W (I - 15))
                      + tget W (I - 16))].

(** The array [W] after both loops; no entry is read before it is written, so it
    grows from nothing. *)
Definition sha2_W (p : sha2) (LOAD_OP : list Z -> Z -> Z) (n : nat) (input : list Z) : list Z :=
  fold_left (fun W I => BLEND_OP p (Z.of_nat I) W) (seq 16 n)
    (map (fun I => LOAD_OP input (Z.of_nat I)) (seq 0 16)).

Definition sha256_code : list sha2_line := [
  LINE rA rB rC rD rE rF rG rH 0x428a2f98 0; LINE rH rA rB rC rD rE rF rG 0x71374491 1;
  LINE rG rH rA rB rC rD rE rF 0xb5c0fbcf 2; LINE rF rG rH rA rB rC rD rE 0xe9b5dba5 3;
  LINE rE rF rG rH rA rB rC rD 0x3956c25b 4; LINE rD rE rF rG rH rA rB rC 0x59f111f1 5;
  LINE rC rD rE rF rG rH rA rB 0x923f82a4 6; LINE rB rC rD rE rF rG rH rA 0xab1c5ed5 7;
  LINE rA rB rC rD rE rF rG rH 0xd807aa98 8; LINE rH rA rB rC rD rE rF rG 0x12835b01 9;
  LINE rG rH rA rB rC rD rE rF 0x243185be 10; LINE rF rG rH rA rB rC rD rE 0x550c7dc3 11;
  LINE rE rF rG rH rA rB rC rD 0x72be5d74 12; LINE rD rE rF rG rH rA rB rC 0x80deb1fe 13;
  LINE rC rD rE rF rG rH rA rB 0x9bdc06a7 14; LINE rB rC rD rE rF rG rH rA 0xc19bf174 15;
  LINE rA rB rC rD rE rF rG rH 0xe49b69c1 16; LINE rH rA rB rC rD rE rF rG 0xefbe4786 17;
  LINE rG rH rA rB rC rD rE rF 0x0fc19dc6 18; LINE rF rG rH rA rB rC rD rE 0x240ca1cc 19;
  LINE rE rF rG rH rA rB rC rD 0x2de92c6f 20; LINE rD rE rF rG rH rA rB rC 0x4a7484aa 21;
  LINE rC rD rE rF rG rH rA rB 0x5cb0a9dc 22; LINE rB rC rD rE rF rG rH rA 0x76f988da 23;
  LINE rA rB rC rD rE rF rG rH 0x983e5152 24; LINE rH rA rB rC rD rE rF rG 0xa831c66d 25;
  LINE rG rH rA rB rC rD rE rF 0xb00327c8 26; LINE rF rG rH rA rB rC rD rE 0xbf597fc7 27;
  LINE rE rF rG rH rA rB rC rD 0xc6e00bf3 28; LINE rD rE rF rG rH rA rB rC 0xd5a79147 29;
  LINE rC rD rE rF rG rH rA rB 0x06ca6351 30; LINE rB rC rD rE rF rG rH rA 0x14292967 31;
  LINE rA rB rC rD rE rF rG rH 0x27b70a85 32; LINE rH rA rB rC rD rE rF rG 0x2e1b2138 33;
  LINE rG rH rA rB rC rD rE rF 0x4d2c6dfc 34; LINE rF rG rH rA rB rC rD rE 0x53380d13 35;
  LINE rE rF rG rH rA rB rC rD 0x650a7354 36; LINE rD rE rF rG rH rA rB rC 0x766a0abb 37;
  LINE rC rD rE rF rG rH rA rB 0x81c2c92e 38; LINE rB rC rD rE rF rG rH rA 0x92722c85 39;
  LINE rA rB rC rD rE rF rG rH 0xa2bfe8a1 40; LINE rH rA rB rC rD rE rF rG 0xa81a664b 41;
  LINE rG rH rA rB rC rD rE rF 0xc24b8b70 42; LINE rF rG rH rA rB rC rD rE 0xc76c51a3 43;
  LINE rE rF rG rH rA rB rC rD 0xd192e819 44; LINE rD rE rF rG rH rA rB rC 0xd6990624 45;
  LINE rC rD rE rF rG rH rA rB 0xf40e3585 46; LINE rB rC rD rE rF rG rH rA 0x106aa070 47;
  LINE rA rB rC rD rE rF rG rH 0x19a4c116 48; LINE rH rA rB rC rD rE rF rG 0x1e376c08 49;
  LINE rG rH rA rB rC rD rE rF 0x2748774c 50; LINE rF rG rH rA rB rC rD rE 0x34b0bcb5 51;
  LINE rE rF rG rH rA rB rC rD 0x391c0cb3 52; LINE rD rE rF rG rH rA rB rC 0x4ed8aa4a 53;
  LINE rC rD rE rF rG rH rA rB 0x5b9cca4f 54; LINE rB rC rD rE rF rG rH rA 0x682e6ff3 55;
  LINE rA rB rC rD rE rF rG rH 0x748f82ee 56; LINE rH rA rB rC rD rE rF rG 0x78a5636f 57;
  LINE rG rH rA rB rC rD rE rF 0x84c87814 58; LINE rF rG rH rA rB rC rD rE 0x8cc70208 59;
  LINE rE rF rG rH rA rB rC rD 0x90befffa 60; LINE rD rE rF rG rH rA rB rC 0xa4506ceb 61;
  LINE rC rD rE rF rG rH rA rB 0xbef9a3f7 62; LINE rB rC rD rE rF rG rH rA 0xc67178f2 63].

Definition sha256_transform (state input : list Z) : list Z :=
  let W := sha2_W sha256 be32_at 48 input in
  add_regs 32 state (fold_left (fun r l => sha2_exec sha256 W l r) sha256_code state).

(** The body of the loop over [i]. *)
Definition sha512_body (i : Z) : list sha2_line := [
  LINE rA rB rC rD rE rF rG rH (tget sha512_K i) i;
  LINE rH rA rB rC rD rE rF rG (tget sha512_K (i + 1)) (i + 1);
  LINE rG rH rA rB rC rD rE rF (tget sha512_K (i + 2)) (i + 2);
  LINE rF rG rH rA rB rC rD rE (tget sha512_K (i + 3)) (i + 3);
  LINE rE rF rG rH rA rB rC rD (tget sha512_K (i + 4)) (i + 4);
  LINE rD rE rF rG rH rA rB rC (tget sha512_K (i + 5)) (i + 5);
  LINE rC rD rE rF rG rH rA rB (tget sha512_K (i + 6)) (i + 6);
  LINE rB rC rD rE rF rG rH rA (tget sha512_K (i + 7)) (i + 7)].

(** The transform and the array it leaves in the context. *)
Definition sha512_transform (state input : list Z) : list Z * list Z :=
  let W := sha2_W sha512 be64_at 64 input in
  (add_regs 64 state
     (fold_left (fun r i => fold_left (fun r l => sha2_exec sha512 W l r) (sha512_body i) r)
        [0; 8; 16; 24; 32; 40; 48; 56; 64; 72] state), W).

(** ** Registers that change names

    With [n] registers, the variable in role [i] of round [t] is held by the
    register [role t i]: the names move down by one from line to line. *)
Section rotating.
Context (n : nat) (Hn : (n <> 0)%nat).

Definition role (t i : nat) : nat := ((i + (n - t mod n)) mod n)%nat.
Definition view (t : nat) (r : list Z) : list Z := map (fun i => rd r (role t i)) (seq 0 n).

Lemma role_mod t i : role (t mod n) i = role t i.
Proof. unfold role. by rewrite Nat.Div0.mod_mod. Qed.

Lemma view_mod t r : view (t mod n) r = view t r.
Proof. apply map_ext. intros i. by rewrite role_mod. Qed.

Lemma view_succ_mod t r : view (S (t mod n)) r = view (S t) r.
Proof.
  rewrite <- (view_mod (S t)), <- (view_mod (S (t mod n))). f_equal.
  change (S (t mod n)) with (1 + t mod n)%nat. change (S t) with (1 + t)%nat.
  by rewrite Nat.Div0.add_mod_idemp_r.
Qed.

Lemma view_period t r : length r = n -> (t mod n = 0)%nat -> view t r = r.
Proof.
  intros Hr Ht. apply (nth_ext _ _ 0 0); unfold view; rewrite length_map, length_seq; [done|].
  intros i Hi. rewrite (nth_indep _ 0 (rd r (role t 0))) by by rewrite length_map, length_seq.
  rewrite (map_nth (fun i => rd r (role t i))), seq_nth by done.
  unfold rd, role. rewrite Ht, Nat.sub_0_r, Nat.add_0_l.
  replace (i + n)%nat with (i + 1 * n)%nat by lia.
  by rewrite Nat.Div0.mod_add, Nat.mod_small.
Qed.

(** A list of lines, each of which does one step of the reference on the view,
    does all the steps. *)
Lemma run_view {I} (exec step : I -> list Z -> list Z) code :
  (forall t l r, code !! t = Some l -> length r = n ->
     length (exec l r) = n /\ view (S t) (exec l r) = step l (view t r)) ->
  forall r, length r = n ->
  length (fold_left (fun r l => exec l r) code r) = n /\
  view (length code) (fold_left (fun r l => exec l r) code r)
  = fold_left (fun r l => step l r) code (view 0 r).
Proof.
  induction code as [|l code IH] using rev_ind; intros Hstep r Hr; [done|].
  destruct (IH) with (r := r) as [Hl Hv]; [|done|].
  { intros t l' r' Ht. apply Hstep. by apply lookup_app_l_Some. }
  rewrite !fold_left_app. cbn [fold_left]. rewrite length_app, Nat.add_1_r, <- Hv.
  apply Hstep; [|done]. by apply list_lookup_middle.
Qed.
End rotating.

(** ** RFC 1321 *)

(** [T[t]], the integer part of [2^32 * abs(sin(t + 1))], from the Taylor series
    of the sine in fixed point with 256 fractional bits. *)
Fixpoint sin_terms (fuel : nat) (x k term acc : Z) : Z :=
  match fuel with
  | O => acc
  | S fuel => sin_terms fuel x (k + 2) (- (term * x * x) / ((k + 1) * (k + 2))) (acc + term)
  end.
Definition rfc_T (t : nat) : Z :=
  let x := Z.of_nat t + 1 in Z.abs (sin_terms 150 x 1 (x .<< 256) 0) .>> 224.

(** The auxiliary functions, the word and the rotation of round [t]. *)
Definition rfc_f (t : nat) (x y z : Z) : Z :=
  match (t / 16)%nat with
  | O => (x .& y) .| (Z.lnot x .& z)
  | 1%nat => (x .& z) .| (y .& Z.lnot z)
  | 2%nat => (x .^ y) .^ z
  | _ => y .^ (x .| Z.lnot z)
  end.
Definition rfc_word (t : nat) : Z :=
  let t' := Z.of_nat t in
  match (t / 16)%nat with
  | O => t' mod 16
  | 1%nat => (5 * t' + 1) mod 16
  | 2%nat => (3 * t' + 5) mod 16
  | _ => (7 * t') mod 16
  end.
Definition rfc_rot (t : nat) : Z :=
  nth (t mod 4)%nat (nth (t / 16)%nat [[7; 12; 17; 22]; [5; 9; 14; 20]; [4; 11; 16; 23]; [6; 10; 15; 21]] []) 0.

Definition rfc_step (X : list Z) (r : list Z) (t : nat) : list Z :=
  match r with
  | [a; b; c; d] =>
      [d; u32 (b + rolw 32 (u32 (a + rfc_f t b c d + le32_at X (rfc_word t) + rfc_T t)) (rfc_rot t)); b; c]
  | _ => r
  end.
Definition rfc1321_block (H X : list Z) : list Z :=
  add_regs 32 H (fold_left (rfc_step X) (seq 0 64) H).

(** ** FIPS 180 *)
Definition fips_Ch (x y z : Z) : Z := (x .& y) .^ (Z.lnot x .& z).
Definition fips_Parity (x y z : Z) : Z := (x .^ y) .^ z.
Definition fips_Maj (x y z : Z) : Z := ((x .& y) .^ (x .& z)) .^ (y .& z).

(** A message schedule of [n] words: the sixteen words of the block, then the
    recurrence on what precedes. *)
Definition schedule (load next : Z -> Z) (n : Z) (W : list Z) : Prop :=
  length W = Z.to_nat n /\ (forall t, 0 <= t < 16 -> tget W t = load t) /\
  forall t, 16 <= t < n -> tget W t = next t.

(** The SHA-1 constants are [2^30] times the square roots of 2, 3, 5 and 10. *)
Definition fips_sha1_K (t : nat) : Z :=
  Z.sqrt (nth (t / 20)%nat [2; 3; 5; 10] 0 * 2 ^ 60).
Definition fips_sha1_f (t : nat) : Z -> Z -> Z -> Z :=
  match (t / 20)%nat with O => fips_Ch | 2%nat => fips_Maj | _ => fips_Parity end.
Definition fips_sha1_next (W : list Z) (t : Z) : Z :=
  rolw 32 (tget W (t - 3) .^ tget W (t - 8) .^ tget W (t - 14) .^ tget W (t - 16)) 1.
Definition fips_sha1_step (W : list Z) (r : list Z) (t : nat) : list Z :=
  match r with
  | [a; b; c; d; e] =>
      [u32 (rolw 32 a 5 + fips_sha1_f t b c d + e + fips_sha1_K t + tget W t); a; rolw 32 b 30; c; d]
  | _ => r
  end.
Definition fips_sha1_block (H M H' : list Z) : Prop :=
  exists W, schedule (be32_at M) (fips_sha1_next W) 80 W /\
            H' = add_regs 32 H (fold_left (fips_sha1_step W) (seq 0 80) H).

(** The SHA-2 constants: fractional parts of the cube roots of the first primes,
    and of the square roots of the first eight for the initial value. *)
Definition is_primeb (p : nat) : bool :=
  (2 <=? p)%nat && forallb (fun d => negb (p mod d =? 0)%nat) (seq 2 (p - 2)).
Definition primes : list nat := filter (fun p => is_primeb p = true) (seq 2 408).

Fixpoint root3_search (bits : nat) (n lo : Z) : Z :=
  match bits with
  | O => lo
  | S b => let mid := lo + 2 ^ Z.of_nat b in
           root3_search b n (if mid ^ 3 <=? n then mid else lo)
  end.
Definition frac_root3 (w : Z) (t : nat) : Z :=
  root3_search 80 (Z.of_nat (nth t primes 0%nat) * 2 ^ (3 * w)) 0 mod 2 ^ w.
Definition frac_root2 (w : Z) (t : nat) : Z :=
  Z.sqrt (Z.of_nat (nth t primes 0%nat) * 2 ^ (2 * w)) mod 2 ^ w.

(** The rotation and the shift of FIPS 180, and the functions of SHA-256 and SHA-512 with its
    numbers. *)
Definition fips_ROTR (w n x : Z) : Z := (x .>> n) .| ((x .<< (w - n)) mod 2 ^ w).
Definition fips_SHR (n x : Z) : Z := x .>> n.
Record fips_sha2 := {
  f_w : Z; f_Sigma0 : Z -> Z; f_Sigma1 : Z -> Z; f_sigma0 : Z -> Z; f_sigma1 : Z -> Z }.
Definition fips_sha256 : fips_sha2 := {|
  f_w := 32;
  f_Sigma0 x := fips_ROTR 32 2 x .^ fips_ROTR 32 13 x .^ fips_ROTR 32 22 x;
  f_Sigma1 x := fips_ROTR 32 6 x .^ fips_ROTR 32 11 x .^ fips_ROTR 32 25 x;
  f_sigma0 x := fips_ROTR 32 7 x .^ fips_ROTR 32 18 x .^ fips_SHR 3 x;
  f_sigma1 x := fips_ROTR 32 17 x .^ fips_ROTR 32 19 x .^ fips_SHR 10 x |}.
Definition fips_sha512 : fips_sha2 := {|
  f_w := 64;
  f_Sigma0 x := fips_ROTR 64 28 x .^ fips_ROTR 64 34 x .^ fips_ROTR 64 39 x;
  f_Sigma1 x := fips_ROTR 64 14 x .^ fips_ROTR 64 18 x .^ fips_ROTR 64 41 x;
  f_sigma0 x := fips_ROTR 64 1 x .^ fips_ROTR 64 8 x .^ fips_SHR 7 x;
  f_sigma1 x := fips_ROTR 64 19 x .^ fips_ROTR 64 61 x .^ fips_SHR 6 x |}.

Definition fips_sha2_next (q : fips_sha2) (W : list Z) (t : Z) : Z :=
  (f_sigma1 q (tget W (t - 2)) + tget W (t - 7) + f_sigma0 q (tget W (t - 15)) + tget W (t - 16)) mod 2 ^ f_w q.
Definition fips_sha2_step (q : fips_sha2) (W : list Z) (r : list Z) (t : nat) : list Z :=
  match r with
  | [a; b; c; d; e; f; g; h] =>
      let T1 := (h + f_Sigma1 q e + fips_Ch e f g + frac_root3 (f_w q) t + tget W t) mod 2 ^ f_w q in
      let T2 := (f_Sigma0 q a + fips_Maj a b c) mod 2 ^ f_w q in
      [(T1 + T2) mod 2 ^ f_w q; a; b; c; (d + T1) mod 2 ^ f_w q; e; f; g]
  | _ => r
  end.
Definition fips_sha2_block (q : fips_sha2) (load : list Z -> Z -> Z) (rounds : nat)
    (H M H' : list Z) : Prop :=
  exists W, schedule (load M) (fips_sha2_next q W) rounds W /\
            H' = add_regs (f_w q) H (fold_left (fips_sha2_step q W) (seq 0 rounds) H).

(** The macros of the files, were they those of the standard. *)
Definition macros (q : fips_sha2) : sha2 :=
  Build_sha2 (f_w q) (f_Sigma0 q) (f_Sigma1 q) (f_sigma0 q) (f_sigma1 q).
Lemma sha256_macros : sha256 = macros fips_sha256. Proof. reflexivity. Qed.
Lemma sha512_macros : sha512 = macros fips_sha512. Proof. reflexivity. Qed.

(** *** Boolean identities *)
Lemma Ch_fips x y z : Ch x y z = fips_Ch x y z.
Proof. unfold Ch, fips_Ch. zbitwise. rewrite Z.lnot_spec by lia. tb_cases. Qed.

Lemma Maj_fips x y z : Maj x y z = fips_Maj x y z.
Proof. unfold Maj, fips_Maj. zbitwise. tb_cases. Qed.

Lemma sha1_fn_fips t k x y z :
  (t / 20)%nat = match k with K_0_15 | K_16_19 => 0 | K_20_39 => 1 | K_40_59 => 2 | K_60_79 => 3 end%nat ->
  sha1_fn k x y z = fips_sha1_f t x y z.
Proof.
  unfold fips_sha1_f. intros ->. destruct k; cbn [sha1_fn]; try done.
  1,2: unfold fips_Ch; zbitwise; rewrite Z.lnot_spec by lia; tb_cases.
  rewrite Z.add_nocarry_lxor by (zbitwise; rewrite Z.bits_0; tb_cases). unfold fips_Maj. zbitwise. tb_cases.
Qed.

Lemma md5_fun_rfc t f x y z w :
  (t / 16)%nat = match f with F1 => 0 | F2 => 1 | F3 => 2 | F4 => 3 end%nat ->
  u32 (w + md5_fun f x y z) = u32 (w + rfc_f t x y z).
Proof.
  unfold rfc_f. intros ->. destruct f; cbn [md5_fun]; unfold md5_F1.
  - do 2 f_equal. zbitwise. rewrite Z.lnot_spec by lia. tb_cases.
  - do 2 f_equal. zbitwise. rewrite Z.lnot_spec by lia. tb_cases.
  - done.
  - rewrite <- wrap_add_r, <- (wrap_add_r 32 w (_ .^ (_ .| Z.lnot _))). do 2 f_equal.
    unfold notw. zbitwise; tb_cases.
Qed.

Lemma ror32_rol x : rorw 32 x 2 = rolw 32 x 30.
Proof. unfold rorw, rolw. by rewrite Z.lor_comm. Qed.

(** *** The lines of the sources, from the round number *)
Definition sha2_gline (w : Z) (t : nat) : sha2_line :=
  LINE (role 8 t 0) (role 8 t 1) (role 8 t 2) (role 8 t 3) (role 8 t 4) (role 8 t 5) (role 8 t 6)
    (role 8 t 7) (frac_root3 w t) t.

Lemma sha256_code_lines : sha256_code = map (sha2_gline 32) (seq 0 64).
Proof. vm_compute. reflexivity. Qed.

Lemma sha512_code_lines :
  concat (map sha512_body [0; 8; 16; 24; 32; 40; 48; 56; 64; 72]) = map (sha2_gline 64) (seq 0 80).
Proof. vm_compute. reflexivity. Qed.

Definition md5_gfun (t : nat) : md5_fn := nth (t / 16)%nat [F1; F2; F3; F4] F4.
Definition md5_gline (t : nat) : md5_line :=
  MD5STEP (md5_gfun t) (role 4 t 0) (role 4 t 1) (role 4 t 2) (role 4 t 3)
    (rfc_word t) (rfc_T t) (rfc_rot t).

Lemma md5_code_lines : md5_code = map md5_gline (seq 0 64).
Proof. vm_compute. reflexivity. Qed.

Definition sha1_gkind (t : nat) : sha1_kind :=
  if (t <? 16)%nat then K_0_15 else nth (t / 20)%nat [K_16_19; K_20_39; K_40_59; K_60_79] K_60_79.
Definition sha1_gline (t : nat) : sha1_line :=
  SHA_ROUND (sha1_gkind t) t (role 5 t 0) (role 5 t 1) (role 5 t 2) (role 5 t 3) (role 5 t 4).

Lemma sha1_code_lines : sha1_code = map sha1_gline (seq 0 80).
Proof. vm_compute. reflexivity. Qed.

Lemma sha1_consts t : (t < 80)%nat -> sha1_const (sha1_gkind t) = fips_sha1_K t.
Proof.
  intros Ht. assert (forallb (fun t => sha1_const (sha1_gkind t) =? fips_sha1_K t) (seq 0 80) = true)
    as Hall by (vm_compute; reflexivity).
  rewrite forallb_forall in Hall. apply Z.eqb_eq, Hall. apply in_seq. lia.
Qed.

(** *** One line is one step *)
Lemma sha2_line_step q W t r : length r = 8%nat ->
  length (sha2_exec (macros q) W (sha2_gline (f_w q) t) r) = 8%nat /\
  view 8 (S t) (sha2_exec (macros q) W (sha2_gline (f_w q) t) r) = fips_sha2_step q W (view 8 t r) t.
Proof.
  intros Hr. split; [unfold sha2_exec; by rewrite !length_insert|].
  rewrite <- view_succ_mod, <- (view_mod 8 t) by done.
  unfold sha2_gline. rewrite <- !(role_mod 8 t).
  pose proof (Nat.mod_upper_bound t 8 ltac:(done)) as Hm. set (m := (t mod 8)%nat) in *. clearbody m.
  destruct r as [|x0 [|x1 [|x2 [|x3 [|x4 [|x5 [|x6 [|x7 [|]]]]]]]]]; try done. clear Hr.
  unfold sha2_exec. cbn [l_a l_b l_c l_d l_e l_f l_g l_h l_K l_i].
  rewrite !Ch_fips, !Maj_fips.
  do 8 (destruct m as [|m]; [reflexivity|]). lia.
Qed.

Lemma md5_line_step X t r : length r = 4%nat -> (t < 64)%nat ->
  length (md5_exec X (md5_gline t) r) = 4%nat /\
  view 4 (S t) (md5_exec X (md5_gline t) r) = rfc_step X (view 4 t r) t.
Proof.
  intros Hr Ht. split; [unfold md5_exec; by rewrite !length_insert|].
  rewrite <- view_succ_mod, <- (view_mod 4 t) by done.
  unfold md5_gline. rewrite <- !(role_mod 4 t).
  assert (forall w x y z : Z,
    u32 (w + u32 (md5_fun (md5_gfun t) x y z + u32 (le32_at X (rfc_word t) + rfc_T t)))
    = u32 (w + rfc_f t x y z + le32_at X (rfc_word t) + rfc_T t)) as Hadd.
  { intros w x y z.
    transitivity (u32 (w + (le32_at X (rfc_word t) + rfc_T t) + md5_fun (md5_gfun t) x y z)).
    { wrap_push. unfold eqw. f_equal. lia. }
    rewrite (md5_fun_rfc t); [f_equal; lia|].
    assert (t / 16 < 4)%nat as Hq by (apply Nat.Div0.div_lt_upper_bound; lia).
    unfold md5_gfun. set (q := (t / 16)%nat) in *. clearbody q.
    do 4 (destruct q as [|q]; [done|]). lia. }
  pose proof (Nat.mod_upper_bound t 4 ltac:(done)) as Hm. set (m := (t mod 4)%nat) in *. clearbody m.
  destruct r as [|x0 [|x1 [|x2 [|x3 [|]]]]]; try done. clear Hr.
  unfold md5_exec. cbn [m_f m_w m_x m_y m_z m_in m_k m_s]. rewrite Hadd.
  rewrite (Z.add_comm (rolw _ _ _)).
  do 4 (destruct m as [|m]; [reflexivity|]). lia.
Qed.

(** Registers of a SHA-1 line whose input word is [w]. *)
Definition sha1_regs (l : sha1_line) (w : Z) (r : list Z) : list Z :=
  let fn := sha1_fn (h_kind l) (rd r (h_B l)) (rd r (h_C l)) (rd r (h_D l)) in
  let r := <[h_E l := u32 (rd r (h_E l) + u32 (w + SHA_ROL (rd r (h_A l)) 5 + fn
                                               + sha1_const (h_kind l)))]> r in
  <[h_B l := SHA_ROR (rd r (h_B l)) 2]> r.

Lemma sha1_line_step W t r : length r = 5%nat -> (t < 80)%nat ->
  length (sha1_regs (sha1_gline t) (tget W t) r) = 5%nat /\
  view 5 (S t) (sha1_regs (sha1_gline t) (tget W t) r) = fips_sha1_step W (view 5 t r) t.
Proof.
  intros Hr Ht. split; [unfold sha1_regs; by rewrite !length_insert|].
  rewrite <- view_succ_mod, <- (view_mod 5 t) by done.
  unfold sha1_gline. rewrite <- !(role_mod 5 t).
  assert (forall a b c d e : Z,
    u32 (e + u32 (tget W t + SHA_ROL a 5 + sha1_fn (sha1_gkind t) b c d + sha1_const (sha1_gkind t)))
    = u32 (rolw 32 a 5 + fips_sha1_f t b c d + e + fips_sha1_K t + tget W t)) as Hadd.
  { intros a b c d e. rewrite sha1_consts by done. rewrite (sha1_fn_fips t).
    - wrap_push. unfold SHA_ROL, eqw. f_equal. lia.
    - assert (t / 20 < 4)%nat as Hq by (apply Nat.Div0.div_lt_upper_bound; lia).
      unfold sha1_gkind. destruct (Nat.ltb_spec t 16); [apply Nat.div_small; lia|].
      set (q := (t / 20)%nat) in *. clearbody q. do 4 (destruct q as [|q]; [done|]). lia. }
  pose proof (Nat.mod_upper_bound t 5 ltac:(done)) as Hm. set (m := (t mod 5)%nat) in *. clearbody m.
  destruct r as [|x0 [|x1 [|x2 [|x3 [|x4 [|]]]]]]; try done. clear Hr.
  unfold sha1_regs. cbn [h_kind h_t h_A h_B h_C h_D h_E]. rewrite Hadd.
  unfold SHA_ROR. rewrite ror32_rol.
  do 5 (destruct m as [|m]; [reflexivity|]). lia.
Qed.

(** *** Message schedules *)
Section schedules.
Context (load : Z -> Z) (next : list Z -> Z -> Z).
Hypothesis next_local : forall W W' t, 16 <= t ->
  (forall j, t - 16 <= j < t -> tget W j = tget W' j) -> next W t = next W' t.

Definition grow (n : nat) : list Z :=
  fold_left (fun W I => W ++ [next W (Z.of_nat I)]) (seq 16 n) (map (fun I => load (Z.of_nat I)) (seq 0 16)).

Lemma grow_S (n : nat) : grow (S n) = grow n ++ [next (grow n) (16 + n)].
Proof.
  unfold grow. rewrite seq_S, fold_left_app. cbn [fold_left]. do 3 f_equal. lia.
Qed.

Lemma length_grow (n : nat) : length (grow n) = (16 + n)%nat.
Proof. induction n as [|n IH]; [done|]. rewrite grow_S, length_app, IH. simpl. lia. Qed.

Lemma tget_grow_S (n : nat) j : 0 <= j < 16 + n -> tget (grow (S n)) j = tget (grow n) j.
Proof. intros. rewrite grow_S. unfold tget. apply app_nth1. rewrite length_grow. lia. Qed.

Lemma grow_schedule (n : nat) : schedule load (next (grow n)) (16 + n) (grow n).
Proof.
  induction n as [|n (Hl & Hld & Hnx)].
  - split; [done|]. split; [|lia]. intros t Ht. change (grow 0) with (map (fun I => load (Z.of_nat I)) (seq 0 16)). unfold tget.
    rewrite (nth_indep _ 0 (load (Z.of_nat 0))) by (rewrite length_map, length_seq; lia).
    rewrite (map_nth (fun I => load (Z.of_nat I)) (seq 0 16) 0%nat), seq_nth by lia. f_equal. lia.
  - split; [rewrite length_grow; lia|]. split.
    + intros t Ht. rewrite tget_grow_S by lia. by apply Hld.
    + intros t Ht. assert (next (grow (S n)) t = next (grow n) t) as ->.
      { apply next_local; [lia|]. intros j Hj. apply tget_grow_S. lia. }
      destruct (decide (t = 16 + n)) as [->|].
      * rewrite grow_S. unfold tget at 1. rewrite app_nth2 by (rewrite length_grow; lia).
        rewrite length_grow. by replace (Z.to_nat (16 + n) - (16 + n))%nat with 0%nat by lia.
      * rewrite tget_grow_S by lia. apply Hnx. lia.
Qed.
End schedules.

Lemma sha2_next_local p W W' t : 16 <= t ->
  (forall j, t - 16 <= j < t -> tget W j = tget W' j) -> fips_sha2_next p W t = fips_sha2_next p W' t.
Proof. intros Ht Hj. unfold fips_sha2_next. by rewrite !Hj by lia. Qed.

Lemma sha1_next_local W W' t : 16 <= t ->
  (forall j, t - 16 <= j < t -> tget W j = tget W' j) -> fips_sha1_next W t = fips_sha1_next W' t.
Proof. intros Ht Hj. unfold fips_sha1_next. by rewrite !Hj by lia. Qed.

(** The rolling array of SHA-1 holds the last sixteen words of the schedule. *)
Definition rolls (W array : list Z) (t : nat) : Prop :=
  length array = 16%nat /\
  forall j, t - 16 <= j < t -> 0 <= j -> tget array (j mod 16) = tget W j.

Lemma tget_insert_eq (l : list Z) i v : 0 <= i < length l -> tget (<[Z.to_nat i := v]> l) i = v.
Proof.
  intros. unfold tget. rewrite nth_lookup, list_lookup_insert_eq by lia. done.
Qed.
Lemma tget_insert_ne (l : list Z) i j v : 0 <= i -> 0 <= j -> i <> j ->
  tget (<[Z.to_nat i := v]> l) j = tget l j.
Proof. intros. unfold tget. by rewrite !nth_lookup, list_lookup_insert_ne by lia. Qed.

Lemma sha1_input_word W data array t :
  schedule (be32_at data) (fips_sha1_next W) 80 W -> (t < 80)%nat -> rolls W array t ->
  sha1_input (sha1_gkind t) data array t = tget W t.
Proof.
  intros (_ & Hld & Hnx) Ht [_ Hroll]. unfold sha1_input, sha1_gkind.
  destruct (Nat.ltb_spec t 16); [unfold SHA_SRC; by rewrite Hld by lia|].
  transitivity (SHA_MIX array t).
  { destruct (t / 20)%nat as [|[|[|[|[|q]]]]]; done. }
  rewrite Hnx by lia. unfold SHA_MIX, fips_sha1_next, sha1_Wx, SHA_ROL.
  change 15 with (Z.ones 4). rewrite !Z.land_ones by lia.
  replace ((t + 13) mod 2 ^ 4) with ((t - 3) mod 16)
    by (rewrite <- (Z_mod_plus_full (t - 3) 1 16); f_equal; lia).
  replace ((t + 8) mod 2 ^ 4) with ((t - 8) mod 16)
    by (rewrite <- (Z_mod_plus_full (t - 8) 1 16); f_equal; lia).
  replace ((t + 2) mod 2 ^ 4) with ((t - 14) mod 16)
    by (rewrite <- (Z_mod_plus_full (t - 14) 1 16); f_equal; lia).
  replace (t mod 2 ^ 4) with ((t - 16) mod 16)
    by (rewrite <- (Z_mod_plus_full (t - 16) 1 16); f_equal; lia).
  by rewrite !Hroll by lia.
Qed.

Lemma rolls_step W array t : rolls W array t ->
  rolls W (<[Z.to_nat (t .& 15) := tget W t]> array) (S t).
Proof.
  intros [Hl Hroll]. split; [by rewrite length_insert|]. intros j Hj H0.
  change 15 with (Z.ones 4). rewrite Z.land_ones by lia. change (2 ^ 4) with 16.
  pose proof (Z.mod_pos_bound t 16 ltac:(lia)). pose proof (Z.mod_pos_bound j 16 ltac:(lia)).
  destruct (decide (j = t)) as [->|Hne].
  - apply tget_insert_eq. lia.
  - rewrite tget_insert_ne; [apply Hroll; lia|lia|lia|].
    intros E. pose proof (Z.div_mod t 16 ltac:(lia)). pose proof (Z.div_mod j 16 ltac:(lia)). lia.
Qed.

Lemma sha1_run W data array H (n : nat) :
  schedule (be32_at data) (fips_sha1_next W) 80 W -> (n <= 80)%nat ->
  length array = 16%nat -> length H = 5%nat ->
  exists array' r, fold_left (fun s l => sha1_exec data l s) (map sha1_gline (seq 0 n)) (array, H)
                   = (array', r) /\
    rolls W array' n /\ length r = 5%nat /\ view 5 n r = fold_left (fips_sha1_step W) (seq 0 n) H.
Proof.
  intros HW Hn Ha HH. induction n as [|n IH].
  { exists array, H. split; [done|]. split; [split; [done|lia]|]. split; [done|].
    by apply (view_period 5). }
  destruct IH as (a' & r & E & Hroll & Hr & Hv); [lia|].
  rewrite seq_S, map_app, !fold_left_app, E, <- Hv. cbn [map fold_left Nat.add].
  unfold sha1_exec at 1. cbn [h_t h_kind sha1_gline].
  rewrite (sha1_input_word W) by (done || lia).
  destruct (sha1_line_step W n r) as [Hl' Hv']; [done|lia|].
  eexists _, _. split; [reflexivity|]. split; [by apply rolls_step|]. done.
Qed.

(** The cube roots of the reference are integer parts. *)
Lemma root3_search_floor (bits : nat) n : forall lo,
  lo ^ 3 <= n < (lo + 2 ^ bits) ^ 3 ->
  root3_search bits n lo ^ 3 <= n < (root3_search bits n lo + 1) ^ 3.
Proof.
  induction bits as [|b IH]; intros lo Hlo; [done|]. cbn [root3_search].
  replace (2 ^ S b) with (2 ^ b + 2 ^ b) in Hlo
    by (rewrite Nat2Z.inj_succ, Z.pow_succ_r by lia; lia).
  rewrite Z.add_assoc in Hlo. apply IH. destruct (Z.leb_spec ((lo + 2 ^ b) ^ 3) n); lia.
Qed.

Lemma fold_left_concat_map {A B} (f : A -> B -> A) (g : Z -> list B) l a :
  fold_left (fun a i => fold_left f (g i) a) l a = fold_left f (concat (map g l)) a.
Proof. revert a. induction l as [|i l IH]; intros a; [done|]. simpl. by rewrite fold_left_app, IH. Qed.

Lemma fold_left_map {A B C} (f : A -> C -> A) (g : B -> C) l a :
  fold_left f (map g l) a = fold_left (fun a b => f a (g b)) l a.
Proof. revert a. induction l as [|b l IH]; intros a; [done|]. apply IH. Qed.

Lemma lookup_map_seq {A} (g : nat -> A) n t l : map g (seq 0 n) !! t = Some l -> l = g t /\ (t < n)%nat.
Proof.
  rewrite list_lookup_fmap. intros (k & Hk & ->)%fmap_Some. apply lookup_seq in Hk as [-> ?]. done.
Qed.

Lemma sha2_run p W (n : nat) H : length H = 8%nat -> (n mod 8 = 0)%nat ->
  fold_left (fun r l => sha2_exec (macros p) W l r) (map (sha2_gline (f_w p)) (seq 0 n)) H
  = fold_left (fips_sha2_step p W) (seq 0 n) H.
Proof.
  intros HH Hn.
  destruct (run_view 8 (sha2_exec (macros p) W) (fun l r => fips_sha2_step p W r (Z.to_nat (l_i l)))
              (map (sha2_gline (f_w p)) (seq 0 n))) with (r := H) as [Hl Hv]; [|done|].
  - intros t l r [-> _]%lookup_map_seq Hr. cbn [l_i sha2_gline]. rewrite Nat2Z.id.
    by apply sha2_line_step.
  - rewrite length_map, length_seq, view_period in Hv by done. rewrite Hv, view_period, fold_left_map by done.
    cbn [l_i sha2_gline].
    assert (forall l a, fold_left (fun a b => fips_sha2_step p W a (Z.to_nat (Z.of_nat b))) l a
                        = fold_left (fips_sha2_step p W) l a) as Heq; [|apply Heq].
    induction l as [|b l IH]; intros a; [done|]. cbn [fold_left]. by rewrite Nat2Z.id, IH.
Qed.

Lemma sha2_W_schedule p load n M :
  schedule (load M) (fips_sha2_next p (sha2_W (macros p) load n M)) (16 + n) (sha2_W (macros p) load n M).
Proof. apply (grow_schedule (load M) (fips_sha2_next p)), sha2_next_local. Qed.

(** ** Properties *)

(** C18: [md5_transform] is the block function of RFC 1321: the four auxiliary
    functions, the word order, the rotations and the sine table. *)
Theorem md5_transform_rfc1321 H X : length H = 4%nat ->
  md5_transform H X = rfc1321_block H X.
Proof.
  intros HH. unfold md5_transform, rfc1321_block. f_equal. rewrite md5_code_lines.
  assert (forall n, (n <= 64)%nat ->
    let r := fold_left (fun r l => md5_exec X l r) (map md5_gline (seq 0 n)) H in
    length r = 4%nat /\ view 4 n r = fold_left (rfc_step X) (seq 0 n) H) as Hrun.
  { induction n as [|n IH]; intros Hn; [split; [done|by apply (view_period 4)]|].
    destruct IH as [Hl Hv]; [lia|].
    rewrite seq_S, map_app, !fold_left_app, <- Hv. cbn [map fold_left Nat.add].
    apply md5_line_step; [done|lia]. }
  destruct (Hrun 64%nat) as [Hl <-]; [done|]. by rewrite view_period.
Qed.

Lemma md5_transform_rfc1321_witness :
  md5_transform [0x67452301; 0xefcdab89; 0x98badcfe; 0x10325476]
    ([97; 98; 99; 128] ++ replicate 52 0 ++ [24] ++ replicate 7 0)
  = [0x98500190; 0xb04fd23c; 0x7d3f96d6; 0x727fe128] /\
  rfc1321_block [0x67452301; 0xefcdab89; 0x98badcfe; 0x10325476]
    ([97; 98; 99; 128] ++ replicate 52 0 ++ [24] ++ replicate 7 0)
  = [0x98500190; 0xb04fd23c; 0x7d3f96d6; 0x727fe128].
Proof.
  split; [vm_compute; reflexivity|].
  rewrite <- md5_transform_rfc1321 by done. vm_compute. reflexivity.
Defined.

(** C17: [blk_SHA1Block] is the block function of FIPS 180 SHA-1, whatever its
    uninitialised array holds: the sixteen-word rolling array yields the
    eighty-word message schedule, and permuting the register names is the same
    as moving the variables. *)
Theorem sha1_block_fips array H M : length array = 16%nat -> length H = 5%nat ->
  fips_sha1_block H M (blk_SHA1Block array H M).
Proof.
  intros Ha HH. pose (W := grow (be32_at M) fips_sha1_next 64).
  assert (schedule (be32_at M) (fips_sha1_next W) 80 W) as HW
    by apply (grow_schedule (be32_at M) fips_sha1_next sha1_next_local 64).
  exists W. split; [done|].
  destruct (sha1_run W M array H 80) as (a' & r & E & _ & Hr & Hv); [done..|].
  unfold blk_SHA1Block. rewrite sha1_code_lines, E. cbn [snd]. f_equal.
  by rewrite <- Hv, view_period.
Qed.

Lemma sha1_block_fips_witness :
  fips_sha1_block [0x67452301; 0xefcdab89; 0x98badcfe; 0x10325476; 0xc3d2e1f0]
    ([97; 98; 99; 128] ++ replicate 59 0 ++ [24])
    [0xa9993e36; 0x4706816a; 0xba3e2571; 0x7850c26c; 0x9cd0d89d].
Proof.
  pose proof (sha1_block_fips (replicate 16 0)
    [0x67452301; 0xefcdab89; 0x98badcfe; 0x10325476; 0xc3d2e1f0]
    ([97; 98; 99; 128] ++ replicate 59 0 ++ [24]) eq_refl eq_refl) as Hw.
  assert (blk_SHA1Block (replicate 16 0) [0x67452301; 0xefcdab89; 0x98badcfe; 0x10325476; 0xc3d2e1f0]
    ([97; 98; 99; 128] ++ replicate 59 0 ++ [24])
    = [0xa9993e36; 0x4706816a; 0xba3e2571; 0x7850c26c; 0x9cd0d89d]) as E by (vm_compute; reflexivity).
  rewrite E in Hw. exact Hw.
Defined.

(** C16: [sha256_transform] and [sha512_transform] are the block functions of
    FIPS 180 SHA-256 and SHA-512: its rotations and shifts, its message schedule, its
    eight registers, and its round constants, which are the fractional parts of the cube roots of
    the first 64 and 80 primes. *)
Theorem sha2_transforms_fips H M : length H = 8%nat ->
  fips_sha2_block fips_sha256 be32_at 64 H M (sha256_transform H M) /\
  fips_sha2_block fips_sha512 be64_at 80 H M (fst (sha512_transform H M)).
Proof.
  intros HH. unfold sha256_transform, sha512_transform. rewrite sha256_macros, sha512_macros. split.
  - exists (sha2_W (macros fips_sha256) be32_at 48 M). split; [apply (sha2_W_schedule fips_sha256 be32_at 48 M)|].
    cbv zeta. cbn [s_w macros f_w fips_sha256]. f_equal.
    rewrite sha256_code_lines. by apply (sha2_run fips_sha256 _ 64).
  - exists (sha2_W (macros fips_sha512) be64_at 64 M). split; [apply (sha2_W_schedule fips_sha512 be64_at 64 M)|].
    cbv zeta. cbn [fst s_w macros f_w fips_sha512]. f_equal.
    rewrite fold_left_concat_map, sha512_code_lines. by apply (sha2_run fips_sha512 _ 80).
Qed.

Lemma sha2_transforms_fips_witness :
  fips_sha2_block fips_sha256 be32_at 64
    (map (frac_root2 32) (seq 0 8)) ([97; 98; 99; 128] ++ replicate 59 0 ++ [24])
    [0xba7816bf; 0x8f01cfea; 0x414140de; 0x5dae2223; 0xb00361a3; 0x96177a9c; 0xb410ff61; 0xf20015ad].
Proof.
  pose proof (proj1 (sha2_transforms_fips (map (frac_root2 32) (seq 0 8))
    ([97; 98; 99; 128] ++ replicate 59 0 ++ [24]) eq_refl)) as Hw.
  assert (sha256_transform (map (frac_root2 32) (seq 0 8)) ([97; 98; 99; 128] ++ replicate 59 0 ++ [24])
    = [0xba7816bf; 0x8f01cfea; 0x414140de; 0x5dae2223; 0xb00361a3; 0x96177a9c; 0xb410ff61; 0xf20015ad])
    as E by (vm_compute; reflexivity).
  rewrite E in Hw. exact Hw.
Defined.


End Compress.
