(* ===== verification/Digest.v ===== *)
(** * Message digest contexts

    The contexts of [src/crc/md5.c], [src/crc/sha1.c], [src/crc/sha256.c] and
    [src/crc/sha512.c]: initialisation and the buffering of [update], which
    feeds whole blocks to the transforms of [Compress].  The four updates are
    written differently; [BlockHash] states what they have in common, and the
    theorems on streams are proved against it.

    A pointer member ([hash], [H], [buf]) is modelled by the bytes or words it
    points to. *)
From S2P Require Import Prelude Rand Compress.
Local Open Scope word_scope.

Module Digest.
Import Compress.
Import Rand(store).

(** ** [crc/md5.c] *)
Record fio_md5_ctx := {
  md5_hash : list Z;
  md5_block : list Z;                 (* 16 words, as the 64 bytes they occupy *)
  md5_byte_count : Z }.

#[global] Instance eta_md5 : Eta fio_md5_ctx := fun c =>
  Build_fio_md5_ctx (md5_hash c) (md5_block c) (md5_byte_count c).

Definition md5_iv : list Z := [0x67452301; 0xefcdab89; 0x98badcfe; 0x10325476].

Definition fio_md5_init (mctx : fio_md5_ctx) : fio_md5_ctx := mctx <| md5_hash := md5_iv |>.

(** [while (len >= sizeof(mctx->block))]; each turn consumes 64 bytes, so that the
    length of the data is enough fuel. *)
Fixpoint md5_loop (fuel : nat) (hash block data : list Z) : list Z * list Z * list Z :=
  match fuel with
  | O => (hash, block, data)
  | S fuel =>
      if 64 <=? length data then
        let block := store block 0 (take 64 data) in
        md5_loop fuel (md5_transform hash block) block (drop 64 data)
      else (hash, block, data)
  end.

Definition fio_md5_update (mctx : fio_md5_ctx) (data : list Z) : fio_md5_ctx :=
  let len := Z.of_nat (length data) in
  let avail := 64 - (md5_byte_count mctx .& 0x3f) in
  let mctx := mctx <| md5_byte_count := u64 (md5_byte_count mctx + len) |> in
  if len <? avail then
    mctx <| md5_block := store (md5_block mctx) (64 - avail) data |>
  else
    let block := store (md5_block mctx) (64 - avail) (take (Z.to_nat avail) data) in
    let hash := md5_transform (md5_hash mctx) block in
    let '(hash, block, data) := md5_loop (length data) hash block (drop (Z.to_nat avail) data) in
    mctx <| md5_hash := hash |> <| md5_block := store block 0 data |>.

(** ** [crc/sha1.c] *)
Record fio_sha1_ctx := {
  sha1_H : list Z;
  sha1_W : list Z;                    (* 16 words, as 64 bytes *)
  sha1_size : Z }.

#[global] Instance eta_sha1 : Eta fio_sha1_ctx := fun c =>
  Build_fio_sha1_ctx (sha1_H c) (sha1_W c) (sha1_size c).

Definition sha1_iv : list Z := [0x67452301; 0xefcdab89; 0x98badcfe; 0x10325476; 0xc3d2e1f0].

Definition fio_sha1_init (ctx : fio_sha1_ctx) : fio_sha1_ctx :=
  ctx <| sha1_size := 0 |> <| sha1_H := sha1_iv |>.

(** The local array of a call of [blk_SHA1Block], whose contents do not matter
    ([sha1_block_array]). *)
Definition sha1_block (H data : list Z) : list Z := blk_SHA1Block (replicate 16 0) H data.

(** [while (len >= 64)] *)
Fixpoint sha1_loop (fuel : nat) (H data : list Z) : list Z * list Z :=
  match fuel with
  | O => (H, data)
  | S fuel => if 64 <=? length data then sha1_loop fuel (sha1_block H (take 64 data)) (drop 64 data)
              else (H, data)
  end.

(** The part of [fio_sha1_update] from the loop on. *)
Definition sha1_rest (ctx : fio_sha1_ctx) (data : list Z) : fio_sha1_ctx :=
  let '(H, data) := sha1_loop (length data) (sha1_H ctx) data in
  let ctx := ctx <| sha1_H := H |> in
  if Z.of_nat (length data) =? 0 then ctx
  else ctx <| sha1_W := store (sha1_W ctx) 0 data |>.

Definition fio_sha1_update (ctx : fio_sha1_ctx) (data : list Z) : fio_sha1_ctx :=
  let len := Z.of_nat (length data) in
  let lenW := sha1_size ctx .& 63 in
  let ctx := ctx <| sha1_size := u64 (sha1_size ctx + len) |> in
  if lenW =? 0 then sha1_rest ctx data
  else
    let left := 64 - lenW in
    let left := if len <? left then len else left in
    let ctx := ctx <| sha1_W := store (sha1_W ctx) lenW (take (Z.to_nat left) data) |> in
    let lenW := (lenW + left) .& 63 in
    let data := drop (Z.to_nat left) data in
    if negb (lenW =? 0) then ctx
    else sha1_rest (ctx <| sha1_H := sha1_block (sha1_H ctx) (sha1_W ctx) |>) data.

(** [htonl] of a word, as the four bytes it occupies. *)
Definition be_bytes (n : nat) (x : Z) : list Z :=
  map (fun i => u8 (x .>> (8 * Z.of_nat (n - 1 - i)%nat))) (seq 0 n).

Definition sha1_pad : list Z := 0x80 :: replicate 63 0.

Definition fio_sha1_final (ctx : fio_sha1_ctx) : list Z * fio_sha1_ctx :=
  let padlen := be_bytes 4 (u32 (sha1_size ctx .>> 29)) ++ be_bytes 4 (u32 (sha1_size ctx .<< 3)) in
  let i := sha1_size ctx .& 63 in
  let ctx := fio_sha1_update ctx (take (Z.to_nat (1 + (63 .& (55 - i)))) sha1_pad) in
  let ctx := fio_sha1_update ctx padlen in
  (concat (map (be_bytes 4) (sha1_H ctx)), ctx).

(** ** [crc/sha256.c] *)
Record fio_sha256_ctx := {
  sha256_count : Z * Z;
  sha256_state : list Z;
  sha256_buf : list Z }.

#[global] Instance eta_sha256 : Eta fio_sha256_ctx := fun c =>
  Build_fio_sha256_ctx (sha256_count c) (sha256_state c) (sha256_buf c).

Definition sha256_iv : list Z :=
  [0x6a09e667; 0xbb67ae85; 0x3c6ef372; 0xa54ff53a; 0x510e527f; 0x9b05688c; 0x1f83d9ab; 0x5be0cd19].

Definition fio_sha256_init (sctx : fio_sha256_ctx) : fio_sha256_ctx :=
  sctx <| sha256_state := sha256_iv |> <| sha256_count := (0, 0) |>.

(** [for (i = part_len; i + 63 < len; i += 64)] on unsigned ints; while [i + 63]
    does not wrap, the length of the data is enough fuel. *)
Fixpoint sha256_loop (fuel : nat) (state data : list Z) (i : Z) : list Z * Z :=
  match fuel with
  | O => (state, i)
  | S fuel =>
      if u32 (i + 63) <? length data then
        sha256_loop fuel (sha256_transform state (take 64 (drop (Z.to_nat i) data))) data (u32 (i + 64))
      else (state, i)
  end.

Definition sha256_bits (count : Z * Z) (len : Z) : Z * Z :=
  let '(c0, c1) := count in
  let c0 := u32 (c0 + shlw 32 len 3) in
  if c0 <? shlw 32 len 3 then (c0, u32 (u32 (c1 + 1) + (len .>> 29))) else (c0, c1).

Definition fio_sha256_update (sctx : fio_sha256_ctx) (data : list Z) : fio_sha256_ctx :=
  let len := Z.of_nat (length data) in
  let idx := (fst (sha256_count sctx) .>> 3) .& 0x3f in
  let sctx := sctx <| sha256_count ::= fun c => sha256_bits c len |> in
  let part_len := 64 - idx in
  if part_len <=? len then
    let buf := store (sha256_buf sctx) idx (take (Z.to_nat part_len) data) in
    let state := sha256_transform (sha256_state sctx) buf in
    let '(state, i) := sha256_loop (length data) state data part_len in
    sctx <| sha256_state := state |> <| sha256_buf := store buf 0 (drop (Z.to_nat i) data) |>
  else
    sctx <| sha256_buf := store (sha256_buf sctx) idx data |>.

(** ** [crc/sha512.c] *)
Record fio_sha512_ctx := {
  sha512_state : list Z;
  sha512_count : Z * Z * Z * Z;
  sha512_buf : list Z;
  sha512_W : list Z }.

#[global] Instance eta_sha512 : Eta fio_sha512_ctx := fun c =>
  Build_fio_sha512_ctx (sha512_state c) (sha512_count c) (sha512_buf c) (sha512_W c).

Definition sha512_iv : list Z :=
  [0x6a09e667f3bcc908; 0xbb67ae8584caa73b; 0x3c6ef372fe94f82b; 0xa54ff53a5f1d36f1;
   0x510e527fade682d1; 0x9b05688c2b3e6c1f; 0x1f83d9abfb41bd6b; 0x5be0cd19137e2179].

Definition fio_sha512_init (sctx : fio_sha512_ctx) : fio_sha512_ctx :=
  sctx <| sha512_state := sha512_iv |> <| sha512_count := (0, 0, 0, 0) |>.

(** The transforms leave their message schedule in [W]. *)
Fixpoint sha512_loop (fuel : nat) (state W data : list Z) (i : Z) : list Z * list Z * Z :=
  match fuel with
  | O => (state, W, i)
  | S fuel =>
      if u32 (i + 127) <? length data then
        let '(state, W) := sha512_transform state (take 128 (drop (Z.to_nat i) data)) in
        sha512_loop fuel state W data (u32 (i + 128))
      else (state, W, i)
  end.

Definition sha512_bits (count : Z * Z * Z * Z) (len : Z) : Z * Z * Z * Z :=
  let '(c0, c1, c2, c3) := count in
  let c0 := u32 (c0 + shlw 32 len 3) in
  if c0 <? shlw 32 len 3 then
    let c1 := u32 (c1 + 1) in
    let '(c2, c3) :=
      if c1 <? 1 then
        let c2 := u32 (c2 + 1) in
        (c2, if c2 <? 1 then u32 (c3 + 1) else c3)
      else (c2, c3) in
    (c0, u32 (c1 + (len .>> 29)), c2, c3)
  else (c0, c1, c2, c3).

Definition fio_sha512_update (sctx : fio_sha512_ctx) (data : list Z) : fio_sha512_ctx :=
  let len := Z.of_nat (length data) in
  let idx := (sha512_count sctx).1.1.1 .>> 3 .& 0x7f in
  let sctx := sctx <| sha512_count ::= fun c => sha512_bits c len |> in
  let part_len := 128 - idx in
  let sctx :=
    if part_len <=? len then
      let buf := store (sha512_buf sctx) idx (take (Z.to_nat part_len) data) in
      let '(state, W) := sha512_transform (sha512_state sctx) buf in
      let '(state, W, i) := sha512_loop (length data) state W data part_len in
      sctx <| sha512_state := state |> <| sha512_W := W |>
        <| sha512_buf := store buf 0 (drop (Z.to_nat i) data) |>
    else
      sctx <| sha512_buf := store (sha512_buf sctx) idx data |> in
  sctx <| sha512_W := replicate 80 0 |>.

(** ** Absorbing a message block by block *)
Section absorb.
Implicit Types (m b : list Z).
Context (B : nat) (HB : (0 < B)%nat) (f : list Z -> list Z -> list Z).

Fixpoint absorb_n (n : nat) (st m : list Z) : list Z :=
  match n with
  | O => st
  | S n => absorb_n n (f st (take B m)) (drop B m)
  end.
Definition absorb (st m : list Z) : list Z := absorb_n (length m / B) st m.
Definition leftover (m : list Z) : list Z := drop (length m / B * B) m.

Lemma absorb_small st m : (length m < B)%nat -> absorb st m = st.
Proof. intros. unfold absorb. by rewrite Nat.div_small. Qed.
Lemma leftover_small m : (length m < B)%nat -> leftover m = m.
Proof. intros. unfold leftover. by rewrite Nat.div_small. Qed.

Lemma length_block_app (b m : list Z) : length b = B -> (length (b ++ m) / B = S (length m / B))%nat.
Proof.
  intros Hb. rewrite length_app, Hb. replace (B + length m)%nat with (length m + 1 * B)%nat by lia.
  rewrite Nat.div_add by lia. lia.
Qed.

Lemma absorb_block st b m : length b = B -> absorb st (b ++ m) = absorb (f st b) m.
Proof.
  intros Hb. unfold absorb. rewrite length_block_app by done. cbn [absorb_n].
  by rewrite take_app_length', drop_app_length' by done.
Qed.
Lemma leftover_block b m : length b = B -> leftover (b ++ m) = leftover m.
Proof.
  intros Hb. unfold leftover. rewrite length_block_app by done. cbn [Nat.mul].
  by rewrite <- drop_drop, drop_app_length' by done.
Qed.

(** A message is short, or starts with a block. *)
Lemma block_ind (P : list Z -> Prop) :
  (forall m, (length m < B)%nat -> P m) ->
  (forall b m, length b = B -> P m -> P (b ++ m)) -> forall m, P m.
Proof.
  intros Hs Hb m. remember (length m) as n eqn:En. revert m En.
  induction (lt_wf n) as [n _ IH]. intros m ->.
  destruct (decide (length m < B)%nat) as [|Hge]; [by apply Hs|].
  rewrite <- (take_drop B m). apply Hb; [rewrite length_take; lia|].
  apply (IH (length m - B)%nat); [lia|]. by rewrite length_drop.
Qed.

Lemma absorb_app m m' : forall st, absorb st (m ++ m') = absorb (absorb st m) (leftover m ++ m').
Proof.
  induction m as [m Hm|b m Hb IH] using block_ind; intros st.
  - by rewrite (absorb_small st m), leftover_small.
  - by rewrite <- app_assoc, !(absorb_block _ b), IH, (leftover_block b).
Qed.
Lemma leftover_app m m' : leftover (m ++ m') = leftover (leftover m ++ m').
Proof.
  induction m as [m Hm|b m Hb IH] using block_ind; [by rewrite (leftover_small m)|].
  by rewrite <- app_assoc, !(leftover_block b), IH.
Qed.

Lemma leftover_length m : length (leftover m) = (length m mod B)%nat.
Proof. unfold leftover. rewrite length_drop, Nat.Div0.mod_eq. lia. Qed.

(** Only whole blocks count. *)
Lemma absorb_whole st m t : (length m mod B = 0)%nat -> (length t < B)%nat ->
  absorb st (m ++ t) = absorb st m.
Proof.
  intros Hm Ht. rewrite absorb_app.
  assert (leftover m = []) as -> by (apply length_zero_iff_nil; by rewrite leftover_length).
  by apply absorb_small.
Qed.
End absorb.

(** ** What the four contexts have in common *)
Class BlockHash (C : Type) := {
  bh_block : nat;                                  (* bytes of a block *)
  bh_compress : list Z -> list Z -> list Z;        (* the block function *)
  bh_state : C -> list Z;
  bh_buf : C -> list Z;
  bh_pos : C -> Z;                                 (* bytes held in the buffer *)
  bh_update : C -> list Z -> C }.

Definition bh_wf {C} `{BlockHash C} (c : C) : Prop :=
  length (bh_buf c) = bh_block /\ 0 <= bh_pos c < bh_block.
Definition bh_pending {C} `{BlockHash C} (c : C) : list Z := take (Z.to_nat (bh_pos c)) (bh_buf c).
Definition bh_absorb {C} `{BlockHash C} : list Z -> list Z -> list Z := absorb bh_block bh_compress.

(** [update] absorbs the buffered bytes followed by the data, and buffers what is
    left; the data is shorter than 2^32 bytes by more than a block. *)
Class BlockHashOk (C : Type) `{BlockHash C} := {
  bh_block_pos : (0 < bh_block)%nat;
  bh_update_ok (c : C) data : bh_wf c -> length data + 128 <= 2 ^ 32 ->
    bh_wf (bh_update c data) /\
    bh_state (bh_update c data) = bh_absorb (bh_state c) (bh_pending c ++ data) /\
    bh_pending (bh_update c data) = leftover bh_block (bh_pending c ++ data) }.

Section streams.
Context {C : Type} `{BlockHashOk C}.

(** A sequence of updates is one update with the concatenation. *)
Lemma update_pieces pieces : forall c : C, bh_wf c ->
  Forall (fun d : list Z => length d + 128 <= 2 ^ 32) pieces ->
  let c' := fold_left bh_update pieces c in
  bh_wf c' /\
  bh_state c' = bh_absorb (bh_state c) (bh_pending c ++ concat pieces) /\
  bh_pending c' = leftover bh_block (bh_pending c ++ concat pieces).
Proof.
  pose proof bh_block_pos as HB.
  induction pieces as [|d pieces IH]; intros c Hwf HF c'; subst c'; cbn [fold_left concat].
  - rewrite app_nil_r. destruct (Hwf) as [Hl Hp]. unfold bh_absorb.
    assert (length (bh_pending c) < bh_block)%nat by (unfold bh_pending; rewrite length_take; lia).
    by rewrite absorb_small, leftover_small.
  - inversion_clear HF as [|? ? Hd HF']. destruct (bh_update_ok c d Hwf Hd) as (Hwf1 & Hs1 & Hp1).
    destruct (IH _ Hwf1 HF') as (Hwf2 & Hs2 & Hp2). split; [done|].
    rewrite Hs2, Hp2, Hs1, Hp1, app_assoc. unfold bh_absorb.
    by rewrite <- absorb_app, <- leftover_app.
Qed.
End streams.

(** ** The four updates keep the promise *)
Section buffer.
Implicit Types (mem bs : list Z) (pos : Z).

Lemma length_store_in mem pos bs : 0 <= pos -> pos + length bs <= length mem ->
  length (store mem pos bs) = length mem.
Proof. intros. unfold store. rewrite !length_app, length_take, length_drop. lia. Qed.

Lemma take_store mem pos bs : 0 <= pos -> pos + length bs <= length mem ->
  take (Z.to_nat (pos + length bs)) (store mem pos bs) = take (Z.to_nat pos) mem ++ bs.
Proof.
  intros. unfold store. rewrite app_assoc. apply take_app_length'.
  rewrite length_app, length_take. lia.
Qed.

Lemma store_full mem pos bs : 0 <= pos -> pos + length bs = length mem ->
  store mem pos bs = take (Z.to_nat pos) mem ++ bs.
Proof.
  intros Hp Hl. rewrite <- take_store by lia. rewrite take_ge; [done|].
  rewrite length_store_in by lia. lia.
Qed.

Lemma store_whole mem bs : length bs = length mem -> store mem 0 bs = bs.
Proof. intros. by rewrite store_full by lia. Qed.

Lemma pos_add w k x n : 0 <= k <= w ->
  wrap w (x + n) .& Z.ones k = ((x .& Z.ones k) + n) mod 2 ^ k.
Proof.
  intros Hk. rewrite !Z.land_ones, Zplus_mod_idemp_l by lia. unfold wrap.
  apply Z.mod_mod_divide. exists (2 ^ (w - k)).
  rewrite <- Z.pow_add_r by lia. f_equal. lia.
Qed.

(** The position counted in bits, in 32 bits, and read back in bytes. *)
Lemma bit_pos_add k c n : 0 <= k <= 29 ->
  (u32 (c + shlw 32 n 3) .>> 3) .& Z.ones k = (((c .>> 3) .& Z.ones k) + n) mod 2 ^ k.
Proof.
  intros Hk. rewrite !Z.land_ones, Zplus_mod_idemp_l, !Z.shiftr_div_pow2 by lia.
  unfold shlw. rewrite wrap_add_r, Z.shiftl_mul_pow2 by lia. change (2 ^ 3) with 8.
  rewrite <- (Z.div_add c n 8) by lia. set (x := c + n * 8). unfold wrap.
  assert ((x mod 2 ^ 32) / 8 = (x / 8) mod 2 ^ 29) as ->.
  { change (2 ^ 32) with (8 * 2 ^ 29). rewrite Z.rem_mul_r by lia.
    rewrite Z.mul_comm, Z.div_add by lia. rewrite (Z.div_small (x mod 8)); [lia|].
    apply Z.mod_pos_bound. lia. }
  apply Z.mod_mod_divide. exists (2 ^ (29 - k)).
  rewrite <- Z.pow_add_r by lia. f_equal. lia.
Qed.

(** Buffered bytes and data that complete a block. *)
Lemma absorb_split B f st pend data (k : nat) : (0 < B)%nat -> (k <= length data)%nat ->
  (length pend + k)%nat = B ->
  absorb B f st (pend ++ data) = absorb B f (f st (pend ++ take k data)) (drop k data) /\
  leftover B (pend ++ data) = leftover B (drop k data).
Proof.
  intros HB Hk Hl. rewrite <- (take_drop k data) at 1 4. rewrite !app_assoc.
  by rewrite absorb_block, leftover_block by (done || rewrite length_app, length_take; lia).
Qed.

Lemma absorb_step B f st data : (0 < B)%nat -> (B <= length data)%nat ->
  absorb B f st data = absorb B f (f st (take B data)) (drop B data) /\
  leftover B data = leftover B (drop B data).
Proof. intros. by apply (absorb_split B f st [] data B). Qed.

(** What is left over goes to the front of the buffer. *)
Lemma tail_buffered B mem data pos (k : nat) q :
  (0 < B)%nat -> length mem = B -> pos + k = q * B -> (k <= length data)%nat ->
  (length (store mem 0 (leftover B (drop k data))) = B /\ 0 <= (pos + length data) mod B < B) /\
  take (Z.to_nat ((pos + length data) mod B)) (store mem 0 (leftover B (drop k data)))
  = leftover B (drop k data).
Proof.
  intros HB Hm Hk Hd.
  assert (Z.of_nat (length (leftover B (drop k data))) = (pos + length data) mod B) as Hlo.
  { rewrite leftover_length, Nat2Z.inj_mod, length_drop by done.
    rewrite <- (Z_mod_plus_full _ q B). f_equal. lia. }
  pose proof (Z.mod_pos_bound (pos + length data) B ltac:(lia)).
  split; [rewrite length_store_in; lia|].
  rewrite <- Hlo. by rewrite <- (Z.add_0_l (length _)), take_store by lia.
Qed.
End buffer.

Lemma md5_loop_ok (fuel : nat) : forall hash block data,
  length block = 64%nat -> (length data <= fuel)%nat ->
  exists block', md5_loop fuel hash block data
    = (absorb 64 md5_transform hash data, block', leftover 64 data) /\ length block' = 64%nat.
Proof.
  induction fuel as [|fuel IH]; intros hash block data Hb Hd.
  - destruct data; [|simpl in Hd; lia]. by exists block.
  - cbn [md5_loop]. destruct (Z.leb_spec 64 (length data)) as [Hge|Hlt].
    + assert (length (take 64 data) = 64%nat) as Ht by (rewrite length_take; lia).
      rewrite store_whole by lia.
      destruct (IH (md5_transform hash (take 64 data)) (take 64 data) (drop 64 data)) as (b' & -> & Hb').
      { lia. } { rewrite length_drop. lia. }
      exists b'. split; [|done].
      by destruct (absorb_step 64 md5_transform hash data) as [-> ->]; [lia..|].
    + exists block. by rewrite absorb_small, leftover_small by lia.
Qed.

#[global] Instance md5_hash_ops : BlockHash fio_md5_ctx := {
  bh_block := 64;
  bh_compress := md5_transform;
  bh_state := md5_hash;
  bh_buf := md5_block;
  bh_pos := fun c => md5_byte_count c .& 63;
  bh_update := fio_md5_update }.

#[global] Instance md5_hash_ok : BlockHashOk fio_md5_ctx.
Proof.
  split; [simpl; lia|]. intros c data [Hl Hp] _. unfold bh_wf, bh_pending, bh_absorb in *.
  cbn [bh_block bh_compress bh_state bh_buf bh_pos bh_update md5_hash_ops] in *.
  destruct c as [hash block bc]. cbn [md5_hash md5_block md5_byte_count] in *.
  pose proof (pos_add 64 6 bc (length data) ltac:(lia)) as Hpos.
  change (Z.ones 6) with 63 in Hpos. change (2 ^ 6) with 64 in Hpos.
  unfold fio_md5_update. cbn [md5_hash md5_block md5_byte_count upd].
  set (pos := bc .& 63) in *. change (bc .& 0x3f) with pos.
  replace (64 - (64 - pos)) with pos by lia. destruct (Z.ltb_spec (length data) (64 - pos)) as [Hlt|Hge].
  - cbn [upd md5_hash md5_block md5_byte_count]. rewrite Hpos, Z.mod_small by lia.
    rewrite length_store_in, take_store by lia.
    rewrite absorb_small, leftover_small by (rewrite length_app, length_take; lia). split_and!; done || lia.
  - set (k := Z.to_nat (64 - pos)).
    assert (length (take k data) = k) as Hk by (rewrite length_take; lia).
    rewrite store_full by lia.
    destruct (md5_loop_ok (length data) (md5_transform hash (take (Z.to_nat pos) block ++ take k data))
                (take (Z.to_nat pos) block ++ take k data) (drop k data)) as (b' & -> & Hb').
    { rewrite length_app, Hk, length_take. lia. } { rewrite length_drop. lia. }
    cbn [upd md5_hash md5_block md5_byte_count]. rewrite Hpos.
    destruct (absorb_split 64 md5_transform hash (take (Z.to_nat pos) block) data k) as [-> ->];
      [lia..|rewrite length_take; lia|].
    destruct (tail_buffered 64 b' data pos k 1) as [Hwf Hpend]; [lia..|]. done.
Qed.

Lemma sha1_block_array array H data : length array = 16%nat -> length H = 5%nat ->
  blk_SHA1Block array H data = sha1_block H data.
Proof.
  intros Ha HH. pose (W := grow (be32_at data) fips_sha1_next 64).
  pose proof (grow_schedule (be32_at data) fips_sha1_next sha1_next_local 64) as HW. fold W in HW.
  destruct (sha1_run W data array H 80) as (a1 & r1 & E1 & _ & Hr1 & Hv1); [done..|].
  destruct (sha1_run W data (replicate 16 0) H 80) as (a2 & r2 & E2 & _ & Hr2 & Hv2); [done..|].
  unfold sha1_block, blk_SHA1Block. rewrite sha1_code_lines, E1, E2. cbn [snd]. f_equal.
  rewrite <- (view_period 5 ltac:(done) 80 r1), <- (view_period 5 ltac:(done) 80 r2) by done.
  by rewrite Hv1, Hv2.
Qed.

Lemma sha1_loop_ok (fuel : nat) : forall H data, (length data <= fuel)%nat ->
  sha1_loop fuel H data = (absorb 64 sha1_block H data, leftover 64 data).
Proof.
  induction fuel as [|fuel IH]; intros H data Hd.
  - destruct data; [done|simpl in Hd; lia].
  - cbn [sha1_loop]. destruct (Z.leb_spec 64 (length data)) as [Hge|Hlt].
    + rewrite IH by (rewrite length_drop; lia).
      by destruct (absorb_step 64 sha1_block H data) as [-> ->]; [lia..|].
    + by rewrite absorb_small, leftover_small by lia.
Qed.

#[global] Instance sha1_hash_ops : BlockHash fio_sha1_ctx := {
  bh_block := 64;
  bh_compress := sha1_block;
  bh_state := sha1_H;
  bh_buf := sha1_W;
  bh_pos := fun c => sha1_size c .& 63;
  bh_update := fio_sha1_update }.

(** The loop and the final copy, from an empty buffer. *)
Lemma sha1_rest_ok c data : length (sha1_W c) = 64%nat ->
  sha1_H (sha1_rest c data) = absorb 64 sha1_block (sha1_H c) data /\
  sha1_W (sha1_rest c data) = store (sha1_W c) 0 (leftover 64 data) /\
  sha1_size (sha1_rest c data) = sha1_size c.
Proof.
  intros HW. unfold sha1_rest. rewrite sha1_loop_ok by done.
  destruct c as [H W size]. cbn [sha1_H sha1_W sha1_size upd] in *.
  destruct (Z.eqb_spec (length (leftover 64 data)) 0) as [E|]; [|done].
  assert (leftover 64 data = []) as -> by (apply length_zero_iff_nil; lia). done.
Qed.

#[global] Instance sha1_hash_ok : BlockHashOk fio_sha1_ctx.
Proof.
  split; [simpl; lia|]. intros c data [Hl Hp] _. unfold bh_wf, bh_pending, bh_absorb in *.
  cbn [bh_block bh_compress bh_state bh_buf bh_pos bh_update sha1_hash_ops] in *.
  destruct c as [H W size]. cbn [sha1_H sha1_W sha1_size] in *.
  pose proof (pos_add 64 6 size (length data) ltac:(lia)) as Hpos.
  change (Z.ones 6) with 63 in Hpos. change (2 ^ 6) with 64 in Hpos.
  unfold fio_sha1_update. cbn [sha1_H sha1_W sha1_size upd].
  set (pos := size .& 63) in *. destruct (Z.eqb_spec pos 0) as [E0|N0].
  - destruct (sha1_rest_ok (Build_fio_sha1_ctx H W (u64 (size + length data))) data Hl) as (-> & -> & ->).
    cbn [sha1_H sha1_W sha1_size]. rewrite Hpos, E0.
    change (take (Z.to_nat 0) W ++ data) with data.
    by destruct (tail_buffered 64 W data 0 0 0) as [Hwf Hpend]; [lia..|].
  - destruct (Z.ltb_spec (length data) (64 - pos)) as [Hlt|Hge].
    + rewrite (take_ge data) by lia. change 63 with (Z.ones 6).
      rewrite Z.land_ones, Z.mod_small by (change (2 ^ 6) with 64; lia).
      destruct (Z.eqb_spec (pos + length data) 0); [lia|]. cbn [negb sha1_H sha1_W sha1_size].
      change (Z.ones 6) with 63. rewrite Hpos, Z.mod_small by lia.
      rewrite length_store_in, take_store by lia.
      rewrite absorb_small, leftover_small by (rewrite length_app, length_take; lia).
      split_and!; done || lia.
    + set (k := Z.to_nat (64 - pos)). replace (pos + (64 - pos)) with 64 by lia.
      change (negb ((64 .& 63) =? 0)) with false. cbv iota.
      assert (length (take k data) = k) as Hk by (rewrite length_take; lia).
      rewrite store_full by lia. set (blk := take (Z.to_nat pos) W ++ take k data).
      assert (length blk = 64%nat) as Hblk by (unfold blk; rewrite length_app, Hk, length_take; lia).
      destruct (sha1_rest_ok (Build_fio_sha1_ctx (sha1_block H blk) blk (u64 (size + length data)))
                  (drop k data) Hblk) as (-> & -> & ->).
      cbn [sha1_H sha1_W sha1_size]. rewrite Hpos.
      destruct (absorb_split 64 sha1_block H (take (Z.to_nat pos) W) data k) as [-> ->];
        [lia..|rewrite length_take; lia|].
      by destruct (tail_buffered 64 blk data pos k 1) as [Hwf Hpend]; [lia..|].
Qed.

(** *** SHA-256 and SHA-512 *)
Lemma sha256_loop_ok (fuel : nat) : forall st data i,
  0 <= i <= length data -> length data + 128 <= 2 ^ 32 -> length data - i <= fuel ->
  exists i', sha256_loop fuel st data i
    = (absorb 64 sha256_transform st (drop (Z.to_nat i) data), i') /\
    drop (Z.to_nat i') data = leftover 64 (drop (Z.to_nat i) data).
Proof.
  induction fuel as [|fuel IH]; intros st data i Hi Hmax Hf.
  - exists i. rewrite drop_ge by lia. done.
  - cbn [sha256_loop]. rewrite wrap_small by (unfold is_word; lia).
    destruct (Z.ltb_spec (i + 63) (length data)) as [Hge|Hlt].
    + rewrite wrap_small by (unfold is_word; lia).
      destruct (IH (sha256_transform st (take 64 (drop (Z.to_nat i) data))) data (i + 64))
        as (i' & -> & Hi'); [lia..|]. exists i'.
      destruct (absorb_step 64 sha256_transform st (drop (Z.to_nat i) data)) as [-> ->];
        [lia|rewrite length_drop; lia|].
      rewrite drop_drop. by replace (Z.to_nat i + 64)%nat with (Z.to_nat (i + 64)) by lia.
    + exists i. rewrite absorb_small, leftover_small by (rewrite ?length_drop; lia). done.
Qed.

Lemma sha512_loop_ok (fuel : nat) : forall st W data i,
  0 <= i <= length data -> length data + 128 <= 2 ^ 32 -> length data - i <= fuel ->
  exists W' i', sha512_loop fuel st W data i
    = (absorb 128 (fun H M => fst (sha512_transform H M)) st (drop (Z.to_nat i) data), W', i') /\
    drop (Z.to_nat i') data = leftover 128 (drop (Z.to_nat i) data).
Proof.
  induction fuel as [|fuel IH]; intros st W data i Hi Hmax Hf.
  - exists W, i. rewrite drop_ge by lia. done.
  - cbn [sha512_loop]. rewrite wrap_small by (unfold is_word; lia).
    destruct (Z.ltb_spec (i + 127) (length data)) as [Hge|Hlt].
    + destruct (sha512_transform st (take 128 (drop (Z.to_nat i) data))) as [st1 W1] eqn:E1.
      rewrite wrap_small by (unfold is_word; lia).
      destruct (IH st1 W1 data (i + 128)) as (W' & i' & -> & Hi'); [lia..|]. exists W', i'.
      destruct (absorb_step 128 (fun H M => fst (sha512_transform H M)) st (drop (Z.to_nat i) data))
        as [-> ->]; [lia|rewrite length_drop; lia|].
      rewrite E1, drop_drop. by replace (Z.to_nat i + 128)%nat with (Z.to_nat (i + 128)) by lia.
    + exists W, i. rewrite absorb_small, leftover_small by (rewrite ?length_drop; lia). done.
Qed.

#[global] Instance sha256_hash_ops : BlockHash fio_sha256_ctx := {
  bh_block := 64;
  bh_compress := sha256_transform;
  bh_state := sha256_state;
  bh_buf := sha256_buf;
  bh_pos := fun c => (fst (sha256_count c) .>> 3) .& 63;
  bh_update := fio_sha256_update }.

Lemma sha256_bits_fst c n : fst (sha256_bits c n) = u32 (fst c + shlw 32 n 3).
Proof. destruct c. unfold sha256_bits. by case_match. Qed.

#[global] Instance sha256_hash_ok : BlockHashOk fio_sha256_ctx.
Proof.
  split; [simpl; lia|]. intros c data [Hl Hp] Hmax. unfold bh_wf, bh_pending, bh_absorb in *.
  cbn [bh_block bh_compress bh_state bh_buf bh_pos bh_update sha256_hash_ops] in *.
  destruct c as [cnt st buf]. cbn [sha256_count sha256_state sha256_buf] in *.
  pose proof (bit_pos_add 6 (fst cnt) (length data) ltac:(lia)) as Hpos.
  change (Z.ones 6) with 63 in Hpos. change (2 ^ 6) with 64 in Hpos.
  unfold fio_sha256_update. cbn [sha256_count sha256_state sha256_buf upd].
  set (pos := (fst cnt .>> 3) .& 63) in *. change ((fst cnt .>> 3) .& 0x3f) with pos.
  destruct (Z.leb_spec (64 - pos) (length data)) as [Hge|Hlt].
  - set (k := Z.to_nat (64 - pos)).
    assert (length (take k data) = k) as Hk by (rewrite length_take; lia).
    rewrite store_full by lia. set (blk := take (Z.to_nat pos) buf ++ take k data).
    assert (length blk = 64%nat) as Hblk by (unfold blk; rewrite length_app, Hk, length_take; lia).
    destruct (sha256_loop_ok (length data) (sha256_transform st blk) data (64 - pos))
      as (i' & -> & Hi'); [lia..|]. fold k in Hi' |- *.
    cbn [sha256_count sha256_state sha256_buf upd]. rewrite Hi', sha256_bits_fst, Hpos.
    destruct (absorb_split 64 sha256_transform st (take (Z.to_nat pos) buf) data k) as [-> ->];
      [lia..|rewrite length_take; lia|].
    by destruct (tail_buffered 64 blk data pos k 1) as [Hwf Hpend]; [lia..|].
  - cbn [sha256_count sha256_state sha256_buf upd]. rewrite sha256_bits_fst, Hpos, Z.mod_small by lia.
    rewrite length_store_in, take_store by lia.
    rewrite absorb_small, leftover_small by (rewrite length_app, length_take; lia).
    split_and!; done || lia.
Qed.

#[global] Instance sha512_hash_ops : BlockHash fio_sha512_ctx := {
  bh_block := 128;
  bh_compress := fun H M => fst (sha512_transform H M);
  bh_state := sha512_state;
  bh_buf := sha512_buf;
  bh_pos := fun c => ((sha512_count c).1.1.1 .>> 3) .& 127;
  bh_update := fio_sha512_update }.

Lemma sha512_bits_fst c n : (sha512_bits c n).1.1.1 = u32 (c.1.1.1 + shlw 32 n 3).
Proof. destruct c as [[[c0 c1] c2] c3]. unfold sha512_bits. by repeat case_match. Qed.

#[global] Instance sha512_hash_ok : BlockHashOk fio_sha512_ctx.
Proof.
  split; [simpl; lia|]. intros c data [Hl Hp] Hmax. unfold bh_wf, bh_pending, bh_absorb in *.
  cbn [bh_block bh_compress bh_state bh_buf bh_pos bh_update sha512_hash_ops] in *.
  destruct c as [st cnt buf W]. cbn [sha512_count sha512_state sha512_buf] in *.
  pose proof (bit_pos_add 7 cnt.1.1.1 (length data) ltac:(lia)) as Hpos.
  change (Z.ones 7) with 127 in Hpos. change (2 ^ 7) with 128 in Hpos.
  unfold fio_sha512_update. cbn [sha512_count sha512_state sha512_buf sha512_W upd].
  set (pos := (cnt.1.1.1 .>> 3) .& 127) in *. change ((cnt.1.1.1 .>> 3) .& 0x7f) with pos.
  destruct (Z.leb_spec (128 - pos) (length data)) as [Hge|Hlt].
  - set (k := Z.to_nat (128 - pos)).
    assert (length (take k data) = k) as Hk by (rewrite length_take; lia).
    rewrite store_full by lia. set (blk := take (Z.to_nat pos) buf ++ take k data).
    assert (length blk = 128%nat) as Hblk by (unfold blk; rewrite length_app, Hk, length_take; lia).
    destruct (sha512_transform st blk) as [st1 W1] eqn:E1.
    destruct (sha512_loop_ok (length data) st1 W1 data (128 - pos))
      as (W' & i' & -> & Hi'); [lia..|]. fold k in Hi' |- *.
    cbn [sha512_count sha512_state sha512_buf upd]. rewrite Hi', sha512_bits_fst, Hpos.
    destruct (absorb_split 128 (fun H M => fst (sha512_transform H M)) st (take (Z.to_nat pos) buf) data k)
      as [-> ->]; [lia..|rewrite length_take; lia|]. fold blk. rewrite E1.
    by destruct (tail_buffered 128 blk data pos k 1) as [Hwf Hpend]; [lia..|].
  - cbn [sha512_count sha512_state sha512_buf upd]. rewrite sha512_bits_fst, Hpos, Z.mod_small by lia.
    rewrite length_store_in, take_store by lia.
    rewrite absorb_small, leftover_small by (rewrite length_app, length_take; lia).
    split_and!; done || lia.
Qed.

(** A fresh context absorbs the concatenation of the pieces. *)
Section fresh.
Context {C : Type} `{BlockHashOk C}.
Lemma fresh_pieces (c : C) pieces iv :
  bh_state c = iv -> bh_pos c = 0 -> length (bh_buf c) = bh_block ->
  Forall (fun d : list Z => length d + 128 <= 2 ^ 32) pieces ->
  let c' := fold_left bh_update pieces c in
  bh_wf c' /\ bh_state c' = bh_absorb iv (concat pieces) /\
  bh_pending c' = leftover bh_block (concat pieces).
Proof.
  intros Hs Hp Hb HF. pose proof bh_block_pos as HB.
  assert (bh_pending c = []) as Hpend by (unfold bh_pending; by rewrite Hp).
  rewrite <- (app_nil_l (concat pieces)), <- Hpend, <- Hs. apply update_pieces; [|done].
  split; [done|]. rewrite Hp. lia.
Qed.
End fresh.

(** ** Properties *)

(** C19: streaming: however the data is cut into pieces, each of the four contexts
    ends in the state obtained by applying its block function to the whole blocks
    of the concatenation, one after the other. *)
Theorem digests_stream pieces (cm : fio_md5_ctx) (c1 : fio_sha1_ctx) (c2 : fio_sha256_ctx)
    (c5 : fio_sha512_ctx) :
  Forall (fun d : list Z => length d + 128 <= 2 ^ 32) pieces ->
  md5_byte_count cm = 0 -> length (md5_block cm) = 64%nat -> length (sha1_W c1) = 64%nat ->
  length (sha256_buf c2) = 64%nat -> length (sha512_buf c5) = 128%nat ->
  md5_hash (fold_left fio_md5_update pieces (fio_md5_init cm))
    = absorb 64 md5_transform md5_iv (concat pieces) /\
  sha1_H (fold_left fio_sha1_update pieces (fio_sha1_init c1))
    = absorb 64 sha1_block sha1_iv (concat pieces) /\
  sha256_state (fold_left fio_sha256_update pieces (fio_sha256_init c2))
    = absorb 64 sha256_transform sha256_iv (concat pieces) /\
  sha512_state (fold_left fio_sha512_update pieces (fio_sha512_init c5))
    = absorb 128 (fun H M => fst (sha512_transform H M)) sha512_iv (concat pieces).
Proof.
  intros HF Hc0 Hm H1 H2 H5. split_and!.
  - refine (proj1 (proj2 (fresh_pieces (fio_md5_init cm) pieces md5_iv _ _ Hm HF))); [done|].
    simpl. by rewrite Hc0.
  - by refine (proj1 (proj2 (fresh_pieces (fio_sha1_init c1) pieces sha1_iv _ _ H1 HF))).
  - by refine (proj1 (proj2 (fresh_pieces (fio_sha256_init c2) pieces sha256_iv _ _ H2 HF))).
  - by refine (proj1 (proj2 (fresh_pieces (fio_sha512_init c5) pieces sha512_iv _ _ H5 HF))).
Qed.

Definition md5_zero : fio_md5_ctx := Build_fio_md5_ctx [] (replicate 64 0) 0.
Definition sha1_zero : fio_sha1_ctx := Build_fio_sha1_ctx [] (replicate 64 0) 0.
Definition sha256_zero : fio_sha256_ctx := Build_fio_sha256_ctx (0, 0) [] (replicate 64 0).
Definition sha512_zero : fio_sha512_ctx := Build_fio_sha512_ctx [] (0, 0, 0, 0) (replicate 128 0) [].

Lemma digests_stream_witness :
  sha1_H (fold_left fio_sha1_update [replicate 70 1; replicate 3 2; replicate 130 3] (fio_sha1_init sha1_zero))
  = absorb 64 sha1_block sha1_iv (replicate 70 1 ++ replicate 3 2 ++ replicate 130 3).
Proof.
  apply (digests_stream [replicate 70 1; replicate 3 2; replicate 130 3]
           md5_zero sha1_zero sha256_zero sha512_zero); try reflexivity.
  repeat constructor; vm_compute; discriminate.
Defined.

(** *** Padding *)
Lemma sha1_update_size c d : sha1_size (fio_sha1_update c d) = u64 (sha1_size c + length d).
Proof.
  unfold fio_sha1_update, sha1_rest. destruct c as [H W size]. cbn [upd sha1_H sha1_W sha1_size].
  by repeat case_match.
Qed.

Lemma sha1_pieces_size pieces : forall c, is_word 64 (sha1_size c) ->
  sha1_size (fold_left fio_sha1_update pieces c) = u64 (sha1_size c + length (concat pieces)).
Proof.
  induction pieces as [|d pieces IH]; intros c Hc; cbn [fold_left concat].
  - cbn [length]. by rewrite Z.add_0_r, wrap_small.
  - rewrite IH, sha1_update_size, wrap_add_l, length_app by (rewrite sha1_update_size; by apply wrap_range).
    f_equal. lia.
Qed.

(** The padding of FIPS 180 for a message of [n] bytes. *)
Definition fips_padding (n : Z) : list Z :=
  0x80 :: replicate (Z.to_nat ((55 - n) mod 64)) 0 ++ be_bytes 8 (8 * n).

Lemma be_bytes_split n : 0 <= n < 2 ^ 61 ->
  be_bytes 4 (u32 (n .>> 29)) ++ be_bytes 4 (u32 (n .<< 3)) = be_bytes 8 (8 * n).
Proof.
  intros Hn. replace (8 * n) with (n .<< 3) by (rewrite Z.shiftl_mul_pow2; lia).
  unfold be_bytes. cbn [seq map app].
  assert (forall x y : Z, (forall i, 0 <= i < 8 -> Z.testbit x i = Z.testbit y i) -> u8 x = u8 y) as Hu8.
  { intros x y Hxy. zbitwise. apply Hxy. lia. }
  repeat match goal with |- _ :: _ = _ :: _ => f_equal end; try done; apply Hu8; intros i Hi.
  all: cbn [Nat.sub]; rewrite !Z.shiftr_spec, !wrap_testbit by lia.
  all: rewrite ?Z.shiftr_spec, ?shiftl_testbit by lia; zbit_split.
  all: rewrite ?andb_true_l; try done; f_equal; lia.
Qed.

Lemma length_be_bytes n x : length (be_bytes n x) = n.
Proof. unfold be_bytes. by rewrite length_map, length_seq. Qed.

(** [fio_sha1_final] is SHA-1: it pads the message as FIPS 180 says (to a
    whole number of blocks) and returns the big endian bytes of the state after
    the padded message. *)
Theorem sha1_final_pads pieces c0 :
  Forall (fun d : list Z => length d + 128 <= 2 ^ 32) pieces -> length (sha1_W c0) = 64%nat ->
  length (concat pieces) < 2 ^ 61 ->
  let m := concat pieces in
  let padded := m ++ fips_padding (length m) in
  length padded mod 64 = 0 /\
  fst (fio_sha1_final (fold_left fio_sha1_update pieces (fio_sha1_init c0)))
  = concat (map (be_bytes 4) (absorb 64 sha1_block sha1_iv padded)).
Proof.
  intros HF HW Hlen m padded. set (n := Z.of_nat (length m)) in *. change (n < 2 ^ 61) in Hlen.
  pose proof (Z.mod_pos_bound (55 - n) 64 ltac:(lia)) as Hk. split.
  - unfold padded, fips_padding. rewrite length_app. cbn [length].
    rewrite length_app, length_replicate, length_be_bytes.
    replace (Z.of_nat _) with ((55 - n) mod 64 + (n + 9)) by lia.
    rewrite Zplus_mod_idemp_l. by replace (55 - n + (n + 9)) with 64 by lia.
  - pose proof (sha1_pieces_size pieces (fio_sha1_init c0) ltac:(done)) as Hsz.
    unfold fio_sha1_final. cbn [fst]. rewrite Hsz.
    replace (sha1_size (fio_sha1_init c0) + length (concat pieces)) with n by done.
    rewrite wrap_small by (unfold is_word; lia). rewrite be_bytes_split by lia.
    change 63 with (Z.ones 6). rewrite (Z.land_comm (Z.ones 6)), !Z.land_ones by lia.
    rewrite Zminus_mod_idemp_r. change (2 ^ 6) with 64.
    set (pad := take (Z.to_nat (1 + (55 - n) mod 64)) sha1_pad).
    assert (pad = 0x80 :: replicate (Z.to_nat ((55 - n) mod 64)) 0) as Hpad.
    { unfold pad, sha1_pad. replace (Z.to_nat (1 + _)) with (S (Z.to_nat ((55 - n) mod 64))) by lia.
      cbn [take]. f_equal. rewrite take_replicate. f_equal. lia. }
    assert (fold_left fio_sha1_update (pieces ++ [pad; be_bytes 8 (8 * n)]) (fio_sha1_init c0)
            = fio_sha1_update (fio_sha1_update (fold_left fio_sha1_update pieces (fio_sha1_init c0)) pad)
                (be_bytes 8 (8 * n))) as <- by by rewrite fold_left_app.
    do 2 f_equal.
    assert (Forall (fun d : list Z => length d + 128 <= 2 ^ 32) (pieces ++ [pad; be_bytes 8 (8 * n)])) as HF'.
    { apply Forall_app. split; [done|]. repeat constructor; rewrite ?length_be_bytes; [|lia].
      rewrite Hpad. cbn [length]. rewrite length_replicate. lia. }
    transitivity (absorb 64 sha1_block sha1_iv (concat (pieces ++ [pad; be_bytes 8 (8 * n)]))).
    { by refine (proj1 (proj2 (fresh_pieces (fio_sha1_init c0) _ sha1_iv _ _ HW HF'))). }
    rewrite concat_app. cbn [concat]. by rewrite app_nil_r, Hpad.
Qed.

Lemma sha1_final_pads_witness :
  fst (fio_sha1_final (fold_left fio_sha1_update [[97]; [98; 99]] (fio_sha1_init sha1_zero)))
  = [0xa9; 0x99; 0x3e; 0x36; 0x47; 0x06; 0x81; 0x6a; 0xba; 0x3e; 0x25; 0x71; 0x78; 0x50; 0xc2; 0x6c;
     0x9c; 0xd0; 0xd8; 0x9d].
Proof.
  rewrite (proj2 (sha1_final_pads [[97]; [98; 99]] sha1_zero
    ltac:(repeat constructor; vm_compute; discriminate) eq_refl ltac:(vm_compute; reflexivity))).
  vm_compute. reflexivity.
Defined.

End Digest.
