(* ===== verification/Verify.v ===== *)
(** * Verification headers

    [src/verify.c] and [src/verify.h]: filling a write buffer with the verify
    pattern and a header and checksum per block ([populate_verify_io_u]), and
    checking a buffer that was read back ([verify_io_u]); the version stamps of
    [src/uniques/time.c] and [src/uniques/time_num.c]; the parsing tail of
    [str_verify_pattern_cb] ([src/options.c]), which replicates a pattern.

    Memory is a byte string; a pointer into the buffer is the suffix of the
    buffer that starts there, and a [struct verify_header] is its first bytes, with
    the layout of the LP64 little endian ABI.  What the code prints is left out,
    as is [dump_verify_buffers], which writes files. *)
From S2P Require Import Prelude Rand Crc Compress Digest.
Local Open Scope word_scope.

Module Verify.
Import Crc.
Import Digest.
Import Rand(store, fill_random_buf, __fill_random_buf, frand_state).

(** ** [src/verify.h] *)
Inductive verify_t :=
  | VERIFY_NONE | VERIFY_MD5 | VERIFY_CRC64 | VERIFY_CRC32 | VERIFY_CRC32C | VERIFY_CRC32C_INTEL
  | VERIFY_CRC16 | VERIFY_CRC7 | VERIFY_SHA256 | VERIFY_SHA512 | VERIFY_META | VERIFY_SHA1
  | VERIFY_PATTERN | VERIFY_NULL.

#[global] Instance verify_t_eq_dec : EqDecision verify_t.
Proof. solve_decision. Defined.

(** The values of the enumeration, in order. *)
Definition verify_types : list verify_t :=
  [VERIFY_NONE; VERIFY_MD5; VERIFY_CRC64; VERIFY_CRC32; VERIFY_CRC32C; VERIFY_CRC32C_INTEL;
   VERIFY_CRC16; VERIFY_CRC7; VERIFY_SHA256; VERIFY_SHA512; VERIFY_META; VERIFY_SHA1;
   VERIFY_PATTERN; VERIFY_NULL].
Definition verify_code (v : verify_t) : Z :=
  match v with
  | VERIFY_NONE => 0 | VERIFY_MD5 => 1 | VERIFY_CRC64 => 2 | VERIFY_CRC32 => 3
  | VERIFY_CRC32C => 4 | VERIFY_CRC32C_INTEL => 5 | VERIFY_CRC16 => 6 | VERIFY_CRC7 => 7
  | VERIFY_SHA256 => 8 | VERIFY_SHA512 => 9 | VERIFY_META => 10 | VERIFY_SHA1 => 11
  | VERIFY_PATTERN => 12 | VERIFY_NULL => 13
  end.
Definition verify_decode (c : Z) : option verify_t := verify_types !! Z.to_nat c.

Definition FIO_HDR_MAGIC : Z := 0xacca.
Definition MAX_PATTERN_SIZE : Z := 512.
Definition EILSEQ : Z := 84.
Definition EINVAL : Z := 22.

(** ** Accesses to memory *)
Definition le_bytes (n : nat) (x : Z) : list Z :=
  map (fun i => u8 (x .>> (8 * Z.of_nat i))) (seq 0 n).
Definition sub (m : list Z) (off len : nat) : list Z := take len (drop off m).
Definition get (m : list Z) (off n : nat) : Z := le_val (sub m off n).
Definition put (m : list Z) (off n : nat) (v : Z) : list Z := store m off (le_bytes n v).

(** [struct verify_header]: offsets of the members, and its size. *)
Definition HDR : nat := 56.
Definition hdr_magic (m : list Z) : Z := get m 0 2.
Definition hdr_verify_type (m : list Z) : Z := get m 2 2.
Definition hdr_offset (m : list Z) : Z := get m 8 8.
Definition hdr_len (m : list Z) : Z := get m 16 4.
Definition hdr_rand_seed (m : list Z) : Z := get m 24 8.
Definition hdr_crc32 (m : list Z) : Z := get m 32 4.
Definition hdr_unique (m : list Z) : list Z := sub m 40 16.

(** ** Version stamps: [struct unique_ops]

    A [struct fio_unique] is its 16 bytes; [set] draws from the clock and is
    modelled per implementation. *)
Record unique_ops := {
  u_copy : list Z -> list Z -> list Z;            (* old contents of the destination, source *)
  u_is_match : list Z -> list Z -> bool }.

Definition fio_time_copy (udst usrc : list Z) : list Z := store udst 0 (take 16 usrc).
Definition fio_time_is_match (u1 u2 : list Z) : bool :=
  (get u1 0 8 =? get u2 0 8) && (get u1 8 8 =? get u2 8 8).
Definition unique_time : unique_ops := {| u_copy := fio_time_copy; u_is_match := fio_time_is_match |}.

Definition fio_time_number_copy (udst usrc : list Z) : list Z := store udst 0 (take 16 usrc).
Definition fio_time_number_is_match (u1 u2 : list Z) : bool :=
  (get u1 0 8 =? get u2 0 8) && (get u1 8 4 =? get u2 8 4).
Definition unique_time_n : unique_ops :=
  {| u_copy := fio_time_number_copy; u_is_match := fio_time_number_is_match |}.

(** [fio_time_number_set]: [now] is what [fio_gettime] returns if it is called;
    the state is [last_time] and [last_number]. *)
Definition fio_time_number_set (now : Z) (s : Z * Z) (u : list Z) : list Z * (Z * Z) :=
  let '(last_time, last_number) := s in
  let last_time := if last_number =? 0 then now else last_time in
  (put (put u 0 8 last_time) 8 4 last_number, (last_time, u32 (last_number + 1))).

(** ** The options and state verification reads *)
Record vopts := {
  verify : verify_t;
  verify_interval : Z;
  verify_offset : Z;
  verify_pattern : list Z;            (* char[MAX_PATTERN_SIZE] *)
  verify_pattern_bytes : Z;
  verify_inner : bool;
  verify_fatal : bool;
  v_randomagain : bool;
  v_rw_min_bs : Z;
  trim_zero : bool;
  unique : unique_ops;
  thread_number : Z;
  write_issues : Z }.                 (* td->io_issues[DDIR_WRITE] *)

(** The io_u: its buffer, and what is read and written of it. *)
Record viou := {
  buf : list Z;
  buflen : Z;
  v_offset : Z;
  rand_seed : Z;
  buf_filled_len : Z;
  start_sec : Z;
  start_usec : Z;
  unique_version : list Z;
  f_trimmed : bool;                   (* IO_U_F_TRIMMED *)
  is_read : bool }.                   (* ddir == DDIR_READ *)

#[global] Instance eta_viou : Eta viou := fun u =>
  Build_viou (buf u) (buflen u) (v_offset u) (rand_seed u) (buf_filled_len u) (start_sec u)
    (start_usec u) (unique_version u) (f_trimmed u) (is_read u).

(** ** Sizes *)
Definition vhdr_size (v : verify_t) : nat :=
  match v with
  | VERIFY_NONE | VERIFY_NULL | VERIFY_PATTERN => 0
  | VERIFY_MD5 => 16
  | VERIFY_CRC64 => 8
  | VERIFY_CRC32C | VERIFY_CRC32 | VERIFY_CRC32C_INTEL => 4
  | VERIFY_CRC16 => 2
  | VERIFY_CRC7 => 1
  | VERIFY_SHA256 => 64
  | VERIFY_SHA512 => 128
  | VERIFY_META => 32
  | VERIFY_SHA1 => 20
  end.
Definition __hdr_size (v : verify_t) : nat := vhdr_size v + HDR.

Definition get_hdr_inc (o : vopts) (u : viou) : Z :=
  if v_randomagain o then v_rw_min_bs o
  else if negb (verify_interval o =? 0) && (verify_interval o <=? buflen u) then verify_interval o
  else u32 (buflen u).

(** ** [fill_pattern] *)

(** [while (i < len)]: copies of the pattern, the last one cut. *)
Fixpoint pattern_loop (fuel : nat) (o : vopts) (m : list Z) (len i : Z) : list Z :=
  match fuel with
  | O => m
  | S fuel =>
      if i <? len then
        let size := verify_pattern_bytes o in
        let size := if len - i <? size then len - i else size in
        pattern_loop fuel o (store m i (take (Z.to_nat size) (verify_pattern o))) len (i + size)
      else m
  end.

(** The buffer is the whole [p .. p + len); returns the io_u with its buffer
    filled, and the random state. *)
Definition fill_pattern (o : vopts) (fs : frand_state) (u : viou) (len seed : Z) (use_seed : bool)
    : viou * frand_state :=
  if verify_pattern_bytes o =? 0 then
    if use_seed then (u <| buf := __fill_random_buf (buf u) 0 len seed |>, fs)
    else let '(s, fs, mem) := fill_random_buf fs (buf u) len in
         (u <| buf := mem |> <| rand_seed := s |>, fs)
  else if len <=? buf_filled_len u then (u, fs)
  else if verify_pattern_bytes o =? 1 then
    (u <| buf := store (buf u) 0 (replicate (Z.to_nat len) (tget (verify_pattern o) 0)) |>
       <| buf_filled_len := len |>, fs)
  else
    (u <| buf := pattern_loop (Z.to_nat len) o (buf u) len 0 |> <| buf_filled_len := len |>, fs).

(** The end of [str_verify_pattern_cb]: a pattern of [i] bytes is doubled while it
    fits the array, and a pattern of one byte fills it. *)
Fixpoint pattern_double (fuel : nat) (pattern : list Z) (i : Z) : list Z * Z :=
  match fuel with
  | O => (pattern, i)
  | S fuel =>
      if (1 <? i) && (i * 2 <=? MAX_PATTERN_SIZE) then
        pattern_double fuel (store pattern i (take (Z.to_nat i) pattern)) (i * 2)
      else (pattern, i)
  end.
Definition pattern_finish (pattern : list Z) (i : Z) : list Z * Z :=
  let '(pattern, i) := pattern_double 9 pattern i in
  if i =? 1 then (replicate (Z.to_nat MAX_PATTERN_SIZE) (tget pattern 0), i) else (pattern, i).

(** [memswp(m, m + off, len)] *)
Definition memswp (m : list Z) (off len : nat) : list Z :=
  let swap := sub m 0 len in
  let m := store m 0 (sub m off len) in
  store m off swap.

(** ** Checksums

    [crc32q], [crc32b] and [intel] are those of [fio_crc32c]. *)
Section code.
Context (crc32q crc32b : Z -> Z -> Z) (intel : bool).

Definition crc32c (data : list Z) : Z := fio_crc32c crc32q crc32b intel data.

(** Words stored one after the other. *)
Definition words32 (H : list Z) : list Z := concat (map (le_bytes 4) H).

(** What [fill_md5] leaves in [vh->md5_digest], and [verify_io_u_md5] in [hash]. *)
Definition md5_of (data : list Z) : list Z :=
  words32 (md5_hash (fio_md5_update (fio_md5_init md5_zero) data)).
Definition sha1_of (data : list Z) : list Z :=
  words32 (sha1_H (fio_sha1_update (fio_sha1_init sha1_zero) data)).

(** What is left in the memory the [buf] member points to, [b] being its contents
    before. *)
Definition sha256_of (b data : list Z) : list Z :=
  sha256_buf (fio_sha256_update (fio_sha256_init (Build_fio_sha256_ctx (0, 0) (replicate 8 0) b)) data).
Definition sha512_of (b data : list Z) : list Z :=
  sha512_buf (fio_sha512_update
    (fio_sha512_init (Build_fio_sha512_ctx (replicate 8 0) (0, 0, 0, 0) b (replicate 80 0))) data).

Definition fill_md5 (m data : list Z) : list Z := store m HDR (md5_of data).
Definition fill_sha1 (m data : list Z) : list Z := store m HDR (sha1_of data).
Definition fill_sha256 (m data : list Z) : list Z := store m HDR (sha256_of (sub m HDR 64) data).
Definition fill_sha512 (m data : list Z) : list Z := store m HDR (sha512_of (sub m HDR 128) data).
Definition fill_crc7 (m data : list Z) : list Z := put m HDR 1 (fio_crc7 data).
Definition fill_crc16 (m data : list Z) : list Z := put m HDR 2 (fio_crc16 data).
Definition fill_crc32 (m data : list Z) : list Z := put m HDR 4 (fio_crc32 data).
Definition fill_crc32c (m data : list Z) : list Z := put m HDR 4 (crc32c data).
Definition fill_crc64 (m data : list Z) : list Z := put m HDR 8 (fio_crc64 data).

(** [struct vhdr_meta]: offset, thread, numberio, time_sec, time_usec. *)
Definition fill_meta (o : vopts) (u : viou) (header_num : Z) (m : list Z) : list Z :=
  let m := put m (HDR + 8) 1 (thread_number o) in
  let m := put m (HDR + 16) 8 (start_sec u) in
  let m := put m (HDR + 24) 8 (start_usec u) in
  let m := put m (HDR + 10) 2 (write_issues o) in
  put m HDR 8 (u64 (v_offset u + u32 (header_num * verify_interval o))).

(** ** [populate_hdr], on the memory from the header on; [None] is the failed
    assertion of the default case. *)
Definition hdr_fields (o : vopts) (u : viou) (header_num header_len : Z) (m : list Z) : list Z :=
  let m := put m 0 2 FIO_HDR_MAGIC in
  let m := put m 2 2 (verify_code (verify o)) in
  let m := put m 8 8 (u64 (v_offset u + u32 (header_num * header_len))) in
  let m := if verify_inner o then store m 40 (u_copy (unique o) (hdr_unique m) (unique_version u)) else m in
  let m := put m 16 4 header_len in
  let m := put m 24 8 (rand_seed u) in
  put m 32 4 (crc32c (sub m 0 32)).

Definition fill_checksum (o : vopts) (u : viou) (header_num : Z) (m data : list Z) : option (list Z) :=
  match verify o with
  | VERIFY_MD5 => Some (fill_md5 m data)
  | VERIFY_CRC64 => Some (fill_crc64 m data)
  | VERIFY_CRC32C | VERIFY_CRC32C_INTEL => Some (fill_crc32c m data)
  | VERIFY_CRC32 => Some (fill_crc32 m data)
  | VERIFY_CRC16 => Some (fill_crc16 m data)
  | VERIFY_CRC7 => Some (fill_crc7 m data)
  | VERIFY_SHA256 => Some (fill_sha256 m data)
  | VERIFY_SHA512 => Some (fill_sha512 m data)
  | VERIFY_META => Some (fill_meta o u header_num m)
  | VERIFY_SHA1 => Some (fill_sha1 m data)
  | VERIFY_PATTERN => Some m
  | VERIFY_NONE | VERIFY_NULL => None
  end.

Definition populate_hdr (o : vopts) (u : viou) (header_num header_len : Z) (m : list Z)
    : option (list Z) :=
  let m := hdr_fields o u header_num header_len m in
  let data_len := u32 (header_len - __hdr_size (verify o)) in
  m ← fill_checksum o u header_num m (sub m (__hdr_size (verify o)) (Z.to_nat data_len));
  Some (if verify_offset o =? 0 then m else memswp m (Z.to_nat (verify_offset o)) (__hdr_size (verify o))).

(** [for (; p < io_u->buf + io_u->buflen; p += hdr_inc)] *)
Fixpoint headers_loop (fuel : nat) (o : vopts) (u : viou) (hdr_inc p header_num : Z) (b : list Z)
    : option (list Z) :=
  match fuel with
  | O => None
  | S fuel =>
      if p <? buflen u then
        m ← populate_hdr o u header_num hdr_inc (drop (Z.to_nat p) b);
        headers_loop fuel o u hdr_inc (p + hdr_inc) (header_num + 1) (take (Z.to_nat p) b ++ m)
      else Some b
  end.

Definition fill_pattern_headers (o : vopts) (fs : frand_state) (u : viou) (seed : Z) (use_seed : bool)
    : option (viou * frand_state) :=
  let '(u, fs) := fill_pattern o fs u (u32 (buflen u)) seed use_seed in
  b ← headers_loop (S (Z.to_nat (buflen u))) o u (get_hdr_inc o u) 0 0 (buf u);
  Some (u <| buf := b |>, fs).

Definition populate_verify_io_u (o : vopts) (fs : frand_state) (u : viou) : option (viou * frand_state) :=
  if decide (verify o = VERIFY_NULL) then Some (u, fs)
  else fill_pattern_headers o fs u 0 false.

(** ** Checking *)

(** [io_u_verify_off] and the length every handler passes on. *)
Definition verify_data (v : verify_t) (u : viou) (hdr_num : Z) (m : list Z) : list Z :=
  sub (buf u) (Z.to_nat (u32 (hdr_num * hdr_len m)) + __hdr_size v)
    (Z.to_nat (u32 (hdr_len m - __hdr_size v))).

Definition ret_of (ok : bool) : Z := if ok then 0 else EILSEQ.
Definition bytes_eqb (a b : list Z) : bool := bool_decide (a = b).

(** [junk] is what the local array of the handler holds before it is written. *)
Context (junk : list Z).

Definition verify_io_u_sha512 (u : viou) (n : Z) (m : list Z) : Z :=
  ret_of (bytes_eqb (sub m HDR 128) (take 128 (sha512_of (take 128 junk) (verify_data VERIFY_SHA512 u n m)))).
Definition verify_io_u_sha256 (u : viou) (n : Z) (m : list Z) : Z :=
  ret_of (bytes_eqb (sub m HDR 64) (take 64 (sha256_of (take 64 junk) (verify_data VERIFY_SHA256 u n m)))).
Definition verify_io_u_sha1 (u : viou) (n : Z) (m : list Z) : Z :=
  ret_of (bytes_eqb (sub m HDR 20) (sha1_of (verify_data VERIFY_SHA1 u n m))).
Definition verify_io_u_md5 (u : viou) (n : Z) (m : list Z) : Z :=
  ret_of (bytes_eqb (sub m HDR 16) (md5_of (verify_data VERIFY_MD5 u n m))).
Definition verify_io_u_crc7 (u : viou) (n : Z) (m : list Z) : Z :=
  ret_of (u8 (fio_crc7 (verify_data VERIFY_CRC7 u n m)) =? get m HDR 1).
Definition verify_io_u_crc16 (u : viou) (n : Z) (m : list Z) : Z :=
  ret_of (u16 (fio_crc16 (verify_data VERIFY_CRC16 u n m)) =? get m HDR 2).
Definition verify_io_u_crc64 (u : viou) (n : Z) (m : list Z) : Z :=
  ret_of (fio_crc64 (verify_data VERIFY_CRC64 u n m) =? get m HDR 8).
Definition verify_io_u_crc32 (u : viou) (n : Z) (m : list Z) : Z :=
  ret_of (fio_crc32 (verify_data VERIFY_CRC32 u n m) =? get m HDR 4).
Definition verify_io_u_crc32c (u : viou) (n : Z) (m : list Z) : Z :=
  ret_of (crc32c (verify_data VERIFY_CRC32C u n m) =? get m HDR 4).

(** [verify_io_u_pattern]: the chunked compare, then the bytewise one from where
    the first stopped. *)
Fixpoint pattern_fast (fuel : nat) (pattern b : list Z) (pattern_size len i mod_ : Z) : Z * Z :=
  match fuel with
  | O => (i, mod_)
  | S fuel =>
      if i <? len then
        let size := pattern_size - mod_ in
        let size := if len - i <? size then len - i else size in
        if bytes_eqb (sub b (Z.to_nat i) (Z.to_nat size)) (sub pattern (Z.to_nat mod_) (Z.to_nat size))
        then pattern_fast fuel pattern b pattern_size len (i + size) 0
        else (i, mod_)
      else (i, mod_)
  end.
Fixpoint pattern_slow (fuel : nat) (pattern b : list Z) (pattern_bytes len i mod_ : Z) : Z :=
  match fuel with
  | O => 0
  | S fuel =>
      if i <? len then
        if negb (tget b i =? tget pattern mod_) then EILSEQ
        else let mod_ := mod_ + 1 in
             pattern_slow fuel pattern b pattern_bytes len (i + 1) (if mod_ =? pattern_bytes then 0 else mod_)
      else 0
  end.

Definition verify_io_u_pattern (o : vopts) (u : viou) (m : list Z) : Z :=
  let header_size := __hdr_size (verify o) in
  let pattern_size := if verify_pattern_bytes o <=? 1 then MAX_PATTERN_SIZE else verify_pattern_bytes o in
  let b := drop header_size m in
  let len := u32 (get_hdr_inc o u - header_size) in
  let mod_ := header_size mod pattern_size in
  let '(i, mod_) := pattern_fast (Z.to_nat len) (verify_pattern o) b pattern_size len 0 mod_ in
  pattern_slow (Z.to_nat len) (verify_pattern o) b (verify_pattern_bytes o) len i mod_.

Definition verify_io_u_meta (o : vopts) (u : viou) (n : Z) (m : list Z) : Z :=
  let ret := ret_of (get m HDR 8 =? u64 (v_offset u + u32 (n * verify_interval o))) in
  if verify_pattern_bytes o =? 0 then ret else ret .| verify_io_u_pattern o u m.

Definition verify_header (u : viou) (m : list Z) : bool :=
  if negb (hdr_magic m =? FIO_HDR_MAGIC) then false
  else if buflen u <? hdr_len m then false
  else crc32c (sub m 0 32) =? hdr_crc32 m.

(** The switch on the type in the header. *)
Definition verify_switch (o : vopts) (u : viou) (n : Z) (m : list Z) : Z :=
  match verify_decode (hdr_verify_type m) with
  | Some VERIFY_MD5 => verify_io_u_md5 u n m
  | Some VERIFY_CRC64 => verify_io_u_crc64 u n m
  | Some VERIFY_CRC32C | Some VERIFY_CRC32C_INTEL => verify_io_u_crc32c u n m
  | Some VERIFY_CRC32 => verify_io_u_crc32 u n m
  | Some VERIFY_CRC16 => verify_io_u_crc16 u n m
  | Some VERIFY_CRC7 => verify_io_u_crc7 u n m
  | Some VERIFY_SHA256 => verify_io_u_sha256 u n m
  | Some VERIFY_SHA512 => verify_io_u_sha512 u n m
  | Some VERIFY_META => verify_io_u_meta o u n m
  | Some VERIFY_SHA1 => verify_io_u_sha1 u n m
  | Some VERIFY_PATTERN => verify_io_u_pattern o u m
  | _ => EINVAL
  end.

(** The checks on one header before the switch; [true] when they pass. *)
Definition hdr_checks (o : vopts) (u : viou) (hdr_inc n : Z) (m : list Z) : bool :=
  if negb (verify_header u m) then false
  else if negb (hdr_offset m =? u64 (v_offset u + u32 (n * hdr_inc))) then false
  else if verify_inner o then u_is_match (unique o) (hdr_unique m) (unique_version u) else true.

(** Leaving the loop by [return] or towards [done]. *)
Inductive vexit := VReturn (ret : Z) | VDone (ret : Z).

Fixpoint verify_loop (fuel : nat) (o : vopts) (hdr_inc p n ret : Z) (u : viou) : vexit * viou :=
  match fuel with
  | O => (VDone ret, u)
  | S fuel =>
      if p <? buflen u then
        if negb (ret =? 0) && verify_fatal o then (VDone ret, u)
        else
          let u := if verify_offset o =? 0 then u
                   else u <| buf ::= fun b => take (Z.to_nat p) b ++
                          memswp (drop (Z.to_nat p) b) (Z.to_nat (verify_offset o)) (__hdr_size (verify o)) |> in
          let m := drop (Z.to_nat p) (buf u) in
          if negb (hdr_checks o u hdr_inc n m) then (VReturn EILSEQ, u)
          else verify_loop fuel o hdr_inc (p + hdr_inc) (n + 1) (verify_switch o u n m) u
      else (VDone ret, u)
  end.

(** [verify_trimmed_io_u]: a do-while loop over [zero_buf]. *)
Fixpoint trimmed_loop (fuel : nat) (m : list Z) (len : Z) : Z :=
  match fuel with
  | O => 0
  | S fuel =>
      let this_len := if len <? 1024 then len else 1024 in
      if bytes_eqb (take (Z.to_nat this_len) m) (replicate (Z.to_nat this_len) 0) then
        let len := len - this_len in
        if len =? 0 then 0 else trimmed_loop fuel (drop (Z.to_nat this_len) m) len
      else EILSEQ
  end.
Definition verify_trimmed_io_u (o : vopts) (u : viou) : Z :=
  if negb (trim_zero o) then 0 else trimmed_loop (S (Z.to_nat (u32 (buflen u)))) (buf u) (u32 (buflen u)).

(** The returned value, whether [td->terminate] is set, and the io_u. *)
Definition verify_io_u (o : vopts) (u : viou) : Z * bool * viou :=
  if bool_decide (verify o = VERIFY_NULL) || negb (is_read u) then (0, false, u)
  else
    let '(e, u) :=
      if f_trimmed u then (VDone (verify_trimmed_io_u o u), u)
      else verify_loop (S (Z.to_nat (buflen u))) o (get_hdr_inc o u) 0 0 0 u in
    match e with
    | VReturn ret => (ret, false, u)
    | VDone ret => (ret, negb (ret =? 0) && verify_fatal o, u)
    end.
End code.

(** ** Memory lemmas *)
Section memory.
Implicit Types (m c rest bs : list Z) (off n len pos : nat).

Lemma length_le_bytes n x : length (le_bytes n x) = n.
Proof. unfold le_bytes. by rewrite length_map, length_seq. Qed.

Lemma le_bytes_S n x : le_bytes (S n) x = u8 x :: le_bytes n (x .>> 8).
Proof.
  unfold le_bytes. cbn [seq map]. f_equal.
  rewrite <- seq_shift, map_map. apply map_ext. intros i.
  rewrite Z.shiftr_shiftr by lia. do 2 f_equal. lia.
Qed.

Lemma le_bytes_bytes n x : bytes (le_bytes n x).
Proof. apply Forall_map, Forall_true. intros i. by apply wrap_range. Qed.

Lemma le_val_le_bytes n : forall x, le_val (le_bytes n x) = wrap (8 * n) x.
Proof.
  induction n as [|n IH]; intros x; [unfold wrap; simpl; by rewrite Z.mod_1_r|].
  rewrite le_bytes_S. cbn [le_val]. rewrite IH. zbitwise; rewrite ?orb_false_r; try done.
  f_equal. lia.
Qed.

Lemma store_app c rest (pos : Z) bs : 0 <= pos -> pos + length bs <= length c ->
  store (c ++ rest) pos bs = store c pos bs ++ rest.
Proof.
  intros. unfold store. rewrite take_app_le, drop_app_le by lia. by rewrite <- !app_assoc.
Qed.

Lemma sub_app c rest off len : (off + len <= length c)%nat -> sub (c ++ rest) off len = sub c off len.
Proof. intros. unfold sub. rewrite drop_app_le by lia. apply take_app_le. rewrite length_drop. lia. Qed.

Lemma get_app c rest off n : (off + n <= length c)%nat -> get (c ++ rest) off n = get c off n.
Proof. intros. unfold get. by rewrite sub_app. Qed.

Lemma length_sub m off len : (off + len <= length m)%nat -> length (sub m off len) = len.
Proof. intros. unfold sub. rewrite length_take, length_drop. lia. Qed.

Lemma sub_bytes m off len : bytes m -> bytes (sub m off len).
Proof. intros. by apply Forall_take, Forall_drop. Qed.

Lemma sub_store_ne m pos bs off len : (pos + length bs <= length m)%nat ->
  (off + len <= pos \/ pos + length bs <= off)%nat -> sub (store m pos bs) off len = sub m off len.
Proof.
  intros Hin [Hl|Hr]; unfold sub, store; rewrite Nat2Z.id.
  - rewrite drop_app_le by (rewrite length_take; lia).
    rewrite take_app_le by (rewrite length_drop, length_take; lia).
    rewrite skipn_firstn_comm, take_take. f_equal. lia.
  - rewrite app_assoc, drop_app_ge by (rewrite length_app, length_take; lia).
    rewrite drop_drop. do 2 f_equal. rewrite length_app, length_take. lia.
Qed.

Lemma sub_store_eq m pos bs : (pos + length bs <= length m)%nat ->
  sub (store m pos bs) pos (length bs) = bs.
Proof.
  intros Hin. unfold sub, store. rewrite Nat2Z.id.
  rewrite drop_app_length' by (rewrite length_take; lia). by rewrite take_app_length.
Qed.

Lemma length_store_nat m pos bs : (pos + length bs <= length m)%nat -> length (store m pos bs) = length m.
Proof. intros. apply length_store_in; lia. Qed.

Lemma store_bytes m (pos : Z) bs : bytes m -> bytes bs -> bytes (store m pos bs).
Proof. intros. unfold store. apply Forall_app; split; [|apply Forall_app; split]; auto using Forall_take, Forall_drop. Qed.

Lemma get_put_eq m off n v : (off + n <= length m)%nat -> get (put m off n v) off n = wrap (8 * n) v.
Proof.
  intros. unfold get, put. rewrite <- (length_le_bytes n v) at 2.
  rewrite sub_store_eq by (rewrite length_le_bytes; lia). apply le_val_le_bytes.
Qed.

Lemma sub_put_ne m pos n v off len : (pos + n <= length m)%nat ->
  (off + len <= pos \/ pos + n <= off)%nat -> sub (put m pos n v) off len = sub m off len.
Proof. intros. apply sub_store_ne; rewrite length_le_bytes; lia. Qed.

Lemma get_put_ne m pos k v off n : (pos + k <= length m)%nat ->
  (off + n <= pos \/ pos + k <= off)%nat -> get (put m pos k v) off n = get m off n.
Proof. intros. unfold get. by rewrite sub_put_ne. Qed.

Lemma length_put m off n v : (off + n <= length m)%nat -> length (put m off n v) = length m.
Proof. intros. apply length_store_nat. by rewrite length_le_bytes. Qed.

Lemma put_app c rest off n v : (off + n <= length c)%nat -> put (c ++ rest) off n v = put c off n v ++ rest.
Proof. intros. apply store_app; rewrite ?length_le_bytes; lia. Qed.

Lemma put_bytes m off n v : bytes m -> bytes (put m off n v).
Proof. intros. apply store_bytes; [done|apply le_bytes_bytes]. Qed.

(** Two disjoint areas of the memory, [0 .. len) and [off .. off + len), are
    exchanged; doing it twice changes nothing. *)
Lemma memswp_cat (a g b r : list Z) off len :
  length a = len -> off = (len + length g)%nat -> length b = len ->
  memswp (a ++ g ++ b ++ r) off len = b ++ g ++ a ++ r.
Proof.
  intros Ha -> Hb. unfold memswp. set (m := a ++ g ++ b ++ r).
  assert (sub m 0 len = a) as -> by (unfold sub, m; rewrite drop_0; by apply take_app_length').
  assert (sub m (len + length g) len = b) as ->.
  { unfold sub, m. rewrite <- drop_drop, drop_app_length', drop_app_length' by done.
    by apply take_app_length'. }
  unfold store at 2, m. change (Z.to_nat 0) with 0%nat. cbn [take app Nat.add].
  rewrite drop_app_length' by lia. unfold store. rewrite Nat2Z.id, (app_assoc b g).
  rewrite take_0, app_nil_l, take_app_length' by (rewrite length_app; lia).
  rewrite <- app_assoc. do 3 f_equal.
  rewrite <- drop_drop, drop_app_length' by (rewrite length_app; lia). apply drop_app_length'. lia.
Qed.

Lemma split4 m off len : (len <= off)%nat -> (off + len <= length m)%nat ->
  exists a g b r, m = a ++ g ++ b ++ r /\ length a = len /\ off = (len + length g)%nat /\ length b = len.
Proof.
  intros. exists (take len m), (take (off - len) (drop len m)), (take len (drop off m)), (drop len (drop off m)).
  rewrite !length_take, !length_drop, !take_drop. split; [|lia].
  rewrite <- (take_drop len m) at 1. f_equal. rewrite <- (take_drop (off - len) (drop len m)) at 1.
  f_equal. rewrite drop_drop. f_equal. lia.
Qed.

Lemma memswp_invol m off len : (len <= off)%nat -> (off + len <= length m)%nat ->
  length (memswp m off len) = length m /\ memswp (memswp m off len) off len = m.
Proof.
  intros H1 H2. destruct (split4 m off len H1 H2) as (a & g & b & r & -> & Ha & -> & Hb).
  rewrite !memswp_cat by done. split; [rewrite !length_app; lia|done].
Qed.

Lemma memswp_app c rest off len : (len <= off)%nat -> (off + len <= length c)%nat ->
  memswp (c ++ rest) off len = memswp c off len ++ rest.
Proof.
  intros H1 H2. destruct (split4 c off len H1 H2) as (a & g & b & r & -> & Ha & -> & Hb).
  rewrite <- !app_assoc, !memswp_cat by done. by rewrite <- !app_assoc.
Qed.

Lemma memswp_bytes m off len : bytes m -> bytes (memswp m off len).
Proof. intros. unfold memswp. auto using store_bytes, sub_bytes. Qed.
End memory.

(** ** Digests of a block *)
Lemma absorb_length B f (k : nat) st m :
  (forall H M, length H = k -> length (f H M) = k) -> length st = k -> length (absorb B f st m) = k.
Proof.
  intros Hf. unfold absorb. generalize (length m / B)%nat as n. intros n. revert st m.
  induction n as [|n IH]; intros st m Hst; [done|]. cbn [absorb_n]. apply IH. by apply Hf.
Qed.

Lemma md5_transform_length H M : length (Compress.md5_transform H M) = length H.
Proof.
  unfold Compress.md5_transform, Compress.add_regs.
  assert (forall code r, length (fold_left (fun r l => Compress.md5_exec M l r) code r) = length r) as Hl.
  { induction code as [|l code IH]; intros r; [done|]. cbn [fold_left]. rewrite IH.
    unfold Compress.md5_exec. by rewrite length_insert. }
  rewrite length_zip_with, Hl. lia.
Qed.

Lemma sha1_block_length H M : length (sha1_block H M) = length H.
Proof.
  unfold sha1_block, Compress.blk_SHA1Block, Compress.add_regs.
  assert (forall code s, length (fold_left (fun s l => Compress.sha1_exec M l s) code s).2 = length s.2) as Hl.
  { induction code as [|l code IH]; intros [a r]; [done|]. cbn [fold_left]. rewrite IH.
    cbn [Compress.sha1_exec snd]. by rewrite !length_insert. }
  rewrite length_zip_with, Hl. cbn [snd]. lia.
Qed.

Lemma length_words32 H : length (words32 H) = (4 * length H)%nat.
Proof.
  induction H as [|x H IH]; [done|]. unfold words32 in *. cbn [map concat length].
  rewrite length_app, length_le_bytes, IH. lia.
Qed.

Lemma words32_bytes H : bytes (words32 H).
Proof. apply Forall_concat, Forall_map, Forall_true. intros x. apply le_bytes_bytes. Qed.

Section of_block.
Context (data : list Z) (Hdata : length data + 128 <= 2 ^ 32).

Lemma md5_of_absorb : md5_of data = words32 (absorb 64 Compress.md5_transform md5_iv data).
Proof.
  unfold md5_of. f_equal. rewrite <- (app_nil_r data) at 2.
  by refine (proj1 (proj2 (fresh_pieces (fio_md5_init md5_zero) [data] md5_iv _ _ _ _))); [..|repeat constructor].
Qed.
Lemma sha1_of_absorb : sha1_of data = words32 (absorb 64 sha1_block sha1_iv data).
Proof.
  unfold sha1_of. f_equal. rewrite <- (app_nil_r data) at 2.
  by refine (proj1 (proj2 (fresh_pieces (fio_sha1_init sha1_zero) [data] sha1_iv _ _ _ _))); [..|repeat constructor].
Qed.

Lemma length_md5_of : length (md5_of data) = 16%nat.
Proof.
  rewrite md5_of_absorb, length_words32, (absorb_length _ _ 4); [done| |done].
  intros H M <-. apply md5_transform_length.
Qed.
Lemma length_sha1_of : length (sha1_of data) = 20%nat.
Proof.
  rewrite sha1_of_absorb, length_words32, (absorb_length _ _ 5); [done| |done].
  intros H M <-. apply sha1_block_length.
Qed.

(** What ends in the buffer of the SHA-2 contexts: the first block of the data, its
    beginning overwritten by the bytes after the last whole block. *)
Lemma sha256_of_spec b : length b = 64%nat -> (64 <= length data)%nat ->
  sha256_of b data = store (take 64 data) 0 (leftover 64 (drop 64 data)).
Proof.
  intros Hb Hge. unfold sha256_of, fio_sha256_update, fio_sha256_init.
  cbn [upd sha256_count sha256_state sha256_buf fst]. change ((0 .>> 3) .& 0x3f) with 0.
  destruct (Z.leb_spec (64 - 0) (length data)); [|lia].
  destruct (sha256_loop_ok (length data)
    (Compress.sha256_transform sha256_iv (store b 0 (take (Z.to_nat (64 - 0)) data))) data (64 - 0))
    as (i & -> & Hi); [lia..|]. cbn [upd sha256_buf]. rewrite Hi. change (Z.to_nat (64 - 0)) with 64%nat.
  by rewrite (store_whole b) by (rewrite length_take; lia).
Qed.
Lemma sha512_of_spec b : length b = 128%nat -> (128 <= length data)%nat ->
  sha512_of b data = store (take 128 data) 0 (leftover 128 (drop 128 data)).
Proof.
  intros Hb Hge. unfold sha512_of, fio_sha512_update, fio_sha512_init.
  cbn [upd sha512_count sha512_state sha512_buf sha512_W fst]. change (0 .>> 3 .& 0x7f) with 0.
  destruct (Z.leb_spec (128 - 0) (length data)); [|lia].
  destruct (Compress.sha512_transform sha512_iv (store b 0 (take (Z.to_nat (128 - 0)) data))) as [st W].
  destruct (sha512_loop_ok (length data) st W data (128 - 0))
    as (W' & i & -> & Hi); [lia..|]. cbn [upd sha512_buf]. rewrite Hi. change (Z.to_nat (128 - 0)) with 128%nat.
  by rewrite (store_whole b) by (rewrite length_take; lia).
Qed.

Lemma leftover_short B m : (0 < B)%nat -> (length (leftover B m) < B)%nat.
Proof. intros. rewrite leftover_length by done. by apply Nat.mod_upper_bound; lia. Qed.

Lemma length_sha256_of b : length b = 64%nat -> (64 <= length data)%nat -> length (sha256_of b data) = 64%nat.
Proof.
  intros. rewrite sha256_of_spec by done. pose proof (leftover_short 64 (drop 64 data) ltac:(lia)).
  rewrite length_store_in; rewrite ?length_take; lia.
Qed.
Lemma length_sha512_of b : length b = 128%nat -> (128 <= length data)%nat -> length (sha512_of b data) = 128%nat.
Proof.
  intros. rewrite sha512_of_spec by done. pose proof (leftover_short 128 (drop 128 data) ltac:(lia)).
  rewrite length_store_in; rewrite ?length_take; lia.
Qed.
End of_block.

(** ** What version stamps promise *)
Class UniqueOk (ops : unique_ops) := {
  u_copy_length d s : length d = 16%nat -> length s = 16%nat -> length (u_copy ops d s) = 16%nat;
  u_copy_bytes d s : bytes d -> bytes s -> bytes (u_copy ops d s);
  u_copy_match d s : length d = 16%nat -> length s = 16%nat -> u_is_match ops (u_copy ops d s) s = true }.

Lemma unique_copy_eq d s : length d = 16%nat -> length s = 16%nat -> store d 0 (take 16 s) = s.
Proof. intros Hd Hs. rewrite take_ge by lia. apply store_whole. lia. Qed.

#[global] Instance unique_time_ok : UniqueOk unique_time.
Proof.
  split; cbn [u_copy u_is_match unique_time]; unfold fio_time_copy.
  - intros. by rewrite unique_copy_eq.
  - intros. by apply store_bytes; [|apply Forall_take].
  - intros. rewrite unique_copy_eq by done. unfold fio_time_is_match. by rewrite !Z.eqb_refl.
Qed.
#[global] Instance unique_time_n_ok : UniqueOk unique_time_n.
Proof.
  split; cbn [u_copy u_is_match unique_time_n]; unfold fio_time_number_copy.
  - intros. by rewrite unique_copy_eq.
  - intros. by apply store_bytes; [|apply Forall_take].
  - intros. rewrite unique_copy_eq by done. unfold fio_time_number_is_match. by rewrite !Z.eqb_refl.
Qed.

(** ** One header *)
Section header.
Context (crc32q crc32b : Z -> Z -> Z) (intel : bool) (junk : list Z).
Hypothesis crc32c_word : forall data, bytes data -> is_word 32 (crc32c crc32q crc32b intel data).
Context (o : vopts) `{!UniqueOk (unique o)} (u : viou).
Hypothesis Huv : length (unique_version u) = 16%nat.
Hypothesis Huvb : bytes (unique_version u).

(** Fields of a header that was just written, in a block [q] written over [c]. *)
Record hdr_written (n len : Z) (c q : list Z) : Prop := {
  hw_length : length q = length c;
  hw_bytes : bytes q;
  hw_magic : hdr_magic q = FIO_HDR_MAGIC;
  hw_type : hdr_verify_type q = verify_code (verify o);
  hw_offset : hdr_offset q = u64 (v_offset u + u32 (n * len));
  hw_len : hdr_len q = u32 len;
  hw_crc : hdr_crc32 q = crc32c crc32q crc32b intel (sub q 0 32);
  hw_unique : verify_inner o = true -> u_is_match (unique o) (hdr_unique q) (unique_version u) = true }.

Lemma hdr_fields_ok n len c : (HDR <= length c)%nat -> bytes c ->
  hdr_written n len c (hdr_fields crc32q crc32b intel o u n len c) /\
  forall rest, hdr_fields crc32q crc32b intel o u n len (c ++ rest)
               = hdr_fields crc32q crc32b intel o u n len c ++ rest.
Proof.
  unfold HDR. intros Hc Hb.
  set (m1 := put c 0 2 FIO_HDR_MAGIC). set (m2 := put m1 2 2 (verify_code (verify o))).
  set (m3 := put m2 8 8 (u64 (v_offset u + u32 (n * len)))).
  assert (length m1 = length c) as L1 by (apply length_put; lia).
  assert (length m2 = length c) as L2 by (rewrite <- L1; apply length_put; lia).
  assert (length m3 = length c) as L3 by (rewrite <- L2; apply length_put; lia).
  assert (bytes m3) as B3 by (unfold m3, m2, m1; auto using put_bytes).
  set (un := u_copy (unique o) (hdr_unique m3) (unique_version u)).
  assert (length (hdr_unique m3) = 16%nat) as Lh by (apply length_sub; lia).
  assert (length un = 16%nat) as Lu by (by apply u_copy_length).
  set (m4 := if verify_inner o then store m3 40%nat un else m3).
  assert (length m4 = length c) as L4.
  { unfold m4. destruct (verify_inner o); [|done]. rewrite length_store_nat; lia. }
  assert (bytes m4) as B4.
  { unfold m4. destruct (verify_inner o); [|done]. apply store_bytes; [done|].
    apply u_copy_bytes; [by apply sub_bytes|done]. }
  set (m5 := put m4 16 4 len). set (m6 := put m5 24 8 (rand_seed u)).
  assert (length m5 = length c) as L5 by (rewrite <- L4; apply length_put; lia).
  assert (length m6 = length c) as L6 by (rewrite <- L5; apply length_put; lia).
  set (m7 := put m6 32 4 (crc32c crc32q crc32b intel (sub m6 0 32))).
  assert (hdr_fields crc32q crc32b intel o u n len c = m7) as E by done.
  assert (bytes m6) as B6 by (unfold m6, m5; auto using put_bytes).
  assert (forall off k, (off + k <= 16 \/ 40 <= off)%nat -> sub m7 off k = sub m4 off k) as H74.
  { intros off k Hk. unfold m7. rewrite sub_put_ne by lia. unfold m6. rewrite sub_put_ne by lia.
    unfold m5. by rewrite sub_put_ne by lia. }
  assert (forall off k, (off + k <= 16)%nat -> sub m7 off k = sub m3 off k) as H73.
  { intros off k Hk. rewrite H74 by lia. unfold m4. destruct (verify_inner o); [|done].
    apply (sub_store_ne m3 40); lia. }
  split.
  - rewrite E. split.
    + unfold m7. rewrite length_put; lia.
    + by apply put_bytes.
    + unfold hdr_magic, get. rewrite H73 by lia. unfold m3. rewrite sub_put_ne by lia.
      unfold m2. rewrite sub_put_ne by lia. fold (get m1 0 2). unfold m1. by rewrite get_put_eq by lia.
    + unfold hdr_verify_type, get. rewrite H73 by lia. unfold m3.
      rewrite sub_put_ne by lia. fold (get m2 2 2). unfold m2. rewrite get_put_eq by lia.
      by destruct (verify o).
    + unfold hdr_offset, get. rewrite H73 by lia. fold (get m3 8 8). unfold m3.
      rewrite get_put_eq by lia. by apply wrap_wrap.
    + unfold hdr_len, m7. rewrite get_put_ne by lia. unfold m6. rewrite get_put_ne by lia. unfold m5. by rewrite get_put_eq by lia.
    + unfold hdr_crc32, m7. rewrite get_put_eq, sub_put_ne by lia.
      apply wrap_small, crc32c_word. by apply sub_bytes.
    + intros Hin. unfold hdr_unique. rewrite H74 by lia. unfold m4. rewrite Hin.
      pose proof (sub_store_eq m3 40 un ltac:(lia)) as Es. rewrite Lu in Es. rewrite Es.
      by apply u_copy_match.
  - intros rest. rewrite E. unfold hdr_fields.
    rewrite (put_app c) by lia. fold m1. rewrite (put_app m1) by lia. fold m2.
    rewrite (put_app m2) by lia. fold m3.
    assert (hdr_unique (m3 ++ rest) = hdr_unique m3) as -> by (apply (sub_app m3); lia). fold un.
    assert ((if verify_inner o then store (m3 ++ rest) 40 un else m3 ++ rest) = m4 ++ rest) as ->.
    { unfold m4. destruct (verify_inner o); [|done]. apply (store_app m3); lia. }
    rewrite (put_app m4) by lia. fold m5. rewrite (put_app m5) by lia. fold m6.
    rewrite (sub_app m6) by lia. by rewrite (put_app m6) by lia.
Qed.

(** *** The checksum *)

(** [q'] is the block [q] with only the checksum area changed. *)
Record filled (v : verify_t) (q q' : list Z) : Prop := {
  fl_length : length q' = length q;
  fl_bytes : bytes q';
  fl_hdr : sub q' 0 HDR = sub q 0 HDR;
  fl_data : drop (__hdr_size v) q' = drop (__hdr_size v) q }.

Lemma store_filled v q cs : length cs = vhdr_size v -> (__hdr_size v <= length q)%nat ->
  bytes q -> bytes cs ->
  filled v q (store q HDR cs) /\ (forall rest, store (q ++ rest) HDR cs = store q HDR cs ++ rest) /\
  forall rest, sub (store q HDR cs ++ rest) HDR (vhdr_size v) = cs.
Proof.
  unfold __hdr_size. intros Hcs Hq Hb Hcb. split; [split|split].
  - apply length_store_nat. lia.
  - by apply store_bytes.
  - apply sub_store_ne; lia.
  - unfold store, __hdr_size. rewrite Nat2Z.id, app_assoc, drop_app_length'; [f_equal; lia|].
    rewrite length_app, length_take. lia.
  - intros rest. apply store_app; lia.
  - intros rest. rewrite sub_app by (rewrite length_store_nat; lia). rewrite <- Hcs.
    apply sub_store_eq. lia.
Qed.

Lemma put_filled v q pos k x : (HDR <= pos)%nat -> (pos + k <= __hdr_size v)%nat ->
  (__hdr_size v <= length q)%nat -> bytes q ->
  filled v q (put q pos k x) /\ forall rest, put (q ++ rest) pos k x = put q pos k x ++ rest.
Proof.
  intros H1 H2 H3 Hb. split; [split|intros; apply put_app; lia].
  - apply length_put. lia.
  - by apply put_bytes.
  - apply sub_put_ne; lia.
  - pose proof (sub_put_ne q pos k x (__hdr_size v) (length q) ltac:(lia) ltac:(lia)) as E.
    unfold sub in E. rewrite !take_ge in E; [done|..]; rewrite length_drop, ?length_put; lia.
Qed.

Lemma filled_trans v q1 q2 q3 : filled v q1 q2 -> filled v q2 q3 -> filled v q1 q3.
Proof. intros [? ? ? ?] [? ? ? ?]. split; congruence. Qed.

Lemma fill_meta_filled n q : (__hdr_size VERIFY_META <= length q)%nat -> bytes q ->
  filled VERIFY_META q (fill_meta o u n q) /\
  (forall rest, fill_meta o u n (q ++ rest) = fill_meta o u n q ++ rest) /\
  get (fill_meta o u n q) HDR 8 = u64 (v_offset u + u32 (n * verify_interval o)).
Proof.
  intros Hq Hb. assert (__hdr_size VERIFY_META = HDR + 32)%nat as Hs by reflexivity.
  unfold fill_meta.
  destruct (put_filled VERIFY_META q (HDR + 8) 1 (thread_number o)) as [F1 A1]; [lia..|done|].
  set (m1 := put q (HDR + 8) 1 _) in *.
  destruct (put_filled VERIFY_META m1 (HDR + 16) 8 (start_sec u)) as [F2 A2];
    [lia..|by rewrite (fl_length _ _ _ F1)|by apply (fl_bytes _ _ _ F1)|].
  set (m2 := put m1 (HDR + 16) 8 _) in *. pose proof (filled_trans _ _ _ _ F1 F2) as G2.
  destruct (put_filled VERIFY_META m2 (HDR + 24) 8 (start_usec u)) as [F3 A3];
    [lia..|by rewrite (fl_length _ _ _ G2)|by apply (fl_bytes _ _ _ G2)|].
  set (m3 := put m2 (HDR + 24) 8 _) in *. pose proof (filled_trans _ _ _ _ G2 F3) as G3.
  destruct (put_filled VERIFY_META m3 (HDR + 10) 2 (write_issues o)) as [F4 A4];
    [lia..|by rewrite (fl_length _ _ _ G3)|by apply (fl_bytes _ _ _ G3)|].
  set (m4 := put m3 (HDR + 10) 2 _) in *. pose proof (filled_trans _ _ _ _ G3 F4) as G4.
  destruct (put_filled VERIFY_META m4 HDR 8 (u64 (v_offset u + u32 (n * verify_interval o)))) as [F5 A5];
    [lia..|by rewrite (fl_length _ _ _ G4)|by apply (fl_bytes _ _ _ G4)|].
  split; [by apply (filled_trans _ _ _ _ G4 F5)|]. split.
  - intros rest. by rewrite A1, A2, A3, A4, A5.
  - rewrite get_put_eq by (rewrite (fl_length _ _ _ G4); lia). by apply wrap_wrap.
Qed.

(** Types with a checksum or stamp, and how much data their check needs. *)
Definition checksummed (v : verify_t) : Prop :=
  v <> VERIFY_NONE /\ v <> VERIFY_NULL /\ v <> VERIFY_PATTERN.
Definition min_data (v : verify_t) : nat :=
  match v with VERIFY_SHA256 => 64 | VERIFY_SHA512 => 128 | _ => 0 end.

Lemma verify_decode_code v : verify_decode (verify_code v) = Some v.
Proof. by destruct v. Qed.

Lemma bytes_eqb_refl a : bytes_eqb a a = true.
Proof. by apply bool_decide_eq_true_2. Qed.

Lemma fio_crc32_word d : bytes d -> is_word 32 (fio_crc32 d).
Proof. intros. rewrite fio_crc32_run by done. by apply (crc_run_word ref_crc32). Qed.
Lemma fio_crc64_word d : bytes d -> is_word 64 (fio_crc64 d).
Proof. intros. rewrite fio_crc64_run by done. by apply (crc_run_word ref_crc64). Qed.

(** Storing [cs] and reading it back for the comparison. *)
Lemma stored_filled n q data cs :
  length cs = vhdr_size (verify o) -> (__hdr_size (verify o) <= length q)%nat -> bytes q -> bytes cs ->
  (forall rest, fill_checksum crc32q crc32b intel o u n (q ++ rest) data
                = Some (store (q ++ rest) HDR cs)) ->
  (forall u2 m, sub m HDR (vhdr_size (verify o)) = cs ->
     verify_data (verify o) u2 n m = data ->
     verify_decode (hdr_verify_type m) = Some (verify o) ->
     verify_switch crc32q crc32b intel junk o u2 n m = 0) ->
  exists q', filled (verify o) q q' /\
    (forall rest, fill_checksum crc32q crc32b intel o u n (q ++ rest) data
                  = Some (q' ++ rest)) /\
    forall u2 rest, v_offset u2 = v_offset u ->
      hdr_verify_type (q' ++ rest) = verify_code (verify o) ->
      verify_data (verify o) u2 n (q' ++ rest) = data ->
      verify_switch crc32q crc32b intel junk o u2 n (q' ++ rest) = 0.
Proof.
  intros Hcs Hq Hb Hcb Hfill Hver.
  destruct (store_filled (verify o) q cs Hcs Hq Hb Hcb) as (Hfl & Happ & Hsub).
  exists (store q HDR cs). split; [done|]. split; [intros rest; by rewrite Hfill, Happ|].
  intros u2 rest _ Ht Hd. apply Hver; [apply Hsub|done|]. rewrite Ht. apply verify_decode_code.
Qed.

Lemma fill_checksum_ok n q :
  checksummed (verify o) -> (verify o = VERIFY_META -> verify_pattern_bytes o = 0) ->
  (128 <= length junk)%nat -> bytes q -> length q + 128 <= 2 ^ 32 ->
  (__hdr_size (verify o) + min_data (verify o) <= length q)%nat ->
  exists q', filled (verify o) q q' /\
    (forall rest, fill_checksum crc32q crc32b intel o u n (q ++ rest) (drop (__hdr_size (verify o)) q)
                  = Some (q' ++ rest)) /\
    forall u2 rest, v_offset u2 = v_offset u ->
      hdr_verify_type (q' ++ rest) = verify_code (verify o) ->
      verify_data (verify o) u2 n (q' ++ rest) = drop (__hdr_size (verify o)) q ->
      verify_switch crc32q crc32b intel junk o u2 n (q' ++ rest) = 0.
Proof.
  intros (N1 & N2 & N3) Hmeta Hjunk Hb Hmax Hq.
  assert (length (drop (__hdr_size (verify o)) q) = length q - __hdr_size (verify o))%nat as Hld
    by apply length_drop.
  assert (bytes (drop (__hdr_size (verify o)) q)) as Hdb by by apply Forall_drop.
  remember (drop (__hdr_size (verify o)) q) as data eqn:Edata.
  assert (exists v, verify o = v) as [v Ev] by by eexists.
  destruct v; try done; rewrite Ev in Hq, Hld; unfold __hdr_size, HDR in Hq, Hld;
    cbn [vhdr_size min_data Nat.add] in Hq, Hld.
  - (* md5 *) apply (stored_filled n q data (md5_of data)); rewrite ?Ev; cbn [vhdr_size].
    + apply length_md5_of. lia.
    + unfold __hdr_size, HDR. cbn [vhdr_size]. lia.
    + done.
    + apply words32_bytes.
    + intros rest. unfold fill_checksum. by rewrite Ev.
    + intros u2 m Hs Hd Ht. unfold verify_switch. rewrite Ht. unfold verify_io_u_md5, get.
      by rewrite Hs, Hd, bytes_eqb_refl.
  - (* crc64 *) apply (stored_filled n q data (le_bytes 8 (fio_crc64 data))); rewrite ?Ev; cbn [vhdr_size].
    + apply length_le_bytes.
    + unfold __hdr_size, HDR. cbn [vhdr_size]. lia.
    + done.
    + apply le_bytes_bytes.
    + intros rest. unfold fill_checksum. by rewrite Ev.
    + intros u2 m Hs Hd Ht. unfold verify_switch. rewrite Ht. unfold verify_io_u_crc64, get.
      rewrite Hs, Hd, le_val_le_bytes, wrap_small by by apply fio_crc64_word. by rewrite Z.eqb_refl.
  - (* crc32 *) apply (stored_filled n q data (le_bytes 4 (fio_crc32 data))); rewrite ?Ev; cbn [vhdr_size].
    + apply length_le_bytes.
    + unfold __hdr_size, HDR. cbn [vhdr_size]. lia.
    + done.
    + apply le_bytes_bytes.
    + intros rest. unfold fill_checksum. by rewrite Ev.
    + intros u2 m Hs Hd Ht. unfold verify_switch. rewrite Ht. unfold verify_io_u_crc32, get.
      rewrite Hs, Hd, le_val_le_bytes, wrap_small by by apply fio_crc32_word. by rewrite Z.eqb_refl.
  - (* crc32c *) apply (stored_filled n q data (le_bytes 4 (crc32c crc32q crc32b intel data))); rewrite ?Ev; cbn [vhdr_size].
    + apply length_le_bytes.
    + unfold __hdr_size, HDR. cbn [vhdr_size]. lia.
    + done.
    + apply le_bytes_bytes.
    + intros rest. unfold fill_checksum. by rewrite Ev.
    + intros u2 m Hs Hd Ht. unfold verify_switch. rewrite Ht. unfold verify_io_u_crc32c, get.
      rewrite Hs, Hd, le_val_le_bytes, wrap_small by by apply crc32c_word. by rewrite Z.eqb_refl.
  - (* crc32c-intel *) apply (stored_filled n q data (le_bytes 4 (crc32c crc32q crc32b intel data))); rewrite ?Ev; cbn [vhdr_size].
    + apply length_le_bytes.
    + unfold __hdr_size, HDR. cbn [vhdr_size]. lia.
    + done.
    + apply le_bytes_bytes.
    + intros rest. unfold fill_checksum. by rewrite Ev.
    + intros u2 m Hs Hd Ht. unfold verify_switch. rewrite Ht. unfold verify_io_u_crc32c, get.
      change (verify_data VERIFY_CRC32C u2 n m) with (verify_data VERIFY_CRC32C_INTEL u2 n m).
      rewrite Hs, Hd, le_val_le_bytes, wrap_small by by apply crc32c_word. by rewrite Z.eqb_refl.
  - (* crc16 *) apply (stored_filled n q data (le_bytes 2 (fio_crc16 data))); rewrite ?Ev; cbn [vhdr_size].
    + apply length_le_bytes.
    + unfold __hdr_size, HDR. cbn [vhdr_size]. lia.
    + done.
    + apply le_bytes_bytes.
    + intros rest. unfold fill_checksum. by rewrite Ev.
    + intros u2 m Hs Hd Ht. unfold verify_switch. rewrite Ht. unfold verify_io_u_crc16, get.
      rewrite Hs, Hd, le_val_le_bytes. by rewrite Z.eqb_refl.
  - (* crc7 *) apply (stored_filled n q data (le_bytes 1 (fio_crc7 data))); rewrite ?Ev; cbn [vhdr_size].
    + apply length_le_bytes.
    + unfold __hdr_size, HDR. cbn [vhdr_size]. lia.
    + done.
    + apply le_bytes_bytes.
    + intros rest. unfold fill_checksum. by rewrite Ev.
    + intros u2 m Hs Hd Ht. unfold verify_switch. rewrite Ht. unfold verify_io_u_crc7, get.
      rewrite Hs, Hd, le_val_le_bytes. by rewrite Z.eqb_refl.
  - (* sha256 *) 
    assert (forall b, length b = 64%nat -> sha256_of b data
              = store (take 64 data) 0 (leftover 64 (drop 64 data))) as Hspec.
    { intros b Hlb. apply sha256_of_spec; [lia|done|lia]. }
    assert (length (take 64 junk) = 64%nat) as Hlj by (rewrite length_take; lia).
    assert (forall rest, length (sub (q ++ rest) HDR 64) = 64%nat) as Hls
      by (intros rest; apply length_sub; rewrite length_app; unfold HDR; lia).
    apply (stored_filled n q data (sha256_of (take 64 junk) data)); rewrite ?Ev; cbn [vhdr_size].
    + apply length_sha256_of; [lia|done|lia].
    + unfold __hdr_size, HDR. cbn [vhdr_size]. lia.
    + done.
    + rewrite Hspec by done. apply store_bytes; [by apply Forall_take|]. by apply Forall_drop, Forall_drop.
    + intros rest. unfold fill_checksum. rewrite Ev. unfold fill_sha256. by rewrite !Hspec.
    + intros u2 m Hs Hd Ht. unfold verify_switch. rewrite Ht. unfold verify_io_u_sha256.
      rewrite Hs, Hd, (take_ge (sha256_of _ _)) by (rewrite length_sha256_of; lia || done).
      by rewrite bytes_eqb_refl.
  - (* sha512 *) 
    assert (forall b, length b = 128%nat -> sha512_of b data
              = store (take 128 data) 0 (leftover 128 (drop 128 data))) as Hspec.
    { intros b Hlb. apply sha512_of_spec; [lia|done|lia]. }
    assert (length (take 128 junk) = 128%nat) as Hlj by (rewrite length_take; lia).
    assert (forall rest, length (sub (q ++ rest) HDR 128) = 128%nat) as Hls
      by (intros rest; apply length_sub; rewrite length_app; unfold HDR; lia).
    apply (stored_filled n q data (sha512_of (take 128 junk) data)); rewrite ?Ev; cbn [vhdr_size].
    + apply length_sha512_of; [lia|done|lia].
    + unfold __hdr_size, HDR. cbn [vhdr_size]. lia.
    + done.
    + rewrite Hspec by done. apply store_bytes; [by apply Forall_take|]. by apply Forall_drop, Forall_drop.
    + intros rest. unfold fill_checksum. rewrite Ev. unfold fill_sha512. by rewrite !Hspec.
    + intros u2 m Hs Hd Ht. unfold verify_switch. rewrite Ht. unfold verify_io_u_sha512.
      rewrite Hs, Hd, (take_ge (sha512_of _ _)) by (rewrite length_sha512_of; lia || done).
      by rewrite bytes_eqb_refl.
  - (* meta *) destruct (fill_meta_filled n q) as (F & A & G);
      [unfold __hdr_size, HDR; cbn [vhdr_size]; lia|done|].
    exists (fill_meta o u n q). rewrite Ev. split; [done|]. split.
    + intros rest. unfold fill_checksum. by rewrite Ev, A.
    + intros u2 rest Ho Ht _. unfold verify_switch. rewrite Ht, verify_decode_code. unfold verify_io_u_meta.
      rewrite get_app by (rewrite (fl_length _ _ _ F); unfold HDR; lia).
      by rewrite G, Ho, Z.eqb_refl, Hmeta.
  - (* sha1 *) apply (stored_filled n q data (sha1_of data)); rewrite ?Ev; cbn [vhdr_size].
    + apply length_sha1_of. lia.
    + unfold __hdr_size, HDR. cbn [vhdr_size]. lia.
    + done.
    + apply words32_bytes.
    + intros rest. unfold fill_checksum. by rewrite Ev.
    + intros u2 m Hs Hd Ht. unfold verify_switch. rewrite Ht. unfold verify_io_u_sha1, get.
      by rewrite Hs, Hd, bytes_eqb_refl.
Qed.

(** *** A block with its header *)
Lemma filled_get v q q' rest off n : filled v q q' -> (HDR <= length q)%nat -> (off + n <= HDR)%nat ->
  sub (q' ++ rest) off n = sub q off n.
Proof.
  intros [Hl _ Hh _] Hq Hoff. rewrite sub_app by lia.
  assert (forall m : list Z, sub m off n = sub (sub m 0 HDR) off n) as Hsub.
  { intros m. unfold sub. rewrite drop_0, skipn_firstn_comm, take_take. f_equal. lia. }
  by rewrite (Hsub q'), Hh, <- Hsub.
Qed.

Context (inc : Z).
Hypothesis Hcs : checksummed (verify o).
Hypothesis Hmeta : verify o = VERIFY_META -> verify_pattern_bytes o = 0.
Hypothesis Hjunk : (128 <= length junk)%nat.
Hypothesis Hinc : __hdr_size (verify o) + min_data (verify o) <= inc.
Hypothesis Hmax : inc + 128 <= 2 ^ 32.
Hypothesis Hvo : verify_offset o = 0 \/
  __hdr_size (verify o) <= verify_offset o /\ verify_offset o + __hdr_size (verify o) <= inc.

(** [verify_io_u] finds the [n]th block [d] in order: once the header is back in
    place, the checks and the checksum of the block pass. *)
Definition good_block (n : Z) (d : list Z) : Prop :=
  Z.of_nat (length d) = inc /\
  exists c1, Z.of_nat (length c1) = inc /\
    (forall rest, (if verify_offset o =? 0 then d ++ rest
                   else memswp (d ++ rest) (Z.to_nat (verify_offset o)) (__hdr_size (verify o))) = c1 ++ rest) /\
    forall u2 pre rest, v_offset u2 = v_offset u -> unique_version u2 = unique_version u ->
      inc <= buflen u2 -> Z.of_nat (length pre) = n * inc -> buf u2 = pre ++ c1 ++ rest ->
      hdr_checks crc32q crc32b intel o u2 inc n (c1 ++ rest) = true /\
      verify_switch crc32q crc32b intel junk o u2 n (c1 ++ rest) = 0.

Lemma populate_good n c : 0 <= n -> n * inc < 2 ^ 32 -> Z.of_nat (length c) = inc -> bytes c ->
  exists d, (forall rest, populate_hdr crc32q crc32b intel o u n inc (c ++ rest) = Some (d ++ rest)) /\
    good_block n d.
Proof.
  intros Hn Hnmax Hc Hcb. set (hs := __hdr_size (verify o)) in *.
  assert (HDR <= hs)%nat as Hhs by (unfold hs, __hdr_size; lia).
  destruct (hdr_fields_ok n inc c) as [W Happ]; [lia|done|].
  set (q := hdr_fields crc32q crc32b intel o u n inc c) in *.
  pose proof (hw_length _ _ _ _ W) as Hlq.
  destruct (fill_checksum_ok n q) as (q' & F & Hfill & Hver);
    [done|done|done|apply W|lia|fold hs; lia|]. fold hs in Hfill, Hver.
  pose proof (fl_length _ _ _ F) as Hlq'.
  exists (if verify_offset o =? 0 then q' else memswp q' (Z.to_nat (verify_offset o)) hs). split.
  { intros rest. unfold populate_hdr. fold hs. rewrite Happ. fold q.
    assert (sub (q ++ rest) hs (Z.to_nat (u32 (inc - hs))) = drop hs q) as ->.
    { rewrite wrap_small by (unfold is_word; lia). rewrite sub_app by lia. unfold sub.
      apply take_ge. rewrite length_drop. lia. }
    rewrite Hfill. cbn. destruct (Z.eqb_spec (verify_offset o) 0); [done|].
    by rewrite memswp_app by lia. }
  split.
  { destruct (Z.eqb_spec (verify_offset o) 0); [lia|].
    destruct (memswp_invol q' (Z.to_nat (verify_offset o)) hs) as [Hl _]; lia. }
  exists q'. split; [lia|]. split.
  { intros rest. fold hs. destruct (Z.eqb_spec (verify_offset o) 0); [done|].
    destruct (memswp_invol q' (Z.to_nat (verify_offset o)) hs) as [Hl E]; [lia..|].
    rewrite memswp_app by lia. by rewrite E. }
  intros u2 pre rest Ho Hu Hbl Hpre Hbuf.
  assert (forall off k, (off + k <= HDR)%nat -> get (q' ++ rest) off k = get q off k) as Hget
    by (intros; unfold get; by erewrite filled_get by (done || lia)).
  assert (hdr_len (q' ++ rest) = inc) as Hlen.
  { unfold hdr_len. rewrite Hget by (unfold HDR; lia). fold (hdr_len q).
    rewrite (hw_len _ _ _ _ W). apply wrap_small. unfold is_word. lia. }
  split.
  - unfold hdr_checks, verify_header. rewrite Hlen. unfold hdr_magic, hdr_crc32, hdr_offset, hdr_unique.
    rewrite !Hget by (unfold HDR; lia). rewrite !(filled_get _ q q') by first [done|lia|unfold HDR; lia].
    fold (hdr_magic q). fold (hdr_crc32 q). fold (hdr_offset q). fold (hdr_unique q).
    rewrite (hw_magic _ _ _ _ W), Z.eqb_refl, (hw_crc _ _ _ _ W), Z.eqb_refl.
    rewrite (hw_offset _ _ _ _ W), Ho, Z.eqb_refl, Hu. cbn [negb].
    destruct (Z.ltb_spec (buflen u2) inc); [lia|]. cbn [negb].
    destruct (verify_inner o) eqn:Ei; [|done]. by apply (hw_unique _ _ _ _ W).
  - apply Hver; [done| |].
    + unfold hdr_verify_type. rewrite Hget by (unfold HDR; lia). apply W.
    + unfold verify_data. fold hs. rewrite Hlen, !wrap_small by (unfold is_word; nia).
      rewrite Hbuf. unfold sub. rewrite <- drop_drop, drop_app_length' by lia.
      pose proof (fl_data _ _ _ F) as Hd. fold hs in Hd. rewrite <- Hd, drop_app_le by lia.
      apply take_app_length'. rewrite length_drop. lia.
Qed.

(** *** All the blocks of a buffer *)
Inductive good_blocks : Z -> list (list Z) -> Prop :=
  | good_nil n : good_blocks n []
  | good_cons n d ds : good_block n d -> good_blocks (n + 1) ds -> good_blocks n (d :: ds).

Hypothesis Hinc0 : 0 < inc.

Lemma headers_loop_good cs : forall (fuel : nat) n pre tail,
  (length cs < fuel)%nat -> 0 <= n -> Z.of_nat (length pre) = n * inc ->
  Forall (fun c : list Z => Z.of_nat (length c) = inc /\ bytes c) cs ->
  buflen u = (n + length cs) * inc -> buflen u < 2 ^ 32 ->
  exists ds, headers_loop crc32q crc32b intel fuel o u inc (n * inc) n (pre ++ concat cs ++ tail)
             = Some (pre ++ concat ds ++ tail) /\ good_blocks n ds /\ length ds = length cs.
Proof.
  induction cs as [|c cs IH]; intros fuel n pre tail Hf Hn Hpre HF Hbl Hmx;
    (destruct fuel as [|fuel]; [simpl in Hf; lia|]); cbn [headers_loop].
  - cbn [length] in Hbl. destruct (Z.ltb_spec (n * inc) (buflen u)); [lia|].
    exists []. split; [done|]. split; [constructor|done].
  - inversion_clear HF as [|? ? [Hc Hcb] HF']. cbn [length] in Hbl, Hf.
    destruct (Z.ltb_spec (n * inc) (buflen u)); [|nia].
    destruct (populate_good n c) as (d & Hpop & Hgood); [done|lia|done|done|].
    cbn [concat]. rewrite <- app_assoc, drop_app_length', take_app_length' by lia.
    rewrite Hpop. cbn. replace (n * inc + inc) with ((n + 1) * inc) by lia.
    destruct (IH fuel (n + 1) (pre ++ d) tail) as (ds & E & Hds & Hl);
      [lia|lia|rewrite length_app; destruct Hgood; lia|done|lia|done|].
    exists (d :: ds). rewrite <- app_assoc in E. rewrite E. cbn [concat length].
    split; [by rewrite <- !app_assoc|]. split; [by constructor|]. by rewrite Hl.
Qed.

Lemma verify_loop_good ds : forall (fuel : nat) n pre tail u2,
  (length ds < fuel)%nat -> 0 <= n -> Z.of_nat (length pre) = n * inc -> good_blocks n ds ->
  v_offset u2 = v_offset u -> unique_version u2 = unique_version u ->
  buflen u2 = (n + length ds) * inc -> buf u2 = pre ++ concat ds ++ tail ->
  exists u3, verify_loop crc32q crc32b intel junk fuel o inc (n * inc) n 0 u2 = (VDone 0, u3).
Proof.
  induction ds as [|d ds IH]; intros fuel n pre tail u2 Hf Hn Hpre HG Ho Hu Hbl Hbuf;
    (destruct fuel as [|fuel]; [simpl in Hf; lia|]); cbn [verify_loop].
  - cbn [length] in Hbl. destruct (Z.ltb_spec (n * inc) (buflen u2)); [lia|]. by exists u2.
  - inversion_clear HG as [|? ? ? [Hd (c1 & Hc1 & Hsw & Hver)] HG']. cbn [length] in Hbl, Hf.
    destruct (Z.ltb_spec (n * inc) (buflen u2)); [|nia]. cbn [Z.eqb negb andb].
    set (u2' := if verify_offset o =? 0 then u2 else _).
    assert (buf u2' = pre ++ c1 ++ concat ds ++ tail /\ buflen u2' = buflen u2 /\
            v_offset u2' = v_offset u2 /\ unique_version u2' = unique_version u2) as (Hb & Hb2 & Hb3 & Hb4).
    { specialize (Hsw (concat ds ++ tail)). cbn [concat] in Hbuf. rewrite <- app_assoc in Hbuf.
      unfold u2'. destruct (verify_offset o =? 0); [by rewrite Hbuf, Hsw|].
      destruct u2 as [b ? ? ? ? ? ? ? ? ?]. cbn [upd buf buflen v_offset unique_version] in *.
      rewrite Hbuf, take_app_length', drop_app_length' by lia. by rewrite Hsw. }
    rewrite Hb, drop_app_length' by lia.
    destruct (Hver u2' pre (concat ds ++ tail)) as [Hchk Hsw0]; [congruence|congruence|nia|done|done|].
    rewrite Hchk, Hsw0. cbn [negb]. replace (n * inc + inc) with ((n + 1) * inc) by lia.
    apply (IH fuel (n + 1) (pre ++ c1) tail u2');
      [lia|lia|rewrite length_app; lia|done|congruence|congruence|lia|by rewrite <- app_assoc].
Qed.
End header.

(** A buffer of [k] blocks. *)
Lemma chunks_of (inc : nat) (k : nat) : forall b : list Z, (k * inc <= length b)%nat -> bytes b ->
  exists cs tail, b = concat cs ++ tail /\ length cs = k /\
    Forall (fun c : list Z => Z.of_nat (length c) = inc /\ bytes c) cs.
Proof.
  induction k as [|k IH]; intros b Hb Hbb; [by exists [], b|].
  destruct (IH (drop inc b)) as (cs & tail & E & Hl & HF);
    [rewrite length_drop; lia|by apply Forall_drop|].
  exists (take inc b :: cs), tail. cbn [concat length]. split; [|split; [by rewrite Hl|]].
  - by rewrite <- app_assoc, <- E, take_drop.
  - constructor; [|done]. split; [rewrite length_take; lia|by apply Forall_take].
Qed.

Lemma fill_longs_bytes n : forall seed, bytes (Rand.fill_longs n seed).
Proof.
  induction n as [|n IH]; intros seed; [constructor|]. cbn [Rand.fill_longs]. apply Forall_app. split; [|apply IH].
  apply Forall_map, Forall_true. intros i. by apply wrap_range.
Qed.

Lemma pattern_loop_ok o : bytes (verify_pattern o) -> forall (fuel : nat) m len i,
  bytes m -> 0 <= i -> len <= length m -> 0 <= verify_pattern_bytes o ->
  bytes (pattern_loop fuel o m len i) /\ (length m <= length (pattern_loop fuel o m len i))%nat.
Proof.
  intros Hp. induction fuel as [|fuel IH]; intros m len i Hm Hi Hl Hpb; [done|]. cbn [pattern_loop].
  destruct (Z.ltb_spec i len); [|done].
  set (size := if len - i <? verify_pattern_bytes o then len - i else verify_pattern_bytes o).
  assert (0 <= size) by (unfold size; case_match; lia).
  pose proof (Rand.length_store_ge m i (take (Z.to_nat size) (verify_pattern o)) ltac:(lia)).
  destruct (IH (store m i (take (Z.to_nat size) (verify_pattern o))) len (i + size)) as [IB IL];
    [apply store_bytes; [done|by apply Forall_take]|lia|lia|done|].
  split; [done|]. lia.
Qed.

Lemma fill_pattern_ok o fs u seed use_seed :
  bytes (buf u) -> bytes (verify_pattern o) -> 0 <= verify_pattern_bytes o ->
  buflen u = length (buf u) -> buflen u < 2 ^ 32 ->
  exists u' fs', fill_pattern o fs u (u32 (buflen u)) seed use_seed = (u', fs') /\
    bytes (buf u') /\ buflen u <= length (buf u') /\ buflen u' = buflen u /\
    v_offset u' = v_offset u /\ unique_version u' = unique_version u.
Proof.
  intros Hb Hp Hpb Hl Hmx. rewrite wrap_small by (unfold is_word; lia).
  unfold fill_pattern. destruct u as [b bl ? ? ? ? ? uv ? ?]. cbn [buf buflen upd buf_filled_len] in *.
  pose proof (Rand.length_store_ge b 0) as Hge.
  assert (forall m, length b <= length (store b 0 m))%nat as Hge' by (intros m; specialize (Hge m); lia).
  destruct (verify_pattern_bytes o =? 0); [destruct use_seed; [|destruct (fill_random_buf fs b bl) as [[s' fs'] m] eqn:E]|
    case_match; [|case_match]]; (eexists _, _; split; [reflexivity|]; cbn [buf buflen v_offset unique_version]);
    split_and!; try done; try lia.
  - apply store_bytes; [done|apply fill_longs_bytes].
  - unfold __fill_random_buf. specialize (Hge' (Rand.fill_longs (Z.to_nat ((bl + 7) / 8)) seed)). lia.
  - unfold fill_random_buf in E. repeat case_match. simplify_eq. apply store_bytes; [done|apply fill_longs_bytes].
  - unfold fill_random_buf in E. repeat case_match. simplify_eq. unfold __fill_random_buf.
    match goal with |- context [store b 0 ?x] => specialize (Hge' x) end. lia.
  - apply store_bytes; [done|]. apply Forall_replicate. unfold tget.
    destruct (nth_in_or_default (Z.to_nat 0) (verify_pattern o) 0) as [Hin| ->]; [|done].
    rewrite Forall_forall in Hp. by apply Hp.
  - specialize (Hge' (replicate (Z.to_nat bl) (tget (verify_pattern o) 0))). lia.
  - by apply pattern_loop_ok; try lia.
  - destruct (pattern_loop_ok o Hp (Z.to_nat bl) b bl 0); [done|lia..|]. lia.
Qed.

(** ** Properties *)

(** C3: what [populate_verify_io_u] writes, [verify_io_u] accepts: for every
    checksum type, any number of headers per buffer, with or without a version
    stamp or a displaced header, reading the buffer back at the same offset
    verifies without error, provided the blocks are whole, long enough for the
    header (and, for SHA-256 and SHA-512, for one block of the digest) and the
    displaced header does not overlap the original place. *)
Theorem verify_accepts_written crc32q crc32b intel junk o fs u :
  (forall data, bytes data -> is_word 32 (crc32c crc32q crc32b intel data)) ->
  UniqueOk (unique o) -> (128 <= length junk)%nat ->
  checksummed (verify o) -> (verify o = VERIFY_META -> verify_pattern_bytes o = 0) ->
  bytes (verify_pattern o) -> 0 <= verify_pattern_bytes o ->
  length (unique_version u) = 16%nat -> bytes (unique_version u) ->
  bytes (buf u) -> buflen u = length (buf u) -> buflen u + 128 <= 2 ^ 32 ->
  let inc := get_hdr_inc o u in
  inc <> 0 -> buflen u mod inc = 0 -> inc <= buflen u ->
  __hdr_size (verify o) + min_data (verify o) <= inc ->
  (verify_offset o = 0 \/
   __hdr_size (verify o) <= verify_offset o /\ verify_offset o + __hdr_size (verify o) <= inc) ->
  exists u' fs', populate_verify_io_u crc32q crc32b intel o fs u = Some (u', fs') /\
    forall u2, buf u2 = buf u' -> buflen u2 = buflen u -> v_offset u2 = v_offset u ->
      unique_version u2 = unique_version u -> is_read u2 = true -> f_trimmed u2 = false ->
      exists u3, verify_io_u crc32q crc32b intel junk o u2 = (0, false, u3).
Proof.
  intros Hw HU Hj Hcs Hmeta Hpb Hpn Huv Huvb Hb Hl Hmx inc Hi0 Hdiv Hile Hinc Hvo.
  destruct (fill_pattern_ok o fs u 0 false) as (u1 & fs' & Ef & B1 & L1 & E1 & E2 & E3); [done..|lia|].
  unfold populate_verify_io_u, fill_pattern_headers. destruct Hcs as (N1 & N2 & N3).
  destruct (decide (verify o = VERIFY_NULL)); [done|]. rewrite Ef, E1.
  assert (get_hdr_inc o u1 = inc) as -> by (unfold inc, get_hdr_inc; by rewrite E1).
  assert (0 < inc) as Hpos by lia.
  assert (buflen u = buflen u / inc * inc) as Hk by (rewrite Z.mul_comm; apply Z_div_exact_full_2; lia).
  set (k := Z.to_nat (buflen u / inc)).
  assert (0 <= buflen u / inc) by (apply Z.div_pos; lia).
  assert (buflen u / inc <= buflen u) by (apply Z.div_le_upper_bound; nia).
  destruct (chunks_of (Z.to_nat inc) k (buf u1)) as (cs & tail & Eb & Hlc & HF); [nia|done|].
  destruct (headers_loop_good crc32q crc32b intel junk Hw o u1 ltac:(by rewrite E3) ltac:(by rewrite E3) inc
    ltac:(done) Hmeta Hj Hinc ltac:(lia) Hvo Hpos cs (S (Z.to_nat (buflen u))) 0 [] tail) as (ds & Eh & Hg & Hld).
  { lia. } { lia. } { done. }
  { revert HF. apply Forall_impl. intros c [? ?]. split; [lia|done]. } { nia. } { lia. }
  rewrite Z.mul_0_l in Eh. cbn [app] in Eh. rewrite Eb, Eh. cbn. eexists _, _. split; [reflexivity|].
  intros u2 Hb2 Hbl2 Ho2 Hu2 Hr Ht. unfold verify_io_u. rewrite bool_decide_eq_false_2, Hr, Ht by done. cbn [orb negb].
  assert (get_hdr_inc o u2 = inc) as -> by (unfold inc, get_hdr_inc; by rewrite Hbl2).
  destruct (verify_loop_good crc32q crc32b intel junk o u1 ltac:(by rewrite E3) inc Hj Hpos ds (S (Z.to_nat (buflen u2))) 0 [] tail u2)
    as (u3 & Ev); [lia|lia|done|done|congruence|congruence|nia|by rewrite Hb2|].
  rewrite Z.mul_0_l in Ev. rewrite Ev. by exists u3.
Qed.

Lemma crc32c_soft_word crc32q crc32b data : bytes data -> is_word 32 (crc32c crc32q crc32b false data).
Proof.
  intros. change (crc32c crc32q crc32b false data) with (crc32c_sw data).
  rewrite crc32c_sw_run by done. by apply (crc_run_word ref_crc32c).
Qed.

(** A job that verifies with checksum [v], and a buffer of [n] bytes of it. *)
Definition ex_opts (v : verify_t) (interval : Z) (pattern : list Z) (pattern_bytes : Z) : vopts :=
  {| verify := v; verify_interval := interval; verify_offset := 0; verify_pattern := pattern;
     verify_pattern_bytes := pattern_bytes; verify_inner := true; verify_fatal := false;
     v_randomagain := false; v_rw_min_bs := 512; trim_zero := false; unique := unique_time_n;
     thread_number := 1; write_issues := 7 |}.
Definition ex_iou (n : nat) : viou :=
  {| buf := replicate n 0; buflen := n; v_offset := 4096; rand_seed := 0; buf_filled_len := 0;
     start_sec := 1; start_usec := 2; unique_version := replicate 16 3; f_trimmed := false;
     is_read := true |}.

Lemma verify_accepts_written_witness :
  exists u' fs', populate_verify_io_u (fun _ _ => 0) (fun _ _ => 0) false
      (ex_opts VERIFY_SHA512 512 [] 0) Rand.init_rand (ex_iou 1024) = Some (u', fs') /\
    exists u3, verify_io_u (fun _ _ => 0) (fun _ _ => 0) false (replicate 128 1)
      (ex_opts VERIFY_SHA512 512 [] 0) ((ex_iou 1024) <| buf := buf u' |>) = (0, false, u3).
Proof.
  destruct (verify_accepts_written (fun _ _ => 0) (fun _ _ => 0) false (replicate 128 1)
    (ex_opts VERIFY_SHA512 512 [] 0) Rand.init_rand (ex_iou 1024)) as (u' & fs' & E & Hv).
  - intros. by apply crc32c_soft_word.
  - apply unique_time_n_ok.
  - vm_compute. lia.
  - by split_and!.
  - done.
  - constructor.
  - done.
  - done.
  - solve_bytes.
  - solve_bytes.
  - done.
  - vm_compute. discriminate.
  - vm_compute. discriminate.
  - done.
  - vm_compute. discriminate.
  - vm_compute. discriminate.
  - by left.
  - exists u', fs'. split; [exact E|]. by apply Hv.
Defined.

(** *** The verdict on a buffer with several headers *)
Lemma verify_loop_last crc32q crc32b intel junk o u inc (k : nat) :
  verify_fatal o = false -> verify_offset o = 0 -> 0 < inc -> buflen u = k * inc ->
  (forall n, 0 <= n < k -> hdr_checks crc32q crc32b intel o u inc n (drop (Z.to_nat (n * inc)) (buf u)) = true) ->
  forall (j fuel : nat) ret, (j <= k)%nat -> (j < fuel)%nat ->
  verify_loop crc32q crc32b intel junk fuel o inc ((k - j) * inc) (k - j) ret u
  = (VDone (if (j =? 0)%nat then ret
            else verify_switch crc32q crc32b intel junk o u (k - 1) (drop (Z.to_nat ((k - 1) * inc)) (buf u))), u).
Proof.
  intros Hf Ho Hi Hbl Hchk j. induction j as [|j IH]; intros fuel ret Hj Hfu;
    (destruct fuel as [|fuel]; [lia|]); cbn [verify_loop].
  - rewrite Z.sub_0_r, Hbl, Z.ltb_irrefl. done.
  - rewrite Hf, andb_false_r, Ho. cbn [Z.eqb]. destruct (Z.ltb_spec ((k - S j) * inc) (buflen u)); [|nia].
    rewrite Hchk by lia. cbn [negb].
    replace ((k - S j) * inc + inc) with ((k - j) * inc) by lia.
    replace (k - S j + 1) with (k - j) by lia. rewrite IH by lia.
    destruct j as [|j]; [|done]. cbn [Nat.eqb]. done.
Qed.

(** a job that does not stop on verify errors ([verify_fatal] off) returns the
    verdict of the last header of the buffer only: the loop assigns [ret] for every
    header, so that a checksum mismatch in an earlier block is forgotten. *)
Theorem verify_keeps_last_verdict crc32q crc32b intel junk o u (k : nat) :
  verify o <> VERIFY_NULL -> is_read u = true -> f_trimmed u = false ->
  verify_fatal o = false -> verify_offset o = 0 ->
  let inc := get_hdr_inc o u in
  0 < inc -> (0 < k)%nat -> buflen u = k * inc ->
  (forall n, 0 <= n < k -> hdr_checks crc32q crc32b intel o u inc n (drop (Z.to_nat (n * inc)) (buf u)) = true) ->
  verify_io_u crc32q crc32b intel junk o u
  = (verify_switch crc32q crc32b intel junk o u (k - 1) (drop (Z.to_nat ((k - 1) * inc)) (buf u)), false, u).
Proof.
  intros Hn Hr Ht Hf Ho inc Hi Hk Hbl Hchk. unfold verify_io_u.
  rewrite bool_decide_eq_false_2, Hr, Ht by done. cbn [orb negb]. fold inc.
  pose proof (verify_loop_last crc32q crc32b intel junk o u inc k Hf Ho Hi Hbl Hchk k
    (S (Z.to_nat (buflen u))) 0 ltac:(lia) ltac:(nia)) as E.
  rewrite Z.sub_diag, Z.mul_0_l in E. rewrite E, Hf, andb_false_r.
  destruct k as [|k]; [lia|done].
Qed.

(** Two blocks with a CRC-32C; a byte of the first one is then changed. *)
Definition two_blocks : list Z :=
  match populate_verify_io_u (fun _ _ => 0) (fun _ _ => 0) false
          (ex_opts VERIFY_CRC32C 64 [] 0) Rand.init_rand (ex_iou 128) with
  | Some (u, _) => buf u
  | None => []
  end.
Definition bad_first_block : viou :=
  (ex_iou 128) <| buf := <[62%nat := tget two_blocks 62 .^ 1]> two_blocks |>.

Lemma verify_keeps_last_verdict_witness :
  verify_switch (fun _ _ => 0) (fun _ _ => 0) false [] (ex_opts VERIFY_CRC32C 64 [] 0) bad_first_block 0
    (buf bad_first_block) = EILSEQ /\
  verify_io_u (fun _ _ => 0) (fun _ _ => 0) false [] (ex_opts VERIFY_CRC32C 64 [] 0) bad_first_block
  = (0, false, bad_first_block).
Proof.
  split; [vm_compute; reflexivity|].
  assert (verify_switch (fun _ _ => 0) (fun _ _ => 0) false [] (ex_opts VERIFY_CRC32C 64 [] 0)
    bad_first_block (2%nat - 1) (drop (Z.to_nat ((2%nat - 1)
      * get_hdr_inc (ex_opts VERIFY_CRC32C 64 [] 0) bad_first_block)) (buf bad_first_block)) = 0) as E
    by (vm_compute; reflexivity).
  etransitivity; [|exact (f_equal (fun r => (r, false, bad_first_block)) E)].
  apply (verify_keeps_last_verdict (fun _ _ => 0) (fun _ _ => 0) false [] (ex_opts VERIFY_CRC32C 64 [] 0)
           bad_first_block 2).
  - vm_compute. discriminate.
  - vm_compute. reflexivity.
  - vm_compute. reflexivity.
  - vm_compute. reflexivity.
  - vm_compute. reflexivity.
  - vm_compute. reflexivity.
  - lia.
  - vm_compute. reflexivity.
  - intros n Hn. assert (n = 0 \/ n = 1) as [-> | ->] by lia; vm_compute; reflexivity.
Defined.

End Verify.
