(* ===== verification/VerifyCheck.v ===== *)
(** * What verification detects

    Theorems on the handlers of [src/verify.c] as modelled in [Verify]: which
    corruptions of the data a checksum reveals, which ones the digests cannot
    see, and what the pattern comparison compares. *)
From S2P Require Import Prelude Rand Crc Compress Digest Verify.
Local Open Scope word_scope.

Module VerifyCheck.
Import Crc.
Import Digest.
Import Verify.

(** ** Checksums *)

(** A burst: the data with a window of bytes [b] replaced by [b']. *)
Definition burst (data data' : list Z) (w : Z) : Prop :=
  exists pre b b' post, data = pre ++ b ++ post /\ data' = pre ++ b' ++ post /\
    length b = length b' /\ b <> b' /\ 8 * length b <= w /\ bytes data /\ bytes data'.

Lemma crc_burst_differs (A : CrcAlgo) `{!CrcLaws A} (f : list Z -> Z) data data' :
  (forall m, bytes m -> length m = length data -> f m = crc_run A m (crc_init A)) -> burst data data' (crc_width A) ->
  f data <> f data'.
Proof.
  intros Hf (pre & b & b' & post & -> & -> & Hl & Hne & Hw & Hb & Hb').
  rewrite !Hf by (rewrite ?length_app; congruence || done). rewrite !Forall_app in Hb, Hb'. destruct Hb as (? & ? & ?), Hb' as (? & ? & ?).
  by apply crc_detects.
Qed.

(** What the handlers compare is the word stored behind the header. *)
Lemma ret_of_neq (x y : Z) : x <> y -> ret_of (x =? y) = EILSEQ.
Proof. intros. unfold ret_of. by destruct (Z.eqb_spec x y). Qed.
Lemma ret_of_eq (x y : Z) : ret_of (x =? y) = 0 -> x = y.
Proof. unfold ret_of. by destruct (Z.eqb_spec x y). Qed.

(** The width of the CRC a type stores. *)
Definition crc_bits (v : verify_t) : option Z :=
  match v with
  | VERIFY_CRC16 => Some 16
  | VERIFY_CRC32 | VERIFY_CRC32C | VERIFY_CRC32C_INTEL => Some 32
  | VERIFY_CRC64 => Some 64
  | _ => None
  end.

(** Two reads of a block of type [v] with the same type and checksum in the
    header. *)
Definition same_header (v : verify_t) (m m' : list Z) : Prop :=
  hdr_verify_type m = verify_code v /\ hdr_verify_type m' = verify_code v /\
  sub m HDR (vhdr_size v) = sub m' HDR (vhdr_size v).

(** C21: a block whose checksum verified stops verifying when its data is hit by a
    burst no wider than the checksum, for CRC-16, CRC-32, CRC-32C (by table or by
    instruction) and CRC-64: the second read of the block is rejected with
    [EILSEQ].  Assumed: the two forms of the CRC32 instruction do what the manual of
    SSE 4.2 says, and the data has fewer than [2^35] bytes. *)
Theorem crc_verification_detects_burst crc32q crc32b intel junk o u u' n m m' v w :
  (forall crc b, is_word 32 crc -> is_byte b -> crc32b crc b = Nat.iter 8 (rstep POLY32C) (crc .^ b)) ->
  (forall crc x, is_word 32 crc -> is_word 64 x -> crc32q crc x = Nat.iter 64 (rstep POLY32C) (crc .^ x)) ->
  length (verify_data v u n m) < 2 ^ 35 ->
  crc_bits v = Some w -> same_header v m m' ->
  verify_switch crc32q crc32b intel junk o u n m = 0 ->
  burst (verify_data v u n m) (verify_data v u' n m') w ->
  verify_switch crc32q crc32b intel junk o u' n m' = EILSEQ.
Proof.
  intros Hi8 Hi64 Hlen Hv (Ht & Ht' & Hs) H0 Hb. unfold verify_switch in *. rewrite Ht, Ht', !verify_decode_code in *.
  assert (get m' HDR (vhdr_size v) = get m HDR (vhdr_size v)) as Hg by (unfold get; by rewrite Hs).
  assert (burst (verify_data v u n m) (verify_data v u' n m') 32 ->
          crc32c crc32q crc32b intel (verify_data v u n m) <> crc32c crc32q crc32b intel (verify_data v u' n m')) as H32.
  { intros Hb'. apply (crc_burst_differs ref_crc32c (crc32c crc32q crc32b intel)); [|done].
    intros d Hd El. unfold crc32c, fio_crc32c. destruct intel; [|by rewrite crc32c_sw_run].
    by rewrite crc32c_intel_sw, crc32c_sw_run by (done || congruence). }
  destruct v; simplify_eq/=; apply ret_of_eq in H0; apply ret_of_neq; rewrite Hg, <- H0; intros E.
  - by apply (crc_burst_differs ref_crc64 fio_crc64 _ _ (fun d Hd _ => fio_crc64_run d Hd) Hb).
  - by apply (crc_burst_differs ref_crc32 fio_crc32 _ _ (fun d Hd _ => fio_crc32_run d Hd) Hb).
  - by apply H32.
  - by apply H32.
  - refine (crc_burst_differs ref_crc16 fio_crc16 _ _ (fun d Hd _ => fio_crc16_run d Hd) Hb _). symmetry.
    destruct (Hb) as (? & ? & ? & ? & _ & _ & _ & _ & _ & B1 & B2).
    rewrite !wrap_small in E; [done|..]; rewrite fio_crc16_run by done; by apply (crc_run_word ref_crc16).
Qed.

(** The instruction, as the manual has it. *)
Definition sse42_crc32b (crc b : Z) : Z := Nat.iter 8 (rstep POLY32C) (crc .^ b).
Definition sse42_crc32q (crc x : Z) : Z := Nat.iter 64 (rstep POLY32C) (crc .^ x).

Lemma crc_verification_detects_burst_witness :
  verify_switch sse42_crc32q sse42_crc32b true [] (ex_opts VERIFY_CRC32C 64 [] 0) bad_first_block 0
    (buf bad_first_block) = EILSEQ.
Proof.
  apply (crc_verification_detects_burst sse42_crc32q sse42_crc32b true [] (ex_opts VERIFY_CRC32C 64 [] 0)
    ((ex_iou 128) <| buf := two_blocks |>) bad_first_block 0 two_blocks (buf bad_first_block) VERIFY_CRC32C 32).
  - intros. reflexivity.
  - intros. reflexivity.
  - vm_compute. reflexivity.
  - reflexivity.
  - split_and!; vm_compute; reflexivity.
  - vm_compute. reflexivity.
  - set (d := verify_data VERIFY_CRC32C ((ex_iou 128) <| buf := two_blocks |>) 0 two_blocks).
    exists (take 2 d), [tget d 2], [tget d 2 .^ 1], (drop 3 d).
    split_and!; try solve_bytes; vm_compute; (reflexivity || discriminate).
Defined.

(** ** Digests *)

(** What a digest check cannot tell apart.  MD5 and SHA-1 contexts are never
    finalised, so that the bytes after the last whole block of 64 do not count.
    For SHA-256 and SHA-512 the handlers store and compare the buffer of the
    context instead of its state, so that nothing between the first block and the
    bytes after the last whole block counts. *)
Inductive unseen : verify_t -> list Z -> list Z -> Prop :=
  | unseen_tail v d t t' : v = VERIFY_MD5 \/ v = VERIFY_SHA1 ->
      (length d mod 64 = 0)%nat -> (length t < 64)%nat -> (length t' < 64)%nat ->
      unseen v (d ++ t) (d ++ t')
  | unseen_sha256 b d d' t : length b = 64%nat ->
      (length d mod 64 = 0)%nat -> (length d' mod 64 = 0)%nat -> (length t < 64)%nat ->
      unseen VERIFY_SHA256 (b ++ d ++ t) (b ++ d' ++ t)
  | unseen_sha512 b d d' t : length b = 128%nat ->
      (length d mod 128 = 0)%nat -> (length d' mod 128 = 0)%nat -> (length t < 128)%nat ->
      unseen VERIFY_SHA512 (b ++ d ++ t) (b ++ d' ++ t).

Lemma leftover_tail B (d t : list Z) : (0 < B)%nat -> (length d mod B = 0)%nat -> (length t < B)%nat ->
  leftover B (d ++ t) = t.
Proof.
  intros HB Hd Ht. rewrite leftover_app by done.
  assert (leftover B d = []) as -> by (apply length_zero_iff_nil; by rewrite leftover_length).
  by apply leftover_small.
Qed.

(** two reads of a block that differ only in what the digest does not see get
    the same verdict: a block with a corrupted middle passes the SHA-256 and
    SHA-512 checks, and one with a corrupted end the MD5 and SHA-1 checks. *)
Theorem digest_blind_spots crc32q crc32b intel junk o u u' n m m' v :
  (128 <= length junk)%nat -> same_header v m m' ->
  length (verify_data v u n m) + 128 <= 2 ^ 32 -> length (verify_data v u' n m') + 128 <= 2 ^ 32 ->
  unseen v (verify_data v u n m) (verify_data v u' n m') ->
  verify_switch crc32q crc32b intel junk o u n m = verify_switch crc32q crc32b intel junk o u' n m'.
Proof.
  intros Hj (Ht & Ht' & Hs) L L' HU. unfold verify_switch. rewrite Ht, Ht', !verify_decode_code.
  remember (verify_data v u n m) as x eqn:Ex. remember (verify_data v u' n m') as x' eqn:Ex'.
  destruct HU as [v d t t' [-> | ->] Hd Hl Hl'|b d d' t Hb Hd Hd' Hl|b d d' t Hb Hd Hd' Hl].
  - unfold verify_io_u_md5. rewrite <- Ex, <- Ex'. cbn [vhdr_size] in Hs.
    rewrite !md5_of_absorb, !absorb_whole, Hs by (done || lia). done.
  - unfold verify_io_u_sha1. rewrite <- Ex, <- Ex'. cbn [vhdr_size] in Hs.
    rewrite !sha1_of_absorb, !absorb_whole, Hs by (done || lia). done.
  - unfold verify_io_u_sha256. rewrite <- Ex, <- Ex'. cbn [vhdr_size] in Hs.
    rewrite !sha256_of_spec by (rewrite ?length_take, ?length_app in *; lia).
    rewrite !(take_app_length' b), !(drop_app_length' b), !leftover_tail, Hs by (done || lia). done.
  - unfold verify_io_u_sha512. rewrite <- Ex, <- Ex'. cbn [vhdr_size] in Hs.
    rewrite !sha512_of_spec by (rewrite ?length_take, ?length_app in *; lia).
    rewrite !(take_app_length' b), !(drop_app_length' b), !leftover_tail, Hs by (done || lia). done.
Qed.

(** A block with a SHA-512 header, and the same with its middle zeroed. *)
Definition sha512_written : list Z :=
  match populate_verify_io_u (fun _ _ => 0) (fun _ _ => 0) false
          (ex_opts VERIFY_SHA512 512 [] 0) Rand.init_rand (ex_iou 512) with
  | Some (u, _) => buf u
  | None => []
  end.
Definition sha512_zeroed : list Z := take 312 sha512_written ++ replicate 128 0 ++ drop 440 sha512_written.

Lemma digest_blind_spots_witness :
  sha512_written <> sha512_zeroed /\
  verify_switch (fun _ _ => 0) (fun _ _ => 0) false (replicate 128 1) (ex_opts VERIFY_SHA512 512 [] 0)
    ((ex_iou 512) <| buf := sha512_zeroed |>) 0 sha512_zeroed = 0.
Proof.
  split; [vm_compute; discriminate|].
  assert (verify_switch (fun _ _ => 0) (fun _ _ => 0) false (replicate 128 1) (ex_opts VERIFY_SHA512 512 [] 0)
    ((ex_iou 512) <| buf := sha512_written |>) 0 sha512_written = 0) as E by (vm_compute; reflexivity).
  etransitivity; [|exact E]. symmetry.
  apply (digest_blind_spots (fun _ _ => 0) (fun _ _ => 0) false (replicate 128 1) (ex_opts VERIFY_SHA512 512 [] 0)
    ((ex_iou 512) <| buf := sha512_written |>) ((ex_iou 512) <| buf := sha512_zeroed |>) 0 sha512_written
    sha512_zeroed VERIFY_SHA512).
  - vm_compute. lia.
  - split_and!; vm_compute; reflexivity.
  - vm_compute. discriminate.
  - vm_compute. discriminate.
  - assert (verify_data VERIFY_SHA512 ((ex_iou 512) <| buf := sha512_written |>) 0 sha512_written
            = sub sha512_written 184 128 ++ sub sha512_written 312 128 ++ sub sha512_written 440 72) as ->
      by (vm_compute; reflexivity).
    assert (verify_data VERIFY_SHA512 ((ex_iou 512) <| buf := sha512_zeroed |>) 0 sha512_zeroed
            = sub sha512_written 184 128 ++ replicate 128 0 ++ sub sha512_written 440 72) as ->
      by (vm_compute; reflexivity).
    constructor; vm_compute; (reflexivity || lia).
Defined.

(** ** Patterns *)
Section compare.
Implicit Types (b p : list Z).

Lemma sub_pointwise b p (i j n : nat) : (i + n <= length b)%nat -> (j + n <= length p)%nat ->
  sub b i n = sub p j n <-> forall k, (k < n)%nat -> nth (i + k) b 0 = nth (j + k) p 0.
Proof.
  intros Hb Hp. assert (forall l o k, (k < n)%nat -> (o + n <= length l)%nat ->
    nth k (sub l o n) 0 = nth (o + k) l 0) as Hn.
  { intros l o k Hk Hl. unfold sub. rewrite !nth_lookup, lookup_take_lt, lookup_drop by lia. done. }
  split.
  - intros E k Hk. rewrite <- !Hn by done. by rewrite E.
  - intros H. apply (nth_ext _ _ 0 0); rewrite !length_sub by done; [done|].
    intros k Hk. rewrite !Hn by done. by apply H.
Qed.

(** The pattern position of byte [i] of the area that starts [off] bytes into the
    block, and the agreement of the bytes below [n]. *)
Context (pattern b : list Z) (ps pb off len : Z).
Hypothesis Hps : 0 < ps.
Hypothesis Hpat : ps <= length pattern.
Hypothesis Hlen : 0 <= len <= length b.

Definition agrees (i : Z) : Prop := tget b i = tget pattern ((off + i) mod ps).

Lemma phase_add i k : 0 <= k -> (off + i) mod ps + k < ps -> (off + i + k) mod ps = (off + i) mod ps + k.
Proof.
  intros Hk Hlt. pose proof (Z.mod_pos_bound (off + i) ps ltac:(lia)).
  rewrite <- Zplus_mod_idemp_l. apply Z.mod_small. lia.
Qed.

(** The chunk at [i], compared from position [mod_]. *)
Lemma chunk_agrees i size : 0 <= i -> 0 <= size -> i + size <= len -> (off + i) mod ps + size <= ps ->
  sub b (Z.to_nat i) (Z.to_nat size) = sub pattern (Z.to_nat ((off + i) mod ps)) (Z.to_nat size) <->
  forall j, i <= j < i + size -> agrees j.
Proof.
  intros Hi Hs Hl Hm. pose proof (Z.mod_pos_bound (off + i) ps ltac:(lia)) as Hmb.
  rewrite sub_pointwise by lia. unfold agrees, tget. split.
  - intros H j Hj. specialize (H (Z.to_nat (j - i)) ltac:(lia)).
    replace (Z.to_nat i + Z.to_nat (j - i))%nat with (Z.to_nat j) in H by lia. rewrite H. f_equal.
    rewrite <- Z2Nat.inj_add by lia. f_equal.
    replace (off + j) with (off + i + (j - i)) by lia. rewrite phase_add by lia. lia.
  - intros H k Hk. specialize (H (i + k) ltac:(lia)).
    replace (Z.to_nat (i + k)) with (Z.to_nat i + k)%nat in H by lia. rewrite H. f_equal.
    rewrite Z.add_assoc, phase_add by lia. lia.
Qed.

(** The chunked comparison stops at the end, or in front of a chunk that differs. *)
Lemma pattern_fast_spec (fuel : nat) : forall i mod_, 0 <= i -> len - i <= fuel ->
  (i < len -> mod_ = (off + i) mod ps) -> (forall j, 0 <= j < i -> j < len -> agrees j) ->
  exists i' mod', pattern_fast fuel pattern b ps len i mod_ = (i', mod') /\
    0 <= i' /\ (forall j, 0 <= j < i' -> j < len -> agrees j) /\
    (i' < len -> mod' = (off + i') mod ps /\
       ~ forall j, i' <= j < i' + Z.min (ps - mod') (len - i') -> agrees j).
Proof.
  induction fuel as [|fuel IH]; intros i mod_ Hi Hf Hm Hag; cbn [pattern_fast].
  { exists i, mod_. split; [done|]. split; [done|]. split; [done|]. lia. }
  destruct (Z.ltb_spec i len) as [Hlt|]; [|exists i, mod_; split_and!; done || lia].
  specialize (Hm Hlt). pose proof (Z.mod_pos_bound (off + i) ps ltac:(lia)) as Hmb. rewrite <- Hm in Hmb.
  set (size := if len - i <? ps - mod_ then len - i else ps - mod_).
  assert (size = Z.min (ps - mod_) (len - i)) as Hsz by (unfold size; case_match; lia).
  pose proof (chunk_agrees i size ltac:(lia) ltac:(lia) ltac:(lia) ltac:(lia)) as Hc. rewrite <- Hm in Hc.
  unfold bytes_eqb. case_bool_decide as Heq.
  - apply IH; [lia|lia| |].
    + intros Hlt'. assert (size = ps - mod_) as Hs' by lia. rewrite Hs'.
      rewrite Z.add_assoc, <- Zplus_mod_idemp_l, <- Hm.
      replace (mod_ + (ps - mod_)) with ps by lia. by rewrite Z.mod_same by lia.
    + intros j Hj Hjl. destruct (decide (j < i)); [apply Hag; lia|]. apply (proj1 Hc Heq). lia.
  - exists i, mod_. split; [done|]. split; [done|]. split; [done|]. intros _. split; [done|].
    rewrite <- Hsz. by rewrite <- Hc.
Qed.

(** The bytewise comparison, started in front of a chunk that differs. *)
Hypothesis Hpb : pb = ps \/ pb = 0 \/ pb = 1 /\ forall k, 0 <= k < ps -> tget pattern k = tget pattern 0.

Lemma pattern_slow_differs (n fuel : nat) : forall i mod_, (n <= fuel)%nat -> 0 <= i ->
  0 <= mod_ -> mod_ + n <= ps -> i + n <= len ->
  (forall k, 0 <= k < n -> tget pattern (mod_ + k) = tget pattern ((off + i + k) mod ps)) ->
  (~ forall j, i <= j < i + n -> agrees j) ->
  pattern_slow fuel pattern b pb len i mod_ = EILSEQ.
Proof.
  revert fuel. induction n as [|n IH]; intros fuel i mod_ Hf Hi Hm Hmp Hl Hpatk Hd; [destruct Hd; lia|].
  destruct fuel as [|fuel]; [lia|]. cbn [pattern_slow].
  destruct (Z.ltb_spec i len); [|lia].
  pose proof (Hpatk 0 ltac:(lia)) as H0. rewrite !Z.add_0_r in H0.
  destruct (Z.eqb_spec (tget b i) (tget pattern mod_)) as [E|]; [|done]. cbn [negb].
  assert (~ forall j, i + 1 <= j < i + 1 + n -> agrees j) as Hd'.
  { intros Hrest. apply Hd. intros j Hj. destruct (decide (j = i)) as [->|]; [|apply Hrest; lia].
    unfold agrees. congruence. }
  destruct n as [|n']; [destruct Hd'; lia|].
  destruct (Z.eqb_spec (mod_ + 1) pb) as [Hw|Hw]; apply IH; try done; try lia.
  - intros k Hk. specialize (Hpatk (k + 1) ltac:(lia)).
    destruct Hpb as [->|[->|[-> Huni]]]; [lia|lia|].
    replace (off + (i + 1) + k) with (off + i + (k + 1)) by lia. rewrite <- Hpatk.
    rewrite (Huni (0 + k)), (Huni (mod_ + (k + 1))) by lia. done.
  - intros k Hk. specialize (Hpatk (k + 1) ltac:(lia)).
    replace (mod_ + 1 + k) with (mod_ + (k + 1)) by lia.
    by replace (off + (i + 1) + k) with (off + i + (k + 1)) by lia.
Qed.

Lemma pattern_slow_done (fuel : nat) i mod_ : len <= i -> pattern_slow fuel pattern b pb len i mod_ = 0.
Proof. intros. destruct fuel; [done|]. cbn [pattern_slow]. by destruct (Z.ltb_spec i len); [lia|]. Qed.

Lemma pattern_compare :
  let '(i, mod_) := pattern_fast (Z.to_nat len) pattern b ps len 0 (off mod ps) in
  let r := pattern_slow (Z.to_nat len) pattern b pb len i mod_ in
  (r = 0 /\ forall j, 0 <= j < len -> agrees j) \/ (r = EILSEQ /\ ~ forall j, 0 <= j < len -> agrees j).
Proof.
  destruct (pattern_fast_spec (Z.to_nat len) 0 (off mod ps)) as (i & mod_ & -> & Hi & Hag & Hd);
    [lia|lia|by rewrite Z.add_0_r|lia|].
  destruct (decide (i < len)) as [Hlt|].
  - right. destruct (Hd Hlt) as [Hm Hne]. pose proof (Z.mod_pos_bound (off + i) ps ltac:(lia)) as Hmb.
    split; [|intros H; apply Hne; intros j Hj; apply H; lia].
    apply (pattern_slow_differs (Z.to_nat (Z.min (ps - mod_) (len - i)))); [lia|lia|lia|lia|lia| |].
    + intros k Hk. rewrite phase_add by lia. by rewrite <- Hm.
    + intros H. apply Hne. intros j Hj. apply H. lia.
  - left. split; [apply pattern_slow_done; lia|]. intros j Hj. apply Hag; lia.
Qed.
End compare.

(** [verify_io_u_pattern] accepts a block exactly when every byte after the
    header is the pattern byte of its position in the block, and returns [EILSEQ]
    otherwise; a one-byte pattern fills the pattern array, as
    [str_verify_pattern_cb] leaves it. *)
Theorem pattern_verified_iff o u m :
  let ps := if verify_pattern_bytes o <=? 1 then MAX_PATTERN_SIZE else verify_pattern_bytes o in
  let hs := Z.of_nat (__hdr_size (verify o)) in
  Z.of_nat (length (verify_pattern o)) = MAX_PATTERN_SIZE -> 0 <= verify_pattern_bytes o <= MAX_PATTERN_SIZE ->
  (verify_pattern_bytes o = 1 -> forall k, 0 <= k < ps -> tget (verify_pattern o) k = tget (verify_pattern o) 0) ->
  hs <= get_hdr_inc o u -> get_hdr_inc o u <= length m -> get_hdr_inc o u < 2 ^ 32 ->
  (verify_io_u_pattern o u m = 0 <->
   forall i, hs <= i < get_hdr_inc o u -> tget m i = tget (verify_pattern o) (i mod ps)) /\
  (verify_io_u_pattern o u m = 0 \/ verify_io_u_pattern o u m = EILSEQ).
Proof.
  intros ps hs Hp Hpb Huni Hhs Hm Hmx. unfold MAX_PATTERN_SIZE in *.
  assert (0 < ps <= 512) as Hps by (unfold ps; case_match; lia).
  unfold verify_io_u_pattern. fold hs. fold ps. assert (hs = Z.of_nat (__hdr_size (verify o))) as Ehs by done.
  rewrite wrap_small by (unfold is_word; lia). set (len := get_hdr_inc o u - hs).
  assert (len = get_hdr_inc o u - hs) as Elen by done.
  pose proof (pattern_compare (verify_pattern o) (drop (__hdr_size (verify o)) m) ps (verify_pattern_bytes o) hs len
    ltac:(lia) ltac:(lia) ltac:(rewrite length_drop; lia)) as Hcmp.
  assert ((forall j, 0 <= j < len -> agrees (verify_pattern o) (drop (__hdr_size (verify o)) m) ps hs j) <->
          forall i, hs <= i < get_hdr_inc o u -> tget m i = tget (verify_pattern o) (i mod ps)) as Hiff.
  { unfold agrees. assert (forall j, 0 <= j -> tget (drop (__hdr_size (verify o)) m) j = tget m (hs + j)) as Hd.
    { intros j Hj. unfold tget. rewrite !nth_lookup, lookup_drop. do 2 f_equal. lia. }
    split; intros H i Hi.
    - specialize (H (i - hs) ltac:(lia)). rewrite Hd in H by lia.
      by replace (hs + (i - hs)) with i in H by lia.
    - rewrite Hd by lia. apply H. lia. }
  destruct (pattern_fast _ _ _ _ _ _ _) as [i mod_]. rewrite <- Hiff.
  destruct Hcmp as [[-> Hag]|[-> Hag]].
  - revert Huni. unfold ps. destruct (Z.leb_spec (verify_pattern_bytes o) 1); intros Huni; [|by left].
    right. destruct (decide (verify_pattern_bytes o = 0)); [by left|]. right. split; [lia|]. apply Huni. lia.
  - split; [done|by left].
  - split; [done|by right].
Qed.

(** The option [verify_pattern=0x030201]. *)
Definition pattern_321 : list Z * Z := pattern_finish ([1; 2; 3] ++ replicate 509 0) 3.
Definition pattern_opts (interval : Z) : vopts :=
  ex_opts VERIFY_PATTERN interval pattern_321.1 pattern_321.2.
Definition pattern_block (p : Z) : list Z := map (fun i => tget pattern_321.1 ((p + Z.of_nat i) mod 384)) (seq 0 512).

Lemma pattern_verified_iff_witness :
  verify_io_u_pattern (pattern_opts 512) (ex_iou 512) (pattern_block 0) = 0.
Proof.
  apply (pattern_verified_iff (pattern_opts 512) (ex_iou 512) (pattern_block 0)).
  - vm_compute. reflexivity.
  - vm_compute. split; discriminate.
  - vm_compute. discriminate.
  - vm_compute. discriminate.
  - vm_compute. discriminate.
  - vm_compute. reflexivity.
  - intros i Hi. change (tget (pattern_block 0) i = tget pattern_321.1 (i mod 384)).
    change (get_hdr_inc (pattern_opts 512) (ex_iou 512)) with 512 in Hi.
    unfold pattern_block, tget at 1.
    rewrite (nth_indep _ 0 ((fun i => tget pattern_321.1 ((0 + Z.of_nat i) mod 384)) 0%nat))
      by (rewrite length_map, length_seq; lia).
    rewrite (map_nth (fun i => tget pattern_321.1 ((0 + Z.of_nat i) mod 384))), seq_nth by lia.
    do 2 f_equal. lia.
Defined.

(** a pattern whose length does not divide the distance of the headers is
    reported as corrupted although it was read back as written: the buffer is
    filled with the pattern from its start, and each block is compared with the
    pattern from the start of the block.  Here a three-byte pattern (384 bytes
    after doubling), a buffer of 1024 bytes and a header every 512. *)
Theorem pattern_phase_false_alarm :
  match populate_verify_io_u (fun _ _ => 0) (fun _ _ => 0) false (pattern_opts 512) Rand.init_rand (ex_iou 1024) with
  | Some (u, _) =>
      fst (fst (verify_io_u (fun _ _ => 0) (fun _ _ => 0) false [] (pattern_opts 512) u)) = EILSEQ
  | None => False
  end.
Proof. vm_compute. reflexivity. Qed.

End VerifyCheck.
