(* ===== verification/SegMap.v ===== *)
(** * The write history of jobs with overlapping writes

    [src/seg_2bitsmap.c], [src/iohist_hash.c] and the part of [log_io_piece]
    ([src/iolog.c]) and [get_next_verify] ([src/verify.c]) that uses them.  A job
    whose block size varies and that may write a block more than once keeps, per
    file, the pieces it wrote: a list in the order of the writes, a hash table
    from the first block of a piece to the piece, and a map of two bits per block
    that marks where pieces start and which blocks they cover.  A new write cuts
    the pieces it overlaps, so that every block is verified against its last
    write.

    Widths: [W] is the number of bits of an [unsigned long], of a [size_t] and of
    a pointer.  [MAP2_BLK] is computed with [W] bits, the hash key holds the block
    with [W] bits, [nr_blk] and [len] have [W] bits; blocks and offsets have 64.
    [set_bit] shifts an [int], of 32 bits whatever [W] is. *)
From S2P Require Import Prelude Bits Verify.
From stdpp Require Import gmap.
Local Open Scope Z_scope.
Local Open Scope word_scope.

Module SegMap.
Import Bits.
Import Verify(le_bytes).

(** ** [src/seg_2bitsmap.h] *)
Definition EMPTY : Z := 0.
Definition ERR : Z := 1.
Definition START : Z := 2.
Definition IN : Z := 3.
Definition BITS_PER_BLK : Z := 2.
Definition BLK_MASK : Z := 3.

(** [v << s] on an [int]: undefined when [s] is not smaller than the width; bits
    may be shifted into the sign bit, as the compilers the Makefile knows define
    it. *)
Definition int_shl (v s : Z) : option Z := if s <? 32 then Some (s32 (v .<< s)) else None.

(** ** History of one file *)
Record io_piece := {
  p_block : Z;
  p_nr_blk : Z;
  p_version : Z;                      (* unique_version *)
  p_hashed : bool;                    (* IP_F_HASHED *)
  p_onlist : bool }.                  (* IP_F_ONLIST *)

#[global] Instance eta_io_piece : Eta io_piece := fun p =>
  Build_io_piece (p_block p) (p_nr_blk p) (p_version p) (p_hashed p) (p_onlist p).

(** [pieces]: the allocated pieces, by address; [buckets]: the hash lists;
    [io_hist_list]: addresses in list order. *)
Record hist := {
  map2 : list Z;
  pieces : gmap nat io_piece;
  buckets : gmap Z (list nat);
  io_hist_list : list nat;
  io_hist_len : Z;
  next_piece : nat }.                 (* the next address [malloc] returns: one that no live piece has *)

#[global] Instance eta_hist : Eta hist := fun h =>
  Build_hist (map2 h) (pieces h) (buckets h) (io_hist_list h) (io_hist_len h) (next_piece h).

Section code.
Context (W : Z).
(** The address of the [struct fio_file], part of the hash key. *)
Context (file : Z).

Definition BLKS_PER_MAP2 : Z := 8 / BITS_PER_BLK * (W / 8).
Definition MAP2_IDX (b : Z) : Z := b / BLKS_PER_MAP2.
Definition MAP2_BIT (b : Z) : Z := b .& (BLKS_PER_MAP2 - 1).
(** [idx] and [bit] are [unsigned int]s, [BLKS_PER_MAP2] is a [size_t]. *)
Definition MAP2_BLK (idx bit : Z) : Z := wrap W (wrap W (idx * BLKS_PER_MAP2) + bit).

(** [map2[idx]]: accesses out of the array have no value. *)
Definition word_at (m : list Z) (idx : Z) : option Z := if idx <? length m then m !! Z.to_nat idx else None.

Definition get_blk (m : list Z) (idx bit : Z) : option Z :=
  w ← word_at m idx; Some ((w .>> (bit * BITS_PER_BLK)) .& BLK_MASK).
Definition test_blk (m : list Z) (idx bit stat : Z) : option bool :=
  v ← get_blk m idx bit; Some (v =? stat).
Definition set_bit (m : list Z) (idx bit stat : Z) : option (list Z) :=
  w ← word_at m idx;
  mask ← int_shl BLK_MASK (bit * BITS_PER_BLK);
  v ← int_shl stat (bit * BITS_PER_BLK);
  Some (<[Z.to_nat idx := (w .& wrap W (Z.lnot mask)) .| wrap W v]> m).

(** [bit++; if (bit == BLKS_PER_MAP2) { idx++; bit = 0; }] *)
Definition next_blk (pos : Z * Z) : Z * Z :=
  let '(idx, bit) := pos in
  if bit + 1 =? BLKS_PER_MAP2 then (idx + 1, 0) else (idx, bit + 1).

(** [remove_seg]: the do-while loop, then the function; [None] also stands for a
    failed assertion. *)
Fixpoint remove_loop (fuel : nat) (m : list Z) (num : Z) (pos : Z * Z) : option (list Z) :=
  match fuel with
  | O => None
  | S fuel =>
      m ← set_bit m (fst pos) (snd pos) EMPTY;
      let pos := next_blk pos in
      if fst pos <? num then
        again ← test_blk m (fst pos) (snd pos) IN;
        if again : bool then remove_loop fuel m num pos else Some m
      else Some m
  end.
Definition remove_seg (m : list Z) (num block : Z) : option (list Z) :=
  let idx := u32 (MAP2_IDX block) in
  let bit := u32 (MAP2_BIT block) in
  ok ← test_blk m idx bit START;
  if ok : bool then remove_loop (S (length m * Z.to_nat BLKS_PER_MAP2)) m num (idx, bit) else None.

(** The search of the start of the piece a block is in. *)
Definition prev_blk (pos : Z * Z) : Z * Z :=
  let '(prev_idx, prev_bit) := pos in
  let prev_bit := prev_bit + BLKS_PER_MAP2 in
  let prev_idx := if BLKS_PER_MAP2 <? prev_bit then prev_idx else u32 (prev_idx - 1) in
  (prev_idx, (prev_bit - 1) mod BLKS_PER_MAP2).
Fixpoint prev_loop (fuel : nat) (m : list Z) (pos : Z * Z) : option (Z * Z) :=
  match fuel with
  | O => None
  | S fuel =>
      let pos := prev_blk pos in
      found ← test_blk m (fst pos) (snd pos) START;
      if found : bool then Some pos else prev_loop fuel m pos
  end.

(** [insert_seg], for an overlap handler on the state that contains the map. *)
Fixpoint insert_loop (fuel : nat) (overlap : Z -> Z -> Z -> hist -> option hist) (block nr_blk finish : Z)
    (pos : Z * Z) (h : hist) : option hist :=
  match fuel with
  | O => None
  | S fuel =>
      if finish <? nr_blk then
        start ← test_blk (map2 h) (fst pos) (snd pos) START;
        h ← (if start : bool then overlap (MAP2_BLK (fst pos) (snd pos)) block nr_blk h else Some h);
        m ← set_bit (map2 h) (fst pos) (snd pos) IN;
        insert_loop fuel overlap block nr_blk (finish + 1) (next_blk pos) (h <| map2 := m |>)
      else Some h
  end.
Definition insert_seg (overlap : Z -> Z -> Z -> hist -> option hist) (block nr_blk : Z) (h : hist)
    : option hist :=
  let idx := u32 (MAP2_IDX block) in
  let bit := u32 (MAP2_BIT block) in
  blk ← get_blk (map2 h) idx bit;
  h ← (if blk =? EMPTY then Some h
       else if blk =? START then overlap block block nr_blk h
       else if blk =? IN then
         prev ← prev_loop (S (Z.to_nat block)) (map2 h) (idx, bit);
         overlap (MAP2_BLK (fst prev) (snd prev)) block nr_blk h
       else Some h);
  m ← set_bit (map2 h) idx bit START;
  insert_loop (S (Z.to_nat nr_blk)) overlap block nr_blk 1 (next_blk (idx, bit)) (h <| map2 := m |>).

(** ** [src/iohist_hash.c] *)
Definition HASH_BUCKETS : Z := 1024 * 1024.
Definition HASH_MASK : Z := HASH_BUCKETS - 1.

(** [set_iohist_key]: the key is the file pointer followed by the block, both of
    [W] bits; the result of [hash] is an [unsigned short]. *)
Definition iohist_key (block : Z) : list Z :=
  le_bytes (Z.to_nat (W / 8)) file ++ le_bytes (Z.to_nat (W / 8)) block.
Definition hash (block : Z) : Z := u16 (jhash_from (golden_of W) (iohist_key block) 0 .& HASH_MASK).

Definition bucket (h : hist) (k : Z) : list nat := default [] (buckets h !! k).

(** The first piece of the bucket with that key; the pieces are of one file, so
    that the keys are the same when the blocks are, as [unsigned long]s. *)
Fixpoint find_in (ps : gmap nat io_piece) (l : list nat) (block : Z) : option nat :=
  match l with
  | [] => None
  | id :: l =>
      match ps !! id with
      | Some p => if wrap W (p_block p) =? wrap W block then Some id else find_in ps l block
      | None => None
      end
  end.
Definition iohist_hash_find (h : hist) (block : Z) : option nat :=
  find_in (pieces h) (bucket h (hash block)) block.

(** [flist_del_init] unlinks the piece from the list it is in. *)
Definition iohist_hash_del (id : nat) (h : hist) : option hist :=
  p ← pieces h !! id;
  Some (if p_hashed p then
          h <| buckets ::= fmap (filter (fun x => x <> id)) |>
            <| pieces := <[id := p <| p_hashed := false |>]> (pieces h) |>
        else h).

Definition iohist_hash_add (id : nat) (h : hist) : option hist :=
  p ← pieces h !! id;
  Some (if p_hashed p then h
        else match iohist_hash_find h (p_block p) with
             | Some _ => h
             | None =>
                 let k := hash (p_block p) in
                 h <| pieces := <[id := p <| p_hashed := true |>]> (pieces h) |>
                   <| buckets := <[k := bucket h k ++ [id]]> (buckets h) |>
             end).

(** ** [overlap_divide] *)
Definition list_add_tail (id : nat) (h : hist) : hist :=
  h <| io_hist_list ::= fun l => l ++ [id] |>.
Definition list_del (id : nat) (h : hist) : hist :=
  h <| io_hist_list ::= filter (fun x => x <> id) |>.
Definition upd_piece (id : nat) (g : io_piece -> io_piece) (h : hist) : hist :=
  h <| pieces ::= alter g id |>.
Definition set_blk (block stat : Z) (h : hist) : option hist :=
  m ← set_bit (map2 h) (u32 (MAP2_IDX block)) (u32 (MAP2_BIT block)) stat;
  Some (h <| map2 := m |>).
(** [malloc], [init_ipo] and the assignments to a new piece. *)
Definition new_piece (block nr version : Z) (h : hist) : nat * hist :=
  (next_piece h,
   h <| pieces := <[next_piece h := Build_io_piece block nr version false false]> (pieces h) |>
     <| next_piece := S (next_piece h) |>).

(** The piece starts inside the new write: cut its head, or drop it. *)
Definition divide_head (id : nat) (p : io_piece) (block start len : Z) (h : hist) : option hist :=
  let finish := u64 (start + len) in
  if finish <? u64 (block + p_nr_blk p) then
    let h := upd_piece id (fun p => p <| p_nr_blk := wrap W (block + p_nr_blk p - finish) |>
                                      <| p_block := finish |>) h in
    h ← iohist_hash_del id h;
    h ← set_blk finish START h;
    iohist_hash_add id h
  else
    h ← iohist_hash_del id h;
    let h := list_del id h in
    if p_onlist p then
      Some (h <| io_hist_len := io_hist_len h - 1 |> <| pieces ::= delete id |>)
    else None.

(** The piece starts before the new write: keep its head, and its tail as a new
    piece if there is one. *)
Definition divide_tail (id : nat) (p : io_piece) (block start len : Z) (h : hist) : option hist :=
  let finish := u64 (start + len) in
  h ← (if finish <? u64 (block + p_nr_blk p) then
         let '(tail, h) := new_piece finish (wrap W (block + p_nr_blk p - finish)) (p_version p) h in
         h ← set_blk finish START h;
         h ← iohist_hash_add tail h;
         let h := list_add_tail tail h in
         let h := upd_piece tail (fun p => p <| p_onlist := true |>) h in
         Some (h <| io_hist_len := io_hist_len h + 1 |>)
       else Some h);
  Some (upd_piece id (fun p => p <| p_nr_blk := wrap W (start - block) |>) h).

Definition overlap_divide (block start len : Z) (h : hist) : option hist :=
  id ← iohist_hash_find h block;
  p ← pieces h !! id;
  if start <=? block then divide_head id p block start len h
  else divide_tail id p block start len h.

(** ** Logging a write and fetching the next piece to verify *)

(** [log_io_piece], for the jobs that use the segment map. *)
Definition log_io_piece_seg (file_offset min_bs offset buflen version : Z) (h : hist) : option hist :=
  let block := u64 (offset - file_offset) / min_bs in
  let nr_blk := wrap W (buflen + min_bs - 1) / min_bs in
  let '(id, h) := new_piece block nr_blk version h in
  h ← insert_seg overlap_divide block nr_blk h;
  h ← iohist_hash_add id h;
  let h := upd_piece id (fun p => p <| p_onlist := true |>) (list_add_tail id h) in
  Some (h <| io_hist_len := io_hist_len h + 1 |>).

(** The list branch of [get_next_verify]: the offset, the length and the version to
    check; [num_maps] is the size of the map of one bit per block. *)
Definition get_next_verify_list (file_offset min_bs num_maps : Z) (h : hist)
    : option (option (Z * Z * Z) * hist) :=
  match io_hist_list h with
  | [] => Some (None, h)
  | id :: rest =>
      let h := h <| io_hist_list := rest |> in
      p ← pieces h !! id;
      if negb (p_onlist p) then None
      else
        let h := upd_piece id (fun p => p <| p_onlist := false |>) h in
        '(off, len, h) ←
          (if p_hashed p then
             m ← remove_seg (map2 h) num_maps (p_block p);
             h ← iohist_hash_del id (h <| map2 := m |>);
             Some (u64 (p_block p * min_bs + file_offset), wrap W (p_nr_blk p * min_bs), h)
           else Some (p_block p, p_nr_blk p, h));
        Some (Some (off, len, p_version p),
              h <| io_hist_len := io_hist_len h - 1 |> <| pieces ::= delete id |>)
  end.
End code.

(** ** Reading and writing one block, for 32-bit longs *)
Section words.
Implicit Types (m : list Z) (b s : Z).

Lemma u32_s32 x : u32 (s32 x) = u32 x.
Proof.
  unfold swrap, wrap. set (y := x mod 2 ^ 32). assert (y mod 2 ^ 32 = y) as E by (apply Z.mod_small, Z.mod_pos_bound; lia).
  case_match; [done|]. rewrite <- (Z_mod_plus_full (y - 2 ^ 32) 1 (2 ^ 32)). by replace (y - 2 ^ 32 + 1 * 2 ^ 32) with y by lia.
Qed.
Lemma u32_lnot_s32 x : u32 (Z.lnot (s32 x)) = u32 (Z.lnot x).
Proof.
  unfold Z.lnot, Z.pred. rewrite <- !Z.sub_0_l, <- (wrap_add_l 32 (0 - s32 x)), <- (wrap_add_l 32 (0 - x)).
  rewrite <- (wrap_sub_r 32 0 (s32 x)), <- (wrap_sub_r 32 0 x). by rewrite u32_s32.
Qed.

Lemma word_at_lookup m i : 0 <= i -> word_at m i = m !! Z.to_nat i.
Proof.
  intros Hi. unfold word_at. destruct (Z.ltb_spec i (length m)); [done|]. symmetry. apply lookup_ge_None. lia.
Qed.

(** The status of block [b]. *)
Definition stat (m : list Z) (b : Z) : option Z := get_blk m (MAP2_IDX 32 b) (MAP2_BIT 32 b).
Definition words_ok m : Prop := Forall (is_word 32) m.
Definition cap (m : list Z) : Z := 16 * length m.

Lemma blks_32 : BLKS_PER_MAP2 32 = 16. Proof. done. Qed.
Lemma map2_bit_mod b : MAP2_BIT 32 b = b mod 16.
Proof. unfold MAP2_BIT. rewrite blks_32. change (16 - 1) with (Z.ones 4). by rewrite Z.land_ones by lia. Qed.
Lemma map2_idx_div b : MAP2_IDX 32 b = b / 16. Proof. done. Qed.

Definition blk_of (w k : Z) : Z := (w .>> (k * 2)) .& 3.

Lemma blk_of_set w k k' s : 0 <= k < 16 -> 0 <= k' < 16 -> 0 <= s < 4 ->
  blk_of ((w .& u32 (Z.lnot (s32 (3 .<< (k * 2))))) .| u32 (s32 (s .<< (k * 2)))) k'
  = if k' =? k then s else blk_of w k'.
Proof.
  intros Hk Hk' Hs. unfold blk_of. rewrite u32_lnot_s32, u32_s32. apply Z.bits_inj'. intros i Hi.
  change 3 with (Z.ones 2). destruct (Z.lt_ge_cases i 2) as [Hi2|Hi2].
  - rewrite Z.land_spec, Z.shiftr_spec, ones_testbit by lia.
    destruct (Z.ltb_spec i 2); [|lia]. rewrite andb_true_r.
    rewrite Z.lor_spec, Z.land_spec, !wrap_testbit, Z.lnot_spec, !shiftl_testbit by lia.
    destruct (Z.ltb_spec (i + k' * 2) 32); [|lia]. cbn [andb].
    destruct (Z.eqb_spec k' k) as [->|Hne].
    + destruct (Z.leb_spec (k * 2) (i + k * 2)); [|lia]. cbn [andb].
      replace (i + k * 2 - k * 2) with i by lia. rewrite ones_testbit by lia.
      destruct (Z.ltb_spec i 2); [|lia]. cbn [negb]. by rewrite andb_false_r.
    + rewrite Z.land_spec, Z.shiftr_spec, (ones_testbit 2 i) by lia.
      destruct (Z.ltb_spec i 2); [|lia]. rewrite andb_true_r.
      destruct (Z.leb_spec (k * 2) (i + k' * 2)); cbn [andb negb]; [|by rewrite andb_true_r, orb_false_r].
      rewrite ones_testbit by lia. destruct (Z.ltb_spec (i + k' * 2 - k * 2) 2); [lia|]. cbn [negb].
      rewrite (word_high 2 s) by (unfold is_word; lia). by rewrite andb_true_r, orb_false_r.
  - rewrite Z.land_spec, ones_testbit by lia. destruct (Z.ltb_spec i 2); [lia|]. rewrite andb_false_r.
    case_match; [by rewrite (word_high 2 s) by (unfold is_word; lia)|].
    rewrite Z.land_spec, ones_testbit by lia. destruct (Z.ltb_spec i 2); [lia|]. by rewrite andb_false_r.
Qed.

Lemma stat_some m b : 0 <= b < cap m -> exists v, stat m b = Some v /\ 0 <= v < 4.
Proof.
  unfold cap, stat, get_blk. intros Hb. rewrite map2_bit_mod, map2_idx_div.
  destruct (lookup_lt_is_Some_2 m (Z.to_nat (b / 16))) as [w Hw].
  { apply Nat2Z.inj_lt. rewrite Z2Nat.id by (apply Z.div_pos; lia). apply Z.div_lt_upper_bound; lia. }
  rewrite word_at_lookup, Hw by (apply Z.div_pos; lia). cbn. eexists. split; [done|]. unfold BLK_MASK. change 3 with (Z.ones 2).
  rewrite Z.land_ones by lia. by apply Z.mod_pos_bound.
Qed.

Lemma set_bit_stat m b s : words_ok m -> 0 <= b < cap m -> 0 <= s < 4 ->
  exists m', set_bit 32 m (MAP2_IDX 32 b) (MAP2_BIT 32 b) s = Some m' /\ length m' = length m /\ words_ok m' /\
    forall b', 0 <= b' -> stat m' b' = if b' =? b then Some s else stat m b'.
Proof.
  unfold cap. intros Hw Hb Hs. rewrite map2_bit_mod, map2_idx_div.
  pose proof (Z.mod_pos_bound b 16 ltac:(lia)) as Hbm. pose proof (Z.div_mod b 16 ltac:(lia)) as Hdm.
  assert (0 <= b / 16) by (apply Z.div_pos; lia).
  assert (b / 16 < length m) by (apply Z.div_lt_upper_bound; lia).
  destruct (lookup_lt_is_Some_2 m (Z.to_nat (b / 16))) as [w Ew]; [lia|].
  unfold set_bit. rewrite word_at_lookup, Ew by lia. cbn [mbind option_bind]. unfold int_shl, BITS_PER_BLK, BLK_MASK.
  destruct (Z.ltb_spec (b mod 16 * 2) 32); [|lia]. cbn [mbind option_bind].
  set (w' := (w .& _) .| _). exists (<[Z.to_nat (b / 16) := w']> m).
  assert (is_word 32 w') as Hw'.
  { apply lor_is_word; [lia| |by apply wrap_range]. rewrite Z.land_comm.
    apply land_is_word; [lia|apply wrap_range; lia|]. by apply (Forall_lookup_1 _ _ _ _ Hw Ew). }
  split; [done|]. split; [apply length_insert|]. split; [by apply Forall_insert|].
  intros b' Hb'. unfold stat, get_blk. rewrite map2_bit_mod, map2_idx_div.
  pose proof (Z.mod_pos_bound b' 16 ltac:(lia)) as Hbm'. pose proof (Z.div_mod b' 16 ltac:(lia)) as Hdm'.
  assert (0 <= b' / 16) by (apply Z.div_pos; lia). rewrite !word_at_lookup by lia.
  destruct (decide (b' / 16 = b / 16)) as [E|Hne].
  - rewrite E, list_lookup_insert_eq, Ew by lia. cbn [mbind option_bind].
    change (Some (blk_of w' (b' mod 16)) = if b' =? b then Some s else Some (blk_of w (b' mod 16))).
    unfold w'. rewrite blk_of_set by lia.
    destruct (Z.eqb_spec (b' mod 16) (b mod 16)), (Z.eqb_spec b' b); try done; lia.
  - rewrite list_lookup_insert_ne by lia. destruct (Z.eqb_spec b' b) as [->|]; [done|reflexivity].
Qed.

(** Moving from one block to its neighbours. *)
Definition pos_of (b : Z) : Z * Z := (MAP2_IDX 32 b, MAP2_BIT 32 b).

Lemma next_blk_pos b : 0 <= b -> next_blk 32 (pos_of b) = pos_of (b + 1).
Proof.
  intros Hb. unfold next_blk, pos_of. rewrite !map2_bit_mod, !map2_idx_div, blks_32.
  pose proof (Z.mod_pos_bound b 16 ltac:(lia)). pose proof (Z.div_mod b 16 ltac:(lia)).
  destruct (Z.eqb_spec (b mod 16 + 1) 16).
  - f_equal; [apply (Z.div_unique _ _ _ 0)|apply (Z.mod_unique _ _ (b / 16 + 1))]; lia.
  - f_equal; [apply (Z.div_unique _ _ _ (b mod 16 + 1))|apply (Z.mod_unique _ _ (b / 16))]; lia.
Qed.

Lemma prev_blk_pos b : 0 < b < 2 ^ 32 -> prev_blk 32 (pos_of b) = pos_of (b - 1).
Proof.
  intros Hb. unfold prev_blk, pos_of. rewrite !map2_bit_mod, !map2_idx_div, blks_32.
  pose proof (Z.mod_pos_bound b 16 ltac:(lia)). pose proof (Z.div_mod b 16 ltac:(lia)).
  destruct (Z.ltb_spec 16 (b mod 16 + 16)).
  - f_equal; [apply (Z.div_unique _ _ _ (b mod 16 - 1)); lia|].
    replace (b mod 16 + 16 - 1) with (b - 1 + (1 - b / 16) * 16) by lia. by rewrite Z_mod_plus_full.
  - rewrite wrap_small by (unfold is_word; lia).
    f_equal; [apply (Z.div_unique _ _ _ 15); lia|].
    replace (b mod 16 + 16 - 1) with (b - 1 + (1 - b / 16) * 16) by lia. by rewrite Z_mod_plus_full.
Qed.

Lemma map2_blk_pos b : 0 <= b < 2 ^ 32 -> MAP2_BLK 32 (MAP2_IDX 32 b) (MAP2_BIT 32 b) = b.
Proof.
  intros Hb. unfold MAP2_BLK. rewrite wrap_add_l, map2_bit_mod, map2_idx_div, blks_32.
  pose proof (Z.div_mod b 16 ltac:(lia)). replace (b / 16 * 16 + b mod 16) with b by lia. by apply wrap_small.
Qed.

Lemma u32_pos b : 0 <= b < 2 ^ 32 ->
  u32 (MAP2_IDX 32 b) = MAP2_IDX 32 b /\ u32 (MAP2_BIT 32 b) = MAP2_BIT 32 b.
Proof.
  intros Hb. rewrite map2_bit_mod, map2_idx_div. pose proof (Z.mod_pos_bound b 16 ltac:(lia)).
  split; apply wrap_small; unfold is_word; [|lia]. split; [apply Z.div_pos; lia|].
  apply Z.div_lt_upper_bound; lia.
Qed.
End words.

(** ** The pieces, the hash table and the list *)
Section table.
Context (file : Z).
Implicit Types (ps : gmap nat io_piece) (bs : gmap Z (list nat)) (p q : io_piece) (b v : Z) (x y : nat).

(** A live piece is one the hash table knows. *)
Definition live ps x p : Prop := ps !! x = Some p /\ p_hashed p = true.
Definition p_end p : Z := p_block p + p_nr_blk p.
Definition owned ps b v : Prop := exists x p, live ps x p /\ p_block p <= b < p_end p /\ p_version p = v.
Definition starts ps b : Prop := exists x p, live ps x p /\ p_block p = b.

Definition bkt bs (k : Z) : list nat := default [] (bs !! k).

(** The hash table but for piece [x]. *)
Definition hash_but x ps bs : Prop :=
  forall k y, y <> x -> (y ∈ bkt bs k <-> exists p, live ps y p /\ hash 32 file (p_block p) = k).
Record hash_ok ps bs : Prop := {
  ho_mem k y : y ∈ bkt bs k <-> exists p, live ps y p /\ hash 32 file (p_block p) = k;
  ho_start x y p q : live ps x p -> live ps y q -> p_block p = p_block q -> x = y;
  ho_range x p : live ps x p -> is_word 32 (p_block p) }.

Lemma find_in_some ps l b x p : (forall y, y ∈ l -> is_Some (ps !! y)) ->
  (forall y q, y ∈ l -> ps !! y = Some q -> u32 (p_block q) = u32 b -> y = x) ->
  x ∈ l -> ps !! x = Some p -> p_block p = b -> find_in 32 ps l b = Some x.
Proof.
  intros Hall Huniq Hx Hp Hb. induction l as [|y l IH]; [by apply elem_of_nil in Hx|]. cbn.
  destruct (Hall y) as [q Hq]; [set_solver|]. rewrite Hq. destruct (Z.eqb_spec (u32 (p_block q)) (u32 b)) as [E|E].
  - f_equal. apply (Huniq y q); [set_solver|done..].
  - apply IH; [set_solver..|]. apply elem_of_cons in Hx as [->|]; [|done]. by simplify_eq.
Qed.

Lemma find_in_none ps l b : (forall y, y ∈ l -> exists q, ps !! y = Some q /\ u32 (p_block q) <> u32 b) ->
  find_in 32 ps l b = None.
Proof.
  intros H. induction l as [|y l IH]; [done|]. cbn. destruct (H y) as (q & Hq & Hb); [set_solver|].
  rewrite Hq. destruct (Z.eqb_spec (u32 (p_block q)) (u32 b)); [done|]. apply IH. set_solver.
Qed.

Lemma hash_find_some h x p : hash_ok (pieces h) (buckets h) -> live (pieces h) x p ->
  iohist_hash_find 32 file h (p_block p) = Some x.
Proof.
  intros [Hm Hs Hr] Hx. unfold iohist_hash_find, bucket. change (default [] (buckets h !! ?k)) with (bkt (buckets h) k).
  apply find_in_some with p; [| | |apply Hx|done].
  - intros y (q & Hq & _)%Hm. eexists. apply Hq.
  - intros y q (q' & Hq & _)%Hm Hq' E. apply (Hs y x q' p); [done..|]. pose proof (Hr y q' Hq). destruct Hq. simplify_eq.
    by rewrite !wrap_small in E by eauto.
  - apply Hm. by exists p.
Qed.

Lemma hash_find_none h b : hash_ok (pieces h) (buckets h) -> is_word 32 b -> ~ starts (pieces h) b ->
  iohist_hash_find 32 file h b = None.
Proof.
  intros [Hm _ Hr] Hw Hb. apply find_in_none. intros y (q & Hq & _)%Hm. exists q.
  split; [apply Hq|]. intros E. rewrite !wrap_small in E by eauto. apply Hb. by exists y, q.
Qed.

Lemma live_insert ps x p y q : live (<[x := p]> ps) y q <->
  (x = y /\ p = q /\ p_hashed q = true) \/ (x <> y /\ live ps y q).
Proof. unfold live. rewrite lookup_insert_Some. naive_solver. Qed.
Lemma live_delete ps x y q : live (delete x ps) y q <-> x <> y /\ live ps y q.
Proof. unfold live. rewrite lookup_delete_Some. naive_solver. Qed.

Lemma bkt_filter bs k x y :
  y ∈ bkt ((filter (fun z => z <> x) : list nat -> list nat) <$> bs) k <-> y <> x /\ y ∈ bkt bs k.
Proof.
  unfold bkt. rewrite lookup_fmap. destruct (bs !! k); cbn; [by rewrite list_elem_of_filter|set_solver].
Qed.

(** The table depends on the first blocks of the live pieces only. *)
Lemma hash_ok_ext ps ps' bs : hash_ok ps bs ->
  (forall y b, (exists p, live ps' y p /\ p_block p = b) <-> exists p, live ps y p /\ p_block p = b) ->
  hash_ok ps' bs.
Proof.
  intros [Hm Hs Hr] E. split.
  3: { intros x p Hp. destruct (proj1 (E x (p_block p))) as (p' & Hp' & <-); eauto. }
  - intros k y. rewrite Hm. split; intros (p & Hp & <-).
    + destruct (proj2 (E y (p_block p))) as (q & Hq & Eb); [eauto|]. exists q. by rewrite Eb.
    + destruct (proj1 (E y (p_block p))) as (q & Hq & Eb); [eauto|]. exists q. by rewrite Eb.
  - intros x y p q Hp Hq Eb.
    destruct (proj1 (E x (p_block p))) as (p' & Hp' & Ep); [eauto|].
    destruct (proj1 (E y (p_block q))) as (q' & Hq' & Eq); [eauto|]. apply (Hs x y p' q'); congruence.
Qed.

Lemma hash_ok_resize ps bs x p p' : hash_ok ps bs -> live ps x p -> p_hashed p' = true -> p_block p' = p_block p ->
  hash_ok (<[x := p']> ps) bs.
Proof.
  intros Hh Hx Hp' Eb. apply (hash_ok_ext _ _ _ Hh). intros y b. setoid_rewrite live_insert. split.
  - intros (q & [(<- & <- & _)|[Hne Hq]] & E); [exists p|exists q]; naive_solver.
  - intros (q & Hq & E). destruct (decide (x = y)) as [<-|Hne]; [|exists q; naive_solver].
    exists p'. destruct Hx, Hq. split; [by left|congruence].
Qed.

Lemma hash_del_ok h x p : pieces h !! x = Some p -> p_hashed p = true ->
  hash_but x (pieces h) (buckets h) ->
  (forall y z q q', y <> x -> z <> x -> live (pieces h) y q -> live (pieces h) z q' -> p_block q = p_block q' -> y = z) ->
  (forall y q, y <> x -> live (pieces h) y q -> is_word 32 (p_block q)) ->
  exists bs, let ps := <[x := p <| p_hashed := false |>]> (pieces h) in
    iohist_hash_del x h = Some (h <| buckets := bs |> <| pieces := ps |>) /\ hash_ok ps bs.
Proof.
  intros Hp Hh Hb Hs Hr. unfold iohist_hash_del. rewrite Hp. cbn [mbind option_bind]. rewrite Hh.
  eexists. split; [reflexivity|]. split.
  - intros k y. rewrite bkt_filter. split.
    + intros [Hne Hy]. apply Hb in Hy as (q & Hq & Hk); [|done]. exists q. rewrite live_insert. naive_solver.
    + intros (q & Hq & Hk). apply live_insert in Hq as [(-> & <- & Hf)|[Hne Hq]]; [done|].
      split; [done|]. apply Hb; [done|]. by exists q.
  - intros y z q q' [(-> & <- & Hf)|[Hne Hq]]%live_insert [(-> & <- & Hf')|[Hne' Hq']]%live_insert E; try done. eauto.
  - intros y q [(-> & <- & Hf)|[Hne Hq]]%live_insert; [done|eauto].
Qed.

Lemma hash_add_ok h x p : pieces h !! x = Some p -> p_hashed p = false ->
  hash_ok (pieces h) (buckets h) -> is_word 32 (p_block p) -> ~ starts (pieces h) (p_block p) ->
  exists bs, let ps := <[x := p <| p_hashed := true |>]> (pieces h) in
    iohist_hash_add 32 file x h = Some (h <| buckets := bs |> <| pieces := ps |>) /\ hash_ok ps bs.
Proof.
  intros Hp Hh Hok Hw Hst. unfold iohist_hash_add. rewrite Hp. cbn [mbind option_bind]. rewrite Hh.
  rewrite hash_find_none by done. destruct Hok as [Hm Hs Hr].
  set (k0 := hash 32 file (p_block p)). exists (<[k0 := bucket h k0 ++ [x]]> (buckets h)).
  split; [reflexivity|]. unfold k0. clear k0. split.
  - intros k y. unfold bucket. change (default [] (buckets h !! ?k)) with (bkt (buckets h) k). unfold bkt at 1.
    destruct (decide (hash 32 file (p_block p) = k)) as [<-|Hne].
    + rewrite lookup_insert_eq. cbn [default from_option id]. rewrite elem_of_app, list_elem_of_singleton, Hm. split.
      * intros [(q & Hq & E)| ->]; [exists q|exists (p <| p_hashed := true |>)]; (split; [|done]); rewrite live_insert; [|by left].
        destruct (decide (x = y)) as [<-|]; [|by auto]. destruct Hq. congruence.
      * intros (q & [(-> & <- & _)|[Hne Hq]]%live_insert & E); [by right|left]. by exists q.
    + rewrite lookup_insert_ne by done. fold (bkt (buckets h) k). rewrite Hm. split.
      * intros (q & Hq & E). exists q. split; [|done]. rewrite live_insert.
        destruct (decide (x = y)) as [<-|]; [|by auto].
        destruct Hq. congruence.
      * intros (q & [(-> & <- & _)|[Hne' Hq]]%live_insert & E); [done|]. by exists q.
  - intros y z q q' [(-> & <- & Hf)|[Hne Hq]]%live_insert [(-> & <- & Hf')|[Hne' Hq']]%live_insert E; try done; [..|by eauto];
      destruct Hst; cbn in E; do 2 eexists; by split.
  - intros y q [(-> & <- & _)|[Hne Hq]]%live_insert; [done|eauto].
Qed.
End table.

(** ** The invariant of the history *)
Section invariant.
(** [L] bounds the length of a piece. *)
Context (file L : Z).
Hypothesis (HL : L < 2 ^ 32).
Implicit Types (h : hist) (m : list Z) (ps : gmap nat io_piece) (p q : io_piece) (b v s e cur : Z) (x y : nat).

Definition apart p q : Prop := p_end p <= p_block q \/ p_end q <= p_block p.
Definition fits (n : Z) p : Prop := 0 <= p_block p /\ 0 < p_nr_blk p <= L /\ p_end p <= n.

(** List, hash table and pieces agree; the pieces are disjoint and lie in the map. *)
Record table_ok h : Prop := {
  t_hash : hash_ok file (pieces h) (buckets h);
  t_fresh x : (next_piece h <= x)%nat -> pieces h !! x = None;
  t_nodup : NoDup (io_hist_list h);
  t_list x : x ∈ io_hist_list h <-> exists p, live (pieces h) x p;
  t_onlist x p : live (pieces h) x p -> p_onlist p = true;
  t_len : io_hist_len h = length (io_hist_list h);
  t_words : words_ok (map2 h);
  t_fits x p : live (pieces h) x p -> fits (cap (map2 h)) p;
  t_apart x y p q : live (pieces h) x p -> live (pieces h) y q -> x <> y -> apart p q }.

(** Block [b] of the map says what the pieces say. *)
Definition enc m ps b : Prop :=
  (stat m b = Some START <-> starts ps b) /\
  (stat m b = Some IN <-> (exists v, owned ps b v) /\ ~ starts ps b) /\
  stat m b <> Some ERR.

Definition hist_ok h : Prop :=
  table_ok h /\ forall b, 0 <= b < cap (map2 h) -> enc (map2 h) (pieces h) b.

(** The state inside [insert_seg] for the write of [s .. e), the blocks before [cur]
    done; [x0] is the new piece, not in the table yet. *)
Record mid x0 p0 (ps0 : gmap nat io_piece) s e cur h : Prop := {
  m_tab : table_ok h;
  m_new : pieces h !! x0 = Some p0;
  m_away x p : live (pieces h) x p -> p_end p <= s \/ cur <= p_block p;
  m_out b : 0 <= b < cap (map2 h) -> ~ s <= b < e -> enc (map2 h) (pieces h) b;
  m_in b : cur <= b < e -> stat (map2 h) b = Some START <-> starts (pieces h) b;
  m_own b v : ~ s <= b < e -> owned (pieces h) b v <-> owned ps0 b v }.

Lemma live_fun ps x p q : live ps x p -> live ps x q -> p = q.
Proof. intros [] []. congruence. Qed.

Lemma apart_sym p q : apart p q -> apart q p.
Proof. unfold apart. tauto. Qed.

Lemma filter_out_length (l : list nat) x : NoDup l -> x ∈ l -> S (length (filter (fun y => y <> x) l)) = length l.
Proof.
  intros Hn. induction Hn as [|y l Hy Hn IH]; [by intros ?%elem_of_nil|]. intros [<-|Hx]%elem_of_cons.
  - rewrite filter_cons_False by naive_solver. cbn. f_equal.
    clear IH. induction l as [|z l IHl]; [done|]. apply not_elem_of_cons in Hy as [Hz Hy].
    apply NoDup_cons in Hn as [_ Hn]. rewrite filter_cons_True by done. cbn. by rewrite IHl.
  - rewrite filter_cons_True by (intros ->; done). cbn. by rewrite IH.
Qed.

(** A piece changes in place. *)
Lemma table_move h h' x p p' : table_ok h -> live (pieces h) x p ->
  pieces h' = <[x := p']> (pieces h) -> hash_ok file (pieces h') (buckets h') ->
  io_hist_list h' = io_hist_list h -> io_hist_len h' = io_hist_len h -> next_piece h' = next_piece h ->
  length (map2 h') = length (map2 h) -> words_ok (map2 h') ->
  p_hashed p' = true -> p_onlist p' = true -> fits (cap (map2 h)) p' ->
  (forall y q, live (pieces h) y q -> y <> x -> apart q p') ->
  table_ok h'.
Proof.
  intros [Hh Hf Hn Hl Ho Hlen Hw Hfit Ha] Hx Hps Hh' E1 E2 E3 E4 Hw' P1 P2 P3 P4.
  split; rewrite ?E1, ?E2, ?E3; try done.
  - intros y Hy. rewrite Hps. rewrite lookup_insert_ne; [auto|]. intros ->. destruct Hx. by rewrite Hf in *.
  - intros y. rewrite Hl, Hps. setoid_rewrite live_insert. split.
    + intros [q Hq]. destruct (decide (x = y)) as [->|]; [exists p'|exists q]; auto.
    + intros [q [(-> & _)|[_ Hq]]]; eauto.
  - rewrite Hps. intros y q [(-> & <- & _)|[_ Hq]]%live_insert; eauto.
  - unfold cap in *. rewrite Hps, E4. intros y q [(-> & <- & _)|[_ Hq]]%live_insert; eauto.
  - rewrite Hps. intros y z q q' [(-> & <- & _)|[Hne Hq]]%live_insert [(-> & <- & _)|[Hne' Hq']]%live_insert Hd;
      [done|apply apart_sym; eauto|eauto|eauto].
Qed.

(** A piece goes. *)
Lemma table_remove h h' x p : table_ok h -> live (pieces h) x p ->
  pieces h' = delete x (pieces h) -> hash_ok file (pieces h') (buckets h') ->
  io_hist_list h' = filter (fun y => y <> x) (io_hist_list h) -> io_hist_len h' = io_hist_len h - 1 ->
  next_piece h' = next_piece h -> length (map2 h') = length (map2 h) -> words_ok (map2 h') ->
  table_ok h'.
Proof.
  intros [Hh Hf Hn Hl Ho Hlen Hw Hfit Ha] Hx Hps Hh' E1 E2 E3 E4 Hw'.
  split; rewrite ?E1, ?E2, ?E3; try done.
  - intros y Hy. rewrite Hps, lookup_delete_None. auto.
  - by apply NoDup_filter.
  - intros y. rewrite list_elem_of_filter, Hl, Hps. setoid_rewrite live_delete. naive_solver.
  - rewrite Hps. intros y q [_ Hq]%live_delete; eauto.
  - rewrite Hlen. rewrite <- (filter_out_length (io_hist_list h) x); [lia|done|apply Hl; eauto].
  - unfold cap in *. rewrite Hps, E4. intros y q [_ Hq]%live_delete; eauto.
  - rewrite Hps. intros y z q q' [_ Hq]%live_delete [_ Hq']%live_delete; eauto.
Qed.

(** A piece comes, at an address that was not live. *)
Lemma table_add h h' x p : table_ok h -> (forall q, ~ live (pieces h) x q) ->
  pieces h' = <[x := p]> (pieces h) -> hash_ok file (pieces h') (buckets h') ->
  io_hist_list h' = io_hist_list h ++ [x] -> io_hist_len h' = io_hist_len h + 1 ->
  (next_piece h <= next_piece h')%nat -> (x < next_piece h')%nat ->
  length (map2 h') = length (map2 h) -> words_ok (map2 h') ->
  p_hashed p = true -> p_onlist p = true -> fits (cap (map2 h)) p ->
  (forall y q, live (pieces h) y q -> apart q p) ->
  table_ok h'.
Proof.
  intros [Hh Hf Hn Hl Ho Hlen Hw Hfit Ha] Hx Hps Hh' E1 E2 E3 Hxn E4 Hw' P1 P2 P3 P4.
  split; rewrite ?E1, ?E2; try done.
  - intros y Hy. rewrite Hps, lookup_insert_ne by lia. apply Hf. lia.
  - apply NoDup_app. repeat split; [done| |apply NoDup_singleton]. intros y [q Hq]%Hl ->%list_elem_of_singleton. by apply (Hx q).
  - intros y. rewrite elem_of_app, list_elem_of_singleton, Hl, Hps. setoid_rewrite live_insert. split.
    + intros [[q Hq]| ->]; [exists q|eauto]. destruct (decide (x = y)) as [->|]; [by destruct (Hx q)|auto].
    + intros [q [(-> & _)|[_ Hq]]]; eauto.
  - rewrite Hps. intros y q [(-> & <- & _)|[_ Hq]]%live_insert; eauto.
  - rewrite length_app, Hlen. cbn. lia.
  - unfold cap in *. rewrite Hps, E4. intros y q [(-> & <- & _)|[_ Hq]]%live_insert; eauto.
  - rewrite Hps. intros y z q q' [(-> & <- & _)|[Hne Hq]]%live_insert [(-> & <- & _)|[Hne' Hq']]%live_insert Hd;
      [done|apply apart_sym; eauto|eauto|eauto].
Qed.

Lemma upd_piece_eq x g h p : pieces h !! x = Some p -> upd_piece x g h = h <| pieces := <[x := g p]> (pieces h) |>.
Proof.
  intros Hp. unfold upd_piece, upd. cbn. f_equal. apply map_eq. intros y.
  destruct (decide (y = x)) as [->|Hne].
  - by rewrite lookup_alter_eq, lookup_insert_eq, Hp.
  - by rewrite lookup_alter_ne, lookup_insert_ne by done.
Qed.

Lemma set_blk_ok h b st : words_ok (map2 h) -> 0 <= b < cap (map2 h) -> cap (map2 h) <= 2 ^ 32 -> 0 <= st < 4 ->
  exists m, set_blk 32 b st h = Some (h <| map2 := m |>) /\ length m = length (map2 h) /\ words_ok m /\
    forall b', 0 <= b' -> stat m b' = if b' =? b then Some st else stat (map2 h) b'.
Proof.
  intros Hw Hb Hc Hs. destruct (set_bit_stat (map2 h) b st Hw Hb Hs) as (m & Em & Hm).
  exists m. split; [|done]. unfold set_blk. destruct (u32_pos b ltac:(lia)) as [-> ->]. by rewrite Em.
Qed.

(** What is live when piece [x] is replaced. *)
Lemma owned_insert ps x p p' b v : live ps x p -> p_hashed p' = true ->
  owned (<[x := p']> ps) b v <->
  (p_block p' <= b < p_end p' /\ p_version p' = v) \/
  (exists y q, y <> x /\ live ps y q /\ p_block q <= b < p_end q /\ p_version q = v).
Proof.
  intros Hx Hp'. unfold owned. setoid_rewrite live_insert. split.
  - intros (y & q & [(-> & <- & _)|[Hne Hq]] & Hr); [by left|right]. exists y, q. naive_solver.
  - intros [Hr|(y & q & Hne & Hq & Hr)]; [exists x, p'|exists y, q]; naive_solver.
Qed.
Lemma owned_split ps x p b v : live ps x p ->
  owned ps b v <->
  (p_block p <= b < p_end p /\ p_version p = v) \/
  (exists y q, y <> x /\ live ps y q /\ p_block q <= b < p_end q /\ p_version q = v).
Proof.
  intros Hx. unfold owned. split.
  - intros (y & q & Hq & Hr). destruct (decide (y = x)) as [->|Hne]; [|right; naive_solver].
    rewrite (live_fun _ _ _ _ Hq Hx) in *. by left.
  - intros [Hr|(y & q & Hne & Hq & Hr)]; naive_solver.
Qed.
Lemma owned_delete ps x b v :
  owned (delete x ps) b v <-> exists y q, y <> x /\ live ps y q /\ p_block q <= b < p_end q /\ p_version q = v.
Proof. unfold owned. setoid_rewrite live_delete. naive_solver. Qed.
Lemma starts_split ps x p b : live ps x p ->
  starts ps b <-> p_block p = b \/ (exists y q, y <> x /\ live ps y q /\ p_block q = b).
Proof.
  intros Hx. unfold starts. split.
  - intros (y & q & Hq & Hr). destruct (decide (y = x)) as [->|Hne]; [|right; naive_solver].
    rewrite (live_fun _ _ _ _ Hq Hx) in *. by left.
  - intros [Hr|(y & q & Hne & Hq & Hr)]; naive_solver.
Qed.
Lemma starts_insert ps x p p' b : live ps x p -> p_hashed p' = true ->
  starts (<[x := p']> ps) b <-> p_block p' = b \/ (exists y q, y <> x /\ live ps y q /\ p_block q = b).
Proof.
  intros Hx Hp'. unfold starts. setoid_rewrite live_insert. split.
  - intros (y & q & [(-> & <- & _)|[Hne Hq]] & Hr); [by left|right]. exists y, q. naive_solver.
  - intros [Hr|(y & q & Hne & Hq & Hr)]; [exists x, p'|exists y, q]; naive_solver.
Qed.
Lemma starts_delete ps x b :
  starts (delete x ps) b <-> exists y q, y <> x /\ live ps y q /\ p_block q = b.
Proof. unfold starts. setoid_rewrite live_delete. naive_solver. Qed.

(** [enc] depends on the status, the owners and the starts of the block only. *)
Lemma enc_ext m m' ps ps' b : enc m ps b -> stat m' b = stat m b ->
  (forall v, owned ps' b v <-> owned ps b v) -> (starts ps' b <-> starts ps b) -> enc m' ps' b.
Proof. unfold enc. intros He -> Ho ->. by setoid_rewrite Ho. Qed.
Lemma enc_start m ps b : stat m b = Some START -> starts ps b -> enc m ps b.
Proof. intros E Hs. unfold enc. rewrite E. repeat split; try done. by intros [_ ?]. Qed.

(** What [divide_head] computes when the piece is longer than the write. *)
Lemma divide_head_cut s e cur h x p : table_ok h -> cap (map2 h) <= 2 ^ 32 ->
  live (pieces h) x p -> p_block p = cur -> 0 <= e -> cur < e < p_end p ->
  exists bs m, let p' := p <| p_nr_blk := p_end p - e |> <| p_block := e |> in
    let ps := <[x := p']> (pieces h) in
    divide_head 32 file x p cur s (e - s) h = Some (h <| map2 := m |> <| buckets := bs |> <| pieces := ps |>) /\
    hash_ok file ps bs /\ length m = length (map2 h) /\ words_ok m /\
    forall b, 0 <= b -> stat m b = if b =? e then Some START else stat (map2 h) b.
Proof.
  intros [Hh Hf _ _ Ho _ Hw Hfit Ha] Hcap Hx Hb He0 He. pose proof (Hfit x p Hx) as (? & ? & Hfe).
  unfold divide_head. replace (s + (e - s)) with e by lia.
  rewrite (wrap_small 64 e), (wrap_small 64 (cur + p_nr_blk p)) by (unfold is_word, p_end in *; lia).
  destruct (Z.ltb_spec e (cur + p_nr_blk p)); [|unfold p_end in He; lia].
  rewrite (upd_piece_eq x _ h p) by apply Hx.
  replace (cur + p_nr_blk p - e) with (p_end p - e) by (unfold p_end; lia).
  rewrite (wrap_small 32 (p_end p - e)) by (unfold is_word, p_end in *; lia).
  set (p1 := p <| p_nr_blk := _ |> <| p_block := e |>). set (h1 := h <| pieces := _ |>).
  destruct (hash_del_ok file h1 x p1) as (bs1 & E1 & Hh1).
  { apply lookup_insert_eq. } { apply Hx. }
  { intros k y Hne. unfold h1, upd. cbn. rewrite (ho_mem _ _ _ Hh). setoid_rewrite live_insert. naive_solver. }
  { unfold h1, upd. cbn. intros y z q q' Hy Hz [(-> & _)|[_ Hq]]%live_insert [(-> & _)|[_ Hq']]%live_insert; try done.
    by apply (ho_start _ _ _ Hh). }
  { unfold h1, upd. cbn. intros y q Hy [(-> & _)|[_ Hq]]%live_insert; [done|]. by apply (ho_range _ _ _ Hh y). }
  cbv zeta in E1. rewrite E1. cbn [mbind option_bind]. set (h2 := h1 <| buckets := bs1 |> <| pieces := _ |>).
  destruct (set_blk_ok h2 e START) as (m & E2 & Hlm & Hwm & Hstm); [done|change (map2 h2) with (map2 h); lia|done|done|].
  rewrite E2. cbn [mbind option_bind].
  destruct (hash_add_ok file (h2 <| map2 := m |>) x (p1 <| p_hashed := false |>)) as (bs2 & E3 & Hh2).
  { apply lookup_insert_eq. } { done. } { done. } { change (is_word 32 e). unfold is_word. lia. }
  { unfold h2, h1, upd. cbn. rewrite insert_insert_eq. intros (y & q & [(-> & <- & ?)|[Hne Hq]]%live_insert & Hqb); [done|].
    change (p_block q = e) in Hqb. specialize (Ha x y p q Hx Hq Hne). specialize (Hfit y q Hq) as (? & ? & ?). unfold apart, p_end in *. lia. }
  cbv zeta in E3. exists bs2, m. cbv zeta.
  assert (p1 <| p_hashed := false |> <| p_hashed := true |> = p1) as Ep.
  { destruct Hx as [_ Hx]. unfold p1. destruct p. cbn in *. by subst. }
  assert (<[x := p1]> (pieces (h2 <| map2 := m |>)) = <[x := p1]> (pieces h)) as Eps.
  { unfold h2, h1, upd. cbn. by rewrite !insert_insert_eq. }
  rewrite Ep, Eps in Hh2, E3. by rewrite E3.
Qed.

(** The other pieces, when one starts at [cur]. *)
Lemma mid_others x0 p0 ps0 s e cur h x p y q : mid x0 p0 ps0 s e cur h -> live (pieces h) x p -> p_block p = cur ->
  y <> x -> live (pieces h) y q -> p_end q <= s \/ (cur < p_block q /\ p_end p <= p_block q).
Proof.
  intros [[_ _ _ _ _ _ _ Hfit Ha] _ Haway _ _ _] Hx Hb Hne Hq. specialize (Ha y x q p Hq Hx Hne).
  specialize (Haway y q Hq). pose proof (Hfit y q Hq) as (? & ? & ?). pose proof (Hfit x p Hx) as (? & ? & ?).
  unfold apart, p_end in *. lia.
Qed.

Lemma mid_cut x0 p0 ps0 s e cur h x p : mid x0 p0 ps0 s e cur h -> p_hashed p0 = false ->
  0 <= s <= cur -> cap (map2 h) <= 2 ^ 32 -> live (pieces h) x p -> p_block p = cur -> cur < e < p_end p ->
  exists h', divide_head 32 file x p cur s (e - s) h = Some h' /\ mid x0 p0 ps0 s e (cur + 1) h' /\
    length (map2 h') = length (map2 h) /\ forall b, 0 <= b -> b <> e -> stat (map2 h') b = stat (map2 h) b.
Proof.
  intros Hm Hp0 Hs Hcap Hx Hb He. pose proof Hm as [Ht Hnew Haway Hout Hin Hown].
  pose proof (fun y q => mid_others _ _ _ _ _ _ _ x p y q Hm Hx Hb) as Hoth.
  pose proof (t_fits _ Ht x p Hx) as (? & ? & Hfe).
  assert (x <> x0) as Hxx by (intros ->; destruct Hx; congruence).
  destruct (divide_head_cut s e cur h x p) as (bs & m & E & Hh & Hlm & Hwm & Hstm); [done..|lia|done|].
  cbv zeta in E, Hh. set (p' := p <| p_nr_blk := _ |> <| p_block := e |>) in *.
  assert (p_end p' = p_end p) as Hpe by (unfold p', upd, p_end; cbn; lia).
  assert (p_block p' = e) as Hpb by done.
  assert (p_hashed p' = true) as Hp' by apply Hx.
  assert (forall b v, ~ s <= b < e -> owned (<[x := p']> (pieces h)) b v <-> owned (pieces h) b v) as Hpo.
  { intros b v Hbo. rewrite (owned_insert _ _ p), (owned_split (pieces h) x p), Hpe by done.
    apply or_iff_compat_r, and_iff_compat_r. lia. }
  assert (forall b, b <> e -> b <> cur -> starts (<[x := p']> (pieces h)) b <-> starts (pieces h) b) as Hps.
  { intros b Hbe Hbc. rewrite (starts_insert _ _ p), (starts_split (pieces h) x p) by done.
    apply or_iff_compat_r. lia. }
  rewrite E. eexists. split; [done|]. split; [|split; [done|]]; unfold upd; cbn.
  2: { intros b Hb0 Hbe. rewrite Hstm by done. by destruct (Z.eqb_spec b e). }
  split; unfold upd; cbn.
  - apply (table_move h _ x p p'); try done; [by apply (t_onlist _ Ht x p)| |].
    + unfold fits. rewrite Hpe, Hpb. unfold p_end in *. lia.
    + intros y q Hq Hne. specialize (Hoth y q Hne Hq). unfold apart. lia.
  - by rewrite lookup_insert_ne.
  - intros y q [(-> & <- & _)|[Hne Hq]]%live_insert; [lia|]. specialize (Hoth y q ltac:(done) Hq). lia.
  - unfold cap. rewrite Hlm. intros b Hbr Hbo. destruct (decide (b = e)) as [->|Hbe].
    + apply enc_start; [by rewrite Hstm, Z.eqb_refl by lia|]. apply (starts_insert _ _ p); auto.
    + apply (enc_ext (map2 h) _ (pieces h)); [auto| |auto|apply Hps; lia].
      rewrite Hstm by lia. by destruct (Z.eqb_spec b e).
  - intros b Hbr. rewrite Hstm by lia. destruct (Z.eqb_spec b e); [lia|]. rewrite Hin, Hps by lia. done.
  - intros b v Hbo. by rewrite <- Hown, Hpo.
Qed.

(** Dropping a piece that the write covers. *)
Lemma mid_drop x0 p0 ps0 s e cur h x p : mid x0 p0 ps0 s e cur h -> p_hashed p0 = false ->
  0 <= s <= cur -> live (pieces h) x p -> p_block p = cur -> cur < e < 2 ^ 64 -> p_end p <= e ->
  exists h', divide_head 32 file x p cur s (e - s) h = Some h' /\ mid x0 p0 ps0 s e (cur + 1) h' /\
    map2 h' = map2 h.
Proof.
  intros Hm Hp0 Hs Hx Hb He Hpe. pose proof Hm as [Ht Hnew Haway Hout Hin Hown].
  pose proof (fun y q => mid_others _ _ _ _ _ _ _ x p y q Hm Hx Hb) as Hoth.
  assert (x <> x0) as Hxx by (intros ->; destruct Hx; congruence).
  unfold divide_head. replace (s + (e - s)) with e by lia.
  pose proof (t_fits _ Ht x p Hx) as (? & ? & Hfe).
  rewrite (wrap_small 64 e), (wrap_small 64 (cur + p_nr_blk p)) by (unfold is_word, p_end in *; lia).
  destruct (Z.ltb_spec e (cur + p_nr_blk p)); [unfold p_end in Hpe; lia|].
  destruct (hash_del_ok file h x p) as (bs & E & Hh); [apply Hx..| | | |].
  { intros k y _. apply (t_hash _ Ht). } { intros y z q q' _ _. apply (t_hash _ Ht). } { intros y q _. apply (t_hash _ Ht). }
  cbv zeta in E, Hh. rewrite E. cbn [mbind option_bind]. rewrite (t_onlist _ Ht x p Hx).
  assert (forall b v, ~ s <= b < e -> owned (delete x (pieces h)) b v <-> owned (pieces h) b v) as Hpo.
  { intros b v Hbo. rewrite owned_delete, (owned_split (pieces h) x p) by done. naive_solver lia. }
  assert (forall b, b <> cur -> starts (delete x (pieces h)) b <-> starts (pieces h) b) as Hps.
  { intros b Hbc. rewrite starts_delete, (starts_split (pieces h) x p) by done. naive_solver. }
  eexists. split; [done|]. split; [|done]. unfold upd. cbn. rewrite delete_insert_eq.
  assert (hash_ok file (delete x (pieces h)) bs) as Hh'.
  { apply (hash_ok_ext _ _ _ _ Hh). intros y b. setoid_rewrite live_insert. setoid_rewrite live_delete. naive_solver. }
  split; unfold upd; cbn.
  - apply (table_remove h _ x p); try done. apply Ht.
  - by rewrite lookup_delete_ne.
  - intros y q [Hne Hq]%live_delete. specialize (Hoth y q ltac:(done) Hq). lia.
  - intros b Hbr Hbo. apply (enc_ext (map2 h) _ (pieces h)); [auto|done|auto|apply Hps; lia].
  - intros b Hbr. rewrite Hin, Hps by lia. done.
  - intros b v Hbo. by rewrite <- Hown, Hpo.
Qed.

(** The head of the piece stays, the rest of it after the write becomes a new piece. *)
Lemma divide_tail_ok s e h x p : table_ok h -> cap (map2 h) <= 2 ^ 32 ->
  live (pieces h) x p -> p_block p < s < e -> e < p_end p ->
  exists bs m, let t := next_piece h in
    let p' := p <| p_nr_blk := s - p_block p |> in
    let q := Build_io_piece e (p_end p - e) (p_version p) true true in
    let ps := <[x := p']> (<[t := q]> (pieces h)) in
    divide_tail 32 file x p (p_block p) s (e - s) h =
      Some (h <| map2 := m |> <| buckets := bs |> <| pieces := ps |> <| io_hist_list ::= fun l => l ++ [t] |>
              <| io_hist_len := io_hist_len h + 1 |> <| next_piece := S t |>) /\
    hash_ok file ps bs /\ length m = length (map2 h) /\ words_ok m /\
    forall b, 0 <= b -> stat m b = if b =? e then Some START else stat (map2 h) b.
Proof.
  intros [Hh Hf _ _ Ho _ Hw Hfit Ha] Hcap Hx Hs He. pose proof (Hfit x p Hx) as (? & ? & Hfe).
  assert (x <> next_piece h) as Hxt by (intros ->; destruct Hx; by rewrite Hf in *).
  unfold divide_tail. replace (s + (e - s)) with e by lia.
  rewrite (wrap_small 64 e), (wrap_small 64 (p_block p + p_nr_blk p)) by (unfold is_word, p_end in *; lia).
  rewrite (wrap_small 32 (s - p_block p)) by (unfold is_word, p_end in *; lia).
  destruct (Z.ltb_spec e (p_block p + p_nr_blk p)); [|unfold p_end in He; lia].
  change (p_block p + p_nr_blk p - e) with (p_end p - e).
  rewrite (wrap_small 32 (p_end p - e)) by (unfold is_word, p_end in *; lia). unfold new_piece. set (t := next_piece h) in *.
  set (q0 := Build_io_piece e (p_end p - e) (p_version p) false false).
  set (h1 := h <| pieces := <[t := q0]> (pieces h) |> <| next_piece := S t |>).
  destruct (set_blk_ok h1 e START) as (m & E1 & Hlm & Hwm & Hstm); [done|change (map2 h1) with (map2 h); lia|done..|].
  rewrite E1. cbn [mbind option_bind].
  destruct (hash_add_ok file (h1 <| map2 := m |>) t q0) as (bs & E2 & Hh2); [apply lookup_insert_eq|done| |unfold is_word; cbn; lia| |].
  { apply (hash_ok_ext _ _ _ _ Hh). intros y b. unfold h1, upd. cbn. setoid_rewrite live_insert. split.
    - intros (q & [(-> & <- & ?)|[Hne Hq]] & Eq); [done|eauto].
    - intros (q & Hq & Eq). exists q. split; [right|done]. split; [|done]. intros <-. destruct Hq. by rewrite Hf in *. }
  { unfold h1, upd. cbn. intros (y & q & [(-> & <- & ?)|[Hne Hq]]%live_insert & Hqb); [done|].
    change (p_block q = e) in Hqb. specialize (Hfit y q Hq) as (? & ? & ?).
    destruct (decide (x = y)) as [<-|Hxy]; [rewrite (live_fun _ _ _ _ Hq Hx) in *; lia|].
    specialize (Ha x y p q Hx Hq Hxy). unfold apart, p_end in *. lia. }
  cbv zeta in E2, Hh2. rewrite E2. cbn [mbind option_bind]. exists bs, m. cbv zeta.
  unfold h1, upd in Hh2. cbn in Hh2. rewrite insert_insert_eq in Hh2.
  split; [|split; [|done]].
  - rewrite (upd_piece_eq t _ _ (q0 <| p_hashed := true |>)) by (unfold upd; cbn; apply lookup_insert_eq).
    cbn [mbind option_bind]. rewrite (upd_piece_eq x _ _ p).
    + unfold h1, upd. cbn. by rewrite !insert_insert_eq.
    + unfold h1, upd. cbn. rewrite !insert_insert_eq, lookup_insert_ne by done. apply Hx.
  - apply (hash_ok_resize _ _ _ _ p); [|by apply live_insert; auto|apply Hx|done].
    apply (hash_ok_ext _ _ _ _ Hh2). intros y b. setoid_rewrite live_insert. naive_solver.
Qed.

Lemma owned_fresh ps x p b v : (forall q, ~ live ps x q) -> p_hashed p = true ->
  owned (<[x := p]> ps) b v <-> (p_block p <= b < p_end p /\ p_version p = v) \/ owned ps b v.
Proof.
  intros Hx Hp. unfold owned. setoid_rewrite live_insert. split.
  - intros (y & q & [(-> & <- & _)|[Hne Hq]] & Hr); [by left|right]. by exists y, q.
  - intros [Hr|(y & q & Hq & Hr)]; [exists x, p; naive_solver|]. exists y, q. split; [right|done].
    split; [|done]. intros ->. by apply (Hx q).
Qed.
Lemma starts_fresh ps x p b : (forall q, ~ live ps x q) -> p_hashed p = true ->
  starts (<[x := p]> ps) b <-> p_block p = b \/ starts ps b.
Proof.
  intros Hx Hp. unfold starts. setoid_rewrite live_insert. split.
  - intros (y & q & [(-> & <- & _)|[Hne Hq]] & Hr); [by left|right]. by exists y, q.
  - intros [Hr|(y & q & Hq & Hr)]; [exists x, p; naive_solver|]. exists y, q. split; [right|done].
    split; [|done]. intros ->. by apply (Hx q).
Qed.

(** The invariant with the new piece allocated and not in the table. *)
Definition before x0 p0 h : Prop := hist_ok h /\ pieces h !! x0 = Some p0 /\ p_hashed p0 = false.

(** No piece covers the first block of the write. *)
Lemma mid_clear x0 p0 s e h : before x0 p0 h -> 0 <= s -> e <= cap (map2 h) ->
  (forall x p, live (pieces h) x p -> p_block p < s < p_end p -> False) -> mid x0 p0 (pieces h) s e s h.
Proof.
  intros ((Ht & He) & Hn & _) Hs Hc Hno. split; try done; [|auto|].
  - intros x p Hx. specialize (Hno x p Hx). lia.
  - intros b Hb. apply He. lia.
Qed.

Lemma mid_skip x0 p0 ps0 s e cur h : mid x0 p0 ps0 s e cur h -> cur < e -> stat (map2 h) cur <> Some START ->
  s <= cur -> mid x0 p0 ps0 s e (cur + 1) h.
Proof.
  intros [Ht Hn Ha Ho Hi Hw] Hc Hst Hs. split; try done; [|intros; apply Hi; lia].
  intros x p Hx. destruct (Ha x p Hx) as [|Hp]; [auto|right]. enough (p_block p <> cur) by lia. intros E.
  apply Hst, Hi; [lia|]. by exists x, p.
Qed.

Section tail.
Context (x0 : nat) (p0 : io_piece) (s e : Z) (h : hist) (x : nat) (p : io_piece).
Hypothesis (Hbf : before x0 p0 h) (Hx : live (pieces h) x p) (Hs : p_block p < s < p_end p) (He : s < e).

Let p' : io_piece := p <| p_nr_blk := s - p_block p |>.

Lemma tail_others y q : y <> x -> live (pieces h) y q ->
  p_end q <= p_block p \/ p_end p <= p_block q.
Proof. intros Hne Hq. destruct Hbf as ((Ht & _) & _). apply (t_apart _ Ht y x q p Hq Hx Hne). Qed.

Lemma resize_table h' bs : hash_ok file (<[x := p']> (pieces h)) bs ->
  h' = h <| pieces := <[x := p']> (pieces h) |> <| buckets := bs |> -> table_ok h'.
Proof.
  intros Hh ->. destruct Hbf as ((Ht & _) & _). pose proof (t_fits _ Ht x p Hx) as (? & ? & ?).
  apply (table_move h _ x p p'); try done; try apply Ht; [apply Hx|by apply (t_onlist _ Ht x p)|..].
  - unfold fits, p_end, p', upd in *. cbn. lia.
  - intros y q Hq Hne. apply (tail_others y q Hne) in Hq. unfold apart, p_end, p', upd in *. cbn. lia.
Qed.

Lemma resize_owned b v : ~ s <= b < p_end p -> owned (<[x := p']> (pieces h)) b v <-> owned (pieces h) b v.
Proof.
  intros Hb. rewrite (owned_insert _ _ p), (owned_split (pieces h) x p) by (done || apply Hx).
  apply or_iff_compat_r, and_iff_compat_r. unfold p_end, p', upd in *. cbn. lia.
Qed.
Lemma resize_starts b : starts (<[x := p']> (pieces h)) b <-> starts (pieces h) b.
Proof. by rewrite (starts_insert _ _ p), (starts_split (pieces h) x p) by (done || apply Hx). Qed.

Lemma resize_away y q : live (<[x := p']> (pieces h)) y q -> p_end q <= s \/ s + 1 <= p_block q.
Proof.
  intros [(-> & <- & _)|[Hne Hq]]%live_insert.
  - left. unfold p_end, p', upd. cbn. lia.
  - apply (tail_others y q ltac:(done)) in Hq. lia.
Qed.

Lemma mid_resize : p_end p <= e -> e <= cap (map2 h) -> cap (map2 h) <= 2 ^ 32 ->
  exists h', divide_tail 32 file x p (p_block p) s (e - s) h = Some h' /\
    mid x0 p0 (pieces h) s e (s + 1) h' /\ map2 h' = map2 h.
Proof.
  intros Hpe Hec Hcap. destruct Hbf as ((Ht & Henc) & Hn & Hu).
  assert (x <> x0) as Hxx by (intros ->; destruct Hx; congruence).
  pose proof (t_fits _ Ht x p Hx) as (? & ? & ?).
  unfold divide_tail. replace (s + (e - s)) with e by lia.
  rewrite (wrap_small 64 e), (wrap_small 64 (p_block p + p_nr_blk p)) by (unfold is_word, p_end in *; lia).
  rewrite (wrap_small 32 (s - p_block p)) by (unfold is_word, p_end in *; lia).
  destruct (Z.ltb_spec e (p_block p + p_nr_blk p)); [unfold p_end in Hpe; lia|]. cbn [mbind option_bind].
  rewrite (upd_piece_eq x _ h p) by apply Hx. fold p'. eexists. split; [done|]. split; [|done].
  assert (forall b v, ~ s <= b < e -> owned (<[x := p']> (pieces h)) b v <-> owned (pieces h) b v) as Hown.
  { intros b v Hb. apply resize_owned. lia. }
  split; unfold upd; cbn.
  - apply (resize_table _ (buckets h)); [|done]. apply (hash_ok_resize _ _ _ _ p); [apply Ht|done|apply Hx|done].
  - by rewrite lookup_insert_ne.
  - apply resize_away.
  - intros b Hb Hbo. apply (enc_ext (map2 h) _ (pieces h)); [auto|done|auto|apply resize_starts].
  - intros b Hb. rewrite resize_starts. apply Henc. lia.
  - done.
Qed.

(** The table with the tail as a piece of its own. *)
Lemma tail_table h' bs m : e < p_end p ->
  let t := next_piece h in let q := Build_io_piece e (p_end p - e) (p_version p) true true in
  hash_ok file (<[t := q]> (<[x := p']> (pieces h))) bs -> length m = length (map2 h) -> words_ok m ->
  h' = h <| map2 := m |> <| buckets := bs |> <| pieces := <[t := q]> (<[x := p']> (pieces h)) |>
         <| io_hist_list ::= fun l => l ++ [t] |> <| io_hist_len := io_hist_len h + 1 |> <| next_piece := S t |> ->
  table_ok h'.
Proof.
  intros Hpe t q Hh Hl Hw ->. destruct Hbf as ((Ht & _) & _). pose proof (t_fits _ Ht x p Hx) as (? & ? & ?).
  assert (x <> t) as Hxt by (intros ->; destruct Hx; by rewrite (t_fresh _ Ht) in *).
  set (ha := h <| pieces := <[x := p']> (pieces h) |> <| buckets := buckets h |>).
  assert (table_ok ha) as Hta.
  { apply (resize_table _ (buckets h)); [|done]. apply (hash_ok_resize _ _ _ _ p); [apply Ht|done|apply Hx|done]. }
  apply (table_add ha _ t q); try done; unfold ha, upd; cbn; [|lia..| |].
  - intros r []. rewrite lookup_insert_ne, (t_fresh _ Ht) in * by done. done.
  - unfold fits, p_end in *. cbn. lia.
  - intros y r [(<- & <- & _)|[Hne Hr]]%live_insert.
    + left. unfold p_end, p', upd in *. cbn. lia.
    + apply (tail_others y r ltac:(done)) in Hr. unfold apart, p_end in *. cbn. lia.
Qed.

Lemma mid_tail : e < p_end p -> cap (map2 h) <= 2 ^ 32 ->
  exists h', divide_tail 32 file x p (p_block p) s (e - s) h = Some h' /\
    mid x0 p0 (pieces h) s e (s + 1) h' /\ length (map2 h') = length (map2 h) /\
    forall b, 0 <= b -> b <> e -> stat (map2 h') b = stat (map2 h) b.
Proof.
  intros Hpe Hcap. destruct Hbf as ((Ht & Henc) & Hn & Hu).
  assert (x <> x0) as Hxx by (intros ->; destruct Hx; congruence).
  pose proof (t_fits _ Ht x p Hx) as (? & ? & ?).
  destruct (divide_tail_ok s e h x p) as (bs & m & E & Hh & Hlm & Hwm & Hstm); [done..|lia|done|].
  cbv zeta in E, Hh. fold p' in E, Hh. set (t := next_piece h) in *.
  set (q := Build_io_piece e (p_end p - e) (p_version p) true true) in *.
  assert (pieces h !! t = None) as Htn by (apply (t_fresh _ Ht); unfold t; lia).
  assert (x <> t) as Hxt by (intros ->; destruct Hx; congruence).
  assert (x0 <> t) as Hx0t by congruence.
  assert (forall ps r, ps !! t = None -> ~ live ps t r) as Hnl by (intros ps r ? []; congruence).
  assert ((<[x := p']> (pieces h)) !! t = None) as Htn' by by rewrite lookup_insert_ne.
  rewrite insert_insert_ne in E, Hh by done. rewrite E. eexists. split; [done|].
  assert (forall b v, ~ s <= b < e -> owned (<[t := q]> (<[x := p']> (pieces h))) b v <-> owned (pieces h) b v) as Hown.
  { intros b v Hb. rewrite owned_fresh by auto.
    rewrite (owned_insert _ _ p), (owned_split (pieces h) x p) by (done || apply Hx).
    assert (p_block q <= b < p_end q \/ p_block p' <= b < p_end p' <-> p_block p <= b < p_end p).
    { unfold p_end, q, p', upd, p_end in *. cbn. lia. }
    change (p_version p') with (p_version p). change (p_version q) with (p_version p). tauto. }
  assert (forall b, starts (<[t := q]> (<[x := p']> (pieces h))) b <-> e = b \/ starts (pieces h) b) as Hst.
  { intros b. by rewrite starts_fresh, resize_starts by auto. }
  split; [|split; [done|]]; unfold upd; cbn.
  2: { intros b Hb0 Hbe. rewrite Hstm by done. by destruct (Z.eqb_spec b e). }
  split; unfold upd; cbn.
  - by apply (tail_table _ bs m).
  - by rewrite !lookup_insert_ne.
  - intros y r [(<- & <- & _)|[Hne Hr]]%live_insert; [cbn; lia|]. by apply (resize_away y).
  - unfold cap. rewrite Hlm. intros b Hb Hbo. destruct (decide (b = e)) as [->|Hbe].
    + apply enc_start; [by rewrite Hstm, Z.eqb_refl by lia|]. apply Hst. auto.
    + apply (enc_ext (map2 h) _ (pieces h)); [auto| |auto|rewrite Hst; naive_solver].
      rewrite Hstm by lia. by destruct (Z.eqb_spec b e).
  - intros b Hb. rewrite Hstm, Hst by lia. destruct (Z.eqb_spec b e); [lia|]. destruct (Henc b ltac:(lia)) as [-> _]. naive_solver.
  - done.
Qed.
End tail.

(** ** Inserting a segment *)
Lemma overlap_start x0 p0 ps0 s e cur h : mid x0 p0 ps0 s e cur h -> p_hashed p0 = false ->
  0 <= s <= cur -> cur < e <= cap (map2 h) -> cap (map2 h) <= 2 ^ 32 -> stat (map2 h) cur = Some START ->
  exists h', overlap_divide 32 file cur s (e - s) h = Some h' /\ mid x0 p0 ps0 s e (cur + 1) h' /\
    length (map2 h') = length (map2 h) /\ forall b, 0 <= b -> b <> e -> stat (map2 h') b = stat (map2 h) b.
Proof.
  intros Hm Hp0 Hs Hc Hcap (x & p & Hx & Hb)%(m_in _ _ _ _ _ _ _ Hm); [|lia].
  unfold overlap_divide. subst cur. rewrite (hash_find_some _ _ x) by (done || apply Hm).
  cbn [mbind option_bind]. rewrite (proj1 Hx). cbn [mbind option_bind].
  destruct (Z.leb_spec s (p_block p)); [|lia]. destruct (Z.lt_ge_cases e (p_end p)).
  - apply (mid_cut x0 p0 ps0 s e (p_block p) h x p); [done..|lia].
  - destruct (mid_drop x0 p0 ps0 s e (p_block p) h x p) as (h' & E & Hm' & Eq); [done..|lia|lia|].
    exists h'. by rewrite Eq.
Qed.

Lemma mid_mark x0 p0 ps0 s e cur h m : mid x0 p0 ps0 s e (cur + 1) h -> 0 <= s <= cur -> cur < e ->
  length m = length (map2 h) -> words_ok m ->
  (forall b, 0 <= b -> b <> cur -> stat m b = stat (map2 h) b) -> mid x0 p0 ps0 s e (cur + 1) (h <| map2 := m |>).
Proof.
  intros [Ht Hn Ha Ho Hi Hw] Hs Hc Hl Hwm Hm. split; unfold upd, cap; cbn; rewrite ?Hl; try done.
  - destruct Ht. split; unfold upd, cap in *; cbn; rewrite ?Hl; done.
  - intros b Hb Hbo. apply (enc_ext (map2 h) _ (pieces h)); [auto|apply Hm; lia|done|done].
  - intros b Hb. rewrite Hm by lia. auto.
Qed.

(** The blocks of the write that are marked. *)
Definition marked s cur m : Prop :=
  stat m s = Some START /\ forall b, s < b < cur -> stat m b = Some IN.

Lemma insert_loop_ok x0 p0 ps0 s e fuel : forall cur h, mid x0 p0 ps0 s e cur h -> p_hashed p0 = false ->
  0 <= s < cur -> cur <= e -> e <= cap (map2 h) -> cap (map2 h) <= 2 ^ 32 -> marked s cur (map2 h) ->
  (Z.to_nat (e - cur) < fuel)%nat ->
  exists h', insert_loop 32 fuel (overlap_divide 32 file) s (e - s) (cur - s) (pos_of cur) h = Some h' /\
    mid x0 p0 ps0 s e e h' /\ length (map2 h') = length (map2 h) /\ marked s e (map2 h').
Proof.
  induction fuel as [|fuel IH]; [lia|]. intros cur h Hm Hp0 Hs Hc Hec Hcap Hmk Hf. cbn [insert_loop].
  destruct (Z.ltb_spec (cur - s) (e - s)).
  2: { assert (cur = e) as -> by lia. by exists h. }
  assert (exists h1, (start ← test_blk (map2 h) (pos_of cur).1 (pos_of cur).2 START;
      if start : bool then overlap_divide 32 file (MAP2_BLK 32 (pos_of cur).1 (pos_of cur).2) s (e - s) h else Some h)
      = Some h1 /\ mid x0 p0 ps0 s e (cur + 1) h1 /\ length (map2 h1) = length (map2 h) /\
      forall b, 0 <= b -> b <> e -> stat (map2 h1) b = stat (map2 h) b) as (h1 & E1 & Hm1 & Hl1 & Hst1).
  { unfold pos_of, test_blk. cbn [fst snd]. rewrite map2_blk_pos by lia. fold (stat (map2 h) cur).
    destruct (stat_some (map2 h) cur) as (v & Ev & _); [lia|]. rewrite Ev. cbn [mbind option_bind].
    destruct (Z.eqb_spec v START) as [->|Hv].
    - apply overlap_start; [done..|lia|lia|done|done].
    - exists h. split; [done|]. split; [|done]. apply mid_skip; [done|lia|rewrite Ev; naive_solver|lia]. }
  assert (cap (map2 h1) = cap (map2 h)) as Hcp by (unfold cap; by rewrite Hl1).
  destruct (set_bit_stat (map2 h1) cur IN) as (m & Em & Hlm & Hwm & Hstm); [apply Hm1|lia|done|].
  destruct (IH (cur + 1) (h1 <| map2 := m |>)) as (h' & E' & Hm' & Hl' & Hmk').
  { apply mid_mark; [done|lia|lia|done|done|]. intros b Hb Hbc. rewrite Hstm by lia. by destruct (Z.eqb_spec b cur). }
  all: try (unfold upd, cap in *; cbn; rewrite ?Hlm, ?Hl1; lia || done).
  { unfold upd, marked in *. cbn. destruct Hmk as [Hms Hmi]. split.
    - rewrite Hstm, Hst1 by lia. destruct (Z.eqb_spec s cur); [lia|done].
    - intros b Hb. rewrite Hstm by lia. destruct (Z.eqb_spec b cur); [done|]. rewrite Hst1 by lia. apply Hmi. lia. }
  exists h'. split; [|split; [done|split; [|done]]].
  - destruct (test_blk (map2 h) (pos_of cur).1 (pos_of cur).2 START); [|done]. cbn [mbind option_bind] in *.
    rewrite E1. cbn [mbind option_bind]. unfold pos_of in *. cbn [fst snd] in *. rewrite Em. cbn [mbind option_bind].
    fold (pos_of cur). rewrite next_blk_pos by lia. by replace (cur - s + 1) with (cur + 1 - s) by lia.
  - rewrite Hl'. unfold upd. cbn. congruence.
Qed.

Lemma prev_loop_ok m (q : Z) fuel : forall b, stat m q = Some START -> 0 <= q < b -> b <= cap m -> cap m <= 2 ^ 32 ->
  (forall c, q < c < b -> stat m c <> Some START) -> (Z.to_nat (b - q) <= fuel)%nat -> b < 2 ^ 32 ->
  prev_loop 32 fuel m (pos_of b) = Some (pos_of q).
Proof.
  induction fuel as [|fuel IH]; [lia|]. intros b Hq Hb Hc Hcap Hn Hf Hb36. cbn [prev_loop].
  rewrite prev_blk_pos by lia. unfold test_blk.
  change (get_blk m (pos_of (b - 1)).1 (pos_of (b - 1)).2) with (stat m (b - 1)).
  destruct (stat_some m (b - 1)) as (v & Ev & _); [lia|]. rewrite Ev. cbn [mbind option_bind].
  destruct (Z.eqb_spec v START) as [->|Hv].
  - destruct (decide (b - 1 = q)) as [->|]; [done|]. destruct (Hn (b - 1)); [lia|done].
  - apply IH; try done; try lia.
    + enough (b - 1 <> q) by lia. intros E. rewrite E in Ev. naive_solver.
    + intros c Hcr. apply Hn. lia.
Qed.

(** The statement of [insert_seg] before the block is marked. *)
Lemma insert_first x0 p0 s e h : before x0 p0 h -> 0 <= s < e -> e <= cap (map2 h) -> cap (map2 h) <= 2 ^ 32 ->
  exists v h', get_blk (map2 h) (MAP2_IDX 32 s) (MAP2_BIT 32 s) = Some v /\
    (if v =? EMPTY then Some h
     else if v =? START then overlap_divide 32 file s s (e - s) h
     else if v =? IN then
       prev ← prev_loop 32 (S (Z.to_nat s)) (map2 h) (pos_of s);
       overlap_divide 32 file (MAP2_BLK 32 prev.1 prev.2) s (e - s) h
     else Some h) = Some h' /\
    mid x0 p0 (pieces h) s e (s + 1) h' /\ length (map2 h') = length (map2 h).
Proof.
  intros Hbf Hs He Hcap. pose proof Hbf as ((Ht & Henc) & Hn & Hu).
  destruct (Henc s ltac:(lia)) as (Hst & Hin & Herr).
  destruct (stat_some (map2 h) s) as (v & Ev & Hv); [lia|]. rewrite Ev in Hst, Hin, Herr. exists v.
  assert (v = EMPTY \/ v = START \/ v = IN) as [->|[->| ->]] by (unfold EMPTY, START, IN, ERR in *; assert (v <> 1) by congruence; lia).
  - exists h. cbn. split; [done|]. split; [done|]. split; [|done]. apply mid_skip; [|lia|by rewrite Ev|lia].
    apply mid_clear; [done|lia|done|]. intros x p Hx Hp. enough (Some EMPTY = Some IN) by done. apply Hin.
    split; [exists (p_version p), x, p; split; [done|]; split; [lia|done]|]. by intros ?%Hst.
  - destruct (overlap_start x0 p0 (pieces h) s e s h) as (h' & E' & Hm' & Hl' & _); try done; try lia.
    { apply mid_clear; [done|lia|done|]. intros x p Hx Hp. destruct (proj1 Hst eq_refl) as (y & q & Hy & Hq).
      destruct (decide (x = y)) as [->|Hne]; [rewrite (live_fun _ _ _ _ Hy Hx) in *; lia|].
      destruct (t_fits _ Ht y q Hy) as (? & ? & ?). destruct (t_apart _ Ht x y p q Hx Hy Hne); unfold p_end in *; lia. }
    exists h'. by cbn.
  - destruct (proj1 Hin eq_refl) as [(ver & x & p & Hx & Hp & _) Hns].
    assert (p_block p < s < p_end p) as Hps.
    { enough (p_block p <> s) by lia. intros E. apply Hns. by exists x, p. }
    destruct (t_fits _ Ht x p Hx) as (? & ? & ?). cbn [Z.eqb EMPTY START IN Pos.eqb].
    rewrite (prev_loop_ok _ (p_block p)); try lia; cycle 1.
    { apply Henc; [lia|]. by exists x, p. }
    { intros c Hc (y & q & Hy & Hq)%Henc; [|lia].
      destruct (decide (x = y)) as [->|Hne]; [rewrite (live_fun _ _ _ _ Hy Hx) in *; lia|].
      destruct (t_fits _ Ht y q Hy) as (? & ? & ?). destruct (t_apart _ Ht x y p q Hx Hy Hne); unfold p_end in *; lia. }
    cbn [mbind option_bind]. unfold pos_of. cbn [fst snd]. rewrite map2_blk_pos by lia. unfold overlap_divide.
    rewrite (hash_find_some _ _ x) by (done || apply Ht). cbn [mbind option_bind]. rewrite (proj1 Hx). cbn [mbind option_bind].
    destruct (Z.leb_spec s (p_block p)); [lia|]. destruct (Z.lt_ge_cases e (p_end p)).
    + destruct (mid_tail x0 p0 s e h x p) as (h' & E' & Hm' & Hl' & _); [done..|lia|done|done|]. by exists h'.
    + destruct (mid_resize x0 p0 s e h x p) as (h' & E' & Hm' & Hl'); [done..|lia|done|done|done|]. exists h'. by rewrite Hl'.
Qed.

Lemma insert_seg_ok x0 p0 s e h : before x0 p0 h -> 0 <= s < e -> e <= cap (map2 h) -> cap (map2 h) <= 2 ^ 32 ->
  exists h', insert_seg 32 (overlap_divide 32 file) s (e - s) h = Some h' /\
    mid x0 p0 (pieces h) s e e h' /\ length (map2 h') = length (map2 h) /\ marked s e (map2 h').
Proof.
  intros Hbf Hs He Hcap. destruct (insert_first x0 p0 s e h Hbf Hs He Hcap) as (v & h1 & Ev & E1 & Hm1 & Hl1).
  assert (cap (map2 h1) = cap (map2 h)) as Hcp by (unfold cap; by rewrite Hl1).
  unfold insert_seg. destruct (u32_pos s ltac:(lia)) as [-> ->]. rewrite Ev. cbn [mbind option_bind].
  fold (pos_of s). cbn [mbind option_bind] in E1. rewrite E1.
  destruct (set_bit_stat (map2 h1) s START) as (m & Em & Hlm & Hwm & Hstm); [apply Hm1|lia|done|].
  cbn [mbind option_bind]. rewrite Em. cbn [mbind option_bind]. rewrite next_blk_pos by lia.
  destruct (insert_loop_ok x0 p0 (pieces h) s e (S (Z.to_nat (e - s))) (s + 1) (h1 <| map2 := m |>)) as (h' & E' & Hm' & Hl' & Hmk).
  { apply mid_mark; [done|lia|lia|done|done|]. intros b Hb Hbs. rewrite Hstm by lia. by destruct (Z.eqb_spec b s). }
  { apply Hbf. } { lia. } { lia. }
  all: try (unfold upd, cap in *; cbn; rewrite ?Hlm; lia).
  { unfold upd. cbn. split; [by rewrite Hstm, Z.eqb_refl by lia|lia]. }
  replace (s + 1 - s) with 1 in E' by lia. exists h'. split; [done|]. split; [done|]. split; [|done].
  rewrite Hl'. unfold upd. cbn. congruence.
Qed.

(** ** Logging a write *)
Lemma live_unhashed ps x p y q : (forall r, ~ live ps x r) -> p_hashed p = false ->
  live (<[x := p]> ps) y q <-> live ps y q.
Proof.
  intros Hx Hp. rewrite live_insert. split; [intros [(-> & <- & ?)|[? ?]]; [congruence|done]|].
  intros Hq. right. split; [intros ->; by apply (Hx q)|done].
Qed.

Lemma new_piece_ok h blk nr ver : hist_ok h ->
  let r := new_piece blk nr ver h in
  before r.1 (Build_io_piece blk nr ver false false) r.2 /\ map2 r.2 = map2 h /\
  (forall b v, owned (pieces r.2) b v <-> owned (pieces h) b v) /\ (r.1 < next_piece r.2)%nat.
Proof.
  intros [Ht Henc]. unfold new_piece. cbn [fst snd]. set (p0 := Build_io_piece _ _ _ _ _). set (t := next_piece h).
  assert (forall r, ~ live (pieces h) t r) as Hnl by (intros r []; by rewrite (t_fresh _ Ht) in *).
  assert (forall y q, live (<[t := p0]> (pieces h)) y q <-> live (pieces h) y q) as Hl by (intros; by apply live_unhashed).
  assert (forall b v, owned (<[t := p0]> (pieces h)) b v <-> owned (pieces h) b v) as Hown
    by (intros; unfold owned; by setoid_rewrite Hl).
  split; [|split; [done|split; [done|unfold upd; cbn; lia]]]. split; [|split; [|done]]; unfold upd; cbn; [|apply lookup_insert_eq].
  split; cbn; fold t.
  - destruct Ht. split; cbn; try done; try (by setoid_rewrite Hl).
    + apply (hash_ok_ext _ (pieces h)); [done|]. intros y b. by setoid_rewrite Hl.
    + intros y Hy. rewrite lookup_insert_ne by lia. apply t_fresh0. unfold t in Hy. lia.
  - intros b Hb. apply (enc_ext (map2 h) _ (pieces h)); [auto|done|done|]. unfold starts. by setoid_rewrite Hl.
Qed.

(** The new piece enters the table and the list. *)
Lemma add_new_piece x0 p0 ps0 s e h : mid x0 p0 ps0 s e e h -> p0 = Build_io_piece s (e - s) (p_version p0) false false ->
  0 <= s < e -> e - s <= L -> e <= cap (map2 h) -> cap (map2 h) <= 2 ^ 32 -> marked s e (map2 h) -> (x0 < next_piece h)%nat ->
  exists h1, iohist_hash_add 32 file x0 h = Some h1 /\
    let h' := upd_piece x0 (fun p => p <| p_onlist := true |>) (list_add_tail x0 h1) in
    let h' := h' <| io_hist_len := io_hist_len h' + 1 |> in
    hist_ok h' /\ map2 h' = map2 h /\
    forall b v, owned (pieces h') b v <-> (s <= b < e /\ v = p_version p0) \/ (~ s <= b < e /\ owned ps0 b v).
Proof.
  intros Hm Ep0 Hs HsL He Hcap [Hms Hmi] Hx0. pose proof Hm as [Ht Hn Haway Hout _ Hown].
  set (ver := p_version p0) in *. clearbody ver. subst p0. set (p0 := Build_io_piece _ _ _ _ _) in *.
  assert (forall r, ~ live (pieces h) x0 r) as Hnl by (intros r [Hr1 Hr2]; rewrite Hn in Hr1; injection Hr1 as <-; done).
  assert (forall b v, s <= b < e -> ~ owned (pieces h) b v) as Hno.
  { intros b v Hb (y & q & Hy & Hq & _). destruct (Haway y q Hy); unfold p_end in *; lia. }
  assert (forall b, s <= b < e -> ~ starts (pieces h) b) as Hns.
  { intros b Hb (y & q & Hy & Hq). destruct (Haway y q Hy); [|lia]. destruct (t_fits _ Ht y q Hy) as (? & ? & ?). unfold p_end in *; lia. }
  destruct (hash_add_ok file h x0 p0 Hn eq_refl (t_hash _ Ht)) as (bs & E & Hh); [unfold is_word; cbn; lia|apply Hns; cbn; lia|].
  cbv zeta in E, Hh. rewrite E. eexists. split; [done|]. cbv zeta.
  set (p1 := p0 <| p_hashed := true |> <| p_onlist := true |>).
  rewrite (upd_piece_eq x0 _ _ (p0 <| p_hashed := true |>)) by (unfold upd; cbn; apply lookup_insert_eq). fold p1.
  unfold upd. cbn. rewrite insert_insert_eq.
  assert (p_block p1 = s /\ p_end p1 = e /\ p_version p1 = ver /\ p_hashed p1 = true) as (B1 & B2 & B3 & B4)
    by (unfold p1, upd, p_end; cbn; repeat split; lia).
  assert (forall b v, owned (<[x0 := p1]> (pieces h)) b v <-> (s <= b < e /\ v = ver) \/ (~ s <= b < e /\ owned ps0 b v)) as Ho.
  { intros b v. rewrite owned_fresh, B1, B2, B3 by done. specialize (Hown b v). specialize (Hno b v).
    destruct (decide (s <= b < e)); naive_solver. }
  assert (forall b, starts (<[x0 := p1]> (pieces h)) b <-> b = s \/ starts (pieces h) b) as Hst.
  { intros b. rewrite starts_fresh, B1 by done. naive_solver. }
  split; [|split; [done|apply Ho]]. split.
  - apply (table_add h _ x0 p1); try done; cbn; try apply Ht.
    + apply (hash_ok_ext _ _ _ _ Hh). intros y b. setoid_rewrite live_insert. naive_solver.
    + unfold fits. rewrite B1, B2. unfold p_end in B2. lia.
    + intros y q Hq. unfold apart. rewrite B1, B2. by apply (Haway y).
  - cbn. intros b Hb. destruct (decide (b = s)) as [->|Hbs]; [apply enc_start; [done|apply Hst; auto]|].
    destruct (decide (s <= b < e)) as [Hr|Hr].
    + unfold enc. rewrite Hmi, Hst by lia. specialize (Hns b Hr).
      setoid_rewrite Ho. repeat split; try done; [naive_solver|eauto|naive_solver].
    + apply (enc_ext (map2 h) _ (pieces h)); [auto|done| |rewrite Hst; naive_solver].
      intros v. rewrite Ho, <- Hown by done. naive_solver.
Qed.

Lemma log_io_piece_ok fo bs off len ver h :
  let s := (off - fo) / bs in let e := s + (len + bs - 1) / bs in
  is_word 64 (off - fo) -> is_word 32 (len + bs - 1) -> e - s <= L -> hist_ok h -> 0 <= s < e -> e <= cap (map2 h) -> cap (map2 h) <= 2 ^ 32 ->
  exists h', log_io_piece_seg 32 file fo bs off len ver h = Some h' /\ hist_ok h' /\
    length (map2 h') = length (map2 h) /\
    forall b v, owned (pieces h') b v <-> (s <= b < e /\ v = ver) \/ (~ s <= b < e /\ owned (pieces h) b v).
Proof.
  intros s e Hw1 Hw2 HsL Hok Hs He Hcap. unfold log_io_piece_seg. rewrite !wrap_small by done. fold s. replace ((len + bs - 1) / bs) with (e - s) by (unfold e; lia).
  pose proof (new_piece_ok h s (e - s) ver Hok) as Hnew.
  destruct (new_piece s (e - s) ver h) as [x0 h0]. cbv zeta in Hnew. cbn [fst snd] in Hnew. destruct Hnew as (Hbf & Em & Hown & _).
  destruct (insert_seg_ok _ _ s e h0 Hbf) as (h1 & E1 & Hm1 & Hl1 & Hmk1); [lia|by rewrite Em|by rewrite Em|].
  rewrite E1. cbn [mbind option_bind].
  destruct (add_new_piece x0 _ _ s e h1 Hm1) as (h2 & E2 & Hok2 & Em2 & Hown2); [done|lia|done|unfold cap in *; by rewrite Hl1, Em..|done| |].
  { destruct (Nat.lt_ge_cases x0 (next_piece h1)) as [|Hge]; [done|].
    pose proof (t_fresh _ (m_tab _ _ _ _ _ _ _ Hm1) x0 Hge) as Hn. by rewrite (m_new _ _ _ _ _ _ _ Hm1) in Hn. }
  rewrite E2. cbn [mbind option_bind]. eexists. split; [done|]. split; [done|]. split; [by rewrite Em2, Hl1, Em|].
  intros b v. rewrite Hown2. by setoid_rewrite Hown.
Qed.

(** ** Removing a segment *)

(** Whatever the size it is told, [remove_seg] clears the first block, and else only
    blocks inside pieces. *)
Lemma remove_loop_ok m num fuel : forall b, words_ok m -> 0 <= b < cap m -> num <= length m ->
  (Z.to_nat (cap m - b) <= fuel)%nat ->
  exists m', remove_loop 32 fuel m num (pos_of b) = Some m' /\ length m' = length m /\ words_ok m' /\
    forall c, 0 <= c -> c <> b -> stat m c <> Some IN -> stat m' c = stat m c.
Proof.
  revert m. induction fuel as [|fuel IH]; [unfold cap; lia|]. intros m b Hw Hb Hn Hf. cbn [remove_loop].
  destruct (set_bit_stat m b EMPTY) as (m1 & E1 & Hl1 & Hw1 & Hst1); [done..|].
  change (set_bit 32 m (pos_of b).1 (pos_of b).2) with (set_bit 32 m (MAP2_IDX 32 b) (MAP2_BIT 32 b)). rewrite E1.
  cbn [mbind option_bind]. rewrite next_blk_pos by lia.
  assert (forall c, 0 <= c -> c <> b -> stat m1 c = stat m c) as Hk.
  { intros c Hc Hcb. rewrite Hst1 by done. by destruct (Z.eqb_spec c b). }
  destruct (Z.ltb_spec (fst (pos_of (b + 1))) num) as [Hlt|_]; [|by exists m1; eauto 6].
  assert (b + 1 < cap m1) as Hb1.
  { unfold pos_of, cap in *. cbn [fst] in Hlt. rewrite map2_idx_div in Hlt.
    pose proof (Z.div_mod (b + 1) 16 ltac:(lia)). pose proof (Z.mod_pos_bound (b + 1) 16 ltac:(lia)). rewrite Hl1. lia. }
  unfold test_blk. change (get_blk m1 (pos_of (b + 1)).1 (pos_of (b + 1)).2) with (stat m1 (b + 1)).
  destruct (stat_some m1 (b + 1)) as (v & Ev & _); [lia|]. rewrite Ev. cbn [mbind option_bind].
  destruct (Z.eqb_spec v IN) as [->|]; [|by exists m1; eauto 6].
  destruct (IH m1 (b + 1)) as (m' & E' & Hl' & Hw' & Hst'); [done|lia|lia|unfold cap in *; rewrite Hl1; lia|].
  exists m'. split; [done|]. split; [congruence|]. split; [done|]. intros c Hc Hcb Hci.
  rewrite Hst', Hk; [done..| |by rewrite Hk]. intros ->. rewrite Hk in Ev by lia. done.
Qed.

(** What the list branch of [get_next_verify] needs of the history. *)
Definition drain_ok h : Prop :=
  table_ok h /\ forall x p, live (pieces h) x p -> stat (map2 h) (p_block p) = Some START.

Lemma hist_drain_ok h : hist_ok h -> drain_ok h.
Proof.
  intros [Ht He]. split; [done|]. intros x p Hx. destruct (t_fits _ Ht x p Hx) as (? & ? & ?). unfold p_end in *.
  apply He; [lia|]. by exists x, p.
Qed.

Lemma get_next_verify_ok fo bs num h x l p : drain_ok h -> cap (map2 h) <= 2 ^ 32 -> num <= length (map2 h) ->
  io_hist_list h = x :: l -> live (pieces h) x p ->
  exists h', get_next_verify_list 32 fo bs num h =
      Some (Some (u64 (p_block p * bs + fo), u32 (p_nr_blk p * bs), p_version p), h') /\
    drain_ok h' /\ io_hist_list h' = l /\ pieces h' = delete x (pieces h) /\ length (map2 h') = length (map2 h).
Proof.
  intros [Ht Hst] Hcap Hnum Hl Hx. unfold get_next_verify_list. rewrite Hl. cbn [pieces io_hist_list].
  destruct (t_fits _ Ht x p Hx) as (? & ? & ?). unfold p_end in *.
  change (pieces (h <| io_hist_list := l |>)) with (pieces h). rewrite (proj1 Hx). cbn [mbind option_bind].
  rewrite (t_onlist _ Ht x p Hx), (proj2 Hx). cbn [negb].
  rewrite (upd_piece_eq x _ _ p) by apply Hx. set (p1 := p <| p_onlist := false |>).
  unfold remove_seg. destruct (u32_pos (p_block p) ltac:(lia)) as [-> ->].
  set (h1 := h <| io_hist_list := l |> <| pieces := _ |>). change (map2 h1) with (map2 h).
  unfold test_blk. fold (stat (map2 h) (p_block p)). rewrite (Hst x p Hx). cbn [mbind option_bind Z.eqb START Pos.eqb].
  fold (pos_of (p_block p)).
  destruct (remove_loop_ok (map2 h) num (S (length (map2 h) * Z.to_nat (BLKS_PER_MAP2 32))) (p_block p))
    as (m & Em & Hlm & Hwm & Hsm); [apply Ht|lia|done|unfold cap in *; rewrite blks_32; lia|].
  rewrite Em. cbn [mbind option_bind].
  destruct (hash_del_ok file (h1 <| map2 := m |>) x p1) as (bs' & E & Hh).
  { apply lookup_insert_eq. } { apply Hx. }
  { intros k y Hne. unfold h1, upd. cbn. rewrite (ho_mem _ _ _ (t_hash _ Ht)). setoid_rewrite live_insert. naive_solver. }
  { unfold h1, upd. cbn. intros y z q q' Hy Hz [(-> & _)|[_ Hq]]%live_insert [(-> & _)|[_ Hq']]%live_insert; try done.
    by apply (ho_start _ _ _ (t_hash _ Ht)). }
  { unfold h1, upd. cbn. intros y q Hy [(-> & _)|[_ Hq]]%live_insert; [done|]. by apply (ho_range _ _ _ (t_hash _ Ht) y). }
  cbv zeta in E, Hh. rewrite E. cbn [mbind option_bind]. eexists. split; [done|].
  unfold h1, upd in *. cbn in *. rewrite insert_insert_eq in Hh. rewrite insert_insert_eq, delete_insert_eq.
  assert (hash_ok file (delete x (pieces h)) bs') as Hh'.
  { apply (hash_ok_ext _ _ _ _ Hh). intros y b. setoid_rewrite live_insert. setoid_rewrite live_delete. naive_solver. }
  split; [|done]. split; cbn.
  - apply (table_remove h _ x p); try done. cbn. rewrite Hl. pose proof (t_nodup _ Ht) as Hnd. rewrite Hl in Hnd.
    apply NoDup_cons in Hnd as [Hxl _]. rewrite filter_cons_False by naive_solver.
    clear -Hxl. induction l as [|y l IH]; [done|]. apply not_elem_of_cons in Hxl as [? ?].
    rewrite filter_cons_True by done. f_equal. auto.
  - intros y q [Hne Hq]%live_delete. destruct (t_fits _ Ht y q Hq) as (? & ? & ?).
    rewrite Hsm; [by apply (Hst y)|lia| |by rewrite (Hst y q Hq)].
    intros E'. apply Hne. by apply (ho_start _ _ _ (t_hash _ Ht) x y p q).
Qed.
End invariant.

(** ** Runs: writes, then verification *)
Record write := { w_offset : Z; w_buflen : Z; w_version : Z }.

Section runs.
(** The file, the start of the job's part of it and the block size. *)
Context (W file fo bs : Z).
Implicit Types (h : hist) (w : write) (ws : list write) (b v : Z).

Definition w_first w : Z := (w_offset w - fo) / bs.
Definition w_last w : Z := w_first w + (w_buflen w + bs - 1) / bs.

Fixpoint log_all h ws : option hist :=
  match ws with
  | [] => Some h
  | w :: ws => h ← log_io_piece_seg W file fo bs (w_offset w) (w_buflen w) (w_version w) h; log_all h ws
  end.

(** The verification phase: pieces until there are none. *)
Fixpoint drain (fuel : nat) (num : Z) h : option (list (Z * Z * Z) * hist) :=
  match fuel with
  | O => None
  | S fuel =>
      '(r, h) ← get_next_verify_list W fo bs num h;
      match r with
      | None => Some ([], h)
      | Some t => '(ts, h) ← drain fuel num h; Some (t :: ts, h)
      end
  end.

Definition hist0 (n : nat) : hist := Build_hist (replicate n 0) ∅ ∅ [] 0 0.

(** The abstract history: the version last written to each block. *)
Definition last_writer ws b : option Z :=
  foldl (fun o w => if (w_first w <=? b) && (b <? w_last w) then Some (w_version w) else o) None ws.
End runs.

Section runs32.
Context (file fo bs : Z).
Implicit Types (h : hist) (w : write) (ws : list write) (b v : Z).

Abbreviation w_first := (w_first fo bs).
Abbreviation w_last := (w_last fo bs).

(** A write of at least one byte, to blocks of the map; rounded up to whole blocks its length
    still is an [unsigned long]. *)
Definition write_ok (n : nat) w : Prop :=
  fo <= w_offset w < 2 ^ 64 /\ 0 < w_buflen w /\ w_buflen w + bs - 1 < 2 ^ 32 /\ w_last w <= 16 * n.

(** The longest piece. *)
Definition longest : Z := (2 ^ 32 - 1) / bs.
Abbreviation hist_ok := (hist_ok file longest).
Abbreviation drain_ok := (drain_ok file longest).

Hypothesis (Hbs : 0 < bs) (Hfo : 0 <= fo).

Lemma longest_word : longest < 2 ^ 32.
Proof. unfold longest. apply Z.div_lt_upper_bound; lia. Qed.

Lemma write_ok_blocks n w : write_ok n w ->
  is_word 64 (w_offset w - fo) /\ is_word 32 (w_buflen w + bs - 1) /\ w_last w - w_first w <= longest /\
  0 <= w_first w < w_last w.
Proof.
  intros (Ho & Hl & Hw & _). unfold is_word, SegMap.w_last, SegMap.w_first, longest.
  assert (0 < (w_buflen w + bs - 1) / bs) by (apply Z.div_str_pos; lia).
  assert ((w_buflen w + bs - 1) / bs <= (2 ^ 32 - 1) / bs) by (apply Z.div_le_mono; lia).
  assert (0 <= (w_offset w - fo) / bs) by (apply Z.div_pos; lia). lia.
Qed.

Lemma hist0_ok n : hist_ok (hist0 n).
Proof.
  assert (forall x p, ~ live ∅ x p) as Hn by (intros x p []; by rewrite lookup_empty in *).
  assert (forall b, ~ starts ∅ b) as Hs by (intros b (x & p & Hx & _); by apply (Hn x p)).
  split; [split; cbn; try done|].
  - split; [|intros x y p q Hx; by destruct (Hn x p)|intros x p Hx; by destruct (Hn x p)]. intros k y. unfold bkt. rewrite lookup_empty. cbn. split; [by intros ?%elem_of_nil|].
    intros (p & Hp & _). by destruct (Hn y p).
  - constructor.
  - intros x. split; [by intros ?%elem_of_nil|]. intros [p Hp]. by destruct (Hn x p).
  - intros x p Hp. by destruct (Hn x p).
  - apply Forall_replicate. done.
  - intros x p Hp. by destruct (Hn x p).
  - intros x y p q Hp. by destruct (Hn x p).
  - intros b Hb. assert (stat (replicate n 0) b = Some EMPTY) as E.
    { unfold stat, get_blk, cap in *. cbn in Hb. rewrite length_replicate in Hb. rewrite map2_idx_div, map2_bit_mod, word_at_lookup by (apply Z.div_pos; lia).
      rewrite lookup_replicate_2.
      - cbn. by rewrite Z.shiftr_0_l.
      - apply Nat2Z.inj_lt. rewrite Z2Nat.id by (apply Z.div_pos; lia). apply Z.div_lt_upper_bound; lia. }
    unfold enc. cbn. rewrite E. specialize (Hs b). repeat split; try done. intros [(v & x & p & Hp & _) _]. by destruct (Hn x p).
Qed.

Lemma log_all_ok n ws : forall h f, hist_ok h -> length (map2 h) = n -> 16 * n <= 2 ^ 32 ->
  Forall (write_ok n) ws -> (forall b v, owned (pieces h) b v <-> f b = Some v) ->
  exists h', log_all 32 file fo bs h ws = Some h' /\ hist_ok h' /\ length (map2 h') = n /\
    forall b v, owned (pieces h') b v <->
      foldl (fun o w => if (w_first w <=? b) && (b <? w_last w) then Some (w_version w) else o) (f b) ws = Some v.
Proof.
  induction ws as [|w ws IH]; intros h f Hok Hl Hn Hws Hf; [by exists h|].
  apply Forall_cons in Hws as [Hw Hws]. destruct (write_ok_blocks n w Hw) as (Hw1 & Hw2 & Hw3 & Hw4).
  destruct (log_io_piece_ok file longest longest_word fo bs (w_offset w) (w_buflen w) (w_version w) h)
    as (h1 & E1 & Hok1 & Hl1 & Ho1); [done|done|done|done|done|unfold cap; rewrite Hl; apply Hw|unfold cap; by rewrite Hl|].
  cbn [log_all]. rewrite E1. cbn [mbind option_bind foldl].
  apply (IH h1 (fun b => if (w_first w <=? b) && (b <? w_last w) then Some (w_version w) else f b)); [done|congruence|done..|].
  intros b v. rewrite Ho1, Hf. fold (SegMap.w_first fo bs w). fold (SegMap.w_last fo bs w).
  destruct (Z.leb_spec (w_first w) b), (Z.ltb_spec b (w_last w)); cbn; naive_solver lia.
Qed.

(** What the verification of a piece reads and the version it looks for. *)
Definition triple (p : io_piece) : Z * Z * Z := (p_block p * bs + fo, p_nr_blk p * bs, p_version p).

Lemma piece_words h x p : table_ok file longest h -> live (pieces h) x p -> cap (map2 h) * bs + fo <= 2 ^ 64 ->
  triple p = (u64 (p_block p * bs + fo), u32 (p_nr_blk p * bs), p_version p).
Proof.
  intros Ht Hx Hend. destruct (t_fits _ _ _ Ht x p Hx) as (H0 & Hn & He). unfold triple, p_end in *.
  assert (p_nr_blk p * bs <= 2 ^ 32 - 1).
  { transitivity (longest * bs); [nia|]. unfold longest. pose proof (Z.mul_div_le (2 ^ 32 - 1) bs Hbs). lia. }
  rewrite !wrap_small; [done|unfold is_word; nia..].
Qed.

Lemma drain_lists num fuel : forall h, drain_ok h -> cap (map2 h) <= 2 ^ 32 -> cap (map2 h) * bs + fo <= 2 ^ 64 ->
  num <= length (map2 h) -> (length (io_hist_list h) < fuel)%nat ->
  exists out h', drain 32 fo bs fuel num h = Some (out, h') /\ drain_ok h' /\ io_hist_list h' = [] /\
    Forall2 (fun x t => exists p, live (pieces h) x p /\ t = triple p) (io_hist_list h) out.
Proof.
  induction fuel as [|fuel IH]; [lia|]. intros h Hd Hcap Hend Hnum Hf. cbn [drain].
  destruct (io_hist_list h) as [|x l] eqn:El.
  - unfold get_next_verify_list. rewrite El. cbn. exists [], h. by auto.
  - destruct (proj1 (t_list _ _ _ (proj1 Hd) x)) as [p Hx]; [rewrite El; set_solver|].
    destruct (get_next_verify_ok file longest fo bs num h x l p) as (h1 & E1 & Hd1 & El1 & Ep1 & Hl1); [done..|].
    rewrite <- (piece_words h x p) in E1 by (done || apply Hd). rewrite E1. cbn [mbind option_bind]. cbn in Hf.
    destruct (IH h1) as (out & h' & E' & Hd' & El' & HF); [done|unfold cap in *; by rewrite Hl1..|by rewrite Hl1|rewrite El1; lia|].
    rewrite E'. cbn [mbind option_bind]. eexists _, h'. split; [done|]. split; [done|]. split; [done|]. rewrite El1 in HF. constructor; [by exists p|].
    eapply Forall2_impl; [done|]. cbn. rewrite Ep1. intros y t (q & [_ Hq]%live_delete & Ht). by exists q.
Qed.

(** C4: With longs of 32 bits, the history kept for overlapping writes does its job: for any
    sequence of writes inside the map, no write trips an assertion, and the verification
    phase afterwards, whatever size up to the true one [remove_seg] is given, reads every block that
    was written exactly once and compares it with the version that was written last; it ends
    with an empty history.  Assumed: the map has at most [2^32] blocks, the part of the file
    it covers ends at or before offset [2^64], and the length of a write, rounded up to whole
    blocks, is below [2^32]. *)
Theorem history_verifies_last_write (n : nat) num ws :
  16 * n <= 2 ^ 32 -> 16 * n * bs + fo <= 2 ^ 64 -> num <= n -> Forall (write_ok n) ws ->
  exists h out h', log_all 32 file fo bs (hist0 n) ws = Some h /\
    drain 32 fo bs (S (length (io_hist_list h))) num h = Some (out, h') /\
    io_hist_list h' = [] /\ io_hist_len h' = 0 /\
    (forall b v, 0 <= b -> last_writer fo bs ws b = Some v <->
       exists o l, (o, l, v) ∈ out /\ o <= b * bs + fo < o + l) /\
    (forall i j o l v o' l' v', i <> j -> out !! i = Some (o, l, v) -> out !! j = Some (o', l', v') ->
       o + l <= o' \/ o' + l' <= o).
Proof.
  intros Hn Hend Hnum Hws.
  destruct (log_all_ok n ws (hist0 n) (fun _ => None)) as (h & E & Hok & Hl & Ho); [apply hist0_ok|apply length_replicate|done|done| |].
  { intros b v. split; [|done]. intros (x & p & [Hx _] & _). cbn in Hx. by rewrite lookup_empty in Hx. }
  destruct (drain_lists num (S (length (io_hist_list h))) h) as (out & h' & Ed & Hd & El & HF);
    [by apply hist_drain_ok|unfold cap; by rewrite Hl..|by rewrite Hl|lia|].
  pose proof (proj1 Hok) as Ht. exists h, out, h'. split; [done|]. split; [done|]. split; [done|].
  split; [rewrite (t_len _ _ _ (proj1 Hd)), El; done|]. split.
  - intros b v Hb. unfold last_writer. rewrite <- Ho. unfold owned. split.
    + intros (x & p & Hx & Hp & <-). destruct (proj1 (list_elem_of_lookup _ _) (proj2 (t_list _ _ _ Ht x) (ex_intro _ p Hx))) as [i Hi].
      destruct (Forall2_lookup_l _ _ _ _ _ HF Hi) as (t & Hti & q & Hq & ->). rewrite (live_fun _ _ _ _ Hq Hx) in Hti.
      exists (p_block p * bs + fo), (p_nr_blk p * bs). split; [by apply (list_elem_of_lookup_2 _ i)|]. unfold p_end in *. nia.
    + intros (o & l & [i Hi]%list_elem_of_lookup & Hr).
      destruct (Forall2_lookup_r _ _ _ _ _ HF Hi) as (x & Hxi & p & Hp & [= -> -> ->]).
      exists x, p. split; [done|]. split; [|done]. unfold p_end. nia.
  - intros i j o l v o' l' v' Hij Hi Hj.
    destruct (Forall2_lookup_r _ _ _ _ _ HF Hi) as (x & Hxi & p & Hp & [= -> -> ->]).
    destruct (Forall2_lookup_r _ _ _ _ _ HF Hj) as (y & Hyj & q & Hq & [= -> -> ->]).
    assert (x <> y) as Hxy by (intros <-; by apply Hij, (NoDup_lookup _ _ _ _ (t_nodup _ _ _ Ht) Hxi)).
    destruct (t_apart _ _ _ Ht x y p q Hp Hq Hxy); unfold p_end in *; [left|right]; nia.
Qed.
End runs32.

Lemma history_verifies_last_write_witness :
  let ws := [Build_write 0 4096 7; Build_write 1024 1024 8; Build_write 3584 2048 9] in
  last_writer 0 512 ws 1 = Some 7 /\ last_writer 0 512 ws 3 = Some 8 /\
  exists h out h', log_all 32 4096 0 512 (hist0 4) ws = Some h /\
    drain 32 0 512 (S (length (io_hist_list h))) 2 h = Some (out, h') /\ io_hist_list h' = [].
Proof.
  intros ws. split; [reflexivity|]. split; [reflexivity|].
  destruct (history_verifies_last_write 4096 0 512 ltac:(lia) ltac:(lia) 4 2 ws) as (h & out & h' & E1 & E2 & E3 & _); [lia|lia|lia| |].
  - repeat constructor; vm_compute; congruence.
  - exists h, out, h'. auto.
Defined.

(** Interleaved with verification, the size given to [remove_seg] matters: a map of four words
    is told to have two, the size of the map of one bit per block. *)
Definition write_verify_write (n : nat) (num : Z) : option hist :=
  h ← log_all 32 4096 0 512 (hist0 n) [Build_write (40 * 512) 2048 7];
  '(_, h) ← get_next_verify_list 32 0 512 num h;
  log_all 32 4096 0 512 h [Build_write (41 * 512) 512 8].

(** Verifying a piece in the second half of the file leaves blocks marked as inside a piece
    that is gone ([get_next_verify] passes [num_maps], half of the words of the map): a write
    that starts on such a block then searches the start of the piece out of the map. *)
Theorem half_map_size_breaks_next_write :
  is_Some (write_verify_write 4 4) /\ write_verify_write 4 2 = None.
Proof. split; [eexists; vm_compute; reflexivity|vm_compute; reflexivity]. Qed.

(** With longs of 64 bits the map is not usable: [set_bit] shifts an [int], so a segment that
    starts in the upper half of a word has no defined effect, whatever the state. *)
Theorem seg_map_undefined_on_lp64 overlap block nr_blk h :
  0 <= block -> 16 <= block mod 32 -> insert_seg 64 overlap block nr_blk h = None.
Proof.
  intros H0 Hb. unfold insert_seg. assert (MAP2_BIT 64 block = block mod 32) as E.
  { unfold MAP2_BIT. change (BLKS_PER_MAP2 64 - 1) with (Z.ones 5). by rewrite Z.land_ones by lia. }
  rewrite E, (wrap_small 32 (block mod 32)) by (pose proof (Z.mod_pos_bound block 32 ltac:(lia)); unfold is_word; lia).
  assert (forall m idx st, set_bit 64 m idx (block mod 32) st = None) as Hn.
  { intros. unfold set_bit, int_shl, BITS_PER_BLK. destruct (word_at m idx); [|done]. cbn [mbind option_bind].
    by destruct (Z.ltb_spec (block mod 32 * 2) 32); [lia|]. }
  destruct (get_blk _ _ _) as [v|]; [|done]. cbn [mbind option_bind].
  destruct (if v =? EMPTY then _ else _) as [h'|]; [|done]. cbn [mbind option_bind]. by rewrite Hn.
Qed.

Lemma seg_map_undefined_on_lp64_witness :
  insert_seg 64 (overlap_divide 64 4096) 16 1 (hist0 4) = None.
Proof. apply (seg_map_undefined_on_lp64 (overlap_divide 64 4096) 16 1 (hist0 4)); vm_compute; congruence. Defined.

End SegMap.
