(* ===== verification/Fifo.v ===== *)
(** * The byte queue of [src/fifo.c]

    A circular buffer indexed by two free-running 32-bit counters.  [blktrace.c]
    puts what it reads from a trace into it and takes records out.  For a size
    that is a power of two the queue implements a bounded first-in first-out
    sequence of bytes, across the wrap-around of the buffer and of the
    counters. *)
From S2P Require Import Prelude Rand.
Local Open Scope Z_scope.
Local Open Scope word_scope.

Module Fifo.
Import Rand(store, length_store_ge, store_before, store_in).

(** ** [src/fifo.h] and [src/fifo.c] *)
Record fifo := {
  fbuffer : list Z;
  fsize : Z;
  fin : Z;
  fout : Z }.
#[global] Instance eta_fifo : Eta fifo := fun f => Build_fifo (fbuffer f) (fsize f) (fin f) (fout f).

Definition fifo_len (f : fifo) : Z := u32 (fin f - fout f).
Definition fifo_room (f : fifo) : Z := u32 (fsize f - fin f + fout f).

(** [contents]: what [malloc] returned. *)
Definition fifo_alloc (contents : list Z) (size : Z) : fifo := Build_fifo (take (Z.to_nat size) contents) size 0 0.

(** [memcpy] from the buffer. *)
Definition read_at (m : list Z) (pos len : Z) : list Z := take (Z.to_nat len) (drop (Z.to_nat pos) m).

Definition fifo_put (f : fifo) (buffer : list Z) : Z * fifo :=
  let len := Z.of_nat (length buffer) in
  let len := Z.min len (fifo_room f) in
  let pos := fin f .& (fsize f - 1) in
  let l := Z.min len (u32 (fsize f - pos)) in
  let b := store (fbuffer f) pos (read_at buffer 0 l) in
  let b := store b 0 (read_at buffer l (len - l)) in
  (len, f <| fbuffer := b |> <| fin := u32 (fin f + len) |>).

(** [want]: the caller gave a buffer. *)
Definition fifo_get (f : fifo) (want : bool) (len : Z) : Z * list Z * fifo :=
  let len := Z.min len (u32 (fin f - fout f)) in
  let pos := fout f .& (fsize f - 1) in
  let l := Z.min len (u32 (fsize f - pos)) in
  let buf := if want then read_at (fbuffer f) pos l ++ read_at (fbuffer f) 0 (len - l) else [] in
  let f := f <| fout := u32 (fout f + len) |> in
  (len, buf, if fin f =? fout f then f <| fin := 0 |> <| fout := 0 |> else f).

(** ** Its user, [src/blktrace.c] *)
Section trace.
(** [read fd buf total] with the bytes [rest] left in the file: the value it returns. *)
Context (read : list Z -> Z -> Z).

Definition TRACE_FIFO_SIZE : Z := 8192.

(** Also returns what is left of the file. *)
Definition refill_fifo (f : fifo) (rest : list Z) : Z * fifo * list Z :=
  let total := TRACE_FIFO_SIZE in
  let total := if fifo_room f <? total then fifo_room f else total in
  let ret := read rest total in
  if ret <? 0 then (-1, f, rest)
  else
    let buf := take (Z.to_nat ret) rest in
    let rest := drop (Z.to_nat ret) rest in
    if 0 <? ret then let '(ret, f) := fifo_put f buf in (ret, f, rest) else (ret, f, rest).

Definition trace_fifo_get (f : fifo) (rest : list Z) (want : bool) (len : Z) : Z * list Z * fifo * list Z :=
  if fifo_len f <? len then
    let '(ret, f, rest) := refill_fifo f rest in
    if ret <? 0 then (ret, [], f, rest)
    else let '(n, buf, f) := fifo_get f want len in (n, buf, f, rest)
  else let '(n, buf, f) := fifo_get f want len in (n, buf, f, rest).
End trace.

(** ** The bytes in the queue *)
Definition contents (f : fifo) : list Z :=
  (fun k => nth (Z.to_nat ((fout f + k) mod fsize f)) (fbuffer f) 0) <$> seqZ 0 (fifo_len f).

Record fifo_ok (k : Z) (f : fifo) : Prop := {
  f_k : 0 <= k < 32;
  f_size : fsize f = 2 ^ k;
  f_in : is_word 32 (fin f);
  f_out : is_word 32 (fout f);
  f_buf : Z.of_nat (length (fbuffer f)) = fsize f;
  f_len : fifo_len f <= fsize f }.

Section lemmas.
Implicit Types (f : fifo) (k n i p sz : Z) (m d : list Z).

Lemma u32_mod_pow2 k x : 0 <= k <= 32 -> u32 x mod 2 ^ k = x mod 2 ^ k.
Proof.
  intros Hk. unfold wrap. replace 32 with (k + (32 - k)) by lia. rewrite Z.pow_add_r by lia.
  pose proof (pow2_pos k). pose proof (pow2_pos (32 - k)). rewrite Z.rem_mul_r by lia.
  rewrite Z.mul_comm, Z_mod_plus_full. apply Zmod_mod.
Qed.

Lemma mask_mod k x : 0 <= k -> x .& (2 ^ k - 1) = x mod 2 ^ k.
Proof. intros. by rewrite pow2_sub1, Z.land_ones by lia. Qed.

Lemma read_at_lookup m p n i : 0 <= p -> 0 <= i -> read_at m p n !! Z.to_nat i =
  if i <? n then m !! Z.to_nat (p + i) else None.
Proof.
  intros Hp Hi. unfold read_at. destruct (Z.ltb_spec i n).
  - rewrite lookup_take_lt, lookup_drop by lia. f_equal. lia.
  - apply lookup_take_ge. lia.
Qed.
Lemma length_read_at m p n : 0 <= p -> 0 <= n -> p + n <= length m -> Z.of_nat (length (read_at m p n)) = n.
Proof. intros. unfold read_at. rewrite length_take, length_drop. lia. Qed.

(** Writing or reading across the end of the buffer, one byte at a time. *)
Lemma store_lookup m p d i : 0 <= p -> p + length d <= length m -> 0 <= i ->
  store m p d !! Z.to_nat i = if (p <=? i) && (i <? p + length d) then d !! Z.to_nat (i - p) else m !! Z.to_nat i.
Proof.
  intros Hp Hd Hi. destruct (Z.leb_spec p i); cbn [andb]; [|by rewrite store_before by lia].
  destruct (Z.ltb_spec i (p + length d)).
  - rewrite store_in by lia. f_equal. lia.
  - unfold store. rewrite lookup_app_r by (rewrite length_take; lia).
    rewrite length_take, lookup_app_r, lookup_drop by lia. f_equal. lia.
Qed.
Lemma length_store m p d : 0 <= p -> p + length d <= length m -> length (store m p d) = length m.
Proof. intros. unfold store. rewrite !length_app, length_take, length_drop. lia. Qed.

(** The two [memcpy]s of [fifo_put] write byte [i] of the data to position [p + i], modulo
    the size. *)
Lemma put_lookup sz m d p n j : Z.of_nat (length m) = sz -> 0 <= p < sz -> 0 <= n <= sz -> n <= length d ->
  let l := Z.min n (sz - p) in 0 <= j < sz ->
  store (store m p (read_at d 0 l)) 0 (read_at d l (n - l)) !! Z.to_nat j =
  if (j - p) mod sz <? n then d !! Z.to_nat ((j - p) mod sz) else m !! Z.to_nat j.
Proof.
  intros Hm Hp Hn Hd l Hj. pose proof (length_read_at d 0 l) as L1. pose proof (length_read_at d l (n - l)) as L2.
  rewrite store_lookup, store_lookup by (rewrite ?length_store by lia; lia).
  rewrite L1, L2 by lia.
  assert ((j - p) mod sz = if p <=? j then j - p else j - p + sz) as ->.
  { destruct (Z.leb_spec p j); [apply Z.mod_small; lia|]. rewrite <- (Z_mod_plus_full _ 1). rewrite Z.mod_small; lia. }
  destruct (Z.leb_spec 0 j); [|lia]. cbn [andb].
  destruct (Z.ltb_spec j (0 + (n - l))).
  - destruct (Z.leb_spec p j); [lia|]. destruct (Z.ltb_spec (j - p + sz) n); [|lia].
    rewrite read_at_lookup by lia. destruct (Z.ltb_spec (j - 0) (n - l)); [|lia]. f_equal. lia.
  - destruct (Z.leb_spec p j); cbn [andb].
    + destruct (Z.ltb_spec j (p + l)), (Z.ltb_spec (j - p) n); try lia; [|done].
      rewrite read_at_lookup by lia. destruct (Z.ltb_spec (j - p) l); [|lia]. f_equal.
    + destruct (Z.ltb_spec (j - p + sz) n); [lia|done].
Qed.

(** The two [memcpy]s of [fifo_get] read positions [p], [p + 1], ... modulo the size. *)
Lemma get_lookup sz m p n i : Z.of_nat (length m) = sz -> 0 <= p < sz -> 0 <= i < n -> n <= sz ->
  let l := Z.min n (sz - p) in
  (read_at m p l ++ read_at m 0 (n - l)) !! Z.to_nat i = m !! Z.to_nat ((p + i) mod sz).
Proof.
  intros Hm Hp Hi Hn l. pose proof (length_read_at m p l) as L1.
  destruct (Z.lt_ge_cases i l).
  - rewrite lookup_app_l by lia. rewrite read_at_lookup by lia. destruct (Z.ltb_spec i l); [|lia].
    rewrite Z.mod_small by lia. done.
  - rewrite lookup_app_r by lia. replace (Z.to_nat i - length (read_at m p l))%nat with (Z.to_nat (i - l)) by lia.
    rewrite read_at_lookup by lia. destruct (Z.ltb_spec (i - l) (n - l)); [|lia].
    rewrite <- (Z_mod_plus_full (p + i) (-1)). rewrite Z.mod_small by lia. f_equal. lia.
Qed.

Lemma length_contents f : Z.of_nat (length (contents f)) = fifo_len f.
Proof.
  unfold contents. rewrite length_fmap, length_seqZ. pose proof (wrap_range 32 (fin f - fout f)). unfold is_word, fifo_len in *. lia.
Qed.
Lemma contents_lookup k f i : fifo_ok k f -> 0 <= i < fifo_len f ->
  contents f !! Z.to_nat i = fbuffer f !! Z.to_nat ((fout f + i) mod fsize f).
Proof.
  intros [Hk Hs _ _ Hb _] Hi. pose proof (pow2_pos k). unfold contents. rewrite list_lookup_fmap, lookup_seqZ_lt by lia. cbn.
  pose proof (Z.mod_pos_bound (fout f + i) (fsize f) ltac:(lia)) as Hj.
  replace (0 + Z.to_nat i) with i by lia.
  destruct (lookup_lt_is_Some_2 (fbuffer f) (Z.to_nat ((fout f + i) mod fsize f))) as [b Eb]; [lia|].
  rewrite Eb. f_equal. by apply nth_lookup_Some.
Qed.

Lemma fifo_room_eq k f : fifo_ok k f -> fifo_room f = fsize f - fifo_len f.
Proof.
  intros [Hk Hs _ _ _ Hl]. assert (2 ^ k < 2 ^ 32) by (apply Z.pow_lt_mono_r; lia). pose proof (wrap_range 32 (fin f - fout f)) as Hr.
  unfold fifo_room, fifo_len in *. wrap_push; [|unfold is_word in *; lia].
  by replace (fsize f - fin f + fout f) with (fsize f - (fin f - fout f)) by lia.
Qed.

Lemma in_out_mod k f : fifo_ok k f -> fin f mod fsize f = (fout f + fifo_len f) mod fsize f.
Proof.
  intros [Hk Hs _ _ _ _]. rewrite Hs. rewrite <- (u32_mod_pow2 k (fout f + fifo_len f)), <- (u32_mod_pow2 k (fin f)) by lia.
  f_equal. unfold fifo_len. rewrite wrap_add_r. f_equal. lia.
Qed.

Lemma len_put f n sz : fifo_len f + n <= sz -> sz < 2 ^ 32 -> 0 <= n ->
  u32 (u32 (fin f + n) - fout f) = fifo_len f + n.
Proof.
  intros Hn Hs H0. unfold fifo_len in *. pose proof (wrap_range 32 (fin f - fout f)).
  wrap_push; [|unfold is_word in *; lia]. by replace (fin f + n - fout f) with (fin f - fout f + n) by lia.
Qed.

Lemma fifo_put_ok k f d : fifo_ok k f ->
  let n := Z.min (length d) (fsize f - fifo_len f) in let r := fifo_put f d in
  r.1 = n /\ fifo_ok k r.2 /\ fsize r.2 = fsize f /\ contents r.2 = contents f ++ take (Z.to_nat n) d.
Proof.
  intros Hok n r. pose proof Hok as [Hk Hs Hi Ho Hb Hl].
  assert (2 ^ k < 2 ^ 32) as Hk32 by (apply Z.pow_lt_mono_r; lia). pose proof (pow2_pos k).
  pose proof (wrap_range 32 (fin f - fout f)) as Hlr. fold (fifo_len f) in Hlr. unfold is_word in Hlr.
  set (p := fin f mod fsize f). assert (0 <= p < fsize f) as Hp by (apply Z.mod_pos_bound; lia).
  set (l := Z.min n (fsize f - p)).
  set (b := store (store (fbuffer f) p (read_at d 0 l)) 0 (read_at d l (n - l))).
  assert (r = (n, f <| fbuffer := b |> <| fin := u32 (fin f + n) |>)) as ->.
  { unfold r, fifo_put. rewrite (fifo_room_eq k) by done. fold n.
    assert (fin f .& (fsize f - 1) = p) as -> by (unfold p; rewrite Hs; apply mask_mod; lia).
    rewrite (wrap_small 32 (fsize f - p)) by (unfold is_word; lia). done. }
  cbn [fst snd]. set (f' := f <| fbuffer := b |> <| fin := _ |>).
  assert (length b = length (fbuffer f)) as Hlb.
  { unfold b. pose proof (length_read_at d 0 l). pose proof (length_read_at d l (n - l)). by rewrite !length_store by (rewrite ?length_store by lia; lia). }
  assert (fifo_len f' = fifo_len f + n) as Hlen by (apply (len_put f n (fsize f)); lia).
  assert (fifo_ok k f') as Hok'.
  { split; try done; [by apply wrap_range|unfold f', upd; cbn; lia|rewrite Hlen; unfold f', upd; cbn; lia]. }
  split; [done|]. split; [done|]. split; [done|]. apply list_eq. intros i.
  destruct (Z.lt_ge_cases i (fifo_len f')) as [Hi'|Hi'].
  - replace i with (Z.to_nat i) by lia. rewrite (contents_lookup k) by (done || lia). 
    change (fbuffer f') with b. change (fout f') with (fout f). change (fsize f') with (fsize f). unfold b, l.
    rewrite (put_lookup (fsize f)) by (done || lia || (apply Z.mod_pos_bound; lia)).
    pose proof (Z.mod_pos_bound (fout f + i) (fsize f) ltac:(lia)) as Hj.
    assert (((fout f + i) mod fsize f - p) mod fsize f = (i - fifo_len f) mod fsize f) as ->.
    { unfold p. rewrite (in_out_mod k) by done. rewrite <- Zminus_mod. f_equal. lia. }
    destruct (Z.lt_ge_cases i (fifo_len f)) as [Hlt|Hge].
    + rewrite <- (Z_mod_plus_full _ 1), Z.mod_small by lia.
      destruct (Z.ltb_spec (i - fifo_len f + 1 * fsize f) n); [lia|].
      rewrite lookup_app_l by (pose proof (length_contents f); lia).
      by rewrite (contents_lookup k) by (done || lia).
    + rewrite Z.mod_small by lia. destruct (Z.ltb_spec (i - fifo_len f) n); [|lia].
      pose proof (length_contents f). rewrite lookup_app_r, lookup_take_lt by lia. f_equal. lia.
  - rewrite !lookup_ge_None_2; [done|..]; pose proof (length_contents f); pose proof (length_contents f');
      rewrite ?length_app, ?length_take; lia.
Qed.

Lemma fifo_get_ok k f want len : fifo_ok k f -> 0 <= len ->
  let n := Z.min len (fifo_len f) in let '(r, buf, f') := fifo_get f want len in
  r = n /\ fifo_ok k f' /\ fsize f' = fsize f /\ contents f' = drop (Z.to_nat n) (contents f) /\
  buf = if want then take (Z.to_nat n) (contents f) else [].
Proof.
  intros Hok Hn0 n. pose proof Hok as [Hk Hs Hi Ho Hb Hl].
  assert (2 ^ k < 2 ^ 32) as Hk32 by (apply Z.pow_lt_mono_r; lia). pose proof (pow2_pos k).
  pose proof (wrap_range 32 (fin f - fout f)) as Hlr. fold (fifo_len f) in Hlr. unfold is_word in Hlr.
  unfold fifo_get. fold (fifo_len f). fold n.
  set (p := fout f mod fsize f). assert (0 <= p < fsize f) as Hp by (apply Z.mod_pos_bound; lia).
  assert (fout f .& (fsize f - 1) = p) as -> by (unfold p; rewrite Hs; apply mask_mod; lia).
  rewrite (wrap_small 32 (fsize f - p)) by (unfold is_word; lia).
  set (f1 := f <| fout := _ |>).
  assert (fifo_len f1 = fifo_len f - n) as Hlen.
  { unfold fifo_len, f1, upd. cbn. wrap_push; [|unfold is_word in *; unfold fifo_len in *; lia].
    by replace (fin f - (fout f + n)) with (fin f - fout f - n) by lia. }
  assert (fifo_ok k f1) as Hok1.
  { split; try done; [by apply wrap_range|rewrite Hlen; unfold f1, upd; cbn; lia]. }
  assert (contents f1 = drop (Z.to_nat n) (contents f)) as Hc.
  { apply list_eq. intros i. rewrite lookup_drop. pose proof (length_contents f). pose proof (length_contents f1).
    destruct (Z.lt_ge_cases i (fifo_len f1)) as [Hi'|Hi']; [|by rewrite !lookup_ge_None_2 by lia].
    replace i with (Z.to_nat i) at 1 by lia. replace (Z.to_nat n + i)%nat with (Z.to_nat (n + i)) by lia.
    rewrite !(contents_lookup k) by (done || lia). unfold f1, upd. cbn. do 2 f_equal.
    rewrite Hs, Zplus_mod, u32_mod_pow2, <- Zplus_mod by lia. f_equal. lia. }
  assert (fifo_ok k (if fin f1 =? fout f1 then f1 <| fin := 0 |> <| fout := 0 |> else f1) /\
    contents (if fin f1 =? fout f1 then f1 <| fin := 0 |> <| fout := 0 |> else f1) = contents f1) as [Hok2 Hc2].
  { destruct (Z.eqb_spec (fin f1) (fout f1)) as [E|]; [|done]. split.
    - destruct Hok1. split; try done. unfold fifo_len, upd in *. cbn. change (u32 (0 - 0)) with 0. cbn in *. lia.
    - unfold contents at 2, fifo_len. by rewrite E, Z.sub_diag. }
  split; [done|]. split; [done|]. split; [by destruct (fin f1 =? fout f1)|]. split; [by rewrite Hc2|].
  destruct want; [|done]. apply list_eq. intros i. pose proof (length_contents f).
  destruct (Z.lt_ge_cases i n) as [Hi'|Hi'].
  - rewrite lookup_take_lt by lia. replace i with (Z.to_nat i) by lia.
    rewrite get_lookup by (done || lia). rewrite (contents_lookup k) by (done || lia). unfold p. do 2 f_equal. by rewrite Zplus_mod_idemp_l.
  - rewrite lookup_take_ge by lia. apply lookup_ge_None_2. rewrite length_app.
    pose proof (length_read_at (fbuffer f) p (Z.min n (fsize f - p))). pose proof (length_read_at (fbuffer f) 0 (n - Z.min n (fsize f - p))). lia.
Qed.
End lemmas.

(** ** Refinement: the queue is a bounded sequence *)
Inductive fifo_op := Put (d : list Z) | Get (want : bool) (len : Z).
Definition op_ok (o : fifo_op) : Prop := match o with Put _ => True | Get _ len => 0 <= len end.

Definition fifo_step (f : fifo) (o : fifo_op) : (Z * list Z) * fifo :=
  match o with
  | Put d => let '(n, f) := fifo_put f d in ((n, []), f)
  | Get want len => let '(n, buf, f) := fifo_get f want len in ((n, buf), f)
  end.
Definition queue_step (cap : Z) (q : list Z) (o : fifo_op) : (Z * list Z) * list Z :=
  match o with
  | Put d => let n := Z.min (length d) (cap - length q) in ((n, []), q ++ take (Z.to_nat n) d)
  | Get want len => let n := Z.min len (length q) in
                    ((n, if want then take (Z.to_nat n) q else []), drop (Z.to_nat n) q)
  end.
Fixpoint run {S} (step : S -> fifo_op -> (Z * list Z) * S) (s : S) (os : list fifo_op) : list (Z * list Z) :=
  match os with [] => [] | o :: os => let '(r, s) := step s o in r :: run step s os end.

Lemma fifo_step_sim k f o : fifo_ok k f -> op_ok o ->
  let '(r, f') := fifo_step f o in fifo_ok k f' /\ fsize f' = fsize f /\
  queue_step (fsize f) (contents f) o = (r, contents f').
Proof.
  intros Hf Ho. destruct o as [d|want len]; cbn [fifo_step queue_step].
  - pose proof (fifo_put_ok k f d Hf) as H. cbv zeta in H. destruct (fifo_put f d) as [n f'].
    cbn [fst snd] in H. destruct H as (-> & Hok & Hs & ->).
    rewrite length_contents. done.
  - pose proof (fifo_get_ok k f want len Hf Ho) as H. cbn zeta in H. destruct (fifo_get f want len) as [[n buf] f'].
    destruct H as (-> & Hok & Hs & -> & ->). rewrite length_contents. done.
Qed.

Lemma fifo_alloc_ok k m : 0 <= k < 32 -> 2 ^ k <= length m ->
  fifo_ok k (fifo_alloc m (2 ^ k)) /\ contents (fifo_alloc m (2 ^ k)) = [].
Proof.
  intros Hk Hm. split; [|done]. pose proof (pow2_pos k). split; try done; cbn.
  - rewrite length_take. lia.
  - change (fifo_len _) with 0. lia.
Qed.

(** C20: Whatever is put into and taken out of a fifo whose size is a power of two, and however
    often the 32-bit counters wrap, every call answers as a bounded first-in first-out sequence
    of bytes does: a put takes the bytes there is room for, a get the oldest ones. *)
Theorem fifo_is_bounded_queue k m os : 0 <= k < 32 -> 2 ^ k <= length m -> Forall op_ok os ->
  run fifo_step (fifo_alloc m (2 ^ k)) os = run (queue_step (2 ^ k)) [] os.
Proof.
  intros Hk Hm Hos. destruct (fifo_alloc_ok k m Hk Hm) as [Hf Hc]. rewrite <- Hc.
  assert (forall f, fifo_ok k f -> fsize f = 2 ^ k -> run fifo_step f os = run (queue_step (2 ^ k)) (contents f) os) as H;
    [|by apply H]. clear m Hm Hf Hc.
  induction Hos as [|o os Ho Hos IH]; intros f Hf Es; [done|]. cbn [run].
  pose proof (fifo_step_sim k f o Hf Ho) as H. destruct (fifo_step f o) as [r f']. destruct H as (Hf' & Hs & E).
  rewrite Es in E. rewrite E. f_equal. apply IH; [done|congruence].
Qed.

Lemma fifo_is_bounded_queue_witness :
  let os := [Put [1; 2; 3]; Get true 2; Put [4; 5; 6; 7]; Get true 3; Get false 9; Put [8]] in
  run fifo_step (fifo_alloc [0; 0; 0; 0] (2 ^ 2)) os = run (queue_step (2 ^ 2)) [] os /\
  run (queue_step (2 ^ 2)) [] os = [(3, []); (2, [1; 2]); (3, []); (3, [3; 4; 5]); (1, []); (1, [])].
Proof.
  intros os. split; [|reflexivity].
  apply (fifo_is_bounded_queue 2 [0; 0; 0; 0] os); [lia|vm_compute; congruence|].
  repeat constructor; cbn; lia.
Defined.

(** A size that is not a power of two is accepted by [fifo_alloc], but bytes are then lost. *)
Theorem fifo_odd_size_loses_bytes :
  let os := [Put [1; 2; 3]; Get true 1; Put [4]; Get true 3] in
  run fifo_step (fifo_alloc [0; 0; 0] 3) os <> run (queue_step 3) [] os.
Proof. vm_compute. congruence. Qed.

(** ** Reading a trace through the queue *)
Section reader.
Context (read : list Z -> Z -> Z).
(** A regular file: a read returns what was asked for, or what is left. *)
Hypothesis read_full : forall rest total, 0 <= total -> read rest total = Z.min total (length rest).

Lemma refill_ok k f rest : fifo_ok k f -> fsize f = TRACE_FIFO_SIZE ->
  let n := Z.min (fsize f - fifo_len f) (length rest) in
  let '(r, f', rest') := refill_fifo read f rest in
  r = n /\ fifo_ok k f' /\ fsize f' = fsize f /\ contents f' = contents f ++ take (Z.to_nat n) rest /\
  rest' = drop (Z.to_nat n) rest.
Proof.
  intros Hf Hs n. pose proof (f_len _ _ Hf). pose proof (wrap_range 32 (fin f - fout f)) as Hlr.
  fold (fifo_len f) in Hlr. unfold is_word in Hlr. unfold refill_fifo. rewrite (fifo_room_eq k), read_full by done || (case_match; unfold TRACE_FIFO_SIZE in *; lia).
  assert ((if fsize f - fifo_len f <? TRACE_FIFO_SIZE then fsize f - fifo_len f else TRACE_FIFO_SIZE) = fsize f - fifo_len f) as ->
    by (destruct (Z.ltb_spec (fsize f - fifo_len f) TRACE_FIFO_SIZE); lia).
  fold n. destruct (Z.ltb_spec n 0); [lia|]. destruct (Z.ltb_spec 0 n).
  - pose proof (fifo_put_ok k f (take (Z.to_nat n) rest) Hf) as H'. cbv zeta in H'.
    rewrite length_take in H'. replace (Z.min (Z.to_nat n `min` length rest)%nat (fsize f - fifo_len f)) with n in H' by lia.
    destruct (fifo_put f _) as [r f']. cbn [fst snd] in H'. destruct H' as (-> & Hf' & Hs' & Hc).
    rewrite take_take, Nat.min_id in Hc. done.
  - replace n with 0 by lia. cbn. rewrite take_0, drop_0, app_nil_r. done.
Qed.

(** The queue does not show between the trace and its reader: a request for at most the size
    of the queue gets the next bytes of the file, all of them if that many are left. *)
Theorem trace_fifo_get_reads_file k f rest want len :
  fifo_ok k f -> fsize f = TRACE_FIFO_SIZE -> 0 <= len <= TRACE_FIFO_SIZE ->
  let '(n, buf, f', rest') := trace_fifo_get read f rest want len in
  let file := contents f ++ rest in
  n = Z.min len (length file) /\ fifo_ok k f' /\ fsize f' = TRACE_FIFO_SIZE /\
  contents f' ++ rest' = drop (Z.to_nat n) file /\ buf = if want then take (Z.to_nat n) file else [].
Proof.
  intros Hf Hs Hlen. pose proof (f_len _ _ Hf). pose proof (length_contents f) as Hlc. unfold trace_fifo_get.
  destruct (Z.ltb_spec (fifo_len f) len) as [Hlt|Hge].
  - pose proof (refill_ok k f rest Hf Hs) as Hr. cbv zeta in Hr. destruct (refill_fifo read f rest) as [[r f1] rest1].
    destruct Hr as (-> & Hf1 & Hs1 & Hc1 & ->). set (m := Z.min (fsize f - fifo_len f) (length rest)) in *.
    destruct (Z.ltb_spec m 0); [lia|]. pose proof (fifo_get_ok k f1 want len Hf1 ltac:(lia)) as Hg. cbv zeta in Hg.
    pose proof (length_contents f1) as Hlc1. rewrite Hc1, length_app, length_take in Hlc1.
    destruct (fifo_get f1 want len) as [[n buf] f2]. destruct Hg as (-> & Hf2 & Hs2 & Hc2 & ->). cbv zeta.
    set (n := Z.min len (fifo_len f1)) in *. rewrite length_app. split; [lia|]. split; [done|]. split; [congruence|].
    rewrite Hc2, Hc1.
    assert (contents f ++ rest = (contents f ++ take (Z.to_nat m) rest) ++ drop (Z.to_nat m) rest) as ->
      by by rewrite <- app_assoc, take_drop.
    assert ((Z.to_nat n <= length (contents f ++ take (Z.to_nat m) rest))%nat) by (rewrite length_app, length_take; lia).
    generalize dependent (contents f ++ take (Z.to_nat m) rest). intros q; intros. rewrite drop_app_le, take_app_le by done. done.
  - pose proof (fifo_get_ok k f want len Hf ltac:(lia)) as Hg. cbv zeta in Hg.
    destruct (fifo_get f want len) as [[n buf] f2]. destruct Hg as (-> & Hf2 & Hs2 & Hc2 & ->). cbv zeta.
    rewrite (Z.min_l len (fifo_len f)) in * by lia. rewrite length_app. split; [lia|]. split; [done|]. split; [congruence|].
    rewrite Hc2, drop_app_le, take_app_le by lia. done.
Qed.
End reader.

Lemma trace_fifo_get_reads_file_witness :
  let read := fun rest total => Z.min total (Z.of_nat (length rest)) in
  let f := fifo_alloc (replicate 8192 0) (2 ^ 13) in
  let '(n, buf, f', rest') := trace_fifo_get read f [1; 2; 3] true 2 in n = 2 /\ buf = [1; 2].
Proof.
  intros read f.
  pose proof (trace_fifo_get_reads_file read (fun rest total _ => eq_refl) 13 f [1; 2; 3] true 2) as H.
  assert (fifo_ok 13 f) as Hf by (apply fifo_alloc_ok; [lia|vm_compute; congruence]).
  specialize (H Hf eq_refl ltac:(unfold TRACE_FIFO_SIZE; lia)).
  assert (contents f = []) as Hc by reflexivity. rewrite Hc in H. clear Hc Hf.
  destruct (trace_fifo_get read f [1; 2; 3] true 2) as [[[n buf] f'] rest']. destruct H as (-> & _ & _ & _ & ->). split; reflexivity.
Defined.
End Fifo.
