(* ===== verification/Smalloc.v ===== *)
(** * The shared memory allocator of [src/smalloc.c]

    Pools of memory mapped shared between the processes of a run; a bitmap per
    pool has one bit per block of 32 bytes.  An allocation is a run of blocks
    with a header (size and red zone) in front and a red zone behind what the
    caller sees.  The random maps and file structures of fio live here.

    Memory is a function from addresses to bytes.  The locks make each call
    atomic.  [mmap] is a parameter.

    [find_next_zero] may look for a clear bit where there is none, and
    [blocks_iter] then shifts an [unsigned int] by more than its width.  What the
    first gives depends on the [ffz] of the platform (63 with the portable one of
    [src/lib/ffz.h] and longs of 64 bits, unspecified with the [bsf] of
    [src/arch/arch-x86_64.h]), what the second gives is not defined by C: both are
    parameters, [ffz_none] and [shl_over], and the theorem states in
    [platform_ok] what it needs of them. *)
From S2P Require Import Prelude Bits.
From stdpp Require Import gmap.
Local Open Scope Z_scope.
Local Open Scope word_scope.

Module Smalloc.
Import Bits(ffz, ffz_lowest_clear).

Definition SMALLOC_BPB : Z := 32.
Definition SMALLOC_BPI : Z := 4 * 8.
Definition SMALLOC_BPL : Z := SMALLOC_BPB * SMALLOC_BPI.
Definition INITIAL_SIZE : Z := 8192 * 1024.
Definition MAX_POOLS : Z := 128.
Definition SMALLOC_PRE_RED : Z := 0xdeadbeef.
Definition SMALLOC_POST_RED : Z := 0x5aa55aa5.
Definition int_mask : Z := 4 - 1.
Definition ALL1 : Z := 0xffffffff.      (* -1U *)
Definition HDR : Z := 8.                (* sizeof(struct block_hdr) *)

Record pool := {
  p_map : Z;
  bitmap : list Z;
  free_blocks : Z;
  nr_blocks : Z;
  next_non_full : Z;
  mmap_size : Z }.
#[global] Instance eta_pool : Eta pool := fun p =>
  Build_pool (p_map p) (bitmap p) (free_blocks p) (nr_blocks p) (next_non_full p) (mmap_size p).

(** [mp] has the [nr_pools] pools in use. *)
Record heap := {
  mp : list pool;
  last_pool : Z;
  mem : Z -> Z }.
#[global] Instance eta_heap : Eta heap := fun h => Build_heap (mp h) (last_pool h) (mem h).

(** ** Memory *)
Definition put32 (p v : Z) (m : Z -> Z) : Z -> Z :=
  fun a => if (p <=? a) && (a <? p + 4) then (v .>> (8 * (a - p))) .& 255 else m a.
Definition get32 (m : Z -> Z) (p : Z) : Z :=
  m p .| (m (p + 1) .<< 8) .| (m (p + 2) .<< 16) .| (m (p + 3) .<< 24).
Definition memset0 (p len : Z) (m : Z -> Z) : Z -> Z :=
  fun a => if (p <=? a) && (a <? p + len) then 0 else m a.

(** ** Blocks *)
Definition ptr_valid (p : pool) (ptr : Z) : bool :=
  (p_map p <=? ptr) && (ptr <? p_map p + u32 (nr_blocks p * SMALLOC_BPL)).

Definition size_to_blocks (size : Z) : Z := u32 (size + SMALLOC_BPB - 1) / SMALLOC_BPB.

Section platform.
(** What [ffz] gives for a word without a clear bit, and [x << n] for [n] of 32 or more. *)
Context (ffz_none : Z) (shl_over : Z -> Z -> Z).

Definition shl32 (x n : Z) : Z := u32 (if n <? 32 then x .<< n else shl_over x n).

(** [func]: the new word and whether to go on; [None] for a failed assertion.  The map is
    returned with what the calls before did to it. *)
Fixpoint blocks_iter (fuel : nat) (func : Z -> Z -> option (bool * Z)) (nr_words : Z) (bm : list Z)
    (pool_idx idx nr : Z) : option (bool * list Z) :=
  match fuel with
  | O => None
  | S fuel =>
      if nr =? 0 then Some (true, bm)
      else if nr_words <=? pool_idx then Some (false, bm)
      else
        map ← bm !! Z.to_nat pool_idx;
        let '(this_blocks, idx) :=
          if SMALLOC_BPI <? u32 (nr + idx)
          then (u32 (SMALLOC_BPI - idx), u32 (SMALLOC_BPI - u32 (SMALLOC_BPI - idx))) else (nr, idx) in
        let mask := if this_blocks =? SMALLOC_BPI then ALL1
                    else shl32 (u32 (shl32 1 this_blocks - 1)) idx in
        '(ok, map) ← func map mask;
        let bm := <[Z.to_nat pool_idx := map]> bm in
        if ok : bool then blocks_iter fuel func nr_words bm (u32 (pool_idx + 1)) 0 (u32 (nr - this_blocks))
        else Some (false, bm)
  end.

Definition mask_cmp (map mask : Z) : option (bool * Z) := Some ((map .& mask) =? 0, map).
Definition mask_clear (map mask : Z) : option (bool * Z) :=
  if (map .& mask) =? mask then Some (true, map .& notw 32 mask) else None.
Definition mask_set (map mask : Z) : option (bool * Z) :=
  if (map .& mask) =? 0 then Some (true, map .| mask) else None.

Definition iter_fuel (nr : Z) : nat := S (Z.to_nat nr).
Definition blocks_free (p : pool) (pool_idx idx nr : Z) : option bool :=
  r ← blocks_iter (iter_fuel nr) mask_cmp (nr_blocks p) (bitmap p) pool_idx idx nr; Some (fst r).
Definition set_blocks (p : pool) (pool_idx idx nr : Z) : option pool :=
  r ← blocks_iter (iter_fuel nr) mask_set (nr_blocks p) (bitmap p) pool_idx idx nr; Some (p <| bitmap := snd r |>).
Definition clear_blocks (p : pool) (pool_idx idx nr : Z) : option pool :=
  r ← blocks_iter (iter_fuel nr) mask_clear (nr_blocks p) (bitmap p) pool_idx idx nr; Some (p <| bitmap := snd r |>).

(** The word is an [int], shifted with its sign and extended to a long. *)
Definition platform_ffz (x : Z) : Z := if x =? 2 ^ 64 - 1 then ffz_none else ffz x.
Definition find_next_zero (word start : Z) : option Z :=
  if word =? ALL1 then None else Some (u32 (platform_ffz (u64 (s32 word .>> start)) + start)).

(** ** Allocation in a pool *)

(** The loop of [__smalloc_pool]; the result is the pool and the word and bit found, if any. *)
Fixpoint alloc_loop (fuel : nat) (p : pool) (nr i last_idx : Z) : option (pool * option (Z * Z)) :=
  match fuel with
  | O => None
  | S fuel =>
      if i <? nr_blocks p then
        w ← bitmap p !! Z.to_nat i;
        if w =? ALL1 then alloc_loop fuel (p <| next_non_full := i + 1 |>) nr (i + 1) 0
        else
          idx ← find_next_zero w last_idx;
          free ← blocks_free p i idx nr;
          if free : bool then p ← set_blocks p i idx nr; Some (p, Some (i, idx))
          else
            let idx := idx + nr in
            if idx <? SMALLOC_BPI then alloc_loop fuel p nr i idx
            else alloc_loop fuel p nr (i + idx / SMALLOC_BPI) 0    (* while (idx >= BPI) { i++; idx -= BPI } *)
      else Some (p, None)
  end.

(** The address, if the allocation succeeds. *)
Definition __smalloc_pool (p : pool) (size : Z) : option (pool * option Z) :=
  let nr := size_to_blocks size in
  if free_blocks p <? nr then Some (p, None)
  else
    '(p, r) ← alloc_loop (Z.to_nat (32 * nr_blocks p + 33)) p nr (next_non_full p) 0;
    match r with
    | Some (i, idx) =>
        let offset := u32 (i * SMALLOC_BPL + idx * SMALLOC_BPB) in
        Some (p <| free_blocks := u32 (free_blocks p - nr) |>, Some (p_map p + offset))
    | None => Some (p, None)
    end.

Definition postred_ptr (m : Z -> Z) (hdr : Z) : Z :=
  (hdr + get32 m hdr - 4 + int_mask) .& Z.lnot int_mask.

Definition fill_redzone (hdr : Z) (m : Z -> Z) : Z -> Z :=
  let postred := postred_ptr m hdr in
  put32 postred SMALLOC_POST_RED (put32 (hdr + 4) SMALLOC_PRE_RED m).

(** [true]: the red zones are intact. *)
Definition sfree_check_redzone (m : Z -> Z) (hdr : Z) : bool :=
  (get32 m (hdr + 4) =? SMALLOC_PRE_RED) && (get32 m (postred_ptr m hdr) =? SMALLOC_POST_RED).

Definition round_size (size : Z) : Z :=
  let alloc_size := u32 (size + HDR) in
  let alloc_size := u32 (alloc_size + 4) in
  u32 (alloc_size + int_mask) .& u32 (Z.lnot int_mask).

Definition smalloc_pool (p : pool) (size : Z) (m : Z -> Z) : option (pool * option Z * (Z -> Z)) :=
  let alloc_size := round_size size in
  '(p, r) ← __smalloc_pool p alloc_size;
  match r with
  | Some ptr =>
      let m := fill_redzone ptr (put32 ptr alloc_size m) in
      Some (p, Some (ptr + HDR), memset0 (ptr + HDR) size m)
  | None => Some (p, None, m)
  end.

Definition sfree_pool (p : pool) (ptr : Z) (m : Z -> Z) : option pool :=
  let hdr := ptr - HDR in
  if negb (ptr_valid p hdr) then None
  else if negb (sfree_check_redzone m hdr) then None
  else
    let offset := hdr - p_map p in
    let i := u32 (offset / SMALLOC_BPL) in
    let idx := u32 (offset mod SMALLOC_BPL / SMALLOC_BPB) in
    let nr := size_to_blocks (get32 m hdr) in
    p ← clear_blocks p i idx nr;
    let p := if i <? next_non_full p then p <| next_non_full := i |> else p in
    Some (p <| free_blocks := u32 (free_blocks p + nr) |>).

(** ** The pools *)
Section pools.
(** [mmap pools size]: the address of a new mapping; [None] when it or the lock of the pool
    cannot be had. *)
Context (mmap : list pool -> Z -> option Z).

(** The new pool; [None]: the function returns 1. *)
Definition add_pool (pools : list pool) (alloc_size : Z) (m : Z -> Z) : option (pool * (Z -> Z)) :=
  let alloc_size := u32 (alloc_size + 4) in
  let alloc_size := u32 (alloc_size + HDR) in
  let alloc_size := if alloc_size <? INITIAL_SIZE then INITIAL_SIZE else alloc_size in
  let alloc_size := u32 (alloc_size + SMALLOC_BPL - 1) .& u32 (Z.lnot (SMALLOC_BPL - 1)) in
  let bitmap_blocks := alloc_size / SMALLOC_BPL in
  let alloc_size := u32 (alloc_size + bitmap_blocks * 4) in
  ptr ← mmap pools alloc_size;
  Some (Build_pool ptr (replicate (Z.to_nat bitmap_blocks) 0) (u32 (bitmap_blocks * SMALLOC_BPB)) bitmap_blocks 0 alloc_size,
        memset0 ptr alloc_size m).

(** The [for] loop of [smalloc] from pool [i] on. *)
Fixpoint try_pools (fuel : nat) (h : heap) (i size : Z) : option (option (Z * Z) * heap) :=
  match fuel with
  | O => Some (None, h)
  | S fuel =>
      match mp h !! Z.to_nat i with
      | None => Some (None, h)
      | Some p =>
          '(p, r, m) ← smalloc_pool p size (mem h);
          let h := h <| mp := <[Z.to_nat i := p]> (mp h) |> <| mem := m |> in
          match r with
          | Some ptr => Some (Some (i, ptr), h)
          | None => try_pools fuel h (i + 1) size
          end
      end
  end.

(** The [do] loop: when the pools from [last_pool] on have no room, [last_pool] is reset but
    [i] is not. *)
Fixpoint smalloc_loop (fuel : nat) (h : heap) (i size : Z) : option (option Z * heap) :=
  match fuel with
  | O => None
  | S fuel =>
      '(r, h) ← try_pools (length (mp h)) h i size;
      match r with
      | Some (i, ptr) => Some (Some ptr, h <| last_pool := i |>)
      | None =>
          let i := Z.max i (length (mp h)) in
          if negb (last_pool h =? 0) then smalloc_loop fuel (h <| last_pool := 0 |>) i size
          else if MAX_POOLS <? length (mp h) + 1 then Some (None, h)
          else match add_pool (mp h) size (mem h) with
               | None => Some (None, h)
               | Some (p, m) => smalloc_loop fuel (h <| mp := mp h ++ [p] |> <| mem := m |>) (length (mp h)) size
               end
      end
  end.
Definition smalloc (h : heap) (size : Z) : option (option Z * heap) :=
  smalloc_loop 200 h (last_pool h) size.

(** The first pool that contains the pointer. *)
Fixpoint find_pool (ps : list pool) (i : nat) (ptr : Z) : option (nat * pool) :=
  match ps with
  | [] => None
  | p :: ps => if ptr_valid p ptr then Some (i, p) else find_pool ps (S i) ptr
  end.
Definition sfree (h : heap) (ptr : Z) : option heap :=
  if ptr =? 0 then Some h
  else
    '(i, p) ← find_pool (mp h) 0 ptr;
    p ← sfree_pool p ptr (mem h);
    Some (h <| mp := <[i := p]> (mp h) |>).

Definition sinit (m : Z -> Z) : option heap :=
  '(p, m) ← add_pool [] INITIAL_SIZE m; Some (Build_heap [p] 0 m).
End pools.

(** ** Bits and masks *)
Definition busy (bm : list Z) (b : Z) : bool := Z.testbit (nth (Z.to_nat (b / 32)) bm 0) (b mod 32).

Section bits.
Implicit Types (bm : list Z) (b i j idx nr w : Z).

Definition the_mask (this idx : Z) : Z :=
  if this =? SMALLOC_BPI then ALL1 else shl32 (u32 (shl32 1 this - 1)) idx.

Lemma the_mask_bits this idx j : 0 <= idx -> 1 <= this -> this + idx <= 32 -> 0 <= j ->
  Z.testbit (the_mask this idx) j = (idx <=? j) && (j <? idx + this).
Proof.
  intros Hi Ht Hs Hj. unfold the_mask. destruct (Z.eqb_spec this SMALLOC_BPI) as [->|Hne].
  - assert (idx = 0) as -> by (unfold SMALLOC_BPI in *; lia). change ALL1 with (Z.ones 32). change SMALLOC_BPI with 32.
    rewrite ones_testbit by lia. destruct (Z.leb_spec 0 j); [done|lia].
  - unfold SMALLOC_BPI in Hne. unfold shl32. destruct (Z.ltb_spec this 32), (Z.ltb_spec idx 32); try lia. rewrite Z.shiftl_1_l.
    assert (0 < 2 ^ this < 2 ^ 32) by (split; [apply pow2_pos; lia|apply Z.pow_lt_mono_r; lia]).
    rewrite (wrap_small 32 (2 ^ this)) by (unfold is_word; lia). rewrite pow2_sub1 by lia.
    rewrite (wrap_small 32 (Z.ones this)) by (rewrite <- pow2_sub1 by lia; unfold is_word; lia).
    rewrite wrap_testbit, shiftl_testbit by lia.
    destruct (Z.leb_spec idx j); cbn [andb]; [|by rewrite andb_false_r].
    rewrite ones_testbit by lia. destruct (Z.ltb_spec j 32), (Z.ltb_spec (j - idx) this), (Z.ltb_spec j (idx + this)); try done; lia.
Qed.
Lemma the_mask_word this idx : 0 <= idx -> 1 <= this -> this + idx <= 32 -> is_word 32 (the_mask this idx).
Proof.
  intros Hi Ht Hs. unfold the_mask. case_match; [done|]. by apply wrap_range.
Qed.

Lemma mask_none w m : (w .& m) = 0 <-> forall j, 0 <= j -> Z.testbit m j = true -> Z.testbit w j = false.
Proof.
  split.
  - intros E j Hj Hm. apply (f_equal (fun x => Z.testbit x j)) in E. rewrite Z.land_spec, Hm, Z.testbit_0_l in E.
    by rewrite andb_true_r in E.
  - intros H. apply Z.bits_inj'. intros j Hj. rewrite Z.land_spec, Z.testbit_0_l.
    destruct (Z.testbit m j) eqn:E; [by rewrite H|apply andb_false_r].
Qed.
Lemma mask_all w m : (w .& m) = m <-> forall j, 0 <= j -> Z.testbit m j = true -> Z.testbit w j = true.
Proof.
  split.
  - intros E j Hj Hm. apply (f_equal (fun x => Z.testbit x j)) in E. rewrite Z.land_spec, Hm in E.
    by rewrite andb_true_r in E.
  - intros H. apply Z.bits_inj'. intros j Hj. rewrite Z.land_spec.
    destruct (Z.testbit m j) eqn:E; [by rewrite H|apply andb_false_r].
Qed.

(** One turn of [blocks_iter] that starts inside a word. *)
Lemma blocks_iter_turn fuel func nw bm pi idx nr w : 0 <= idx < 32 -> 0 < nr < 2 ^ 31 -> 0 <= pi < nw -> nw < 2 ^ 31 ->
  bm !! Z.to_nat pi = Some w ->
  let this := Z.min nr (32 - idx) in
  blocks_iter (S fuel) func nw bm pi idx nr =
    match func w (the_mask this idx) with
    | Some (true, w') => blocks_iter fuel func nw (<[Z.to_nat pi := w']> bm) (pi + 1) 0 (nr - this)
    | Some (false, w') => Some (false, <[Z.to_nat pi := w']> bm)
    | None => None
    end.
Proof.
  intros Hi Hn Hp Hw Ew this. cbn [blocks_iter]. destruct (Z.eqb_spec nr 0); [lia|]. destruct (Z.leb_spec nw pi); [lia|].
  rewrite Ew. cbn [mbind option_bind].
  assert ((if SMALLOC_BPI <? u32 (nr + idx)
          then (u32 (SMALLOC_BPI - idx), u32 (SMALLOC_BPI - u32 (SMALLOC_BPI - idx))) else (nr, idx)) = (this, idx)) as ->.
  { unfold SMALLOC_BPI. change (4 * 8) with 32. rewrite (wrap_small 32 (nr + idx)) by (unfold is_word; lia).
    destruct (Z.ltb_spec 32 (nr + idx)); [|f_equal; lia]. rewrite !(wrap_small 32) by (unfold is_word; try rewrite wrap_small; unfold is_word; lia). f_equal; lia. }
  fold (the_mask this idx). destruct (func w (the_mask this idx)) as [[[] w']|]; cbn [mbind option_bind]; [|done|done].
  by rewrite !(wrap_small 32) by (unfold is_word; lia).
Qed.

Lemma nth_lookup_eq bm (i : nat) w : bm !! i = Some w -> nth i bm 0 = w.
Proof. apply nth_lookup_Some. Qed.

Lemma word_blocks pi j : 0 <= pi -> 0 <= j < 32 -> (32 * pi + j) / 32 = pi /\ (32 * pi + j) mod 32 = j.
Proof.
  intros Hp Hj. split; [symmetry; apply (Z.div_unique _ _ _ j)|symmetry; apply (Z.mod_unique _ _ pi)]; lia.
Qed.

Lemma busy_at bm pi j w : 0 <= pi -> 0 <= j < 32 -> bm !! Z.to_nat pi = Some w -> busy bm (32 * pi + j) = Z.testbit w j.
Proof. intros Hp Hj Hw. unfold busy. destruct (word_blocks pi j Hp Hj) as [-> ->]. by rewrite (nth_lookup_eq _ _ _ Hw). Qed.

(** [blocks_free]: all blocks of the range are in the map and clear. *)
Lemma blocks_iter_cmp nw bm fuel : forall pi idx nr, 0 <= idx < 32 -> 0 <= nr < 2 ^ 31 -> 0 <= pi -> nw < 2 ^ 31 ->
  Z.of_nat (length bm) = nw -> (Z.to_nat nr < fuel)%nat -> (idx = 0 \/ 0 < nr) ->
  exists r, blocks_iter fuel mask_cmp nw bm pi idx nr = Some (r, bm) /\
    (r = true <-> (nr = 0 \/ 32 * pi + idx + nr <= 32 * nw) /\ forall b, 32 * pi + idx <= b < 32 * pi + idx + nr -> busy bm b = false).
Proof.
  induction fuel as [|fuel IH]; [lia|]. intros pi idx nr Hi Hn Hp Hw Hl Hf Hz.
  destruct (decide (nr = 0)) as [->|Hnr].
  { cbn. exists true. split; [done|]. split; [|done]. intros _. split; [by left|]. intros. lia. }
  destruct (Z.lt_ge_cases pi nw) as [Hlt|Hge].
  2: { cbn. destruct (Z.eqb_spec nr 0); [lia|]. destruct (Z.leb_spec nw pi); [|lia]. exists false. split; [done|]. split; [done|]. intros [? _]; lia. }
  destruct (lookup_lt_is_Some_2 bm (Z.to_nat pi)) as [w Ew]; [lia|].
  rewrite (blocks_iter_turn fuel _ nw bm pi idx nr w) by (done || lia). set (this := Z.min nr (32 - idx)).
  unfold mask_cmp at 1. rewrite list_insert_id by done.
  assert ((w .& the_mask this idx) = 0 <-> forall b, 32 * pi + idx <= b < 32 * pi + idx + this -> busy bm b = false) as Hm.
  { rewrite mask_none. split.
    - intros H b Hb. replace b with (32 * pi + (b - 32 * pi)) by lia. rewrite (busy_at bm pi _ w) by (done || lia).
      apply H; [lia|]. rewrite the_mask_bits by lia. lia.
    - intros H j Hj Hjm. rewrite the_mask_bits in Hjm by lia. rewrite <- (busy_at bm pi j w) by (done || lia). apply H. lia. }
  destruct (Z.eqb_spec (w .& the_mask this idx) 0) as [E|E].
  - destruct (IH (pi + 1) 0 (nr - this)) as (r & Er & Hr); try lia. exists r. split; [done|]. rewrite Hr. rewrite Hm in E. split.
    + intros [Hb Hc]. split; [right; lia|]. intros b Hb'. destruct (Z.lt_ge_cases b (32 * pi + idx + this)); [apply E; lia|apply Hc; lia].
    + intros [Hb Hc]. split; [lia|]. intros b Hb'. apply Hc. lia.
  - exists false. split; [done|]. split; [done|]. intros [_ H]. destruct E. apply Hm. intros b Hb. apply H. lia.
Qed.

(** [set_blocks] ([v] is [true]) and [clear_blocks] ([v] is [false]). *)
Definition mask_write (v : bool) : Z -> Z -> option (bool * Z) := if v then mask_set else mask_clear.

Lemma mask_write_ok v w m : is_word 32 w -> is_word 32 m ->
  (forall j, 0 <= j -> Z.testbit m j = true -> Z.testbit w j = negb v) ->
  exists w', mask_write v w m = Some (true, w') /\ is_word 32 w' /\
    forall j, 0 <= j < 32 -> Z.testbit w' j = if Z.testbit m j then v else Z.testbit w j.
Proof.
  intros Hw Hm H. destruct v; cbn [mask_write negb] in *.
  - unfold mask_set. apply mask_none in H. rewrite H. cbn. eexists. split; [done|]. split; [by apply lor_is_word|].
    intros j Hj. rewrite Z.lor_spec. destruct (Z.testbit m j); [apply orb_true_r|apply orb_false_r].
  - unfold mask_clear. apply mask_all in H. rewrite H, Z.eqb_refl. eexists. split; [done|].
    split; [apply land_is_word; [lia|unfold is_word in *; lia|by apply wrap_range]|].
    intros j Hj. rewrite Z.land_spec. unfold notw. rewrite wrap_testbit, Z.lnot_spec by lia.
    destruct (Z.ltb_spec j 32); [|lia]. cbn. destruct (Z.testbit m j); [apply andb_false_r|apply andb_true_r].
Qed.

Lemma blocks_iter_write v nw fuel : forall bm pi idx nr, 0 <= idx < 32 -> 0 <= nr < 2 ^ 31 -> 0 <= pi -> nw < 2 ^ 31 ->
  Z.of_nat (length bm) = nw -> Forall (is_word 32) bm -> (Z.to_nat nr < fuel)%nat -> (idx = 0 \/ 0 < nr) ->
  (nr = 0 \/ 32 * pi + idx + nr <= 32 * nw) ->
  (forall b, 32 * pi + idx <= b < 32 * pi + idx + nr -> busy bm b = negb v) ->
  exists bm', blocks_iter fuel (mask_write v) nw bm pi idx nr = Some (true, bm') /\
    length bm' = length bm /\ Forall (is_word 32) bm' /\
    forall b, 0 <= b -> busy bm' b = if (32 * pi + idx <=? b) && (b <? 32 * pi + idx + nr) then v else busy bm b.
Proof.
  induction fuel as [|fuel IH]; [lia|]. intros bm pi idx nr Hi Hn Hp Hw Hl Hwd Hf Hz He Hb.
  destruct (decide (nr = 0)) as [->|Hnr].
  { cbn. exists bm. split; [done|]. split; [done|]. split; [done|]. intros b Hb0.
    destruct (Z.leb_spec (32 * pi + idx) b), (Z.ltb_spec b (32 * pi + idx + 0)); try done. lia. }
  destruct (lookup_lt_is_Some_2 bm (Z.to_nat pi)) as [w Ew]; [lia|].
  rewrite (blocks_iter_turn fuel _ nw bm pi idx nr w) by (done || lia). set (this := Z.min nr (32 - idx)).
  destruct (mask_write_ok v w (the_mask this idx)) as (w' & E' & Hw' & Hbits).
  { by apply (Forall_lookup_1 _ _ _ _ Hwd Ew). } { apply the_mask_word; lia. }
  { intros j Hj Hjm. rewrite the_mask_bits in Hjm by lia. rewrite <- (busy_at bm pi j w) by (done || lia). apply Hb. lia. }
  rewrite E'. set (bm1 := <[Z.to_nat pi := w']> bm).
  assert (forall b, 0 <= b -> busy bm1 b = if (32 * pi + idx <=? b) && (b <? 32 * pi + idx + this) then v else busy bm b) as Hb1.
  { intros b Hb0. pose proof (Z.div_mod b 32 ltac:(lia)). pose proof (Z.mod_pos_bound b 32 ltac:(lia)).
    assert (0 <= b / 32) by (apply Z.div_pos; lia). destruct (decide (b / 32 = pi)) as [Eb|Nb].
    - replace b with (32 * pi + b mod 32) at 1 by lia. rewrite (busy_at bm1 pi _ w') by (lia || apply list_lookup_insert_eq; lia).
      rewrite Hbits, the_mask_bits by lia. replace b with (32 * pi + b mod 32) at 6 by lia. rewrite (busy_at bm pi _ w) by (done || lia).
      destruct (Z.leb_spec idx (b mod 32)), (Z.ltb_spec (b mod 32) (idx + this)), (Z.leb_spec (32 * pi + idx) b), (Z.ltb_spec b (32 * pi + idx + this)); cbn; try done; lia.
    - destruct (Z.leb_spec (32 * pi + idx) b), (Z.ltb_spec b (32 * pi + idx + this)); cbn [andb];
        try (unfold busy, bm1; rewrite !nth_lookup, list_lookup_insert_ne by lia; done). lia. }
  destruct (IH bm1 (pi + 1) 0 (nr - this)) as (bm2 & E2 & Hl2 & Hw2 & Hb2); unfold bm1; rewrite ?length_insert; try lia.
  { by apply Forall_insert. }
  { intros b Hbr. fold bm1. rewrite Hb1 by lia. destruct (Z.ltb_spec b (32 * pi + idx + this)); [lia|]. rewrite andb_false_r. apply Hb. lia. }
  fold bm1 in E2. exists bm2. split; [done|]. split; [rewrite Hl2; apply length_insert|]. split; [done|].
  intros b Hb0. rewrite Hb2, Hb1 by done.
  destruct (Z.leb_spec (32 * (pi + 1) + 0) b), (Z.ltb_spec b (32 * (pi + 1) + 0 + (nr - this))), (Z.leb_spec (32 * pi + idx) b),
    (Z.ltb_spec b (32 * pi + idx + this)), (Z.ltb_spec b (32 * pi + idx + nr)); cbn; try done; lia.
Qed.
End bits.

(** ** Searching a word *)
Section search.
Implicit Types (w start idx nr i : Z) (p : pool).

Lemma s32_testbit w j : is_word 32 w -> 0 <= j -> Z.testbit (s32 w) j = Z.testbit w (if j <? 32 then j else 31).
Proof.
  intros Hw Hj. unfold swrap. rewrite Z.mod_small by done. unfold is_word in Hw. change (32 - 1) with 31.
  destruct (Z.ltb_spec w (2 ^ 31)) as [Hlt|Hge].
  - assert (is_word 31 w) as H31 by (unfold is_word; lia). destruct (Z.ltb_spec j 32); [done|].
    rewrite !(word_high 31) by (done || lia). done.
  - assert (Z.testbit w 31 = true) as H31.
    { apply Z.testbit_true; [lia|]. replace (w / 2 ^ 31) with 1; [done|]. apply (Z.div_unique _ _ _ (w - 2 ^ 31)); lia. }
    destruct (Z.ltb_spec j 32).
    + rewrite <- (Z.mod_pow2_bits_low (w - 2 ^ 32) 32) by lia. f_equal.
      symmetry. apply (Z.mod_unique _ _ (-1)); lia.
    + replace (w - 2 ^ 32) with (Z.lnot (2 ^ 32 - 1 - w)) by (unfold Z.lnot; lia). rewrite Z.lnot_spec by lia.
      rewrite (word_high 31), H31; [done|lia|unfold is_word; lia|lia].
Qed.

(** What is needed of the platform: a search that finds no clear bit gives an index past the
    word, and the mask that [blocks_iter] then computes has bit 31.  So it is with the portable
    [ffz] where shift instructions take their count modulo 32, as those of SPARC and MIPS do. *)
Definition platform_ok : Prop := forall start, 2 <= start < 32 ->
  let idx := u32 (ffz_none + start) in
  32 <= idx < 2 ^ 31 /\ Z.testbit (the_mask (u32 (32 - idx)) idx) 31 = true.

(** The first clear bit from [start] on, or what [ffz] makes of none. *)
Lemma find_next_zero_ok w start : is_word 32 w -> w <> ALL1 -> 0 <= start < 32 ->
  exists idx, find_next_zero w start = Some idx /\
    ((start <= idx < 32 /\ Z.testbit w idx = false) \/
     (idx = u32 (ffz_none + start) /\ 0 < start /\ Z.testbit w 31 = true)).
Proof.
  intros Hw Hne Hs. unfold find_next_zero. destruct (Z.eqb_spec w ALL1); [done|]. eexists. split; [done|].
  set (x := u64 (s32 w .>> start)). assert (is_word 64 x) as Hx by (by apply wrap_range).
  assert (forall j, 0 <= j < 64 -> Z.testbit x j = Z.testbit w (if j + start <? 32 then j + start else 31)) as Hb.
  { intros j Hj. unfold x. rewrite wrap_testbit, Z.shiftr_spec, s32_testbit by (done || lia). by destruct (Z.ltb_spec j 64); [|lia]. }
  destruct (decide (x = 2 ^ 64 - 1)) as [E|Hnx].
  - right. assert (forall j, start <= j < 32 -> Z.testbit w j = true) as Hall.
    { intros j Hj. specialize (Hb (j - start) ltac:(lia)). replace (j - start + start) with j in Hb by lia.
      destruct (Z.ltb_spec j 32); [|lia]. rewrite <- Hb, E. change (2 ^ 64 - 1) with (Z.ones 64). rewrite ones_testbit by lia. lia. }
    split; [by rewrite E|]. split; [|apply Hall; lia].
    enough (start <> 0) by lia. intros ->. apply Hne. apply Z.bits_inj'. intros j Hj. change ALL1 with (Z.ones 32).
    rewrite ones_testbit by lia. destruct (Z.ltb_spec j 32); [apply Hall; lia|]. by apply (word_high 32).
  - left. unfold platform_ffz. destruct (Z.eqb_spec x (2 ^ 64 - 1)); [done|].
    destruct (ffz_lowest_clear x) as (Hr & Hc & Hl); [done|done|]. rewrite (wrap_small 32) by (unfold is_word; lia).
    rewrite Hb in Hc by lia. revert Hc.
    destruct (Z.ltb_spec (ffz x + start) 32) as [Hlt|Hge]; intros Hc; [split; [lia|done]|].
    specialize (Hl (31 - start) ltac:(lia)). rewrite Hb in Hl by lia. replace (31 - start + start) with 31 in Hl by lia. change (if 31 <? 32 then 31 else 31) with 31 in Hl. congruence.
Qed.

(** A search that ends past the word finds it busy. *)
Lemma blocks_iter_far nw bm pi nr w start fuel : platform_ok -> 2 <= start < 32 -> 0 < nr < 2 ^ 31 -> 0 <= pi < nw ->
  bm !! Z.to_nat pi = Some w -> Z.testbit w 31 = true ->
  blocks_iter (S fuel) mask_cmp nw bm pi (u32 (ffz_none + start)) nr = Some (false, bm).
Proof.
  intros Hpl Hs Hn Hp Hw H31. destruct (Hpl start Hs) as [Hir Hm]. cbn [blocks_iter]. destruct (Z.eqb_spec nr 0); [lia|]. destruct (Z.leb_spec nw pi); [lia|].
  rewrite Hw. cbn [mbind option_bind]. set (idx := u32 (ffz_none + start)) in *. clearbody idx. set (this := u32 (32 - idx)) in *.
  assert ((if SMALLOC_BPI <? u32 (nr + idx)
          then (u32 (SMALLOC_BPI - idx), u32 (SMALLOC_BPI - u32 (SMALLOC_BPI - idx))) else (nr, idx)) = (this, idx)) as ->.
  { unfold SMALLOC_BPI. change (4 * 8) with 32. rewrite (wrap_small 32 (nr + idx)) by (unfold is_word; lia).
    destruct (Z.ltb_spec 32 (nr + idx)); [|lia]. f_equal. rewrite wrap_sub_r, wrap_small; [lia|]. unfold is_word. lia. }
  fold (the_mask this idx).
  change (mask_cmp w (the_mask this idx)) with (Some ((w .& the_mask this idx) =? 0, w)).
  destruct (Z.eqb_spec (w .& the_mask this idx) 0) as [E|E].
  - apply (f_equal (fun x => Z.testbit x 31)) in E. rewrite Z.land_spec, H31, Z.testbit_0_l in E.
    by rewrite Hm in E.
  - cbn [mbind option_bind]. by rewrite list_insert_id by done.
Qed.

(** ** One pool *)
Record pool_ok p : Prop := {
  po_len : Z.of_nat (length (bitmap p)) = nr_blocks p;
  po_nr : 0 < nr_blocks p < 2 ^ 22;
  po_words : Forall (is_word 32) (bitmap p);
  po_next : 0 <= next_non_full p }.

(** What an allocation does to the map: [p'] is [p] with the blocks from [b0] on taken. *)
Definition takes p p' (b0 nr : Z) : Prop :=
  0 <= b0 /\ b0 + nr <= 32 * nr_blocks p /\
  (forall b, b0 <= b < b0 + nr -> busy (bitmap p) b = false) /\
  (forall b, 0 <= b -> busy (bitmap p') b = if (b0 <=? b) && (b <? b0 + nr) then true else busy (bitmap p) b).

Definition same_but_map p p' : Prop :=
  p_map p' = p_map p /\ nr_blocks p' = nr_blocks p /\ mmap_size p' = mmap_size p /\ free_blocks p' = free_blocks p.

Lemma blocks_free_ok p i idx nr : pool_ok p -> 0 <= i < nr_blocks p -> 0 <= idx < 32 -> 0 < nr < 2 ^ 31 ->
  exists r, blocks_free p i idx nr = Some r /\
    (r = true <-> 32 * i + idx + nr <= 32 * nr_blocks p /\
                  forall b, 32 * i + idx <= b < 32 * i + idx + nr -> busy (bitmap p) b = false).
Proof.
  intros [Hl Hn Hw _] Hi Hidx Hnr. unfold blocks_free.
  destruct (blocks_iter_cmp (nr_blocks p) (bitmap p) (iter_fuel nr) i idx nr) as (r & E & Hr); try lia; [unfold iter_fuel; lia|].
  rewrite E. exists r. split; [done|]. rewrite Hr. intuition lia.
Qed.

Lemma set_blocks_ok p i idx nr : pool_ok p -> 0 <= i < nr_blocks p -> 0 <= idx < 32 -> 0 < nr < 2 ^ 31 ->
  32 * i + idx + nr <= 32 * nr_blocks p -> (forall b, 32 * i + idx <= b < 32 * i + idx + nr -> busy (bitmap p) b = false) ->
  exists p', set_blocks p i idx nr = Some p' /\ pool_ok p' /\ same_but_map p p' /\ next_non_full p' = next_non_full p /\
    takes p p' (32 * i + idx) nr.
Proof.
  intros [Hl Hn Hw Hnx] Hi Hidx Hnr He Hf. unfold set_blocks. change mask_set with (mask_write true).
  destruct (blocks_iter_write true (nr_blocks p) (iter_fuel nr) (bitmap p) i idx nr) as (bm & E & Hl' & Hw' & Hb); try done; try lia; [unfold iter_fuel; lia|].
  rewrite E. cbn. eexists. split; [done|]. split; [|split; [done|split; [done|]]].
  - split; unfold upd; cbn; [by rewrite Hl'|done|done|done].
  - split; [lia|]. split; [done|]. split; [done|]. unfold upd. cbn. done.
Qed.

Definition alloc_spec p nr (r : pool * option (Z * Z)) : Prop :=
  match r with
  | (p', Some (i, idx)) => 0 <= i /\ 0 <= idx < 32 /\ takes p p' (32 * i + idx) nr
  | (p', None) => bitmap p' = bitmap p
  end.

Lemma alloc_loop_ok nr (fuel : nat) : platform_ok -> 0 < nr < 2 ^ 28 -> forall p i last_idx, pool_ok p -> 0 <= i ->
  last_idx = 0 \/ 2 <= last_idx < 32 ->
  32 * (nr_blocks p - i) + 32 - last_idx < fuel -> i <= nr_blocks p \/ (0 < fuel)%nat ->
  exists r, alloc_loop fuel p nr i last_idx = Some r /\ pool_ok r.1 /\ same_but_map p r.1 /\ alloc_spec p nr r.
Proof.
  intros Hpl Hnr. induction fuel as [|fuel IH]; intros p i last_idx Hp Hi Hla Hf Hf'; [lia|]. cbn [alloc_loop].
  pose proof Hp as [Hl Hn Hw Hnx]. destruct (Z.ltb_spec i (nr_blocks p)) as [Hlt|Hge].
  2: { eexists. split; [done|]. split; [done|]. split; [|done]. by repeat split. }
  destruct (lookup_lt_is_Some_2 (bitmap p) (Z.to_nat i)) as [w Ew]; [lia|]. rewrite Ew. cbn [mbind option_bind].
  assert (is_word 32 w) as Hww by by apply (Forall_lookup_1 _ _ _ _ Hw Ew).
  destruct (Z.eqb_spec w ALL1) as [->|Hna].
  { destruct (IH (p <| next_non_full := i + 1 |>) (i + 1) 0) as (r & E & H1 & H2 & H3); try (unfold upd; cbn; lia); [|exists r; done].
    split; unfold upd; cbn; try done. lia. }
  destruct (find_next_zero_ok w last_idx Hww Hna) as (idx & Ef & Hidx); [lia|]. rewrite Ef. cbn [mbind option_bind].
  assert (exists free, blocks_free p i idx nr = Some free /\
    (free = true -> 0 <= idx < 32 /\ 32 * i + idx + nr <= 32 * nr_blocks p /\
       forall b, 32 * i + idx <= b < 32 * i + idx + nr -> busy (bitmap p) b = false) /\
    (free = false -> last_idx <= idx /\ (idx + nr < 32 -> 2 <= idx + nr))) as (free & Efr & Ht & Hfa).
  { destruct Hidx as [[Hr Hc]|(-> & Hs0 & H31)].
    - destruct (blocks_free_ok p i idx nr) as (free & E & Hfree); try done; try lia. exists free. split; [done|].
      split; [intros ->; split; [lia|]; by apply Hfree|]. intros ->. split; [lia|]. intros _.
      enough (nr <> 1) by lia. intros ->. enough (false = true) by done. apply Hfree. split; [lia|].
      intros b Hb. replace b with (32 * i + idx) by lia. by rewrite (busy_at _ i idx w) by (done || lia).
    - destruct (Hpl last_idx ltac:(lia)) as [Hir _]. exists false. split; [|split; [done|lia]]. unfold blocks_free, iter_fuel.
      by rewrite (blocks_iter_far _ _ _ _ w) by (done || lia). }
  rewrite Efr. cbn [mbind option_bind]. destruct free.
  - destruct (Ht eq_refl) as (Hr & He & Hall).
    destruct (set_blocks_ok p i idx nr) as (p' & E' & Hp' & Hsm & _ & Htk); try done; try lia.
    rewrite E'. cbn [mbind option_bind]. eexists. split; [done|]. split; [done|]. split; [done|]. cbn. split; [lia|]. done.
  - destruct (Hfa eq_refl) as (Hge & H2). unfold SMALLOC_BPI. change (4 * 8) with 32.
    destruct (Z.ltb_spec (idx + nr) 32); [apply IH; [done|done|lia|lia|lia]|].
    assert (1 <= (idx + nr) / 32) by (apply Z.div_le_lower_bound; lia). apply IH; [done|lia|by left|lia|lia].
Qed.
End search.

(** ** Allocations of one pool *)

Hypothesis (Hplat : platform_ok).

(** An allocation: its first block and the size the caller asked for. *)
Abbreviation alloc := (Z * Z)%type.

Section pool.
Implicit Types (p : pool) (m : Z -> Z) (size hdr ptr nr b : Z) (a : alloc) (l : list alloc).

Definition size_ok size : Prop := 0 <= size < 2 ^ 31.
Definition a_nr a : Z := size_to_blocks (round_size (snd a)).

(** Rounding down with a mask. *)
Lemma land_mask_down k y : 0 <= k <= 32 -> is_word 32 y -> y .& u32 (Z.lnot (2 ^ k - 1)) = 2 ^ k * (y / 2 ^ k).
Proof.
  intros Hk Hy. rewrite (Z.mul_comm (2 ^ k)), <- Z.shiftr_div_pow2, <- Z.shiftl_mul_pow2, <- (Z.ldiff_ones_r _ k), pow2_sub1 by lia.
  apply Z.bits_inj'. intros j Hj. rewrite Z.land_spec, wrap_testbit, Z.ldiff_spec, Z.lnot_spec by lia.
  destruct (Z.ltb_spec j 32); [done|]. cbn [andb]. by rewrite andb_false_r, (word_high 32 y).
Qed.

Lemma round_size_eq size : size_ok size -> round_size size = 4 * ((size + 15) / 4).
Proof.
  intros Hs. unfold size_ok in Hs. unfold round_size, HDR, int_mask.
  rewrite (wrap_small 32 (size + 8)), (wrap_small 32 (size + 8 + 4)), (wrap_small 32 (size + 8 + 4 + (4 - 1))) by (unfold is_word; lia).
  replace (size + 8 + 4 + (4 - 1)) with (size + 15) by lia. change (4 - 1) with (2 ^ 2 - 1).
  rewrite land_mask_down by (unfold is_word; lia). done.
Qed.
Lemma round_size_bounds size : size_ok size ->
  size + 12 <= round_size size <= size + 15 /\ round_size size mod 4 = 0 /\ round_size size <= 32 * size_to_blocks (round_size size) /\
  0 < size_to_blocks (round_size size) < 2 ^ 27.
Proof.
  intros Hs. rewrite round_size_eq by done. unfold size_ok in Hs. pose proof (Z.div_mod (size + 15) 4 ltac:(lia)).
  pose proof (Z.mod_pos_bound (size + 15) 4 ltac:(lia)). set (r := 4 * ((size + 15) / 4)) in *.
  unfold size_to_blocks, SMALLOC_BPB. rewrite wrap_small by (unfold is_word; lia). pose proof (Z.div_mod (r + 32 - 1) 32 ltac:(lia)).
  pose proof (Z.mod_pos_bound (r + 32 - 1) 32 ltac:(lia)). split; [lia|]. split; [unfold r; rewrite Z.mul_comm; apply Z_mod_mult|].
  split; [lia|]. lia.
Qed.

Lemma __smalloc_pool_ok p size : platform_ok -> pool_ok p -> 0 < size_to_blocks size < 2 ^ 28 -> is_word 32 (free_blocks p) ->
  exists p' r, __smalloc_pool p size = Some (p', r) /\ pool_ok p' /\
    p_map p' = p_map p /\ nr_blocks p' = nr_blocks p /\ mmap_size p' = mmap_size p /\
    match r with
    | Some ptr => exists b0, ptr = p_map p + 32 * b0 /\ takes p p' b0 (size_to_blocks size) /\
                    free_blocks p' = free_blocks p - size_to_blocks size /\ size_to_blocks size <= free_blocks p
    | None => bitmap p' = bitmap p /\ free_blocks p' = free_blocks p
    end.
Proof.
  intros Hpl Hp Hnr Hfw. pose proof Hp as [Hl Hn Hw Hnx]. unfold __smalloc_pool. destruct (Z.ltb_spec (free_blocks p) (size_to_blocks size)) as [|Hfree].
  { exists p, None. split; [done|]. split; [done|]. auto. }
  destruct (alloc_loop_ok (size_to_blocks size) (Z.to_nat (32 * nr_blocks p + 33)) Hpl Hnr p (next_non_full p) 0) as ([p' r] & E & Hp' & Hsm & Hsp);
    [done|done|by left|lia|lia|].
  rewrite E. cbn [mbind option_bind]. destruct Hsm as (E1 & E2 & E3 & E4). cbn [fst] in *.
  destruct r as [[i idx]|].
  - destruct Hsp as (Hi & Hidx & Htk). pose proof Htk as (H0 & He & _). eexists _, _. split; [done|].
    split; [by destruct Hp'; split|]. split; [done|]. split; [done|]. split; [done|].
    exists (32 * i + idx). split; [|split; [done|split; [|done]]].
    + rewrite E1. unfold SMALLOC_BPL, SMALLOC_BPB, SMALLOC_BPI. rewrite wrap_small by (unfold is_word; lia). lia.
    + unfold upd. cbn. rewrite E4. apply wrap_small. unfold is_word in *. lia.
  - exists p', None. split; [done|]. split; [done|]. auto.
Qed.

(** *** Memory *)
Lemma get_put32_eq m q v : is_word 32 v -> get32 (put32 q v m) q = v.
Proof.
  intros Hv. unfold get32, put32.
  repeat match goal with |- context [?x <=? ?y] => destruct (Z.leb_spec x y); [|lia] end.
  repeat match goal with |- context [?x <? ?y] => destruct (Z.ltb_spec x y); [|lia] end. cbn [andb].
  replace (q - q) with 0 by lia. replace (q + 1 - q) with 1 by lia. replace (q + 2 - q) with 2 by lia. replace (q + 3 - q) with 3 by lia.
  change 255 with (Z.ones 8). zbitwise; rewrite ?andb_false_r, ?andb_true_r, ?orb_false_r; cbn [orb]. all: try (f_equal; lia). by rewrite (word_high 32 v) by (done || lia).
Qed.
Lemma get32_frame m m' q : (forall x, q <= x < q + 4 -> m' x = m x) -> get32 m' q = get32 m q.
Proof. intros H. unfold get32. by rewrite !H by lia. Qed.
Lemma put32_frame m q v x : ~ q <= x < q + 4 -> put32 q v m x = m x.
Proof. intros H. unfold put32. destruct (Z.leb_spec q x), (Z.ltb_spec x (q + 4)); try done. lia. Qed.
Lemma memset0_frame m q n x : ~ q <= x < q + n -> memset0 q n m x = m x.
Proof. intros H. unfold memset0. destruct (Z.leb_spec q x), (Z.ltb_spec x (q + n)); try done. lia. Qed.

(** The header and the red zones of an allocation of [size] bytes. *)
Definition hdr_ok m hdr size : Prop :=
  get32 m hdr = round_size size /\ get32 m (hdr + 4) = SMALLOC_PRE_RED /\
  get32 m (hdr + round_size size - 4) = SMALLOC_POST_RED.

Lemma postred_eq m hdr size : size_ok size -> hdr mod 4 = 0 -> get32 m hdr = round_size size ->
  postred_ptr m hdr = hdr + round_size size - 4.
Proof.
  intros Hs Hh Hg. destruct (round_size_bounds size Hs) as (_ & Hm & _). unfold postred_ptr. rewrite Hg. unfold int_mask.
  change (4 - 1) with (Z.ones 2). rewrite <- Z.ldiff_land, Z.ldiff_ones_r, Z.shiftl_mul_pow2, Z.shiftr_div_pow2 by lia.
  change (Z.ones 2) with 3. change (2 ^ 2) with 4. set (y := hdr + round_size size - 4).
  assert (y mod 4 = 0) as Hy.
  { unfold y. rewrite Zminus_mod, Zplus_mod, Hh, Hm. reflexivity. }
  pose proof (Z.div_mod y 4 ltac:(lia)). replace (y + 3) with (3 + y / 4 * 4) by lia. rewrite Z.div_add by lia. change (3 / 4) with 0. lia.
Qed.

Fixpoint used l : Z := match l with [] => 0 | a :: l => a_nr a + used l end.

Definition covers a b : Prop := a.1 <= b < a.1 + a_nr a.
Definition a_hdr p a : Z := p_map p + 32 * a.1.

(** The map, the counter and the memory of a pool agree with its live allocations. *)
Record pool_inv m p l : Prop := {
  pi_ok : pool_ok p;
  pi_map : 0 < p_map p /\ p_map p mod 4 = 0;
  pi_size : 1024 * nr_blocks p <= mmap_size p;
  pi_fits a : a ∈ l -> 0 <= a.1 /\ a.1 + a_nr a <= 32 * nr_blocks p /\ size_ok a.2;
  pi_busy b : 0 <= b < 32 * nr_blocks p -> busy (bitmap p) b = true <-> exists a, a ∈ l /\ covers a b;
  pi_nodup : NoDup l;
  pi_apart a a' : a ∈ l -> a' ∈ l -> a <> a' -> a.1 + a_nr a <= a'.1 \/ a'.1 + a_nr a' <= a.1;
  pi_free : 0 <= free_blocks p /\ free_blocks p + used l = 32 * nr_blocks p;
  pi_hdr a : a ∈ l -> hdr_ok m (a_hdr p a) a.2 }.

Lemma used_nonneg l : (forall a, a ∈ l -> size_ok a.2) -> 0 <= used l.
Proof.
  induction l as [|a l IH]; intros H; cbn; [lia|]. pose proof (round_size_bounds a.2 (H a ltac:(set_solver))) as (_ & _ & _ & ?).
  unfold a_nr. specialize (IH ltac:(set_solver)). lia.
Qed.

Lemma used_perm l l' : l ≡ₚ l' -> used l = used l'.
Proof. induction 1; cbn; lia. Qed.

Lemma pool_inv_perm m p l l' : l ≡ₚ l' -> pool_inv m p l -> pool_inv m p l'.
Proof.
  intros Hl [? ? ? Hf Hb Hn Ha Hfr Hh]. split; try done.
  - intros a. rewrite <- Hl. auto.
  - intros b Hbr. setoid_rewrite <- Hl. auto.
  - by rewrite <- Hl.
  - intros a a'. rewrite <- Hl. auto.
  - by rewrite <- (used_perm _ _ Hl).
  - intros a. rewrite <- Hl. auto.
Qed.

(** Headers survive what happens outside their blocks. *)
Lemma hdr_ok_frame m m' hdr size : size_ok size ->
  (forall x, hdr <= x < hdr + round_size size -> m' x = m x) -> hdr_ok m hdr size -> hdr_ok m' hdr size.
Proof.
  intros Hs Hm (H1 & H2 & H3). destruct (round_size_bounds size Hs) as (Hr & _ & _). unfold size_ok in Hs.
  split; [rewrite <- H1|split; [rewrite <- H2|rewrite <- H3]]; apply get32_frame; intros x Hx; apply Hm; lia.
Qed.

Lemma pool_inv_frame m m' p l : (forall x, (exists a, a ∈ l /\ a_hdr p a <= x < a_hdr p a + round_size a.2 /\
    ~ (a_hdr p a + 8 <= x < a_hdr p a + 8 + a.2)) -> m' x = m x) -> pool_inv m p l -> pool_inv m' p l.
Proof.
  intros Hm [? ? ? Hf Hb Hn Ha Hfr Hh]. split; try done. intros a Hal. destruct (Hh a Hal) as (H1 & H2 & H3).
  destruct (Hf a Hal) as (_ & _ & Hs). destruct (round_size_bounds a.2 Hs) as (Hr & _ & _). unfold size_ok in Hs.
  split; [rewrite <- H1|split; [rewrite <- H2|rewrite <- H3]]; apply get32_frame; intros x Hx; apply Hm; exists a; (split; [done|]); lia.
Qed.

Lemma fill_hdr_ok m hdr size : size_ok size -> hdr mod 4 = 0 ->
  let m' := memset0 (hdr + HDR) size (fill_redzone hdr (put32 hdr (round_size size) m)) in
  hdr_ok m' hdr size /\ (forall x, ~ hdr <= x < hdr + round_size size -> m' x = m x) /\
  (forall x, hdr + 8 <= x < hdr + 8 + size -> m' x = 0).
Proof.
  intros Hs Hh m'. destruct (round_size_bounds size Hs) as (Hr & _ & Hr2 & _). pose proof Hs as Hs'. unfold size_ok in Hs'.
  assert (is_word 32 (round_size size)) as Hrw by (unfold is_word; lia).
  set (m1 := put32 hdr (round_size size) m) in *.
  assert (get32 m1 hdr = round_size size) as Hg by by apply get_put32_eq.
  unfold m', fill_redzone, HDR. rewrite (postred_eq m1 hdr size) by done. split; [|split].
  - repeat split.
    + rewrite (get32_frame m1); [done|]. intros x Hx. rewrite memset0_frame, put32_frame, put32_frame by lia. done.
    + rewrite (get32_frame (put32 (hdr + 4) SMALLOC_PRE_RED m1)); [by apply get_put32_eq|].
      intros x Hx. rewrite memset0_frame, put32_frame by lia. done.
    + rewrite (get32_frame (put32 (hdr + round_size size - 4) SMALLOC_POST_RED (put32 (hdr + 4) SMALLOC_PRE_RED m1))); [by apply get_put32_eq|].
      intros x Hx. rewrite memset0_frame by lia. done.
  - intros x Hx. rewrite memset0_frame, !put32_frame by lia. unfold m1. rewrite put32_frame by lia. done.
  - intros x Hx. unfold memset0. destruct (Z.leb_spec (hdr + 8) x), (Z.ltb_spec x (hdr + 8 + size)); try done; lia.
Qed.

(** Taking blocks for a new allocation. *)
Lemma pool_inv_take m p l p' b0 size : pool_inv m p l -> size_ok size -> pool_ok p' ->
  p_map p' = p_map p -> nr_blocks p' = nr_blocks p -> mmap_size p' = mmap_size p ->
  takes p p' b0 (a_nr (b0, size)) -> free_blocks p' = free_blocks p - a_nr (b0, size) -> a_nr (b0, size) <= free_blocks p ->
  forall m', hdr_ok m' (a_hdr p (b0, size)) size ->
    (forall x, ~ a_hdr p (b0, size) <= x < a_hdr p (b0, size) + round_size size -> m' x = m x) ->
    pool_inv m' p' ((b0, size) :: l).
Proof.
  intros [? ? ? Hf Hb Hn Ha Hfr Hh] Hs Hp' E1 E2 E3 (H0 & He & Hfree & Htk) E4 E5 m' Hm' Hfm.
  destruct (round_size_bounds size Hs) as (Hr & _ & Hr2 & Hr3). change (size_to_blocks (round_size size)) with (a_nr (b0, size)) in *.
  set (a0 := (b0, size)) in *.
  assert (forall a, a ∈ l -> a.1 + a_nr a <= b0 \/ b0 + a_nr a0 <= a.1) as Hap.
  { intros a Hal. destruct (Hf a Hal) as (Ha0 & Hae & Hasz). destruct (round_size_bounds a.2 Hasz) as (_ & _ & _ & Han).
    change (size_to_blocks (round_size a.2)) with (a_nr a) in Han.
    destruct (Z.le_gt_cases (a.1 + a_nr a) b0) as [|G1]; [by left|]. destruct (Z.le_gt_cases (b0 + a_nr a0) a.1) as [|G2]; [by right|].
    exfalso. set (b := Z.max a.1 b0). assert (busy (bitmap p) b = true) as Hbt by (apply Hb; [lia|]; exists a; split; [done|]; unfold covers; lia).
    rewrite Hfree in Hbt by lia. done. }
  split; rewrite ?E1, ?E2, ?E3; try done.
  - intros a [->|Hal]%elem_of_cons; [|by apply Hf]. cbn. done.
  - intros b Hbr. rewrite Htk by lia. unfold covers in *. setoid_rewrite elem_of_cons.
    destruct (Z.leb_spec b0 b), (Z.ltb_spec b (b0 + a_nr a0)); cbn [andb].
    1: split; [intros _; exists a0; split; [by left|]; cbn; lia|done].
    all: rewrite Hb by lia; split; [intros (a & ? & ?); exists a; auto|]; intros (a & [->|Hal] & Hc); [cbn in Hc; lia|eauto].
  - apply NoDup_cons. split; [|done]. intros Hin. destruct (Hap _ Hin); cbn in *; lia.
  - intros a a' [->|Hal]%elem_of_cons [->|Hal']%elem_of_cons Hne; [done| | |by apply Ha].
    + specialize (Hap a' Hal'). cbn. lia.
    + specialize (Hap a Hal). cbn. lia.
  - cbn [used]. lia.
  - unfold a_hdr in *. rewrite E1. intros a [->|Hal]%elem_of_cons; [done|]. destruct (Hf a Hal) as (? & ? & Hasz).
    destruct (round_size_bounds a.2 Hasz) as (_ & _ & Har & _). change (size_to_blocks (round_size a.2)) with (a_nr a) in Har.
    apply (hdr_ok_frame m); [done| |by apply Hh]. intros x Hx. apply Hfm. specialize (Hap a Hal). cbn in *. lia.
Qed.

Lemma smalloc_pool_ok m p l size : pool_inv m p l -> size_ok size ->
  exists p' r m', smalloc_pool p size m = Some (p', r, m') /\
    p_map p' = p_map p /\ nr_blocks p' = nr_blocks p /\ mmap_size p' = mmap_size p /\
    match r with
    | Some ptr => exists b0, ptr = p_map p + 32 * b0 + 8 /\ pool_inv m' p' ((b0, size) :: l) /\
        (forall x, ~ ptr - 8 <= x < ptr - 8 + round_size size -> m' x = m x) /\
        (forall x, ptr <= x < ptr + size -> m' x = 0)
    | None => m' = m /\ pool_inv m p' l
    end.
Proof.
  intros Hinv Hs. pose proof Hinv as [Hok [Hm0 Hm4] Hsz Hf Hb Hn Ha Hfr Hh].
  destruct (round_size_bounds size Hs) as (Hr & _ & Hr2 & Hr3). pose proof (po_nr _ Hok).
  pose proof (used_nonneg l (fun a Hal => proj2 (proj2 (Hf a Hal)))) as Hu.
  unfold smalloc_pool.
  destruct (__smalloc_pool_ok p (round_size size)) as (p' & r & E & Hp' & E1 & E2 & E3 & Hres); [done|done|lia|unfold is_word; lia|].
  rewrite E. cbn [mbind option_bind]. destruct r as [hdr|].
  - destruct Hres as (b0 & -> & Htk & Efr & Hle).
    assert ((p_map p + 32 * b0) mod 4 = 0) as H4.
    { replace (32 * b0) with (8 * b0 * 4) by lia. by rewrite Z_mod_plus_full. }
    destruct (fill_hdr_ok m (p_map p + 32 * b0) size Hs H4) as (Hhdr & Hfrm & Hz). cbv zeta in *.
    eexists p', _, _. split; [done|]. repeat (split; [done|]). exists b0. split; [done|].
    split; [by apply (pool_inv_take m p l)|]. unfold HDR. split; intros x Hx; [apply Hfrm; lia|apply Hz; lia].
  - destruct Hres as [Eb Ef]. exists p', None, m. split; [done|]. repeat (split; [done|]).
    split; rewrite ?E1, ?E2, ?E3, ?Eb, ?Ef; try done. unfold a_hdr in *. by rewrite E1.
Qed.

Lemma clear_blocks_ok p b0 nr : pool_ok p -> 0 <= b0 -> 0 < nr < 2 ^ 31 -> b0 + nr <= 32 * nr_blocks p ->
  (forall b, b0 <= b < b0 + nr -> busy (bitmap p) b = true) ->
  exists p', clear_blocks p (b0 / 32) (b0 mod 32) nr = Some p' /\ pool_ok p' /\ same_but_map p p' /\
    forall b, 0 <= b -> busy (bitmap p') b = if (b0 <=? b) && (b <? b0 + nr) then false else busy (bitmap p) b.
Proof.
  intros [Hl Hn Hw Hnx] H0 Hnr He Hb. unfold clear_blocks. change mask_clear with (mask_write false).
  pose proof (Z.div_mod b0 32 ltac:(lia)) as Hdm. pose proof (Z.mod_pos_bound b0 32 ltac:(lia)). assert (0 <= b0 / 32) by (apply Z.div_pos; lia).
  destruct (blocks_iter_write false (nr_blocks p) (iter_fuel nr) (bitmap p) (b0 / 32) (b0 mod 32) nr) as (bm & E & Hl' & Hw' & Hb');
    rewrite <- ?Hdm; try done; try lia; [unfold iter_fuel; lia|].
  rewrite E. cbn. eexists. split; [done|]. split; [split; unfold upd; cbn; try done; by rewrite Hl'|]. split; [done|].
  intros b Hb0. unfold upd. cbn. rewrite Hb', <- Hdm by done. done.
Qed.

Lemma sfree_pool_ok m p a l : pool_inv m p (a :: l) ->
  exists p', sfree_pool p (a_hdr p a + 8) m = Some p' /\ p_map p' = p_map p /\ nr_blocks p' = nr_blocks p /\
    mmap_size p' = mmap_size p /\ pool_inv m p' l.
Proof.
  intros [Hok [Hm0 Hm4] Hsz Hf Hb Hn Ha Hfr Hh]. destruct (Hf a ltac:(set_solver)) as (H0 & He & Hs).
  destruct (round_size_bounds a.2 Hs) as (Hr & _ & Hr2 & Hr3). change (size_to_blocks (round_size a.2)) with (a_nr a) in *.
  destruct (Hh a ltac:(set_solver)) as (G1 & G2 & G3). pose proof (po_nr _ Hok) as Hpn. apply NoDup_cons in Hn as [Hal Hn].
  unfold sfree_pool, HDR. replace (a_hdr p a + 8 - 8) with (a_hdr p a) by lia.
  assert (ptr_valid p (a_hdr p a) = true) as ->.
  { unfold ptr_valid, a_hdr, SMALLOC_BPL, SMALLOC_BPB, SMALLOC_BPI. rewrite wrap_small by (unfold is_word; lia). lia. }
  assert (sfree_check_redzone m (a_hdr p a) = true) as ->.
  { unfold sfree_check_redzone. rewrite (postred_eq m _ a.2), G2, G3 by (done || (unfold a_hdr; replace (32 * a.1) with (8 * a.1 * 4) by lia; by rewrite Z_mod_plus_full)).
    done. }
  cbn [negb]. rewrite G1. change (size_to_blocks (round_size a.2)) with (a_nr a).
  replace (a_hdr p a - p_map p) with (32 * a.1) by (unfold a_hdr; lia). unfold SMALLOC_BPL, SMALLOC_BPB, SMALLOC_BPI.
  change (32 * (4 * 8)) with (32 * 32). rewrite Z.div_mul_cancel_l, Z.mul_mod_distr_l, (Z.mul_comm 32 (a.1 mod 32)), Z.div_mul by lia.
  pose proof (Z.mod_pos_bound a.1 32 ltac:(lia)). assert (0 <= a.1 / 32 < 2 ^ 32) by (split; [apply Z.div_pos; lia|apply Z.div_lt_upper_bound; lia]).
  rewrite !(wrap_small 32) by (unfold is_word; lia).
  destruct (clear_blocks_ok p a.1 (a_nr a)) as (p1 & E & Hp1 & (E1 & E2 & E3 & E4) & Hb1); try done; try lia.
  { intros b Hbr. apply Hb; [lia|]. exists a. split; [set_solver|done]. }
  rewrite E. cbn [mbind option_bind].
  pose proof (used_nonneg l ltac:(intros a' Ha'; apply (Hf a'); set_solver)) as Hu. cbn [used] in Hfr.
  set (p2 := if a.1 / 32 <? next_non_full p1 then p1 <| next_non_full := a.1 / 32 |> else p1).
  assert (pool_ok p2 /\ p_map p2 = p_map p /\ nr_blocks p2 = nr_blocks p /\ mmap_size p2 = mmap_size p /\ free_blocks p2 = free_blocks p /\
    bitmap p2 = bitmap p1) as (Hp2 & F1 & F2 & F3 & F4 & F5).
  { unfold p2. destruct (a.1 / 32 <? next_non_full p1); [|by auto]. split; [|by auto]. destruct Hp1. split; unfold upd; cbn; try done. lia. }
  fold p2. clearbody p2. eexists. split; [done|]. unfold upd. cbn. rewrite F1, F2, F3. repeat (split; [done|]).
  split; cbn; rewrite ?F1, ?F2, ?F3; try done.
  - destruct Hp2. by split; cbn; rewrite <- ?F2.
  - intros a' Ha'. apply Hf. set_solver.
  - intros b Hbr. rewrite F5, Hb1 by lia. destruct (Z.leb_spec a.1 b), (Z.ltb_spec b (a.1 + a_nr a)); cbn [andb].
    1: { split; [done|]. intros (a' & Ha' & Hc). assert (a <> a') as Hne by (intros <-; done).
         destruct (Ha a a' ltac:(set_solver) ltac:(set_solver) Hne); unfold covers in Hc; lia. }
    all: rewrite Hb by lia; setoid_rewrite elem_of_cons; split; [intros (a' & [->|Ha'] & Hc); [unfold covers in Hc; lia|eauto]|intros (a' & Ha' & Hc); eauto].
  - intros a' a'' Ha' Ha''. apply Ha; set_solver.
  - rewrite F4, wrap_small by (unfold is_word; lia). lia.
  - unfold a_hdr in *. cbn. intros a' Ha'. apply Hh. set_solver.
Qed.
End pool.

(** ** The heap *)
Section heap.
Context (mmap : list pool -> Z -> option Z).
Implicit Types (h : heap) (p q : pool) (ps : list pool) (m : Z -> Z) (size ptr : Z) (l : list alloc) (ls : list (list alloc)).

Definition range_apart p q : Prop := p_map p + mmap_size p <= p_map q \/ p_map q + mmap_size q <= p_map p.

(** A new mapping is aligned to pages and overlaps none in use. *)
Definition mmap_ok : Prop := forall ps size a, mmap ps size = Some a ->
  0 < a /\ a mod 4096 = 0 /\ forall p, p ∈ ps -> a + size <= p_map p \/ p_map p + mmap_size p <= a.

Record heap_inv h ls : Prop := {
  hi_pools : Forall2 (pool_inv (mem h)) (mp h) ls;
  hi_apart i j p q : i <> j -> mp h !! i = Some p -> mp h !! j = Some q -> range_apart p q;
  hi_last : 0 <= last_pool h;
  hi_max : length (mp h) <= MAX_POOLS }.

(** [ptr] is a live allocation of [size] bytes. *)
Definition alloc_at h ls ptr size : Prop := exists k p l a,
  mp h !! k = Some p /\ ls !! k = Some l /\ a ∈ l /\ ptr = a_hdr p a + 8 /\ size = a.2.

Definition keeps h ls h' : Prop :=
  forall ptr size x, alloc_at h ls ptr size -> ptr <= x < ptr + size -> mem h' x = mem h x.

Lemma pool_inv_outside m m' p l : (forall x, p_map p <= x < p_map p + mmap_size p -> m' x = m x) ->
  pool_inv m p l -> pool_inv m' p l.
Proof.
  intros Hm Hp. apply (pool_inv_frame m); [|done]. intros x (a & Ha & Hx & _). apply Hm. destruct Hp as [_ _ Hsz Hf _ _ _ _ _].
  destruct (Hf a Ha) as (H0 & He & Hs). destruct (round_size_bounds a.2 Hs) as (_ & _ & Hr & _).
  change (size_to_blocks (round_size a.2)) with (a_nr a) in Hr. unfold a_hdr in *. lia.
Qed.

(** One pool changes, and memory changes inside it only. *)
Lemma heap_inv_pool h ls k p l p' l' m' : heap_inv h ls -> mp h !! k = Some p -> ls !! k = Some l ->
  pool_inv m' p' l' -> p_map p' = p_map p -> mmap_size p' = mmap_size p ->
  (forall x, ~ p_map p <= x < p_map p + mmap_size p -> m' x = mem h x) ->
  heap_inv (h <| mp := <[k := p']> (mp h) |> <| mem := m' |>) (<[k := l']> ls).
Proof.
  intros [Hps Hap Hla Hmx] Hk Hl Hp' E1 E2 Hm. unfold upd. split; cbn; [| |done|by rewrite length_insert].
  - apply Forall2_same_length_lookup. split; [rewrite !length_insert; by eapply Forall2_length|].
    intros i q lq. rewrite !list_lookup_insert_Some. intros [(<- & -> & _)|[Hne Hq]] [(? & <- & _)|[Hne' Hlq]]; try done.
    apply (pool_inv_outside (mem h)); [|by eapply Forall2_lookup_lr].
    intros x Hx. apply Hm. destruct (Hap k i p q Hne Hk Hq); lia.
  - unfold range_apart in *. intros i j q q' Hij. rewrite !list_lookup_insert_Some.
    intros [(<- & -> & _)|[Hne Hq]] [(? & -> & _)|[Hne' Hq']]; try done; rewrite ?E1, ?E2; eauto.
Qed.

Lemma alloc_at_pool h ls k p l p' l' m' ptr size : heap_inv h ls -> mp h !! k = Some p -> ls !! k = Some l -> p_map p' = p_map p ->
  alloc_at (h <| mp := <[k := p']> (mp h) |> <| mem := m' |>) (<[k := l']> ls) ptr size <->
  (exists a, a ∈ l' /\ ptr = a_hdr p a + 8 /\ size = a.2) \/
  (exists i q lq a, i <> k /\ mp h !! i = Some q /\ ls !! i = Some lq /\ a ∈ lq /\ ptr = a_hdr q a + 8 /\ size = a.2).
Proof.
  intros [Hps _ _ _] Hk Hl E. unfold alloc_at, upd. cbn. pose proof (lookup_lt_Some _ _ _ Hk). pose proof (lookup_lt_Some _ _ _ Hl). split.
  - intros (i & q & lq & a & Hq & Hlq & Ha). apply list_lookup_insert_Some in Hq as [(<- & -> & _)|[Hne Hq]].
    + rewrite list_lookup_insert_eq in Hlq by done. injection Hlq as <-. left. exists a. unfold a_hdr in *. by rewrite <- E.
    + rewrite list_lookup_insert_ne in Hlq by done. right. exists i, q, lq, a. by split; [congruence|].
  - intros [(a & Ha & Hr)|(i & q & lq & a & Hne & Hq & Hlq & Ha)].
    + exists k, p', l', a. rewrite !list_lookup_insert_eq by done. unfold a_hdr in *. by rewrite E.
    + exists i, q, lq, a. by rewrite !list_lookup_insert_ne by congruence.
Qed.
Lemma alloc_at_split h ls k p l ptr size : mp h !! k = Some p -> ls !! k = Some l ->
  alloc_at h ls ptr size <->
  (exists a, a ∈ l /\ ptr = a_hdr p a + 8 /\ size = a.2) \/
  (exists i q lq a, i <> k /\ mp h !! i = Some q /\ ls !! i = Some lq /\ a ∈ lq /\ ptr = a_hdr q a + 8 /\ size = a.2).
Proof.
  intros Hk Hl. unfold alloc_at. split.
  - intros (i & q & lq & a & Hq & Hlq & Ha). destruct (decide (i = k)) as [->|Hne]; [left|right; naive_solver].
    exists a. rewrite Hq in Hk. rewrite Hlq in Hl. injection Hk as ->. injection Hl as ->. done.
  - intros [(a & Ha & Hr)|(i & q & lq & a & Hne & Hq & Hlq & Ha)]; [exists k, p, l, a|exists i, q, lq, a]; done.
Qed.

(** What [smalloc] promises. *)
Definition malloc_post h ls size (r : option Z) h' : Prop := exists ls',
  heap_inv h' ls' /\ keeps h ls h' /\
  match r with
  | None => forall ptr' s, alloc_at h' ls' ptr' s <-> alloc_at h ls ptr' s
  | Some ptr => (forall ptr' s, alloc_at h' ls' ptr' s <-> (ptr' = ptr /\ s = size) \/ alloc_at h ls ptr' s) /\
                ~ alloc_at h ls ptr size /\ forall x, ptr <= x < ptr + size -> mem h' x = 0
  end.

(** Where an allocation lies, header and red zones included. *)
Lemma alloc_range h ls k p l a : heap_inv h ls -> mp h !! k = Some p -> ls !! k = Some l -> a ∈ l ->
  size_ok a.2 /\ p_map p <= a_hdr p a /\ a_hdr p a + 32 * a_nr a <= p_map p + mmap_size p /\ a.2 + 12 <= round_size a.2 <= 32 * a_nr a.
Proof.
  intros [Hps _ _ _] Hk Hl Ha. destruct (Forall2_lookup_lr _ _ _ _ _ _ Hps Hk Hl) as [_ _ Hsz Hf _ _ _ _ _].
  destruct (Hf a Ha) as (H0 & He & Hs). destruct (round_size_bounds a.2 Hs) as (Hr & _ & Hr2 & _).
  change (size_to_blocks (round_size a.2)) with (a_nr a) in Hr2. unfold a_hdr. split; [done|]. lia.
Qed.

Lemma alloc_disjoint h ls ptr size ptr' size' : heap_inv h ls -> alloc_at h ls ptr size -> alloc_at h ls ptr' size' ->
  (ptr, size) <> (ptr', size') ->
  ptr - 8 + round_size size <= ptr' - 8 \/ ptr' - 8 + round_size size' <= ptr - 8.
Proof.
  intros Hi (k & p & l & a & Hk & Hl & Ha & -> & ->) (k' & p' & l' & a' & Hk' & Hl' & Ha' & -> & ->) Hne.
  destruct (alloc_range h ls k p l a Hi Hk Hl Ha) as (_ & ? & ? & ?). destruct (alloc_range h ls k' p' l' a' Hi Hk' Hl' Ha') as (_ & ? & ? & ?).
  destruct (decide (k = k')) as [<-|Hkk].
  - rewrite Hk in Hk'. rewrite Hl in Hl'. injection Hk' as <-. injection Hl' as <-.
    assert (a <> a') as Haa by (intros <-; done).
    destruct (pi_apart _ _ _ (Forall2_lookup_lr _ _ _ _ _ _ (hi_pools _ _ Hi) Hk Hl) a a' Ha Ha' Haa); unfold a_hdr in *; lia.
  - destruct (hi_apart _ _ Hi k k' p p' Hkk Hk Hk'); lia.
Qed.

Lemma try_one h ls k p l p' ptr m' b0 size : heap_inv h ls -> mp h !! k = Some p -> ls !! k = Some l -> size_ok size ->
  p_map p' = p_map p -> mmap_size p' = mmap_size p -> ptr = p_map p + 32 * b0 + 8 -> pool_inv m' p' ((b0, size) :: l) ->
  (forall x, ~ ptr - 8 <= x < ptr - 8 + round_size size -> m' x = mem h x) ->
  (forall x, ptr <= x < ptr + size -> m' x = 0) ->
  malloc_post h ls size (Some ptr) (h <| mp := <[k := p']> (mp h) |> <| mem := m' |>).
Proof.
  intros Hi Hk Hl Hs E1 E2 -> Hp' Hfr Hz. set (h' := h <| mp := _ |> <| mem := m' |>). set (a0 := (b0, size)) in *.
  assert (heap_inv h' (<[k := a0 :: l]> ls)) as Hi'.
  { apply (heap_inv_pool h ls k p l); try done. intros x Hx. apply Hfr.
    destruct (pi_fits _ _ _ Hp' a0 ltac:(set_solver)) as (? & ? & ?). pose proof (pi_size _ _ _ Hp').
    destruct (round_size_bounds size Hs) as (_ & _ & ? & _). change (size_to_blocks (round_size size)) with (a_nr a0) in *. cbn in *. lia. }
  assert (forall ptr' s, alloc_at h' (<[k := a0 :: l]> ls) ptr' s <-> (ptr' = p_map p + 32 * b0 + 8 /\ s = size) \/ alloc_at h ls ptr' s) as Hat.
  { intros ptr' s. unfold h'. rewrite (alloc_at_pool h ls k p l), (alloc_at_split h ls k p l) by done. setoid_rewrite elem_of_cons. split.
    - intros [(a & [->|Ha] & ? & ?)|?]; [left; done|right; left; eauto|by right; right].
    - intros [[-> ->]|[(a & Ha & ? & ?)|?]]; [left; exists a0; auto|left; eauto|by right]. }
  assert (~ alloc_at h ls (p_map p + 32 * b0 + 8) size) as Hna.
  { intros [(a & Ha & Ep & Es)|(i & q & lq & a & Hne & Hq & Hlq & Ha & Ep & _)]%(alloc_at_split h ls k p l); try done.
    - assert (a = a0) as -> by (destruct a as [a1 a2]; unfold a0, a_hdr in *; cbn in *; subst; f_equal; lia).
      by destruct (proj1 (NoDup_cons _ _) (pi_nodup _ _ _ Hp')).
    - destruct (alloc_range h ls i q lq a Hi Hq Hlq Ha) as (Hsa & ? & ? & ?).
      destruct (alloc_range h' (<[k := a0 :: l]> ls) k p' (a0 :: l) a0 Hi') as (Hsz & ? & ? & ?).
      { unfold h', upd. cbn. apply list_lookup_insert_eq. by eapply lookup_lt_Some. }
      { apply list_lookup_insert_eq. by eapply lookup_lt_Some. } { set_solver. }
      unfold a_hdr in *. unfold size_ok in *. cbn in *. destruct (hi_apart _ _ Hi i k q p Hne Hq Hk); lia. }
  exists (<[k := a0 :: l]> ls). split; [done|]. split; [|done].
  intros ptr' s x Hal Hx. apply Hfr. assert ((ptr', s) <> (p_map p + 32 * b0 + 8, size)) as Hne by (intros [= -> ->]; done).
  destruct (alloc_disjoint h' _ ptr' s (p_map p + 32 * b0 + 8) size Hi'); [by apply Hat; right|by apply Hat; left|done|..];
    destruct Hal as (i & q & lq & a & Hq & Hlq & Ha & -> & ->); destruct (alloc_range h ls i q lq a Hi Hq Hlq Ha) as (? & ? & ? & ?); lia.
Qed.

(** A failed attempt only moves a search position. *)
Lemma try_fail h ls k p l p' size : heap_inv h ls -> mp h !! k = Some p -> ls !! k = Some l ->
  p_map p' = p_map p -> mmap_size p' = mmap_size p -> pool_inv (mem h) p' l ->
  let h' := h <| mp := <[k := p']> (mp h) |> <| mem := mem h |> in
  heap_inv h' ls /\ forall ptr s, alloc_at h' ls ptr s <-> alloc_at h ls ptr s.
Proof.
  intros Hi Hk Hl E1 E2 Hp' h'. assert (<[k := l]> ls = ls) as Els by by apply list_insert_id.
  split; [|intros ptr s]; rewrite <- Els at 1.
  - by apply (heap_inv_pool h ls k p l).
  - unfold h'. by rewrite (alloc_at_pool h ls k p l), (alloc_at_split h ls k p l).
Qed.

Lemma malloc_post_trans h ls h1 ls1 size r h2 : heap_inv h1 ls1 -> keeps h ls h1 ->
  (forall ptr s, alloc_at h1 ls1 ptr s <-> alloc_at h ls ptr s) ->
  malloc_post h1 ls1 size r h2 -> malloc_post h ls size r h2.
Proof.
  intros H1 K1 A1 (ls2 & H2 & K2 & Hr). exists ls2. split; [done|]. split.
  - intros ptr s x Ha Hx. rewrite (K2 ptr s), (K1 ptr s); try done. by apply A1.
  - destruct r as [ptr|].
    + destruct Hr as (A2 & Hn & Hz). split; [|by rewrite <- A1]. intros ptr' s. by rewrite A2, A1.
    + intros ptr s. by rewrite Hr, A1.
Qed.

Lemma try_pools_ok size fuel : size_ok size -> forall h ls i, heap_inv h ls -> 0 <= i ->
  exists r h', try_pools fuel h i size = Some (r, h') /\ last_pool h' = last_pool h /\ length (mp h') = length (mp h) /\
    malloc_post h ls size (snd <$> r) h' /\ (forall k ptr, r = Some (k, ptr) -> 0 <= k).
Proof.
  intros Hs. induction fuel as [|fuel IH]; intros h ls i Hi Hi0; cbn [try_pools].
  { exists None, h. repeat (split; [done|]). split; [|done]. exists ls. repeat (split; [done|]). done. }
  destruct (mp h !! Z.to_nat i) as [p|] eqn:Ep.
  2: { exists None, h. repeat (split; [done|]). split; [|done]. exists ls. repeat (split; [done|]). done. }
  destruct (Forall2_lookup_l _ _ _ _ _ (hi_pools _ _ Hi) Ep) as (l & El & Hp).
  destruct (smalloc_pool_ok (mem h) p l size Hp Hs) as (p' & r & m' & E & E1 & E2 & E3 & Hr).
  rewrite E. cbn [mbind option_bind]. destruct r as [ptr|].
  - destruct Hr as (b0 & Eptr & Hp' & Hfr & Hz). eexists _, _. split; [done|]. split; [done|].
    split; [unfold upd; cbn; apply length_insert|]. split; [by apply (try_one h ls _ p l p' ptr m' b0 size)|]. intros k ptr' [= <- <-]. done.
  - destruct Hr as [-> Hp']. destruct (try_fail h ls _ p l p' size Hi Ep El E1 E3 Hp') as [Hi1 Ha1]. cbv zeta in *.
    destruct (IH _ ls (i + 1) Hi1) as (r & h2 & E' & L' & M' & P' & K'); [lia|]. exists r, h2. split; [done|]. split; [done|].
    split; [rewrite M'; unfold upd; cbn; apply length_insert|]. split; [|done]. by apply (malloc_post_trans _ _ _ ls _ _ _ Hi1).
Qed.

(** *** New pools *)
Lemma busy_zero n b : busy (replicate n 0) b = false.
Proof.
  unfold busy. rewrite nth_lookup. destruct (replicate n 0 !! Z.to_nat (b / 32)) eqn:E; cbn; [|apply Z.testbit_0_l].
  apply lookup_replicate in E as [-> _]. apply Z.testbit_0_l.
Qed.

Lemma add_pool_ok ps size m p m' : mmap_ok -> size_ok size -> add_pool mmap ps size m = Some (p, m') ->
  pool_inv m' p [] /\ (forall q, q ∈ ps -> range_apart p q) /\
  forall x, ~ p_map p <= x < p_map p + mmap_size p -> m' x = m x.
Proof.
  intros Hmm Hs. unfold size_ok in Hs. unfold add_pool, HDR.
  rewrite (wrap_small 32 (size + 4)), (wrap_small 32 (size + 4 + 8)) by (unfold is_word; lia).
  set (a1 := if size + 4 + 8 <? INITIAL_SIZE then INITIAL_SIZE else size + 4 + 8).
  assert (size + 12 <= a1 /\ INITIAL_SIZE <= a1 < 2 ^ 31 + 12) as Ha1 by (unfold a1, INITIAL_SIZE; destruct (Z.ltb_spec (size + 4 + 8) (8192 * 1024)); lia).
  unfold INITIAL_SIZE in Ha1. change (SMALLOC_BPL - 1) with (2 ^ 10 - 1).
  change SMALLOC_BPL with 1024. rewrite land_mask_down by first [lia | apply wrap_range; lia].
  rewrite (wrap_small 32 (a1 + 1024 - 1)) by (unfold is_word; lia). change (2 ^ 10) with 1024.
  set (n := (a1 + 1024 - 1) / 1024). assert (8192 <= n < 2 ^ 21 + 2) as Hn by (split; [apply Z.div_le_lower_bound; lia|apply Z.div_lt_upper_bound; lia]).
  rewrite (Z.mul_comm 1024 n), Z.div_mul by lia. rewrite (wrap_small 32 (n * 1024 + n * 4)) by (unfold is_word; lia).
  destruct (mmap ps (n * 1024 + n * 4)) as [a|] eqn:Em; [|done]. cbn [mbind option_bind]. intros [= <- <-].
  destruct (Hmm _ _ _ Em) as (Ha0 & Hal & Hap). unfold SMALLOC_BPB. rewrite wrap_small by (unfold is_word; lia).
  split; [|split; [done|]].
  - split; cbn; try done; try lia.
    + split; cbn; [rewrite length_replicate; lia|lia|by apply Forall_replicate|done].
    + split; [done|]. rewrite (Z.div_mod a 4096), Hal by lia.
      replace (4096 * (a / 4096) + 0) with (1024 * (a / 4096) * 4) by lia. apply Z_mod_mult.
    + intros a'. by intros ?%elem_of_nil.
    + intros b _. rewrite busy_zero. split; [done|]. intros (a' & Ha' & _). by apply elem_of_nil in Ha'.
    + constructor.
    + intros a' a''. by intros ?%elem_of_nil.
    + intros a'. by intros ?%elem_of_nil.
  - cbn. intros x Hx. by apply memset0_frame.
Qed.

Lemma heap_inv_grow h ls p m' : heap_inv h ls -> pool_inv m' p [] -> (forall q, q ∈ mp h -> range_apart p q) ->
  (forall x, ~ p_map p <= x < p_map p + mmap_size p -> m' x = mem h x) -> length (mp h) + 1 <= MAX_POOLS ->
  let h' := h <| mp := mp h ++ [p] |> <| mem := m' |> in
  heap_inv h' (ls ++ [[]]) /\ keeps h ls h' /\ forall ptr s, alloc_at h' (ls ++ [[]]) ptr s <-> alloc_at h ls ptr s.
Proof.
  intros Hi Hp Hap Hm Hl h'. pose proof Hi as [Hps Hpa Hla Hmx]. pose proof (Forall2_length _ _ _ Hps) as Hlen. unfold h', upd.
  assert (forall q x, q ∈ mp h -> p_map q <= x < p_map q + mmap_size q -> m' x = mem h x) as Hfr.
  { intros q x Hq Hx. apply Hm. destruct (Hap q Hq); lia. }
  split; [|split].
  - split; cbn; [| |done|rewrite length_app; cbn; lia].
    + apply Forall2_app; [|by constructor]. apply Forall2_same_length_lookup. split; [done|]. intros i q lq Hq Hlq.
      apply (pool_inv_outside (mem h)); [|by eapply Forall2_lookup_lr]. intros x. apply Hfr. by eapply list_elem_of_lookup_2.
    + unfold range_apart in *. intros i j q q' Hij [Hq|[Hi' Hq]]%lookup_app_Some [Hq'|[Hj' Hq']]%lookup_app_Some.
      * eauto.
      * apply list_lookup_singleton_Some in Hq' as [_ <-]. specialize (Hap q ltac:(by eapply list_elem_of_lookup_2)). lia.
      * apply list_lookup_singleton_Some in Hq as [_ <-]. apply Hap. by eapply list_elem_of_lookup_2.
      * apply list_lookup_singleton_Some in Hq as [? _]. apply list_lookup_singleton_Some in Hq' as [? _]. lia.
  - intros ptr s x (k & q & lq & a & Hq & Hlq & Ha & -> & ->) Hx. cbn. apply (Hfr q); [by eapply list_elem_of_lookup_2|].
    destruct (alloc_range h ls k q lq a Hi Hq Hlq Ha) as (_ & ? & ? & ?). lia.
  - intros ptr s. unfold alloc_at. cbn. split; intros (k & q & lq & a & Hq & Hlq & Ha).
    + apply lookup_app_Some in Hlq as [Hlq|[Hk Hlq]].
      * exists k, q, lq, a. rewrite lookup_app_l in Hq by (rewrite Hlen; by eapply lookup_lt_Some). done.
      * apply list_lookup_singleton_Some in Hlq as [_ <-]. destruct Ha as [Ha _]. by apply elem_of_nil in Ha.
    + exists k, q, lq, a. by rewrite !lookup_app_l by (by eapply lookup_lt_Some).
Qed.

Lemma smalloc_loop_ok size (fuel : nat) : mmap_ok -> size_ok size -> forall h ls i, heap_inv h ls -> 0 <= i ->
  (if last_pool h =? 0 then 0 else 1) + (MAX_POOLS - length (mp h)) < fuel ->
  exists r h', smalloc_loop mmap fuel h i size = Some (r, h') /\ malloc_post h ls size r h'.
Proof.
  intros Hmm Hs. induction fuel as [|fuel IH]; intros h ls i Hi Hi0 Hf; [pose proof (hi_max _ _ Hi); case_match; lia|].
  cbn [smalloc_loop]. destruct (try_pools_ok size (length (mp h)) Hs h ls i Hi Hi0) as (r & h1 & E & L1 & M1 & P1 & K1).
  rewrite E. cbn [mbind option_bind]. destruct r as [[k ptr]|]; cbn in P1.
  - eexists _, _. split; [done|]. destruct P1 as (ls' & Hi' & Hk' & Hr). exists ls'. split; [|done].
    destruct Hi'. split; try done. cbn. by eapply K1.
  - destruct P1 as (ls1 & Hi1 & Hk1 & Ha1). rewrite L1. destruct (Z.eqb_spec (last_pool h) 0) as [Hl0|Hl0]; cbn [negb].
    + destruct (Z.ltb_spec MAX_POOLS (length (mp h1) + 1)).
      { exists None, h1. split; [done|]. by exists ls1. }
      destruct (add_pool mmap (mp h1) size (mem h1)) as [[p m']|] eqn:Ea; [|exists None, h1; split; [done|]; by exists ls1].
      destruct (add_pool_ok _ _ _ _ _ Hmm Hs Ea) as (Hp & Hap & Hm').
      destruct (heap_inv_grow h1 ls1 p m' Hi1 Hp Hap Hm') as (Hi2 & Hk2 & Ha2); [lia|].
      destruct (IH _ (ls1 ++ [[]]) (length (mp h1)) Hi2) as (r & h3 & E3 & P3); [lia| |].
      { unfold upd. cbn. rewrite length_app, L1, M1. cbn. destruct (Z.eqb_spec (last_pool h) 0); lia. }
      exists r, h3. split; [done|]. apply (malloc_post_trans h ls h1 ls1 size r h3 Hi1 Hk1 Ha1).
      exact (malloc_post_trans h1 ls1 _ _ size r h3 Hi2 Hk2 Ha2 P3).
    + set (h2 := h1 <| last_pool := 0 |>). assert (heap_inv h2 ls1) as Hi2 by (destruct Hi1; by split).
      destruct (IH h2 ls1 (Z.max i (length (mp h1))) Hi2) as (r & h3 & E3 & P3); [lia| |].
      { unfold h2, upd. cbn. rewrite M1. lia. }
      exists r, h3. split; [done|]. exact (malloc_post_trans h ls h2 ls1 size r h3 Hi2 Hk1 Ha1 P3).
Qed.

Lemma smalloc_ok h ls size : mmap_ok -> size_ok size -> heap_inv h ls ->
  exists r h', smalloc mmap h size = Some (r, h') /\ malloc_post h ls size r h'.
Proof.
  intros Hmm Hs Hi. apply smalloc_loop_ok; [done|done|done|apply Hi|]. pose proof (hi_max _ _ Hi). unfold MAX_POOLS. case_match; lia.
Qed.

(** *** Freeing *)
Lemma find_pool_ok ps ptr k p : forall i, ps !! k = Some p -> ptr_valid p ptr = true ->
  (forall j q, (j < k)%nat -> ps !! j = Some q -> ptr_valid q ptr = false) -> find_pool ps i ptr = Some ((i + k)%nat, p).
Proof.
  revert k. induction ps as [|q ps IH]; intros k i Hk Hv Hn; [done|]. destruct k as [|k]; cbn in *.
  - injection Hk as ->. rewrite Hv. by rewrite Nat.add_0_r.
  - rewrite (Hn 0%nat q) by (done || lia). rewrite (IH k (S i)); [f_equal; f_equal; lia|done|done|].
    intros j q' Hj Hq'. apply (Hn (S j)); [lia|done].
Qed.

Lemma sfree_ok h ls ptr size : heap_inv h ls -> alloc_at h ls ptr size ->
  exists h' ls', sfree h ptr = Some h' /\ heap_inv h' ls' /\ mem h' = mem h /\
    forall ptr' s, alloc_at h' ls' ptr' s <-> alloc_at h ls ptr' s /\ (ptr', s) <> (ptr, size).
Proof.
  intros Hi (k & p & l & a & Hk & Hl & Ha & -> & ->). destruct (alloc_range h ls k p l a Hi Hk Hl Ha) as (Hs & H1 & H2 & H3).
  pose proof (Forall2_lookup_lr _ _ _ _ _ _ (hi_pools _ _ Hi) Hk Hl) as Hp. pose proof (pi_map _ _ _ Hp) as [Hm0 _].
  assert (forall i q, mp h !! i = Some q -> ptr_valid q (a_hdr p a + 8) = true <-> i = k) as Hval.
  { intros i q Hq. destruct (Forall2_lookup_l _ _ _ _ _ (hi_pools _ _ Hi) Hq) as (lq & Hlq & Hpq).
    pose proof (po_nr _ (pi_ok _ _ _ Hpq)). pose proof (pi_size _ _ _ Hpq). unfold ptr_valid, SMALLOC_BPL, SMALLOC_BPB, SMALLOC_BPI.
    rewrite wrap_small by (unfold is_word; lia). rewrite andb_true_iff, Z.leb_le, Z.ltb_lt. split.
    - intros Hin. destruct (decide (i = k)) as [|Hne]; [done|]. unfold size_ok in Hs. destruct (hi_apart _ _ Hi i k q p Hne Hq Hk); lia.
    - intros ->. rewrite Hk in Hq. injection Hq as <-. destruct (pi_fits _ _ _ Hp a Ha) as (? & ? & _). unfold a_hdr in *. unfold size_ok in Hs. lia. }
  unfold sfree. destruct (Z.eqb_spec (a_hdr p a + 8) 0); [lia|].
  rewrite (find_pool_ok (mp h) _ k p 0 Hk); [|by apply (Hval k)|].
  2: { intros j q Hj Hq. apply not_true_iff_false. rewrite (Hval j q Hq). lia. }
  cbn [mbind option_bind]. apply elem_of_Permutation in Ha as [l' Hl'].
  destruct (sfree_pool_ok (mem h) p a l') as (p' & E & E1 & E2 & E3 & Hp'); [by apply (pool_inv_perm _ _ l)|].
  rewrite E. cbn [mbind option_bind]. set (h' := h <| mp := <[(0 + k)%nat := p']> (mp h) |>).
  pose proof (heap_inv_pool h ls k p l p' l' (mem h) Hi Hk Hl Hp' E1 E3 ltac:(done)) as Hi'.
  pose proof (fun ptr' s => alloc_at_pool h ls k p l p' l' (mem h) ptr' s Hi Hk Hl E1) as Hat.
  change (h <| mp := <[k := p']> (mp h) |> <| mem := mem h |>) with h' in *.
  exists h', (<[k := l']> ls). split; [done|]. split; [done|]. split; [done|]. intros ptr' s. rewrite Hat, (alloc_at_split h ls k p l) by done.
  assert (NoDup (a :: l')) as [Hna _]%NoDup_cons by (rewrite <- Hl'; apply Hp). setoid_rewrite Hl'. setoid_rewrite elem_of_cons. split.
  - intros [(a' & Ha' & -> & ->)|(i & q & lq & a' & Hne & Hq & Hlq & Ha' & -> & ->)].
    + split; [left; eauto|]. intros [= Ep Es]. apply Hna. replace a with a'; [done|]. destruct a, a'. unfold a_hdr in Ep. cbn in *. f_equal; [lia|done].
    + split; [right; eauto 10|]. intros [= Ep Es]. destruct (alloc_range h ls i q lq a' Hi Hq Hlq Ha') as (Hs' & ? & ? & ?).
      unfold size_ok in *. destruct (hi_apart _ _ Hi i k q p Hne Hq Hk); lia.
  - intros [[(a' & [->|Ha'] & -> & ->)|?] Hne]; [done|left; eauto|by right].
Qed.

(** ** Runs *)

(** The heap and the live allocations, as pointers with the size asked for.  A caller frees
    what is live and writes to what it owns. *)
Inductive sstep : heap * gset (Z * Z) -> heap * gset (Z * Z) -> Prop :=
| step_malloc h R size r h' : size_ok size -> smalloc mmap h size = Some (r, h') ->
    sstep (h, R) (h', match r with Some ptr => {[ (ptr, size) ]} ∪ R | None => R end)
| step_free h R ptr size h' : (ptr, size) ∈ R -> sfree h ptr = Some h' -> sstep (h, R) (h', R ∖ {[ (ptr, size) ]})
| step_store h R ptr size x v : (ptr, size) ∈ R -> ptr <= x < ptr + size ->
    sstep (h, R) (h <| mem := fun y => if y =? x then v else mem h y |>, R).

Definition run_inv (s : heap * gset (Z * Z)) : Prop :=
  exists ls, heap_inv s.1 ls /\ forall ptr size, (ptr, size) ∈ s.2 <-> alloc_at s.1 ls ptr size.

Lemma heap_inv_store h ls ptr size x v : heap_inv h ls -> alloc_at h ls ptr size -> ptr <= x < ptr + size ->
  heap_inv (h <| mem := fun y => if y =? x then v else mem h y |>) ls.
Proof.
  intros Hi Hat Hx. pose proof Hi as [Hps Hap Hla Hmx]. unfold upd. split; cbn; try done.
  apply Forall2_same_length_lookup. split; [by eapply Forall2_length|]. intros k p l Hk Hl.
  apply (pool_inv_frame (mem h)); [|by eapply Forall2_lookup_lr]. intros y (a & Ha & Hy & Hny).
  destruct (Z.eqb_spec y x) as [->|]; [|done]. exfalso.
  assert (alloc_at h ls (a_hdr p a + 8) a.2) as Hat' by (by exists k, p, l, a).
  destruct (decide ((ptr, size) = (a_hdr p a + 8, a.2))) as [[= -> ->]|Hne]; [lia|].
  destruct Hat as (k' & p' & l' & a' & Hk' & Hl' & Ha' & -> & ->).
  destruct (alloc_range h ls k' p' l' a' Hi Hk' Hl' Ha') as (_ & _ & _ & ?).
  destruct (alloc_disjoint h ls (a_hdr p' a' + 8) a'.2 (a_hdr p a + 8) a.2 Hi); [by exists k', p', l', a'|done|done|lia|lia].
Qed.

Lemma sstep_inv s s' : mmap_ok -> run_inv s -> sstep s s' -> run_inv s'.
Proof.
  intros Hmm (ls & Hi & HR) Hst. destruct Hst as [h R size r h' Hs E|h R ptr size h' Hin E|h R ptr size x v Hin Hx]; cbn [fst snd] in *.
  - destruct (smalloc_ok h ls size Hmm Hs Hi) as (r' & h'' & E' & ls' & Hi' & _ & Hr). rewrite E in E'. injection E' as <- <-.
    exists ls'. split; [done|]. destruct r as [ptr|]; cbn; [|intros; by rewrite HR, Hr].
    intros ptr' s. destruct Hr as [Hr _]. rewrite Hr, <- HR, elem_of_union, elem_of_singleton. naive_solver.
  - destruct (sfree_ok h ls ptr size Hi) as (h'' & ls' & E' & Hi' & _ & Hr); [by apply HR|]. rewrite E in E'. injection E' as <-.
    exists ls'. split; [done|]. intros ptr' s. cbn. rewrite Hr, <- HR, elem_of_difference, elem_of_singleton. done.
  - exists ls. split; [|done]. cbn. apply (heap_inv_store h ls ptr size); [done|by apply HR|done].
Qed.

Lemma rtc_run_inv s s' : mmap_ok -> run_inv s -> rtc sstep s s' -> run_inv s'.
Proof. intros Hmm Hs. induction 1 as [|s s1 s' Hst _ IH]; [done|]. apply IH. by apply (sstep_inv s). Qed.

Lemma sinit_inv m h : mmap_ok -> sinit mmap m = Some h -> run_inv (h, ∅).
Proof.
  intros Hmm. unfold sinit. destruct (add_pool mmap [] INITIAL_SIZE m) as [[p m']|] eqn:E; [|done]. cbn [mbind option_bind]. intros [= <-].
  assert (size_ok INITIAL_SIZE) as Hs by (unfold size_ok, INITIAL_SIZE; lia).
  destruct (add_pool_ok _ _ _ _ _ Hmm Hs E) as (Hp & _ & _). clear E Hs.
  exists [[]]. split.
  - split; cbn; try done; [constructor; [done|constructor]|]. intros i j q q' Hij [? _]%list_lookup_singleton_Some [? _]%list_lookup_singleton_Some. lia.
  - intros ptr size. cbn. split; [set_solver|]. intros (k & q & l & a & _ & [_ <-]%list_lookup_singleton_Some & Ha & _). by apply elem_of_nil in Ha.
Qed.

(** C9: The allocator keeps what it promises to its callers, in any state that allocations, frees
    of live pointers and writes to live memory lead to: live allocations do not overlap, with
    their headers and red zones; an allocation trips no assertion, and what it returns is
    zeroed, new and leaves the contents of the others alone; a live pointer can be freed.
    Assumed: sizes are below [2^31], [mmap] returns page-aligned memory apart from the other
    pools, and the platform makes a search that leaves its word find it busy ([platform_ok]). *)
Theorem smalloc_heap_safe m h0 h R :
  mmap_ok -> sinit mmap m = Some h0 -> rtc sstep (h0, ∅) (h, R) ->
  (forall ptr size ptr' size', (ptr, size) ∈ R -> (ptr', size') ∈ R -> (ptr, size) <> (ptr', size') ->
     ptr + size + 4 <= ptr' - 8 \/ ptr' + size' + 4 <= ptr - 8) /\
  (forall size, size_ok size -> exists r h', smalloc mmap h size = Some (r, h') /\
     (forall ptr' size' x, (ptr', size') ∈ R -> ptr' <= x < ptr' + size' -> mem h' x = mem h x) /\
     forall ptr, r = Some ptr -> ~ (ptr, size) ∈ R /\ forall x, ptr <= x < ptr + size -> mem h' x = 0) /\
  (forall ptr size, (ptr, size) ∈ R -> exists h', sfree h ptr = Some h' /\ mem h' = mem h).
Proof.
  intros Hmm H0 Hrun. assert (run_inv (h, R)) as (ls & Hi & HR).
  { by apply (rtc_run_inv (h0, ∅)); [|eapply sinit_inv|]. }
  cbn [fst snd] in *. split; [|split].
  - intros ptr size ptr' size' Hp Hp' Hne. apply HR in Hp, Hp'.
    destruct Hp as (k & p & l & a & Hk & Hl & Ha & Ep & Es). destruct (alloc_range h ls k p l a Hi Hk Hl Ha) as (_ & _ & _ & ?).
    destruct Hp' as (k' & p' & l' & a' & Hk' & Hl' & Ha' & Ep' & Es'). destruct (alloc_range h ls k' p' l' a' Hi Hk' Hl' Ha') as (_ & _ & _ & ?).
    destruct (alloc_disjoint h ls ptr size ptr' size' Hi); [by exists k, p, l, a|by exists k', p', l', a'|done|subst; lia|subst; lia].
  - intros size Hs. destruct (smalloc_ok h ls size Hmm Hs Hi) as (r & h' & E & ls' & _ & Hk & Hr). exists r, h'. split; [done|]. split.
    + intros ptr' size' x Hin Hx. by apply (Hk ptr' size'); [apply HR|].
    + intros ptr ->. destruct Hr as (_ & Hn & Hz). by rewrite HR.
  - intros ptr size Hin. destruct (sfree_ok h ls ptr size Hi) as (h' & _ & E & _ & Em & _); [by apply HR|]. eauto.
Qed.

Lemma try_pools_frame fuel size : forall h i r h1, try_pools fuel h i size = Some (r, h1) ->
  last_pool h1 = last_pool h /\ length (mp h1) = length (mp h).
Proof.
  induction fuel as [|fuel IH]; cbn [try_pools]; intros h i r h1 E; [by injection E as <- <-|].
  destruct (mp h !! Z.to_nat i) as [p|]; [|by injection E as <- <-].
  destruct (smalloc_pool p size (mem h)) as [[[p' [ptr|]] m']|]; cbn [mbind option_bind] in E; [|apply IH in E|done].
  - injection E as <- <-. split; [done|]. apply length_insert.
  - destruct E as [-> ->]. split; [done|]. apply length_insert.
Qed.

(** [smalloc] does not look again at the pools before the last one it used: once the pools
    from [last_pool] on have no room and no new pool can be had it fails, however much is free
    in the pools before (it resets [last_pool] but not the index of the search). *)
Theorem smalloc_skips_earlier_pools h h1 size :
  0 < last_pool h <= length (mp h) -> try_pools (length (mp h)) h (last_pool h) size = Some (None, h1) ->
  add_pool mmap (mp h1) size (mem h1) = None ->
  smalloc mmap h size = Some (None, h1 <| last_pool := 0 |>).
Proof.
  intros Hl E Ea. destruct (try_pools_frame _ _ _ _ _ _ E) as [El Em]. unfold smalloc. change 200%nat with (S (S 198)). generalize 198%nat. intros fuel.
  cbn [smalloc_loop]. rewrite E. cbn [mbind option_bind]. rewrite El. destruct (Z.eqb_spec (last_pool h) 0) as [|_]; [lia|]. cbn [negb].
  unfold upd at 1 2. cbn [mp last_pool mem].
  assert (forall n k, Z.of_nat (length (mp h1)) <= k -> try_pools n (h1 <| last_pool := 0 |>) k size = Some (None, h1 <| last_pool := 0 |>)) as Ht.
  { intros n k Hk. destruct n; [done|]. cbn [try_pools]. unfold upd at 1. cbn [mp]. by rewrite lookup_ge_None_2 by lia. }
  rewrite Ht by lia. cbn [mbind option_bind]. unfold upd at 1. cbn [last_pool negb Z.eqb].
  destruct (MAX_POOLS <? _); [done|]. unfold upd at 1 2. cbn [mp mem]. by rewrite Ea.
Qed.
End heap.

End platform.

(** ** Examples *)

(** The portable [ffz] with longs of 64 bits, shift counts modulo 32. *)
Definition shl_mod (x n : Z) : Z := x .<< (n mod 32).
Lemma mod_platform_ok : platform_ok 63 shl_mod.
Proof.
  assert (forallb (fun start => let idx := u32 (63 + start) in
    (32 <=? idx) && (idx <? 2 ^ 31) && Z.testbit (the_mask shl_mod (u32 (32 - idx)) idx) 31) (seqZ 2 30) = true) as H
    by (vm_compute; reflexivity).
  intros start Hs. pose proof (proj1 (forallb_forall _ _) H start) as Hm. cbv beta zeta in Hm. cbv zeta.
  destruct (andb_prop _ _ (Hm ltac:(apply list_elem_of_In, elem_of_seqZ; lia))) as [[H1 H2]%andb_prop H3].
  split; [lia|done].
Qed.

(** Mappings above all others. *)
Definition mmap_above (ps : list pool) (size : Z) : option Z :=
  Some (4096 * (1 + foldr (fun p t => Z.max (p_map p + mmap_size p) t) 0 ps)).

Lemma mmap_above_ok : mmap_ok mmap_above.
Proof.
  intros ps size a [= <-]. set (top := foldr _ 0 ps).
  assert (0 <= top /\ forall p, p ∈ ps -> p_map p + mmap_size p <= top) as [H0 Ht].
  { unfold top. clear top. induction ps as [|p ps [IH0 IH]]; cbn; [split; [lia|]; by intros ? ?%elem_of_nil|].
    split; [lia|]. intros q [->|Hq]%elem_of_cons; [lia|]. specialize (IH q Hq). lia. }
  split; [lia|]. split; [rewrite Z.mul_comm; apply Z_mod_mult|]. intros p Hp. right. specialize (Ht p Hp). lia.
Qed.

Lemma smalloc_heap_safe_witness :
  exists h0 h ptr, sinit mmap_above (fun _ => 7) = Some h0 /\ smalloc 63 shl_mod mmap_above h0 20 = Some (Some ptr, h) /\
    (forall x, ptr <= x < ptr + 20 -> mem h x = 0) /\ exists h', sfree shl_mod h ptr = Some h'.
Proof.
  assert ((fun o : option heap => if o is Some _ then true else false) (sinit mmap_above (fun _ => 7)) = true) as Hi by (vm_compute; reflexivity).
  assert (forall h0, sinit mmap_above (fun _ => 7) = Some h0 ->
    (if smalloc 63 shl_mod mmap_above h0 20 is Some (None, _) then true else false) = false) as Hn.
  { intros h0 E0. apply (f_equal (fun o => if o is Some h0 then if smalloc 63 shl_mod mmap_above h0 20 is Some (None, _) then true else false else true)) in E0.
    rewrite <- E0. vm_compute. reflexivity. }
  destruct (sinit mmap_above (fun _ => 7)) as [h0|] eqn:E0; [|discriminate Hi]. specialize (Hn h0 eq_refl).
  assert (size_ok 20) as Hs by (unfold size_ok; lia).
  destruct (smalloc_heap_safe 63 shl_mod mod_platform_ok mmap_above _ h0 h0 ∅ mmap_above_ok E0 (rtc_refl _ _)) as (_ & Hm & _).
  destruct (Hm 20 Hs) as (r & h & E & _ & Hr). destruct r as [ptr|].
  - exists h0, h, ptr. split; [done|]. split; [done|]. split; [by apply Hr|].
    destruct (smalloc_heap_safe 63 shl_mod mod_platform_ok mmap_above _ h0 h ({[ (ptr, 20) ]} ∪ ∅) mmap_above_ok E0) as (_ & _ & Hf).
    + apply rtc_once. exact (step_malloc 63 shl_mod mmap_above h0 ∅ 20 (Some ptr) h Hs E).
    + destruct (Hf ptr 20) as (h' & E' & _); [set_solver|]. by exists h'.
  - exfalso. rewrite E in Hn. discriminate Hn.
Defined.

(** Two pools of one word: the first is free, the second is full. *)
Definition two_pools (last : Z) : heap :=
  Build_heap [Build_pool 4096 [0] 32 1 0 1028; Build_pool 8192 [ALL1] 0 1 0 1028] last (fun _ => 0).

Lemma smalloc_skips_earlier_pools_witness :
  option_map fst (smalloc 63 shl_mod (fun _ _ => None) (two_pools 0) 20) = Some (Some 4104) /\
  option_map fst (smalloc 63 shl_mod (fun _ _ => None) (two_pools 1) 20) = Some None.
Proof.
  split; [vm_compute; reflexivity|].
  rewrite (smalloc_skips_earlier_pools 63 shl_mod (fun _ _ => None) (two_pools 1) (two_pools 1) 20); [reflexivity|cbn; lia|reflexivity|reflexivity].
Defined.

(** The word has a clear bit, but none from bit 2 on: the search goes on past the word, and
    [blocks_iter] then shifts by more than the width of an [unsigned int]. *)
Example find_next_zero_leaves_word : find_next_zero 63 0xfffffffe 2 = Some 65.
Proof. reflexivity. Qed.
End Smalloc.
