(* ===== verification/Stat.v ===== *)
(** * Sample statistics, their merge, and averaged logs ([src/stat.c], [src/time.c])

    Every latency and bandwidth sample goes into a running summary
    ([add_stat_sample]); the summaries of the jobs of a group are merged for the
    report ([sum_stat]); with [log_avg_msec] the logs get one averaged entry per
    window ([add_log_sample]).  The [double]s of the code are modelled by the
    rational numbers they approximate. *)
From S2P Require Import Prelude Types.
From Stdlib Require Import QArith Qround Qfield Lqa.
Local Open Scope Z_scope.

Module Stat.
Import Types(fio_ddir, DDIR_READ, DDIR_WRITE, ddir_rw).

(** ** [src/time.c] *)
Record timeval := { tv_sec : Z; tv_usec : Z }.

Definition utime_since (s e : timeval) : Z :=
  let sec := tv_sec e - tv_sec s in
  let usec := tv_usec e - tv_usec s in
  let '(sec, usec) := if (0 <? sec) && (usec <? 0) then (sec - 1, usec + 1000000) else (sec, usec) in
  if (sec <? 0) || ((sec =? 0) && (usec <? 0)) then 0 else u64 (sec * 1000000 + usec).

Definition mtime_since (s e : timeval) : Z :=
  let sec := tv_sec e - tv_sec s in
  let usec := tv_usec e - tv_usec s in
  let '(sec, usec) := if (0 <? sec) && (usec <? 0) then (sec - 1, usec + 1000000) else (sec, usec) in
  if (sec <? 0) || ((sec =? 0) && (usec <? 0)) then 0
  else u64 (u64 (sec * 1000) + u64 usec / 1000).

(** ** Running summaries *)
Record io_stat := {
  max_val : Z;
  min_val : Z;
  samples : Z;
  mean : Q;
  SS : Q }.                           (* S in the source *)

#[global] Instance eta_io_stat : Eta io_stat := fun s =>
  Build_io_stat (max_val s) (min_val s) (samples s) (mean s) (SS s).

Definition add_stat_sample (st : io_stat) (data : Z) : io_stat :=
  let val := inject_Z data in
  let st := if max_val st <? data then st <| max_val := data |> else st in
  let st := if data <? min_val st then st <| min_val := data |> else st in
  let delta := (val - mean st)%Q in
  let st := if Qeq_bool delta 0 then st
            else
              let st := st <| mean := (mean st + delta / (inject_Z (samples st) + 1))%Q |> in
              st <| SS := (SS st + delta * (val - mean st))%Q |> in
  st <| samples := u64 (samples st + 1) |>.

Definition reset_io_stat (ios : io_stat) : io_stat := Build_io_stat 0 0 0 0 0.

(** As [init_thread_stat] leaves it. *)
Definition init_io_stat : io_stat := Build_io_stat 0 (2 ^ 64 - 1) 0 0 0.

Definition sum_stat (dst src : io_stat) (nr : Z) : io_stat :=
  if samples src =? 0 then dst
  else
    let dst := dst <| min_val := Z.min (min_val dst) (min_val src) |> in
    let dst := dst <| max_val := Z.max (max_val dst) (max_val src) |> in
    let '(m, s) :=
      if nr =? 1 then (mean src, SS src)
      else
        let delta := (mean src - mean dst)%Q in
        let n := inject_Z (u64 (samples dst + samples src)) in
        (((mean src * inject_Z (samples src) + mean dst * inject_Z (samples dst)) / n)%Q,
         (SS src + SS dst + delta * delta * inject_Z (u64 (samples dst * samples src)) / n)%Q) in
    dst <| samples := u64 (samples dst + samples src) |> <| mean := m |> <| SS := s |>.

(** Minimum, maximum, mean and the square of the deviation [calc_lat] reports. *)
Definition calc_lat (st : io_stat) : option (Z * Z * Q * Q) :=
  if samples st =? 0 then None
  else Some (min_val st, max_val st, mean st, if 1 <? samples st then (SS st / (inject_Z (samples st) - 1))%Q else 0%Q).

(** ** Logs *)
Record io_sample := { s_time : Z; s_val : Z; s_ddir : fio_ddir; s_bs : Z }.

Record io_log := {
  log : list io_sample;
  max_samples : Z;
  avg_msec : Z;
  avg_last : Z;
  avg_read : io_stat;                 (* avg_window[DDIR_READ] *)
  avg_write : io_stat }.              (* avg_window[DDIR_WRITE] *)

#[global] Instance eta_io_log : Eta io_log := fun l =>
  Build_io_log (log l) (max_samples l) (avg_msec l) (avg_last l) (avg_read l) (avg_write l).

Definition __add_log_sample (l : io_log) (val : Z) (ddir : fio_ddir) (bs t : Z) : io_log :=
  let l := if Z.of_nat (length (log l)) =? 0 then l <| avg_last := t |> else l in
  let l := if Z.of_nat (length (log l)) =? max_samples l then l <| max_samples := max_samples l * 2 |> else l in
  l <| log := log l ++ [Build_io_sample t val ddir bs] |>.

(** [mean + 0.50], converted to an integer. *)
Definition round_mean (s : io_stat) : Z := Qfloor (mean s + (1 # 2))%Q.

Definition add_window (l : io_log) (ddir : fio_ddir) (val : Z) : io_log :=
  match ddir with
  | DDIR_READ => l <| avg_read := add_stat_sample (avg_read l) val |>
  | _ => l <| avg_write := add_stat_sample (avg_write l) val |>
  end.

(** [elapsed]: the time since the start of the job. *)
Definition add_log_sample (l : io_log) (val : Z) (ddir : fio_ddir) (bs elapsed : Z) : io_log :=
  if negb (ddir_rw ddir) then l
  else if avg_msec l =? 0 then __add_log_sample l val ddir bs elapsed
  else
    let l := add_window l ddir val in
    if u64 (elapsed - avg_last l) <? avg_msec l then l
    else
      let l := if negb (samples (avg_read l) =? 0)
               then __add_log_sample l (round_mean (avg_read l)) DDIR_READ 0 elapsed else l in
      let l := if negb (samples (avg_write l) =? 0)
               then __add_log_sample l (round_mean (avg_write l)) DDIR_WRITE 0 elapsed else l in
      l <| avg_read := reset_io_stat (avg_read l) |> <| avg_write := reset_io_stat (avg_write l) |>
        <| avg_last := elapsed |>.

(** ** What a summary stands for *)
Fixpoint qsum (l : list Z) : Q := match l with [] => 0%Q | x :: l => (inject_Z x + qsum l)%Q end.
Fixpoint qsq (l : list Z) : Q := match l with [] => 0%Q | x :: l => (inject_Z x * inject_Z x + qsq l)%Q end.
Definition qlen (l : list Z) : Q := inject_Z (length l).

(** The arithmetic mean, and the sum of the squares of the deviations from [m]. *)
Definition qmean (l : list Z) : Q := (qsum l / qlen l)%Q.
Fixpoint sqdev (m : Q) (l : list Z) : Q :=
  match l with [] => 0%Q | x :: l => ((inject_Z x - m) * (inject_Z x - m) + sqdev m l)%Q end.

Record summary (st : io_stat) (l : list Z) : Prop := {
  su_n : samples st = length l;
  su_mean : mean st == qmean l;
  su_S : SS st == sqdev (qmean l) l }.
Definition extremes (st : io_stat) (l : list Z) : Prop :=
  max_val st = foldr Z.max 0 l /\ min_val st = foldr Z.min (2 ^ 64 - 1) l.

Section summaries.
Implicit Types (l : list Z) (x : Z) (st : io_stat).
Local Open Scope Q_scope.

Lemma qlen_app l l' : qlen (l ++ l') == qlen l + qlen l'.
Proof. unfold qlen. rewrite length_app, Nat2Z.inj_add, inject_Z_plus. reflexivity. Qed.
Lemma qsum_app l l' : qsum (l ++ l') == qsum l + qsum l'.
Proof. induction l as [|x l IH]; cbn; [ring|]. rewrite IH. ring. Qed.
Lemma qsq_app l l' : qsq (l ++ l') == qsq l + qsq l'.
Proof. induction l as [|x l IH]; cbn; [ring|]. rewrite IH. ring. Qed.
Lemma qlen_nonneg l : 0 <= qlen l.
Proof. unfold qlen. change 0 with (inject_Z 0). rewrite <- Zle_Qle. lia. Qed.
Lemma qlen_pos l : l <> [] -> 0 < qlen l.
Proof. destruct l; [done|]. intros _. unfold qlen. change 0 with (inject_Z 0). rewrite <- Zlt_Qlt. cbn. lia. Qed.

#[local] Instance sqdev_proper : Proper (Qeq ==> eq ==> Qeq) sqdev.
Proof. intros m m' Hm l _ <-. induction l as [|x l IH]; cbn; [reflexivity|]. by rewrite IH, Hm. Qed.

Lemma sqdev_expand m l : sqdev m l == qsq l - (1 + 1) * m * qsum l + qlen l * m * m.
Proof.
  induction l as [|x l IH]; [cbn; unfold qlen; cbn; ring|]. cbn [sqdev qsq qsum]. rewrite IH.
  change (x :: l) with ([x] ++ l). rewrite qlen_app. change (qlen [x]) with 1. ring.
Qed.
(** The deviations from the mean. *)
Lemma sqdev_mean l : sqdev (qmean l) l == qsq l - qsum l * qsum l / qlen l.
Proof.
  rewrite sqdev_expand. unfold qmean. destruct l as [|x l]; [cbn; reflexivity|].
  pose proof (qlen_pos (x :: l) ltac:(done)). field. lra.
Qed.

Lemma qmean_nil : qmean [] == 0. Proof. reflexivity. Qed.

Lemma qmean_app l l' : (l <> [] \/ l' <> []) -> qmean (l ++ l') == (qmean l' * qlen l' + qmean l * qlen l) / (qlen l + qlen l').
Proof.
  intros Hne. destruct l as [|x l], l' as [|y l']; [naive_solver|..].
  - cbn [app]. rewrite qmean_nil. change (qlen []) with 0. pose proof (qlen_pos (y :: l') ltac:(done)). field. lra.
  - rewrite app_nil_r, qmean_nil. change (qlen []) with 0. pose proof (qlen_pos (x :: l) ltac:(done)). field. lra.
  - unfold qmean. rewrite qsum_app, qlen_app. pose proof (qlen_pos (x :: l) ltac:(done)). pose proof (qlen_pos (y :: l') ltac:(done)).
    field. repeat split; lra.
Qed.

(** The parallel algorithm for the sum of squares. *)
Lemma sqdev_app l l' : (l <> [] \/ l' <> []) ->
  sqdev (qmean (l ++ l')) (l ++ l') ==
  sqdev (qmean l') l' + sqdev (qmean l) l +
  (qmean l' - qmean l) * (qmean l' - qmean l) * (qlen l * qlen l') / (qlen l + qlen l').
Proof.
  intros Hne. destruct l as [|x l], l' as [|y l']; [naive_solver|..].
  - cbn [app]. change (sqdev (qmean []) []) with 0. rewrite qmean_nil. change (qlen []) with 0. pose proof (qlen_pos (y :: l') ltac:(done)). field. lra.
  - rewrite app_nil_r. change (sqdev (qmean []) []) with 0. rewrite qmean_nil. change (qlen []) with 0. pose proof (qlen_pos (x :: l) ltac:(done)). field. lra.
  - rewrite !sqdev_mean. unfold qmean. rewrite qsum_app, qlen_app, qsq_app.
    pose proof (qlen_pos (x :: l) ltac:(done)). pose proof (qlen_pos (y :: l') ltac:(done)). field. repeat split; lra.
Qed.

Lemma add_stat_sample_mean st l x : summary st l -> (Z.of_nat (length l) + 1 < 2 ^ 64)%Z ->
  summary (add_stat_sample st x) (l ++ [x]).
Proof.
  intros [Hn Hm HS] Hl. unfold add_stat_sample.
  set (st1 := if Z.ltb (max_val st) x then _ else st).
  assert (samples st1 = samples st /\ mean st1 = mean st /\ SS st1 = SS st) as (A1 & A2 & A3) by (unfold st1; by case_match).
  set (st2 := if Z.ltb x (min_val st1) then _ else st1).
  assert (samples st2 = samples st /\ mean st2 = mean st /\ SS st2 = SS st) as (B1 & B2 & B3) by (unfold st2; by case_match).
  clearbody st2. clear st1 A1 A2 A3. set (d := inject_Z x - mean st2).
  assert (inject_Z (samples st2) = qlen l) as Eq by (unfold qlen; by rewrite B1, Hn).
  assert (qlen [x] == 1) as E1 by reflexivity. assert (qmean [x] == inject_Z x) as Ex by (unfold qmean; cbn; rewrite E1; field).
  pose proof (qlen_nonneg l) as Hq. pose proof (qmean_app l [x] ltac:(by right)) as Hma. pose proof (sqdev_app l [x] ltac:(by right)) as Hsa.
  rewrite E1, Ex in Hma, Hsa. assert (sqdev (inject_Z x) [x] == 0) as E0 by (cbn; ring).
  assert (u64 (samples st2 + 1) = Z.of_nat (length (l ++ [x]))) as En.
  { rewrite B1, Hn, length_app. cbn. rewrite wrap_small; [lia|]. unfold is_word. lia. }
  destruct (Qeq_bool d 0) eqn:Ed.
  - apply Qeq_bool_iff in Ed. unfold d in Ed. rewrite B2, Hm in Ed. split; unfold upd; cbn; [done|..].
    + rewrite B2, Hm, Hma. assert (inject_Z x == qmean l) as -> by lra. field. lra.
    + rewrite B3, HS, Hsa, E0. assert (inject_Z x == qmean l) as -> by lra. field. lra.
  - split; unfold upd; cbn; [done|..]; rewrite ?B2, ?B3, Eq, ?HS; unfold d; rewrite ?B2, Hm.
    + rewrite Hma. field. lra.
    + rewrite Hsa, E0. field. lra.
Qed.

Lemma foldr_max_out a b l : foldr Z.max (Z.max a b) l = Z.max a (foldr Z.max b l).
Proof. induction l as [|y l IH]; cbn; [done|]. rewrite IH. lia. Qed.
Lemma foldr_min_out a b l : foldr Z.min (Z.min a b) l = Z.min a (foldr Z.min b l).
Proof. induction l as [|y l IH]; cbn; [done|]. rewrite IH. lia. Qed.

Lemma add_stat_sample_extremes st l x : extremes st l -> extremes (add_stat_sample st x) (l ++ [x]).
Proof.
  intros [Hmx Hmn]. unfold extremes. rewrite !foldr_app. cbn [foldr].
  rewrite foldr_max_out, foldr_min_out, <- Hmx, <- Hmn. unfold add_stat_sample.
  set (st1 := if Z.ltb (max_val st) x then _ else st).
  assert (max_val st1 = Z.max x (max_val st) /\ min_val st1 = min_val st) as [A1 A2].
  { unfold st1, upd. destruct (Z.ltb_spec (max_val st) x); cbn; lia. }
  clearbody st1. set (st2 := if Z.ltb x (min_val st1) then _ else st1).
  assert (max_val st2 = Z.max x (max_val st) /\ min_val st2 = Z.min x (min_val st)) as [B1 B2].
  { unfold st2, upd. destruct (Z.ltb_spec x (min_val st1)); cbn; lia. }
  clearbody st2. destruct (Qeq_bool _ 0); unfold upd; cbn; done.
Qed.

Lemma sum_stat_mean dst src l l' nr : summary dst l -> summary src l' ->
  (Z.of_nat (length l) + Z.of_nat (length l') < 2 ^ 64)%Z -> (Z.of_nat (length l) * Z.of_nat (length l') < 2 ^ 64)%Z ->
  (nr <> 1%Z \/ l = []) -> summary (sum_stat dst src nr) (l ++ l').
Proof.
  intros [Hn Hm HS] [Hn' Hm' HS'] Hl Hp Hnr. unfold sum_stat. destruct (Z.eqb_spec (samples src) 0) as [E|E].
  { assert (l' = []) as -> by (destruct l'; [done|rewrite Hn' in E; cbn in E; lia]). rewrite app_nil_r. done. }
  assert (l' <> []) as Hne by (intros ->; rewrite Hn' in E; done).
  assert (u64 (samples dst + samples src) = Z.of_nat (length (l ++ l'))) as En.
  { rewrite Hn, Hn', length_app. rewrite wrap_small; [lia|]. unfold is_word. lia. }
  assert (inject_Z (u64 (samples dst + samples src)) == qlen l + qlen l') as Eq by (rewrite En; apply qlen_app).
  assert (inject_Z (u64 (samples dst * samples src)) == qlen l * qlen l') as Ep.
  { rewrite Hn, Hn', wrap_small by (unfold is_word; lia). unfold qlen. by rewrite inject_Z_mult. }
  destruct (Z.eqb_spec nr 1) as [->|Hnr1].
  - destruct Hnr as [| ->]; [done|]. split; unfold upd; cbn; done.
  - unfold upd. split; cbn; [done|..].
    + rewrite Hm, Hm', Eq, Hn, Hn'. rewrite qmean_app by (by right). reflexivity.
    + rewrite Hm, Hm', HS, HS', Eq, Ep. rewrite sqdev_app by (by right). reflexivity.
Qed.

Lemma sum_stat_extremes dst src l l' nr : extremes dst l -> extremes src l' -> samples src = Z.of_nat (length l') ->
  extremes (sum_stat dst src nr) (l ++ l').
Proof.
  intros [Hmx Hmn] [Hmx' Hmn'] Hn. unfold sum_stat, extremes. destruct (Z.eqb_spec (samples src) 0) as [E|E].
  { assert (l' = []) as -> by (destruct l'; [done|rewrite Hn in E; cbn in E; lia]). by rewrite app_nil_r. }
  assert (foldr Z.max 0%Z (l ++ l') = Z.max (foldr Z.max 0 l) (foldr Z.max 0 l'))%Z as ->.
  { rewrite foldr_app. clear. assert (0 <= foldr Z.max 0 l')%Z by (induction l'; cbn; lia). induction l as [|x l IH]; cbn; [lia|].
    rewrite IH. lia. }
  assert (foldr Z.min (2 ^ 64 - 1) (l ++ l') = Z.min (foldr Z.min (2 ^ 64 - 1) l) (foldr Z.min (2 ^ 64 - 1) l'))%Z as ->.
  { rewrite foldr_app. clear. assert (foldr Z.min (2 ^ 64 - 1) l' <= 2 ^ 64 - 1)%Z by (induction l'; cbn; lia). induction l as [|x l IH]; cbn; [lia|].
    rewrite IH. lia. }
  destruct (nr =? 1)%Z; unfold upd; cbn; rewrite Hmx, Hmn, Hmx', Hmn'; done.
Qed.
End summaries.

(** ** The report of a group *)

(** The summary a job keeps of its samples, and the merge of [show_run_stats]: [idx] counts
    the jobs of the group. *)
Definition job_stat (l : list Z) : io_stat := foldl add_stat_sample init_io_stat l.
Fixpoint sum_jobs (dst : io_stat) (idx : Z) (jobs : list (list Z)) : io_stat :=
  match jobs with
  | [] => dst
  | l :: jobs => sum_jobs (sum_stat dst (job_stat l) (idx + 1)) (idx + 1) jobs
  end.

Section groups.
Implicit Types (l : list Z) (jobs : list (list Z)) (st : io_stat).

Lemma init_summary : summary init_io_stat [] /\ extremes init_io_stat [].
Proof. repeat split. Qed.

Lemma foldl_summary l : forall st l0, summary st l0 -> extremes st l0 -> length (l0 ++ l) < 2 ^ 64 ->
  summary (foldl add_stat_sample st l) (l0 ++ l) /\ extremes (foldl add_stat_sample st l) (l0 ++ l).
Proof.
  induction l as [|x l IH]; intros st l0 Hs He Hl; [by rewrite app_nil_r|]. cbn [foldl].
  rewrite length_app in Hl. cbn in Hl. change (x :: l) with ([x] ++ l). rewrite app_assoc. apply IH.
  - apply add_stat_sample_mean; [done|lia].
  - by apply add_stat_sample_extremes.
  - rewrite !length_app. cbn. lia.
Qed.

Lemma sum_jobs_ok jobs : forall st idx l0, summary st l0 -> extremes st l0 -> length (l0 ++ concat jobs) < 2 ^ 32 ->
  (0 < idx \/ (idx = 0 /\ l0 = [])) ->
  summary (sum_jobs st idx jobs) (l0 ++ concat jobs) /\ extremes (sum_jobs st idx jobs) (l0 ++ concat jobs).
Proof.
  induction jobs as [|l jobs IH]; intros st idx l0 Hs He Hl Hi; cbn [sum_jobs concat].
  { cbn. by rewrite app_nil_r. }
  cbn [concat] in Hl. rewrite !length_app in Hl.
  destruct (foldl_summary l init_io_stat []) as [Hj Hje]; [apply init_summary..|cbn; lia|]. fold (job_stat l) in Hj, Hje. cbn [app] in Hj, Hje.
  rewrite app_assoc. apply IH; [| |rewrite !length_app; lia|].
  - apply sum_stat_mean; [done|done|lia|nia|]. destruct Hi as [|[-> ->]]; [left; lia|by right].
  - apply sum_stat_extremes; [done|done|apply Hj].
  - left. lia.
Qed.

(** C36: What is reported for a group is what the samples of all its jobs give together: the number
    of samples, the smallest and the largest, the arithmetic mean and, from two samples on, the
    square of the deviation with [n - 1], whatever the split into jobs and whichever jobs have no
    samples.  There is a sample and there are fewer than 2^32 (beyond that the product of the
    counts wraps, see [sum_stat_product_wraps]); the doubles of the code are exact rational
    numbers here, so that nothing is said of rounding, and the square root is not taken. *)
Theorem group_report_exact jobs : let all := concat jobs in length all < 2 ^ 32 -> all <> [] ->
  let st := sum_jobs init_io_stat 0 jobs in
  samples st = length all /\
  exists mn mx m v, calc_lat st = Some (mn, mx, m, v) /\
    mn = foldr Z.min (2 ^ 64 - 1) all /\ mx = foldr Z.max 0 all /\ (m == qmean all)%Q /\
    (1 < length all -> (v == sqdev (qmean all) all / (qlen all - 1))%Q).
Proof.
  intros all Hl Hne st. destruct (sum_jobs_ok jobs init_io_stat 0 []) as [[Hn Hm HS] [Hmx Hmn]]; [apply init_summary..|done|by right|].
  cbn [app] in *. fold all in Hn, Hm, HS, Hmx, Hmn. fold st in Hn, Hm, HS, Hmx, Hmn. split; [exact Hn|]. unfold calc_lat.
  destruct (Z.eqb_spec (samples st) 0) as [E|_]; [destruct all; [done|cbn in *; lia]|].
  eexists _, _, _, _. split; [done|]. split; [done|]. split; [done|]. split; [done|]. intros H1.
  destruct (Z.ltb_spec 1 (samples st)); [|lia]. rewrite HS, Hn. reflexivity.
Qed.

Lemma group_report_exact_witness : samples (sum_jobs init_io_stat 0 [[]; [2; 4]; [9]]) = 3 /\
  exists mn mx m v, calc_lat (sum_jobs init_io_stat 0 [[]; [2; 4]; [9]]) = Some (mn, mx, m, v) /\ mn = 2 /\ mx = 9 /\ (m == 5)%Q /\ (v == 13)%Q.
Proof.
  destruct (group_report_exact [[]; [2; 4]; [9]]) as (Hn & mn & mx & m & v & E & H1 & H2 & H3 & H4); [vm_compute; reflexivity|done|].
  split; [exact Hn|]. exists mn, mx, m, v. split; [exact E|]. split; [exact H1|]. split; [exact H2|].
  split; [rewrite H3; reflexivity|rewrite H4; [reflexivity|vm_compute; reflexivity]].
Defined.

(** With 2^32 samples on both sides the product of the counts is 0 in 64 bits, and the spread
    between the two means is lost. *)
Theorem sum_stat_product_wraps :
  let a := Build_io_stat 0 0 (2 ^ 32) 0 0 in let b := Build_io_stat 1 1 (2 ^ 32) 1 0 in
  (SS (sum_stat a b 2) == 0)%Q /\ (mean (sum_stat a b 2) == 1 # 2)%Q.
Proof. split; vm_compute; reflexivity. Qed.
End groups.

(** ** Time differences *)
Definition valid_time (t : timeval) : Prop := 0 <= tv_sec t < 2 ^ 40 /\ 0 <= tv_usec t < 1000000.
Definition micros (t : timeval) : Z := tv_sec t * 1000000 + tv_usec t.

(** Microseconds and milliseconds between two times; a clock that went backwards gives 0. *)
Theorem time_differences s e : valid_time s -> valid_time e ->
  utime_since s e = Z.max 0 (micros e - micros s) /\ mtime_since s e = utime_since s e / 1000.
Proof.
  unfold valid_time, micros, utime_since, mtime_since. intros Hs He.
  set (sec := tv_sec e - tv_sec s). set (usec := tv_usec e - tv_usec s).
  replace (tv_sec e * 1000000 + tv_usec e - (tv_sec s * 1000000 + tv_usec s)) with (sec * 1000000 + usec) by lia.
  assert (- 2 ^ 40 < sec < 2 ^ 40 /\ -1000000 < usec < 1000000) as Hr by lia. clearbody sec usec. clear Hs He s e.
  assert (exists sec' usec', (if (0 <? sec) && (usec <? 0) then (sec - 1, usec + 1000000) else (sec, usec)) = (sec', usec') /\
    sec' * 1000000 + usec' = sec * 1000000 + usec /\ (0 <= sec' /\ 0 <= usec' < 1000000 \/ sec * 1000000 + usec < 0 /\ (sec' < 0 \/ sec' = 0 /\ usec' < 0)) /\
    sec' < 2 ^ 40) as (sec' & usec' & -> & E & H & Hb).
  { destruct (Z.ltb_spec 0 sec), (Z.ltb_spec usec 0); cbn [andb]; eexists _, _; (split; [reflexivity|]); lia. }
  rewrite <- E. destruct (Z.ltb_spec sec' 0), (Z.eqb_spec sec' 0), (Z.ltb_spec usec' 0); cbn [orb andb]; try (split; [lia|reflexivity]); try lia.
  all: rewrite !(wrap_small 64) by (unfold is_word; try (rewrite !(wrap_small 64) by (unfold is_word; lia)); try (pose proof (Z.div_pos usec' 1000); pose proof (Z.div_le_upper_bound usec' 1000 1000)); lia).
  all: split; [lia|]; replace (sec' * 1000000 + usec') with (usec' + sec' * 1000 * 1000) by lia; rewrite Z.div_add by lia; lia.
Qed.

Lemma time_differences_witness :
  let s := Build_timeval 10 900000 in let e := Build_timeval 12 100500 in
  utime_since s e = 1200500 /\ mtime_since s e = 1200.
Proof.
  intros s e. destruct (time_differences s e) as [H1 H2]; [split; cbn; lia|split; cbn; lia|]. rewrite H2, H1. split; reflexivity.
Defined.

(** ** Averaged logs *)

(** A window is the samples since the last entry; an event is a direction, a value and the
    time it is logged at. *)
Definition event : Type := fio_ddir * Z * Z.
Definition entry (t : Z) (d : fio_ddir) (l : list Z) : list io_sample :=
  match l with [] => [] | _ => [Build_io_sample t (Qfloor (qmean l + (1 # 2))) d 0] end.

Record windows := { w_last : Z; w_read : list Z; w_write : list Z; w_out : list io_sample }.
Definition window_step (avg : Z) (w : windows) (ev : event) : windows :=
  let '(d, v, t) := ev in
  if negb (ddir_rw d) then w
  else
    let r := match d with DDIR_READ => w_read w ++ [v] | _ => w_read w end in
    let wr := match d with DDIR_READ => w_write w | _ => w_write w ++ [v] end in
    if t - w_last w <? avg then Build_windows (w_last w) r wr (w_out w)
    else Build_windows t [] [] (w_out w ++ entry t DDIR_READ r ++ entry t DDIR_WRITE wr).

Definition log_run (l : io_log) (evs : list event) : io_log :=
  foldl (fun l ev => add_log_sample l ev.1.2 ev.1.1 0 ev.2) l evs.

Record log_sim (bound : Z) (l : io_log) (w : windows) : Prop := {
  ls_out : log l = w_out w;
  ls_last : avg_last l = w_last w;
  ls_read : summary (avg_read l) (w_read w);
  ls_write : summary (avg_write l) (w_write w);
  ls_len : length (w_read w) + length (w_write w) <= bound }.

Lemma reset_summary st : summary (reset_io_stat st) [].
Proof. repeat split. Qed.

Lemma round_mean_eq st l : summary st l -> round_mean st = Qfloor (qmean l + (1 # 2)).
Proof. intros [_ Hm _]. unfold round_mean. by rewrite Hm. Qed.

(** Flushing the two windows. *)
Lemma flush_log l t st d ll : summary st ll ->
  let l' := if negb (samples st =? 0) then __add_log_sample l (round_mean st) d 0 t else l in
  log l' = log l ++ entry t d ll /\ avg_read l' = avg_read l /\ avg_write l' = avg_write l.
Proof.
  intros Hs l'. unfold l', entry. rewrite (su_n _ _ Hs), (round_mean_eq _ _ Hs). destruct ll as [|x ll]; [by rewrite app_nil_r|].
  cbn [length]. destruct (Z.eqb_spec (Z.of_nat (Datatypes.S (length ll))) 0); [lia|]. cbn [negb]. unfold __add_log_sample.
  set (l1 := if Z.of_nat (length (log l)) =? 0 then _ else l).
  assert (log l1 = log l /\ avg_read l1 = avg_read l /\ avg_write l1 = avg_write l) as (A1 & A2 & A3) by (unfold l1; by case_match).
  clearbody l1. set (l2 := if Z.of_nat (length (log l1)) =? max_samples l1 then _ else l1).
  assert (log l2 = log l /\ avg_read l2 = avg_read l /\ avg_write l2 = avg_write l) as (B1 & B2 & B3) by (unfold l2; by case_match).
  clearbody l2. unfold upd. cbn. by rewrite B1, B2, B3.
Qed.

Lemma log_step_sim avg k l w ev : log_sim k l w -> avg_msec l = avg -> 0 < avg -> k + 1 < 2 ^ 64 ->
  w_last w <= ev.2 < 2 ^ 64 -> 0 <= w_last w ->
  let l' := add_log_sample l ev.1.2 ev.1.1 0 ev.2 in
  log_sim (k + 1) l' (window_step avg w ev) /\ avg_msec l' = avg.
Proof.
  intros [Ho Hla Hr Hw Hlen] Havg Hpos Hk Ht Hl0. destruct ev as [[d v] t]. cbn in Ht |- *. unfold add_log_sample, window_step.
  destruct (ddir_rw d) eqn:Hd; cbn [negb]; [|split; [split; try done; lia|done]].
  rewrite Havg. destruct (Z.eqb_spec avg 0); [lia|].
  set (l1 := add_window l d v). set (r := match d with DDIR_READ => _ | _ => _ end). set (wr := match d with DDIR_READ => w_write w | _ => _ end).
  assert (log l1 = w_out w /\ avg_last l1 = w_last w /\ avg_msec l1 = avg /\ summary (avg_read l1) r /\ summary (avg_write l1) wr /\
    length r + length wr <= k + 1) as (A1 & A2 & A3 & A4 & A5 & A6).
  { unfold l1, add_window, r, wr, upd. destruct d; cbn; rewrite ?length_app; cbn; (split; [done|]); (split; [done|]); (split; [done|]);
      (split; [|split; [|lia]]); try done; apply add_stat_sample_mean; (done || lia). }
  clearbody l1 r wr. rewrite A2, A3, (wrap_small 64) by (unfold is_word; lia).
  destruct (Z.ltb_spec (t - w_last w) avg); [by split|].
  destruct (flush_log l1 t (avg_read l1) DDIR_READ r A4) as (B1 & B2 & B3). cbv zeta in *.
  set (l2 := if negb (samples (avg_read l1) =? 0) then _ else l1) in *.
  assert (avg_msec l2 = avg) as B4 by (unfold l2, __add_log_sample, upd; repeat case_match; done). clearbody l2.
  rewrite B3. destruct (flush_log l2 t (avg_write l1) DDIR_WRITE wr A5) as (C1 & C2 & C3). cbv zeta in *.
  set (l3 := if negb (samples (avg_write l1) =? 0) then _ else l2) in *.
  assert (avg_msec l3 = avg) as C4 by (unfold l3, __add_log_sample, upd; repeat case_match; done). clearbody l3.
  split; [|done]. split; unfold upd; cbn; try (apply reset_summary); [by rewrite C1, B1, A1, app_assoc|done|lia].
Qed.

(** Times do not go back. *)
Fixpoint times_ok (t0 : Z) (evs : list event) : Prop :=
  match evs with [] => True | ev :: evs => t0 <= ev.2 < 2 ^ 64 /\ times_ok ev.2 evs end.

Lemma window_step_last avg w ev : w_last w <= ev.2 -> w_last w <= w_last (window_step avg w ev) <= ev.2.
Proof. destruct ev as [[d v] t]. cbn. intros. repeat case_match; cbn; lia. Qed.

Lemma log_run_sim avg evs : forall l w k t0, 0 < avg -> log_sim k l w -> avg_msec l = avg -> k + length evs + 1 < 2 ^ 64 ->
  0 <= w_last w <= t0 -> times_ok t0 evs -> log (log_run l evs) = w_out (foldl (window_step avg) w evs).
Proof.
  induction evs as [|ev evs IH]; intros l w k t0 Hp Hs Ha Hk Hl Ht; [apply Hs|]. cbn [times_ok] in Ht. destruct Ht as [Ht1 Ht2].
  cbn [length] in Hk. pose proof (window_step_last avg w ev). destruct (log_step_sim avg k l w ev) as [Hs' Ha']; try done; try lia.
  unfold log_run in *. cbn [foldl]. apply (IH _ _ (k + 1) ev.2); try done; lia.
Qed.

(** With [log_avg_msec] every entry of a log is the mean, rounded to the nearest integer, of the
    samples of its direction since the previous entry; no sample is counted twice or lost
    between windows, whatever the order of reads and writes. *)
Theorem averaged_log_entries avg evs max :
  0 < avg -> length evs < 2 ^ 64 - 1 -> times_ok 0 evs ->
  log (log_run (Build_io_log [] max avg 0 (reset_io_stat init_io_stat) (reset_io_stat init_io_stat)) evs) =
  w_out (foldl (window_step avg) (Build_windows 0 [] [] []) evs).
Proof.
  intros Havg Hlen Ht. apply (log_run_sim avg evs _ _ 0 0); try done; try (cbn; lia).
Qed.

Lemma averaged_log_entries_witness :
  let evs := [(DDIR_READ, 10, 100); (DDIR_WRITE, 4, 300); (DDIR_READ, 13, 600); (DDIR_READ, 5, 700)] in
  log (log_run (Build_io_log [] 1024 500 0 (reset_io_stat init_io_stat) (reset_io_stat init_io_stat)) evs) =
  [Build_io_sample 600 12 DDIR_READ 0; Build_io_sample 600 4 DDIR_WRITE 0].
Proof.
  intros evs. rewrite (averaged_log_entries 500 evs 1024); [reflexivity|lia|vm_compute; reflexivity|].
  cbn. lia.
Defined.
End Stat.
