(* ===== verification/Rbtree.v ===== *)
(** * The red black tree

    [src/rbtree.c] and [src/rbtree.h]: nodes linked by addresses, the colour of a
    node in the low bits of its parent pointer.  The memory is a map from addresses
    to nodes; reading or writing an address that holds no node is [None].  The two
    halves of a function that are mirror images are one definition with a
    direction: [L] is the half written for the left.

    The second part relates the memory to trees ([focus]): every function is
    proved against its effect on the tree, whose balance and order follow. *)
From S2P Require Import Prelude.
From stdpp Require Import gmap.
Local Open Scope Z_scope.
Local Open Scope word_scope.

Module Rbtree.

(** ** [src/rbtree.h] *)
Record rb_node := { rb_parent_color : Z; rb_right : Z; rb_left : Z }.
#[export] Instance eta_rb_node : Eta rb_node := fun n =>
  Build_rb_node (rb_parent_color n) (rb_right n) (rb_left n).

(** The nodes in memory, and [struct rb_root]. *)
Record rb_root := { mem : gmap Z rb_node; root_node : Z }.
#[export] Instance eta_rb_root : Eta rb_root := fun s => Build_rb_root (mem s) (root_node s).

Definition NULL : Z := 0.
Definition RB_RED : Z := 0.
Definition RB_BLACK : Z := 1.

Definition rb_parent (n : rb_node) : Z := rb_parent_color n .& Z.lnot 3.
Definition rb_color (n : rb_node) : Z := rb_parent_color n .& 1.
Definition rb_is_red (n : rb_node) : bool := rb_color n =? 0.
Definition rb_is_black (n : rb_node) : bool := negb (rb_color n =? 0).

(** An assignment to members of the node at an address. *)
Definition modify (a : Z) (g : rb_node -> rb_node) (s : rb_root) : option rb_root :=
  n ← mem s !! a; Some (s <| mem := <[a := g n]> (mem s) |>).

Definition rb_set_red (a : Z) : rb_root -> option rb_root :=
  modify a (fun n => n <| rb_parent_color := rb_parent_color n .& Z.lnot 1 |>).
Definition rb_set_black (a : Z) : rb_root -> option rb_root :=
  modify a (fun n => n <| rb_parent_color := rb_parent_color n .| 1 |>).
Definition rb_set_parent (a p : Z) : rb_root -> option rb_root :=
  modify a (fun n => n <| rb_parent_color := (rb_parent_color n .& 3) .| p |>).
Definition rb_set_color (a color : Z) : rb_root -> option rb_root :=
  modify a (fun n => n <| rb_parent_color := (rb_parent_color n .& Z.lnot 1) .| color |>).

(** The pointer a [struct rb_node **] designates. *)
Inductive rb_link := ToRoot | ToLeft (a : Z) | ToRight (a : Z).
Definition deref (p : rb_link) (s : rb_root) : option Z :=
  match p with
  | ToRoot => Some (root_node s)
  | ToLeft a => rb_left <$> mem s !! a
  | ToRight a => rb_right <$> mem s !! a
  end.
Definition assign (p : rb_link) (v : Z) (s : rb_root) : option rb_root :=
  match p with
  | ToRoot => Some (s <| root_node := v |>)
  | ToLeft a => modify a (fun n => n <| rb_left := v |>) s
  | ToRight a => modify a (fun n => n <| rb_right := v |>) s
  end.

Definition rb_link_node (node parent : Z) (link : rb_link) (s : rb_root) : option rb_root :=
  s ← modify node (fun n => n <| rb_parent_color := parent |> <| rb_right := NULL |> <| rb_left := NULL |>) s;
  assign link node s.

Definition RB_CLEAR_NODE (node : Z) : rb_root -> option rb_root := rb_set_parent node node.
Definition RB_EMPTY_ROOT (s : rb_root) : bool := root_node s =? NULL.

(** ** Directions *)
Inductive dir := L | R.
Definition opp (d : dir) : dir := match d with L => R | R => L end.
Definition child (d : dir) (n : rb_node) : Z := match d with L => rb_left n | R => rb_right n end.
Definition set_child (d : dir) (v : Z) (n : rb_node) : rb_node :=
  match d with L => n <| rb_left := v |> | R => n <| rb_right := v |> end.

(** ** [src/rbtree.c] *)

(** [if (p) ...] *)
Definition unless_null (p : Z) (g : rb_root -> option rb_root) (s : rb_root) : option rb_root :=
  if p =? NULL then Some s else g s.
(** [p && rb_is_red(p)] and [!p || rb_is_black(p)] *)
Definition is_red_at (p : Z) (s : rb_root) : option bool :=
  if p =? NULL then Some false else n ← mem s !! p; Some (rb_is_red n).
Definition is_black_at (p : Z) (s : rb_root) : option bool :=
  if p =? NULL then Some true else n ← mem s !! p; Some (rb_is_black n).

(** [if (parent) { if (parent->rb_left == node) parent->rb_left = v; else
    parent->rb_right = v; } else root->rb_node = v;], with [d] for the side that is
    tested *)
Definition replace_child (d : dir) (parent node v : Z) (s : rb_root) : option rb_root :=
  if parent =? NULL then Some (s <| root_node := v |>)
  else p ← mem s !! parent;
       modify parent (set_child (if child d p =? node then d else opp d) v) s.

(** [__rb_rotate_left] and [__rb_rotate_right] *)
Definition rb_rotate (d : dir) (node : Z) (s : rb_root) : option rb_root :=
  n ← mem s !! node;
  let right := child (opp d) n in
  let parent := rb_parent n in
  r ← mem s !! right;
  s ← modify node (set_child (opp d) (child d r)) s;
  s ← unless_null (child d r) (rb_set_parent (child d r) node) s;
  s ← modify right (set_child d node) s;
  s ← rb_set_parent right parent s;
  s ← replace_child d parent node right s;
  rb_set_parent node right s.

(** [rb_set_black(parent); rb_set_red(gparent); __rb_rotate_right(gparent, root);] *)
Definition insert_rotate (d : dir) (parent gparent : Z) (s : rb_root) : option rb_root :=
  s ← rb_set_black parent s;
  s ← rb_set_red gparent s;
  rb_rotate (opp d) gparent s.

(** The body of the loop of [rb_insert_color] for a parent that is the child [d] of
    its parent: the node the loop goes on with. *)
Definition insert_fix (d : dir) (node parent gparent : Z) (s : rb_root) : option (Z * rb_root) :=
  g ← mem s !! gparent;
  let uncle := child (opp d) g in
  red ← is_red_at uncle s;
  if red : bool then
    s ← rb_set_black uncle s;
    s ← rb_set_black parent s;
    s ← rb_set_red gparent s;
    Some (gparent, s)
  else
    p ← mem s !! parent;
    '(node, parent, s) ←
      (if child (opp d) p =? node then s ← rb_rotate d parent s; Some (parent, node, s)
       else Some (node, parent, s));
    s ← insert_rotate d parent gparent s;
    Some (node, s).

Fixpoint insert_color_loop (fuel : nat) (node : Z) (s : rb_root) : option rb_root :=
  match fuel with
  | O => None
  | S fuel =>
      n ← mem s !! node;
      let parent := rb_parent n in
      if parent =? NULL then Some s else
      p ← mem s !! parent;
      if negb (rb_is_red p) then Some s else
      let gparent := rb_parent p in
      g ← mem s !! gparent;
      '(node, s) ← insert_fix (if parent =? rb_left g then L else R) node parent gparent s;
      insert_color_loop fuel node s
  end.

Definition rb_insert_color (node : Z) (s : rb_root) : option rb_root :=
  s ← insert_color_loop (S (size (mem s))) node s;
  rb_set_black (root_node s) s.

(** The body of the loop of [__rb_erase_color] for a node that is the child [d] of
    [parent], in the order of the code from its end.  The result is the next node
    and its parent ([inl]) or the node with which the loop is left ([inr]). *)

(** From [rb_set_color(other, rb_color(parent))]. *)
Definition erase_last (d : dir) (parent other : Z) (s : rb_root) : option ((Z * Z + Z) * rb_root) :=
  p ← mem s !! parent;
  s ← rb_set_color other (rb_color p) s;
  s ← rb_set_black parent s;
  o ← mem s !! other;
  s ← unless_null (child (opp d) o) (rb_set_black (child (opp d) o)) s;
  s ← rb_rotate d parent s;
  Some (inr (root_node s), s).

(** From the test of the children of [other]. *)
Definition erase_black_other (d : dir) (parent other : Z) (s : rb_root) : option ((Z * Z + Z) * rb_root) :=
  o ← mem s !! other;
  bl ← is_black_at (rb_left o) s;
  br ← (if bl : bool then is_black_at (rb_right o) s else Some false);
  if br : bool then
    s ← rb_set_red other s;
    p ← mem s !! parent;
    Some (inl (parent, rb_parent p), s)
  else
    bo ← is_black_at (child (opp d) o) s;
    '(other, s) ←
      (if bo : bool then
         s ← unless_null (child d o) (rb_set_black (child d o)) s;
         s ← rb_set_red other s;
         s ← rb_rotate (opp d) other s;
         p ← mem s !! parent;
         Some (child (opp d) p, s)
       else Some (other, s));
    erase_last d parent other s.

Definition erase_fix (d : dir) (parent : Z) (s : rb_root) : option ((Z * Z + Z) * rb_root) :=
  p ← mem s !! parent;
  let other := child (opp d) p in
  o ← mem s !! other;
  '(other, s) ←
    (if rb_is_red o then
       s ← rb_set_black other s;
       s ← rb_set_red parent s;
       s ← rb_rotate d parent s;
       p ← mem s !! parent;
       Some (child (opp d) p, s)
     else Some (other, s));
  erase_black_other d parent other s.

Fixpoint erase_color_loop (fuel : nat) (node parent : Z) (s : rb_root) : option (Z * rb_root) :=
  match fuel with
  | O => None
  | S fuel =>
      black ← is_black_at node s;
      if black && negb (node =? root_node s) then
        p ← mem s !! parent;
        '(next, s) ← erase_fix (if rb_left p =? node then L else R) parent s;
        match next with
        | inl (node, parent) => erase_color_loop fuel node parent s
        | inr node => Some (node, s)
        end
      else Some (node, s)
  end.

Definition rb_erase_color (node parent : Z) (s : rb_root) : option rb_root :=
  '(node, s) ← erase_color_loop (S (S (size (mem s)))) node parent s;
  unless_null node (rb_set_black node) s.

(** [while (n->rb_left) n = n->rb_left], the loop of [rb_first] and of [rb_erase] *)
Fixpoint leftmost (fuel : nat) (n : Z) (s : rb_root) : option Z :=
  match fuel with
  | O => None
  | S fuel =>
      left ← rb_left <$> mem s !! n;
      if left =? NULL then Some n else leftmost fuel left s
  end.

(** The part of [rb_erase] in which [node] takes the place of [old]. *)
Definition take_place (old node : Z) (s : rb_root) : option rb_root :=
  o ← mem s !! old;
  s ← modify node (fun _ => o) s;
  s ← replace_child L (rb_parent o) old node s;
  o ← mem s !! old;
  s ← rb_set_parent (rb_left o) node s;
  unless_null (rb_right o) (rb_set_parent (rb_right o) node) s.

(** [rb_erase] up to the label [color]: the colour of the node that left its place,
    its child and the parent of that child. *)
Definition rb_unlink (node : Z) (s : rb_root) : option (Z * Z * Z * rb_root) :=
  n ← mem s !! node;
  if negb (rb_left n =? NULL) && negb (rb_right n =? NULL) then
    let old := node in
    node ← leftmost (S (size (mem s))) (rb_right n) s;
    m ← mem s !! node;
    let child := rb_right m in
    let parent := rb_parent m in
    let color := rb_color m in
    s ← unless_null child (rb_set_parent child parent) s;
    '(parent, s) ←
      (if parent =? old then
         s ← modify parent (fun n => n <| rb_right := child |>) s; Some (node, s)
       else s ← modify parent (fun n => n <| rb_left := child |>) s; Some (parent, s));
    s ← take_place old node s;
    Some (color, child, parent, s)
  else
    let child := if rb_left n =? NULL then rb_right n else rb_left n in
    let parent := rb_parent n in
    let color := rb_color n in
    s ← unless_null child (rb_set_parent child parent) s;
    s ← replace_child L parent node child s;
    Some (color, child, parent, s).

Definition rb_erase (node : Z) (s : rb_root) : option rb_root :=
  '(color, child, parent, s) ← rb_unlink node s;
  if color =? RB_BLACK then rb_erase_color child parent s else Some s.

Definition rb_first (s : rb_root) : option Z :=
  if root_node s =? NULL then Some NULL else leftmost (S (size (mem s))) (root_node s) s.

(** ** Trees in memory *)
Inductive tree := Leaf | Node (black : bool) (l : tree) (a : Z) (r : tree).

Definition aligned (a : Z) : Prop := a mod 4 = 0.
Definition addr (t : tree) : Z := match t with Leaf => NULL | Node _ _ a _ => a end.
Definition is_black (t : tree) : bool := match t with Leaf => true | Node b _ _ _ => b end.
Fixpoint inorder (t : tree) : list Z :=
  match t with Leaf => [] | Node _ l a r => inorder l ++ a :: inorder r end.

(** A node whose child on side [d] is [x] and on the other side [y]. *)
Definition node_at (d : dir) (par : Z) (black : bool) (x y : Z) : rb_node :=
  match d with
  | L => Build_rb_node (par + Z.b2z black) y x
  | R => Build_rb_node (par + Z.b2z black) x y
  end.
Definition join (d : dir) (b : bool) (x : tree) (a : Z) (y : tree) : tree :=
  match d with L => Node b x a y | R => Node b y a x end.

(** The cells of a tree whose root has the parent [par]. *)
Fixpoint cells (par : Z) (t : tree) : list (Z * rb_node) :=
  match t with
  | Leaf => []
  | Node b l a r => (a, node_at L par b (addr l) (addr r)) :: cells a l ++ cells a r
  end.

(** The path from a subtree to the root: at each node the side taken, the colour,
    the address and the other subtree. *)
Record frame := { f_dir : dir; f_black : bool; f_addr : Z; f_sib : tree }.
Definition path : Type := list frame.
Definition plug1 (f : frame) (t : tree) : tree := join (f_dir f) (f_black f) t (f_addr f) (f_sib f).
Definition plug (c : path) (t : tree) : tree := foldl (fun t f => plug1 f t) t c.
Definition parent_of (c : path) : Z := match c with [] => NULL | f :: _ => f_addr f end.
Fixpoint path_cells (h : Z) (c : path) : list (Z * rb_node) :=
  match c with
  | [] => []
  | f :: c => (f_addr f, node_at (f_dir f) (parent_of c) (f_black f) h (addr (f_sib f)))
                :: cells (f_addr f) (f_sib f) ++ path_cells (f_addr f) c
  end.
Fixpoint path_root (h : Z) (c : path) : Z :=
  match c with [] => h | f :: c => path_root (f_addr f) c end.

(** Some cells are in memory, at different aligned addresses. *)
Definition cell_ok (s : rb_root) (x : Z * rb_node) : Prop :=
  x.1 <> NULL /\ aligned x.1 /\ mem s !! x.1 = Some x.2.
Definition holds (s : rb_root) (l : list (Z * rb_node)) : Prop :=
  NoDup l.*1 /\ Forall (cell_ok s) l.

(** The tree in memory is [plug c t]. *)
Definition focus (s : rb_root) (c : path) (t : tree) : Prop :=
  holds s (cells (parent_of c) t ++ path_cells (addr t) c) /\ root_node s = path_root (addr t) c.

(** *** Nodes *)
Lemma opp_opp d : opp (opp d) = d. Proof. by destruct d. Qed.
Lemma node_at_opp d p b x y : node_at (opp d) p b y x = node_at d p b x y. Proof. by destruct d. Qed.
Lemma child_same d p b x y : child d (node_at d p b x y) = x. Proof. by destruct d. Qed.
Lemma child_opp d p b x y : child (opp d) (node_at d p b x y) = y. Proof. by destruct d. Qed.
Lemma set_child_same d p b x y v : set_child d v (node_at d p b x y) = node_at d p b v y.
Proof. by destruct d. Qed.
Lemma set_child_opp d p b x y v : set_child (opp d) v (node_at d p b x y) = node_at d p b x v.
Proof. by destruct d. Qed.
Lemma join_opp d b x a y : join (opp d) b y a x = join d b x a y. Proof. by destruct d. Qed.
Lemma addr_join d b x a y : addr (join d b x a y) = a. Proof. by destruct d. Qed.
Lemma black_join d b x a y : is_black (join d b x a y) = b. Proof. by destruct d. Qed.
Create Rewrite HintDb rb.
#[local] Hint Rewrite opp_opp node_at_opp child_same child_opp set_child_same set_child_opp
  addr_join black_join : rb.

#[local] Ltac Zify.zify_post_hook ::= Z.to_euclidean_division_equations.

(** The colour lives in the bits an aligned address leaves free. *)
Lemma lor_low q c : aligned q -> 0 <= c < 4 -> q .| c = q + c.
Proof.
  intros Hq Hc. symmetry. apply Z.add_nocarry_lor, Z.bits_inj'. intros i Hi.
  rewrite Z.land_spec, Z.bits_0. replace q with (q / 4 * 2 ^ 2) by (unfold aligned in Hq; lia).
  destruct (Z.ltb_spec i 2); [by rewrite Z.mul_pow2_bits_low by lia|].
  by rewrite (word_high 2 c), andb_false_r by (try lia; exact Hc).
Qed.
Lemma mask_low n x : 0 <= n -> x .& Z.lnot (Z.ones n) = 2 ^ n * (x / 2 ^ n).
Proof. intros Hn. rewrite <- Z.ldiff_land, Z.ldiff_ones_r, Z.shiftl_mul_pow2, Z.shiftr_div_pow2 by done. lia. Qed.
Lemma keep_low n x : 0 <= n -> x .& Z.ones n = x mod 2 ^ n.
Proof. apply Z.land_ones. Qed.

Lemma b2z_range b : 0 <= Z.b2z b < 2. Proof. destruct b; cbn; lia. Qed.
Lemma rb_parent_at d p b x y : aligned p -> rb_parent (node_at d p b x y) = p.
Proof.
  intros Hp. pose proof (b2z_range b). unfold rb_parent, aligned in *.
  destruct d; cbn; change 3 with (Z.ones 2); rewrite mask_low by lia; change (2 ^ 2) with 4; lia.
Qed.
Lemma rb_color_at d p b x y : aligned p -> rb_color (node_at d p b x y) = Z.b2z b.
Proof.
  intros Hp. pose proof (b2z_range b). unfold rb_color, aligned in *.
  destruct d; cbn; change 1 with (Z.ones 1) at 1; rewrite keep_low by lia; change (2 ^ 1) with 2; lia.
Qed.
Lemma rb_is_red_at d p b x y : aligned p -> rb_is_red (node_at d p b x y) = negb b.
Proof. intros. unfold rb_is_red. rewrite rb_color_at by done. by destruct b. Qed.
Lemma rb_is_black_at d p b x y : aligned p -> rb_is_black (node_at d p b x y) = b.
Proof. intros. unfold rb_is_black. rewrite rb_color_at by done. by destruct b. Qed.

Lemma pc_red p b : aligned p -> (p + Z.b2z b) .& Z.lnot 1 = p.
Proof.
  intros Hp. pose proof (b2z_range b). unfold aligned in *. change 1 with (Z.ones 1).
  rewrite mask_low by lia. change (2 ^ 1) with 2. lia.
Qed.
Lemma pc_black p b : aligned p -> (p + Z.b2z b) .| 1 = p + 1.
Proof.
  intros Hp. pose proof (b2z_range b). rewrite <- (lor_low p (Z.b2z b)), <- Z.lor_assoc by (done || lia).
  replace (Z.b2z b .| 1) with 1 by (by destruct b). apply lor_low; [done|lia].
Qed.
Lemma pc_parent p q b : aligned p -> aligned q -> ((p + Z.b2z b) .& 3) .| q = q + Z.b2z b.
Proof.
  intros Hp Hq. pose proof (b2z_range b). change 3 with (Z.ones 2). rewrite keep_low by lia.
  replace ((p + Z.b2z b) mod 2 ^ 2) with (Z.b2z b) by (unfold aligned in *; change (2 ^ 2) with 4; lia).
  rewrite Z.lor_comm. apply lor_low; [done|lia].
Qed.

#[local] Arguments node_at : simpl never.
#[local] Arguments join : simpl never.

(** *** Reasoning about calls

    [wp m Q]: the call succeeds and its result satisfies [Q]. *)
Definition wp {A} (m : option A) (Q : A -> Prop) : Prop := match m with Some x => Q x | None => False end.
Lemma wp_bind {A B} (m : option A) (k : A -> option B) Q : wp m (fun x => wp (k x) Q) -> wp (m ≫= k) Q.
Proof. by destruct m. Qed.
Lemma wp_mono {A} (m : option A) (Q Q' : A -> Prop) : wp m Q -> (forall x, Q x -> Q' x) -> wp m Q'.
Proof. destruct m; cbn; auto. Qed.
Lemma wp_elim {A} (m : option A) Q : wp m Q -> exists x, m = Some x /\ Q x.
Proof. destruct m; cbn; eauto; done. Qed.

(** The calls keep the set of addresses that hold a node. *)
Definition same_dom (s s' : rb_root) : Prop := dom (mem s') = dom (mem s).
#[local] Instance same_dom_pre : PreOrder same_dom.
Proof. split; unfold same_dom; [done|by intros ??? -> ->]. Qed.

Lemma holds_sub s l l' : l' ⊆+ l -> holds s l -> holds s l'.
Proof.
  intros Hl [Hd Hc]. split.
  - destruct (submseteq_Permutation _ _ Hl) as [k Hk]. rewrite Hk, fmap_app in Hd. by apply NoDup_app in Hd as [? _].
  - rewrite Forall_forall in *. intros x Hx. apply Hc. by eapply elem_of_submseteq.
Qed.
Lemma holds_perm s l l' : l' ≡ₚ l -> holds s l -> holds s l'.
Proof. intros Hl. apply holds_sub. by rewrite Hl. Qed.
#[local] Instance holds_proper s : Proper (Permutation ==> iff) (holds s).
Proof. intros l l' Hl. split; apply holds_perm; by rewrite Hl. Qed.
Lemma holds_in s l x : holds s l -> x ∈ l -> cell_ok s x.
Proof. intros [_ Hc] Hx. rewrite Forall_forall in Hc. auto. Qed.
Lemma holds_head s a n l : holds s ((a, n) :: l) -> mem s !! a = Some n /\ a <> NULL /\ aligned a.
Proof. intros H. destruct (holds_in s _ (a, n) H) as (? & ? & ?); [by left|done]. Qed.

Ltac holds_by H := eapply holds_perm; [|exact H]; cbn [cells path_cells]; solve_Permutation.

(** Writing one cell leaves the others. *)
Lemma wp_modify s a n l g : holds s ((a, n) :: l) ->
  wp (modify a g s) (fun s' => holds s' ((a, g n) :: l) /\ root_node s' = root_node s /\ same_dom s s').
Proof.
  intros H. pose proof (holds_head _ _ _ _ H) as (E & Ha & Hal). destruct H as [Hd Hc].
  replace (modify a g s) with (Some (Build_rb_root (<[a := g n]> (mem s)) (root_node s)))
    by (unfold modify; by rewrite E).
  cbn [wp]. apply NoDup_cons in Hd as [Hni Hd]. apply Forall_cons in Hc as [_ Hc].
  split; [split|split; [done|]].
  - by constructor.
  - constructor; [split_and!; [done..|cbn [mem fst snd]; by rewrite lookup_insert_eq]|].
    rewrite Forall_forall in *. intros x Hx. destruct (Hc x Hx) as (? & ? & ?). split_and!; [done..|].
    cbn [mem]. rewrite lookup_insert_ne; [done|]. intros ->. apply Hni. apply list_elem_of_fmap. by exists x.
  - unfold same_dom. cbn [mem]. rewrite dom_insert_L. assert (a ∈ dom (mem s)) by (apply elem_of_dom; eauto). set_solver.
Qed.

Lemma wp_set_parent s d a p q b x y l : holds s ((a, node_at d p b x y) :: l) -> aligned p -> aligned q ->
  wp (rb_set_parent a q s) (fun s' => holds s' ((a, node_at d q b x y) :: l) /\ root_node s' = root_node s /\ same_dom s s').
Proof.
  intros H Hp Hq. eapply wp_mono; [by apply wp_modify|]. intros s'.
  by destruct d; unfold upd, node_at; cbn; rewrite pc_parent.
Qed.

Lemma cells_join p d b x a y : cells p (join d b x a y) ≡ₚ (a, node_at d p b (addr x) (addr y)) :: cells a x ++ cells a y.
Proof. destruct d; cbn; [solve_Permutation|]. change (node_at L p b (addr y) (addr x)) with (node_at R p b (addr x) (addr y)). solve_Permutation. Qed.
Lemma addr_aligned s p t l : holds s (cells p t ++ l) -> aligned (addr t).
Proof. destruct t; [done|]. cbn. intros H. by apply holds_head in H as (_ & _ & ?). Qed.
Lemma parent_aligned s h c l : holds s (path_cells h c ++ l) -> aligned (parent_of c).
Proof. destruct c; [done|]. cbn. intros H. by apply holds_head in H as (_ & _ & ?). Qed.

(** [if (t) rb_set_parent(t, q)] *)
Lemma wp_reparent s p q t l : holds s (cells p t ++ l) -> aligned p -> aligned q ->
  wp (unless_null (addr t) (rb_set_parent (addr t) q) s)
     (fun s' => holds s' (cells q t ++ l) /\ root_node s' = root_node s /\ same_dom s s').
Proof.
  intros H Hp Hq. unfold unless_null. destruct t as [|b x a y]; [done|]. cbn in H |- *.
  pose proof (holds_head _ _ _ _ H) as (_ & Ha & _). destruct (Z.eqb_spec a NULL); [done|].
  by apply wp_set_parent with (p := p).
Qed.

(** The pointer to the subtree [h] becomes [v]. *)
Definition not_sibling (h : Z) (c : path) : Prop := match c with [] => True | f :: _ => addr (f_sib f) <> h end.

Lemma wp_replace_child s d h v c l : holds s (path_cells h c ++ l) -> root_node s = path_root h c -> not_sibling h c ->
  wp (replace_child d (parent_of c) h v s)
     (fun s' => holds s' (path_cells v c ++ l) /\ root_node s' = path_root v c /\ same_dom s s').
Proof.
  intros H Hr Hs. unfold replace_child. destruct c as [|f c]; cbn in *; [done|].
  pose proof (holds_head _ _ _ _ H) as (E & Ha & _). destruct (Z.eqb_spec (f_addr f) NULL); [done|].
  rewrite E. cbn. rewrite <- !app_assoc in *.
  assert (Hside : (if child d (node_at (f_dir f) (parent_of c) (f_black f) h (addr (f_sib f))) =? h then d else opp d) = f_dir f).
  { unfold node_at. destruct d, (f_dir f); cbn; rewrite ?Z.eqb_refl; try done; by destruct (Z.eqb_spec (addr (f_sib f)) h). }
  rewrite Hside. eapply wp_mono; [by apply wp_modify|]. intros s' (Hh & Hr' & Hd).
  rewrite set_child_same in Hh. split_and!; [by rewrite <- ?app_assoc|congruence|done].
Qed.

(** *** Moving the focus *)
Lemma focus_up s f c t : focus s (f :: c) t <-> focus s c (plug1 f t).
Proof.
  unfold focus, plug1. cbn [parent_of path_root path_cells]. rewrite addr_join.
  enough (E : cells (f_addr f) t ++ (f_addr f, node_at (f_dir f) (parent_of c) (f_black f) (addr t) (addr (f_sib f)))
                :: cells (f_addr f) (f_sib f) ++ path_cells (f_addr f) c
              ≡ₚ cells (parent_of c) (join (f_dir f) (f_black f) t (f_addr f) (f_sib f)) ++ path_cells (f_addr f) c).
  { by rewrite E. }
  rewrite cells_join. solve_Permutation.
Qed.
Lemma focus_plug s c t : focus s c t <-> focus s [] (plug c t).
Proof.
  revert t. induction c as [|f c IH]; intros t; [done|]. rewrite focus_up. apply IH.
Qed.
Lemma plug_app c c' t : plug (c ++ c') t = plug c' (plug c t). Proof. apply foldl_app. Qed.

(** What the code reads at the focus. *)
Lemma focus_node s c d b x a y : focus s c (join d b x a y) ->
  mem s !! a = Some (node_at d (parent_of c) b (addr x) (addr y)) /\ a <> NULL /\ aligned a /\ aligned (parent_of c).
Proof.
  intros [H _]. rewrite addr_join in H. pose proof H as Hp. rewrite cells_join in H. pose proof H as Hh. apply holds_head in Hh as (? & ? & ?).
  split_and!; [done..|]. rewrite Permutation_app_comm in Hp. by apply parent_aligned in Hp.
Qed.
Lemma focus_parent s f c t : focus s (f :: c) t ->
  mem s !! f_addr f = Some (node_at (f_dir f) (parent_of c) (f_black f) (addr t) (addr (f_sib f)))
  /\ f_addr f <> NULL /\ aligned (f_addr f) /\ aligned (parent_of c).
Proof. intros H. apply focus_up, focus_node in H. done. Qed.

(** *** Effect of the basic operations on the tree *)
Definition turns_into (s : rb_root) (c : path) (t : tree) (s' : rb_root) : Prop := focus s' c t /\ same_dom s s'.

Lemma wp_recolor s c d b b' x a y g : focus s c (join d b x a y) ->
  (forall p x' y', aligned p -> g (node_at d p b x' y') = node_at d p b' x' y') ->
  wp (modify a g s) (turns_into s c (join d b' x a y)).
Proof.
  intros H Hg. pose proof (focus_node _ _ _ _ _ _ _ H) as (_ & _ & _ & Hp). destruct H as [H Hr].
  rewrite cells_join in H. eapply wp_mono; [by apply wp_modify|]. intros s' (Hh & Hr' & Hd).
  rewrite Hg in Hh by done. split; [|done]. split; [|rewrite addr_join in *; congruence].
  rewrite cells_join, addr_join in *. exact Hh.
Qed.
Lemma wp_black s c d b x a y : focus s c (join d b x a y) -> wp (rb_set_black a s) (turns_into s c (join d true x a y)).
Proof.
  intros H. apply wp_recolor with (b := b); [done|]. intros p x' y' Hp. unfold upd, node_at.
  destruct d; cbn; by rewrite pc_black.
Qed.
Lemma wp_red s c d b x a y : focus s c (join d b x a y) -> wp (rb_set_red a s) (turns_into s c (join d false x a y)).
Proof.
  intros H. apply wp_recolor with (b := b); [done|]. intros p x' y' Hp. unfold upd, node_at.
  destruct d; cbn; by rewrite pc_red, Z.add_0_r.
Qed.
Lemma wp_color s c d b b' x a y : focus s c (join d b x a y) ->
  wp (rb_set_color a (Z.b2z b') s) (turns_into s c (join d b' x a y)).
Proof.
  intros H. apply wp_recolor with (b := b); [done|]. intros p x' y' Hp. pose proof (b2z_range b').
  unfold upd, node_at. destruct d; cbn; rewrite pc_red, lor_low by (done || lia); done.
Qed.

Lemma holds_not_sibling s a n c l : holds s ((a, n) :: path_cells a c ++ l) -> not_sibling a c.
Proof.
  destruct c as [|f c]; [done|]. cbn. intros H E. destruct (f_sib f) as [|b x e y] eqn:Ef; cbn in *.
  - apply holds_head in H as (_ & Ha & _). by apply Ha.
  - subst e. destruct H as [Hd _]. cbn in Hd. apply NoDup_cons in Hd as [Hd _]. apply Hd. set_solver.
Qed.

Lemma wp_rotate s d c b b' x a y e z : focus s c (join d b x a (join d b' y e z)) ->
  wp (rb_rotate d a s) (turns_into s c (join d b' (join d b x a y) e z)).
Proof.
  intros H. pose proof (focus_node _ _ _ _ _ _ _ H) as (En & Ha & Haa & Hp). destruct H as [H Hr].
  rewrite !cells_join, !addr_join in *. pose proof (holds_in _ _ (e, node_at d a b' (addr y) (addr z)) H) as Hin.
  destruct Hin as (_ & Hea & Er); [set_solver|]. cbn [fst snd] in *.
  unfold rb_rotate. rewrite En. cbn [mbind option_bind]. rewrite !child_opp, Er. cbn [mbind option_bind].
  rewrite rb_parent_at, child_same by done.
  apply wp_bind. eapply wp_mono; [by apply wp_modify|]. intros s1 (H1 & R1 & D1). rewrite set_child_opp in H1.
  apply wp_bind. eapply wp_mono; [apply (wp_reparent _ e a y) with (l := (a, node_at d (parent_of c) b (addr x) (addr y)) ::
    (e, node_at d a b' (addr y) (addr z)) :: cells a x ++ cells e z ++ path_cells a c); [holds_by H1|done..]|].
  intros s2 (H2 & R2 & D2).
  apply wp_bind. eapply wp_mono; [apply (wp_modify _ e (node_at d a b' (addr y) (addr z)) ((a, node_at d (parent_of c) b (addr x) (addr y)) ::
    cells a x ++ cells a y ++ cells e z ++ path_cells a c)); holds_by H2|].
  intros s3 (H3 & R3 & D3). rewrite set_child_same in H3.
  apply wp_bind. eapply wp_mono; [by apply wp_set_parent with (p := a)|]. intros s4 (H4 & R4 & D4).
  apply wp_bind. eapply wp_mono; [apply (wp_replace_child _ d a e c) with (l := (e, node_at d (parent_of c) b' a (addr z)) ::
    (a, node_at d (parent_of c) b (addr x) (addr y)) :: cells a x ++ cells a y ++ cells e z); [holds_by H4|congruence|]|].
  { apply (holds_not_sibling s4 a (node_at d (parent_of c) b (addr x) (addr y))) with (l := (e, node_at d (parent_of c) b' a (addr z)) ::
      cells a x ++ cells a y ++ cells e z). holds_by H4. }
  intros s5 (H5 & R5 & D5).
  eapply wp_mono; [apply (wp_set_parent _ d a (parent_of c) e b (addr x) (addr y)) with (l := (e, node_at d (parent_of c) b' a (addr z)) ::
    cells a x ++ cells a y ++ cells e z ++ path_cells e c); [holds_by H5|done..]|].
  intros s6 (H6 & R6 & D6). split; [split|].
  - rewrite !cells_join, !addr_join. holds_by H6.
  - rewrite addr_join. congruence.
  - unfold same_dom in *. congruence.
Qed.

(** ** Balance *)

(** [rbt h t]: every path from the root of [t] to a leaf has [h] black nodes, and no
    red node has a red child. *)
Fixpoint rbt (h : nat) (t : tree) : Prop :=
  match t with
  | Leaf => h = O
  | Node true l _ r => match h with O => False | S h => rbt h l /\ rbt h r end
  | Node false l _ r => (rbt h l /\ rbt h r) /\ is_black l = true /\ is_black r = true
  end.
Definition rb_tree (t : tree) : Prop := is_black t = true /\ exists h, rbt h t.

(** A path whose hole expects a tree of black height [h]; a red node is not the root
    and its parent is black. *)
Definition starts_black (c : path) : Prop := match c with [] => False | f :: _ => f_black f = true end.
Fixpoint path_ok (h : nat) (c : path) : Prop :=
  match c with
  | [] => True
  | f :: c => rbt h (f_sib f) /\
      if f_black f then path_ok (S h) c else is_black (f_sib f) = true /\ starts_black c /\ path_ok h c
  end.
Definition blacken (t : tree) : tree := match t with Leaf => Leaf | Node _ l a r => Node true l a r end.

Lemma rbt_join_red h d x a y :
  rbt h (join d false x a y) <-> (rbt h x /\ rbt h y) /\ is_black x = true /\ is_black y = true.
Proof. destruct d; unfold join; cbn; tauto. Qed.
Lemma rbt_join_black h d x a y : rbt (S h) (join d true x a y) <-> rbt h x /\ rbt h y.
Proof. destruct d; unfold join; cbn; tauto. Qed.
Lemma rbt_join_S h d b x a y : rbt h (join d b x a y) -> b = true -> exists k, h = S k.
Proof. intros H ->. destruct d, h; unfold join in H; cbn in H; eauto; done. Qed.
Lemma rbt_nonleaf h t : rbt (S h) t -> t <> Leaf. Proof. by destruct t. Qed.
Lemma rbt_blacken h t : rbt h t -> is_black t = false -> rbt (S h) (blacken t).
Proof. destruct t as [|[] ???]; cbn; [done|done|tauto]. Qed.
Lemma blacken_black t : is_black t = true -> blacken t = t. Proof. destruct t as [|[] ???]; done. Qed.
Lemma blacken_join d b x a y : blacken (join d b x a y) = join d true x a y. Proof. by destruct d. Qed.
Lemma black_blacken t : is_black (blacken t) = true. Proof. by destruct t. Qed.
Lemma inorder_blacken t : inorder (blacken t) = inorder t. Proof. by destruct t. Qed.
Lemma addr_blacken t : addr (blacken t) = addr t. Proof. by destruct t. Qed.
Lemma tree_as_join d t : t <> Leaf -> exists b x a y, t = join d b x a y.
Proof. destruct t as [|b l a r]; [done|]. intros _. destruct d; [by exists b, l, a, r|by exists b, r, a, l]. Qed.

Lemma plug1_ok h f c t : rbt h t -> path_ok h (f :: c) -> (is_black t = true \/ f_black f = true) ->
  exists k, rbt k (plug1 f t) /\ path_ok k c /\ (is_black (plug1 f t) = true \/ starts_black c).
Proof.
  destruct f as [d b a y]. unfold plug1. cbn. intros Ht [Hy Hc] Hb. rewrite black_join. destruct b.
  - exists (S h). rewrite rbt_join_black. tauto.
  - destruct Hb as [Hb|]; [|done]. exists h. rewrite rbt_join_red. tauto.
Qed.
Lemma plug_ok c : forall h t, rbt h t -> path_ok h c -> (is_black t = true \/ starts_black c) -> rb_tree (plug c t).
Proof.
  induction c as [|f c IH]; intros h t Ht Hc Hb; [destruct Hb as [|[]]; split; eauto|].
  destruct (plug1_ok h f c t Ht Hc Hb) as (k & ? & ? & ?). by apply (IH k).
Qed.
(** A tree with a black root can take the place of any other. *)
Lemma plug_black c h t : rbt h t -> path_ok h c -> is_black t = true -> rb_tree (plug c t).
Proof. intros. eapply plug_ok; eauto. Qed.

Lemma unplug c : forall t, rb_tree (plug c t) -> exists h, rbt h t /\ path_ok h c /\ (is_black t = true \/ starts_black c).
Proof.
  induction c as [|f c IH]; intros t H; [destruct H as [? [h ?]]; exists h; cbn; auto|].
  destruct (IH (plug1 f t) H) as (h & Ht & Hc & Hb). destruct f as [d b a y]. unfold plug1 in *. cbn in *.
  rewrite black_join in Hb. destruct b.
  - destruct (rbt_join_S _ _ _ _ _ _ Ht eq_refl) as [k ->]. apply rbt_join_black in Ht. exists k. tauto.
  - apply rbt_join_red in Ht. destruct Hb as [|Hb]; [done|]. exists h. tauto.
Qed.

(** *** Order *)
Lemma inorder_plug c : forall t t', inorder t = inorder t' -> inorder (plug c t) = inorder (plug c t').
Proof.
  induction c as [|f c IH]; intros t t' E; [done|]. apply (IH (plug1 f t) (plug1 f t')).
  unfold plug1, join. destruct (f_dir f); cbn; by rewrite E.
Qed.
Lemma inorder_join_color d b b' x a y : inorder (join d b x a y) = inorder (join d b' x a y).
Proof. by destruct d. Qed.
Lemma inorder_join d b b' x x' a y y' : inorder x = inorder x' -> inorder y = inorder y' ->
  inorder (join d b x a y) = inorder (join d b' x' a y').
Proof. intros Hx Hy. destruct d; unfold join; cbn; by rewrite Hx, Hy. Qed.
Lemma inorder_rotate d b b1 b2 b3 x a y e z :
  inorder (join d b (join d b1 x a y) e z) = inorder (join d b2 x a (join d b3 y e z)).
Proof. destruct d; unfold join; cbn; by rewrite <- app_assoc. Qed.

(** *** Reads through the focus *)
Lemma focus_swap s d b a x y c :
  focus s (Build_frame d b a y :: c) x <-> focus s (Build_frame (opp d) b a x :: c) y.
Proof. rewrite !focus_up. unfold plug1. cbn. by rewrite join_opp. Qed.
Lemma wp_is_red_at s c t : focus s c t -> is_red_at (addr t) s = Some (negb (is_black t)).
Proof.
  intros H. unfold is_red_at. destruct t as [|b l a r]; [done|].
  destruct (focus_node s c L b l a r H) as (E & ? & ? & ?). cbn. destruct (Z.eqb_spec a NULL); [done|].
  rewrite E. cbn. by rewrite rb_is_red_at.
Qed.
Lemma wp_is_black_at s c t : focus s c t -> is_black_at (addr t) s = Some (is_black t).
Proof.
  intros H. unfold is_black_at. destruct t as [|b l a r]; [done|].
  destruct (focus_node s c L b l a r H) as (E & ? & ? & ?). cbn. destruct (Z.eqb_spec a NULL); [done|].
  rewrite E. cbn. by rewrite rb_is_black_at.
Qed.
Lemma focus_ne s f c t : focus s (f :: c) t -> t <> Leaf \/ f_sib f <> Leaf -> addr t <> addr (f_sib f).
Proof.
  intros [H _] Hn E. cbn in H. destruct t as [|b x a y], (f_sib f) as [|b' x' a' y']; cbn in *.
  - tauto.
  - subst. destruct (holds_in _ _ (NULL, node_at L (f_addr f) b' (addr x') (addr y')) H) as (? & _); [set_solver|done].
  - subst. by apply holds_head in H as (_ & ? & _).
  - subst. destruct H as [Hd _]. cbn in Hd. apply NoDup_cons in Hd as [Hd _]. apply Hd. rewrite fmap_app.
    cbn. set_solver.
Qed.
(** The side the code finds from the left child. *)
Lemma focus_side s f c t : focus s (f :: c) t -> t <> Leaf \/ f_sib f <> Leaf ->
  (if rb_left (node_at (f_dir f) (parent_of c) (f_black f) (addr t) (addr (f_sib f))) =? addr t then L else R) = f_dir f.
Proof.
  intros H Hn. pose proof (focus_ne _ _ _ _ H Hn) as He. unfold node_at.
  destruct (f_dir f); cbn; [by rewrite Z.eqb_refl|]. by destruct (Z.eqb_spec (addr (f_sib f)) (addr t)).
Qed.

(** ** Insertion *)
Ltac dom_trans := unfold same_dom in *; congruence.

(** Parent and uncle are red: the grandparent becomes red, they become black. *)
Lemma insert_fix_red s c d P g U node :
  focus s c (join d true P g U) -> P <> Leaf -> is_black U = false ->
  wp (insert_fix d node (addr P) g s)
     (fun '(n, s') => n = g /\ turns_into s c (join d false (blacken P) g (blacken U)) s').
Proof.
  intros H HP HU. destruct (focus_node _ _ _ _ _ _ _ H) as (E & _).
  destruct (tree_as_join d U) as (b & u1 & u & u2 & EU); [by intros ->|].
  destruct (tree_as_join d P HP) as (bp & p1 & p & p2 & ->).
  apply (focus_up s (Build_frame d true g U)) in H. pose proof (proj1 (focus_swap _ _ _ _ _ _ _) H) as HUf.
  unfold insert_fix. rewrite E. cbn [mbind option_bind]. rewrite child_opp, (wp_is_red_at _ _ _ HUf), HU.
  cbn [mbind option_bind negb]. rewrite EU in *. rewrite !blacken_join, !addr_join.
  apply wp_bind. eapply wp_mono; [by eapply wp_black|]. intros s1 [H1 D1].
  apply focus_swap in H1.
  apply wp_bind. eapply wp_mono; [by eapply wp_black|]. intros s2 [H2 D2]. apply focus_up in H2.
  apply wp_bind. eapply wp_mono; [by eapply wp_red|]. intros s3 [H3 D3]. cbn. split; [done|]. split; [done|dom_trans].
Qed.

(** The uncle is black and the node is the outer child of its parent. *)
Lemma wp_insert_rotate s c d x p y g U : focus s c (join d true (join d false x p y) g U) ->
  wp (insert_rotate d p g s) (turns_into s c (join d true x p (join d false y g U))).
Proof.
  intros H. apply (focus_up s (Build_frame d true g U)) in H. unfold insert_rotate.
  apply wp_bind. eapply wp_mono; [by eapply wp_black|]. intros s1 [H1 D1]. apply focus_up in H1. unfold plug1 in H1. cbn in H1.
  apply wp_bind. eapply wp_mono; [by eapply wp_red|]. intros s2 [H2 D2].
  rewrite <- (join_opp d), <- (join_opp d true) in H2.
  eapply wp_mono; [by apply wp_rotate|]. intros s3 [H3 D3]. rewrite !join_opp in H3. split; [done|dom_trans].
Qed.

(** The uncle is black: the subtree of the grandparent after the rotations. *)
Lemma insert_fix_black s c d df X n Y p S g U : is_black U = true ->
  focus s c (join d true (join df false (Node false X n Y) p S) g U) ->
  wp (insert_fix d n p g s) (fun '(m, s') => exists A q B,
    turns_into s c (join d true A q (join d false B g U)) s' /\ addr A = m /\ A <> Leaf /\
    inorder (join d true A q B) = inorder (join df false (Node false X n Y) p S) /\
    forall h, rbt h X -> rbt h Y -> rbt h S -> is_black X = true -> is_black Y = true -> is_black S = true ->
      rbt h A /\ rbt h B /\ is_black B = true).
Proof.
  intros HU Hg. destruct (focus_node _ _ _ _ _ _ _ Hg) as (E & _).
  pose proof Hg as H. apply (focus_up s (Build_frame d true g U)) in H.
  pose proof (proj1 (focus_swap _ _ _ _ _ _ _) H) as HUf.
  pose proof H as Hp. apply (focus_up s (Build_frame df false p S)) in Hp.
  pose proof (focus_ne _ _ _ _ Hp ltac:(by left)) as Hne.
  destruct (focus_node _ _ _ _ _ _ _ H) as (Ep & _).
  unfold insert_fix. rewrite E. cbn [mbind option_bind]. rewrite child_opp, (wp_is_red_at _ _ _ HUf), HU.
  cbn [mbind option_bind negb]. rewrite Ep. cbn [mbind option_bind]. cbn in Hne.
  assert (df = d \/ df = opp d) as [->| ->] by (destruct df, d; auto).
  - rewrite child_opp. destruct (Z.eqb_spec (addr S) n); [done|]. cbn [mbind option_bind].
    apply wp_bind. eapply wp_mono; [by apply wp_insert_rotate|]. intros s1 H1. cbn.
    exists (Node false X n Y), p, S. split_and!; [done..|apply inorder_join_color|].
    intros h. cbn. tauto.
  - rewrite node_at_opp, child_opp, Z.eqb_refl. cbn [mbind option_bind]. rewrite (join_opp d) in H.
    destruct (tree_as_join d (Node false X n Y)) as (b' & x & n' & y & Ej); [done|].
    assert (b' = false /\ n' = n) as [-> ->] by (unfold join in Ej; destruct d; by simplify_eq).
    rewrite Ej in *. apply wp_bind, wp_bind. eapply wp_mono; [by apply wp_rotate|]. intros s1 [H1 D1]. cbn [wp].
    apply focus_up in H1. unfold plug1 in H1. cbn in H1.
    apply wp_bind. eapply wp_mono; [by apply wp_insert_rotate|]. intros s2 [H2 D2]. cbn.
    exists (join d false S p x), n, y. split_and!; [split; [done|dom_trans]|by rewrite addr_join| |..].
    + by destruct d.
    + rewrite (join_opp d). apply inorder_rotate.
    + intros h. rewrite rbt_join_red. unfold join in Ej. destruct d; simplify_eq; tauto.
Qed.

Lemma insert_loop_stop fuel s c A : focus s c A -> A <> Leaf -> c = [] \/ starts_black c ->
  insert_color_loop (S fuel) (addr A) s = Some s.
Proof.
  intros H HA Hc. destruct A as [|b x a y]; [done|]. destruct (focus_node s c L b x a y H) as (E & _ & _ & Hp).
  cbn. rewrite E. cbn. rewrite rb_parent_at by done. destruct c as [|f c]; [done|].
  destruct Hc as [|Hb]; [done|]. cbn in Hb |- *. destruct (focus_parent s f c _ H) as (E' & Hn & _ & Hp').
  destruct (Z.eqb_spec (f_addr f) NULL); [done|]. rewrite E'. cbn. by rewrite rb_is_red_at, Hb by done.
Qed.

(** What the loop leaves: a balanced tree once its root is black. *)
Definition inserted (s : rb_root) (t : tree) (s' : rb_root) : Prop := exists t',
  turns_into s [] t' s' /\ t' <> Leaf /\ inorder t' = inorder t /\ exists h, rbt h (blacken t').

Lemma plug_nonleaf c : forall t, t <> Leaf -> plug c t <> Leaf.
Proof. induction c as [|f c IH]; intros t Ht; [done|]. apply IH. unfold plug1, join. by destruct (f_dir f). Qed.

Lemma inserted_plug s s' c t t' : turns_into s c t' s' -> t' <> Leaf -> rb_tree (plug c t') ->
  inorder t' = inorder t -> inserted s (plug c t) s'.
Proof.
  intros [Hf Hd] Hn [Hb [h Hr]] Ho. exists (plug c t'). split_and!.
  - split; [by rewrite <- focus_plug|done].
  - by apply plug_nonleaf.
  - by apply inorder_plug.
  - exists h. by rewrite blacken_black.
Qed.

Lemma color_loop_ok fuel : forall s c X n Y h, focus s c (Node false X n Y) ->
  rbt h X -> rbt h Y -> is_black X = true -> is_black Y = true -> path_ok h c -> (length c < fuel)%nat ->
  wp (insert_color_loop fuel n s) (inserted s (plug c (Node false X n Y))).
Proof.
  induction fuel as [|fuel IH]; [lia|]. intros s c X n Y h H HX HY BX BY Hc Hf.
  destruct c as [|f c].
  { change n with (addr (Node false X n Y)). rewrite (insert_loop_stop fuel s [] _ H) by auto. cbn.
    exists (Node false X n Y). split_and!; [split; done|done|done|]. exists (S h). cbn. done. }
  assert (Hred : rbt h (Node false X n Y)) by (cbn; tauto).
  destruct (f_black f) eqn:Ef.
  { change n with (addr (Node false X n Y)). rewrite (insert_loop_stop fuel s (f :: c) _ H) by (cbn; auto). cbn [wp].
    eapply inserted_plug; [split; [exact H|done]|done|eapply plug_ok; [exact Hred|done|cbn; auto]|done]. }
  cbn in Hc. rewrite Ef in Hc. destruct Hc as (HS & BS & Hg & Hc).
  destruct c as [|[d bg g U] c]; [done|]. cbn in Hg, Hc, Hf. subst bg. destruct Hc as [HU Hc].
  destruct f as [df bf p S]. cbn in *. subst bf.
  destruct (focus_node _ _ L _ _ _ _ H) as (En & _ & _ & Hpa). cbn [parent_of f_addr] in *.
  destruct (focus_parent _ _ _ _ H) as (Ep & Hp & _ & Hga). cbn [f_dir f_black f_addr f_sib addr parent_of] in *.
  pose proof H as Hfp. apply focus_up in Hfp. unfold plug1 in Hfp. cbn [f_dir f_black f_addr f_sib] in Hfp.
  destruct (focus_parent _ _ _ _ Hfp) as (Eg & Hgn & _). cbn [f_dir f_black f_addr f_sib] in *. rewrite addr_join in Eg.
  pose proof (focus_side _ _ _ _ Hfp ltac:(left; by destruct df)) as Hside.
  cbn [f_dir f_black f_addr f_sib] in Hside. rewrite addr_join in Hside.
  rewrite En. cbn [mbind option_bind]. rewrite rb_parent_at by done. destruct (Z.eqb_spec p NULL); [done|].
  rewrite Ep. cbn [mbind option_bind]. rewrite rb_is_red_at, rb_parent_at by done. cbn [negb].
  rewrite Eg. cbn [mbind option_bind]. rewrite (Z.eqb_sym p), Hside. apply focus_up in Hfp.
  unfold plug1 in Hfp. cbn [f_dir f_black f_addr f_sib] in Hfp. apply wp_bind.
  destruct (is_black U) eqn:BU.
  - eapply wp_mono; [by eapply insert_fix_black|]. intros [m s1] (A & q & B & [H1 D1] & <- & HA & Ho & Hk).
    destruct (Hk h HX HY HS BX BY BS) as (KA & KB & BB). cbn [fst snd].
    assert (Hstop : exists fuel', fuel = Datatypes.S fuel') by (exists (pred fuel); lia). destruct Hstop as [fuel' ->].
    pose proof H1 as Hs. apply (focus_up _ (Build_frame d true q _)) in Hs.
    rewrite (insert_loop_stop fuel' s1 _ _ Hs HA) by (cbn; auto). cbn [wp].
    change (plug (_ :: _ :: c) ?t) with (plug c (join d true (join df false t p S) g U)).
    eapply inserted_plug; [split; [exact H1|done]|by destruct d| |].
    + eapply (plug_black _ (Datatypes.S h)); [|done|by rewrite black_join].
      rewrite rbt_join_black, rbt_join_red. tauto.
    + rewrite <- (inorder_rotate d true true). by apply inorder_join.
  - pose proof (insert_fix_red s c d _ g U n Hfp ltac:(by destruct df) BU) as W. rewrite addr_join in W.
    eapply wp_mono; [exact W|]. intros [m s1] [-> [H1 D1]]. cbn [fst snd].
    rewrite blacken_join in H1.
    assert (exists x y, join d false (join df true (Node false X n Y) p S) g (blacken U) = Node false x g y
       /\ rbt (Datatypes.S h) x /\ rbt (Datatypes.S h) y /\ is_black x = true /\ is_black y = true) as (x & y & Ej & Kx & Ky & Bx & By).
    { assert (rbt (Datatypes.S h) (blacken U)) by (by apply rbt_blacken).
      assert (rbt (Datatypes.S h) (join df true (Node false X n Y) p S)) by (rewrite rbt_join_black; split; [exact Hred|done]).
      destruct d; [exists (join df true (Node false X n Y) p S), (blacken U)|exists (blacken U), (join df true (Node false X n Y) p S)];
        rewrite black_join, black_blacken; done. }
    rewrite Ej in H1. eapply wp_mono; [eapply (IH s1 c); [exact H1|exact Kx|exact Ky|done..|lia]|].
    intros s2 (t' & [F2 D2] & Hn & Ho & Hk). exists t'. split_and!; [split; [done|dom_trans]|done| |done].
    rewrite Ho, <- Ej. change (plug (_ :: _ :: c) ?t) with (plug c (join d true (join df false t p S) g U)).
    apply inorder_plug, inorder_join; [apply inorder_join_color|apply inorder_blacken].
Qed.

(** *** The fuel is enough: a tree has no more nodes than the memory *)
Lemma cells_addrs t : forall p, (cells p t).*1 ≡ₚ inorder t.
Proof.
  induction t as [|b l IHl a r IHr]; intros p; [done|]. cbn. rewrite fmap_app, IHl, IHr. solve_Permutation.
Qed.
Lemma focus_inorder s t : focus s [] t ->
  NoDup (inorder t) /\ (forall a, a ∈ inorder t -> a <> NULL /\ aligned a /\ is_Some (mem s !! a)) /\ root_node s = addr t.
Proof.
  intros [[Hd Hc] Hr]. cbn in *. rewrite app_nil_r in *. rewrite cells_addrs in Hd. split_and!; [done| |done].
  intros a Ha. rewrite <- (cells_addrs t NULL) in Ha. apply list_elem_of_fmap in Ha as (x & -> & Hx).
  rewrite Forall_forall in Hc. destruct (Hc x Hx) as (? & ? & ?). eauto.
Qed.
Lemma focus_size s c t : focus s c t -> (length (inorder (plug c t)) <= size (mem s))%nat.
Proof.
  intros H. rewrite focus_plug in H. apply focus_inorder in H as (Hd & Hin & _).
  rewrite <- size_dom, <- (size_list_to_set (C := gset Z)) by done. apply subseteq_size.
  intros a Ha. apply elem_of_list_to_set in Ha. destruct (Hin a Ha) as (_ & _ & ?). by apply elem_of_dom.
Qed.
Lemma inorder_join_length d b x a y : length (inorder (join d b x a y)) = S (length (inorder x) + length (inorder y)).
Proof. destruct d; unfold join; cbn; rewrite length_app; cbn; lia. Qed.
Lemma path_length c : forall t, (length c + length (inorder t) <= length (inorder (plug c t)))%nat.
Proof.
  induction c as [|f c IH]; intros t; [done|]. cbn. specialize (IH (plug1 f t)).
  unfold plug1 at 1 in IH. rewrite inorder_join_length in IH. unfold plug in *. lia.
Qed.

(** [rb_link_node] at the place of a leaf. *)
Definition link_of (c : path) : rb_link :=
  match c with
  | [] => ToRoot
  | f :: _ => match f_dir f with L => ToLeft (f_addr f) | R => ToRight (f_addr f) end
  end.
(** [n] is a node in memory outside the tree. *)
Definition unlinked (s : rb_root) (t : tree) (n : Z) : Prop :=
  (n ∉ inorder t) /\ n <> NULL /\ aligned n /\ is_Some (mem s !! n).

Lemma focus_unlinked s c t n : focus s c t -> unlinked s (plug c t) n ->
  exists N, holds s ((n, N) :: cells (parent_of c) t ++ path_cells (addr t) c).
Proof.
  intros Hf (Hn & H0 & Ha & [N HN]). exists N. pose proof Hf as [[Hd Hc] _]. split.
  - cbn. constructor; [|done]. intros Hin. apply Hn.
    rewrite <- (cells_addrs _ NULL). apply list_elem_of_fmap in Hin as (x & -> & Hx). apply list_elem_of_fmap.
    rewrite focus_plug in Hf. exists x. split; [done|].
    assert (P : cells NULL (plug c t) ≡ₚ cells (parent_of c) t ++ path_cells (addr t) c).
    { clear. revert t. induction c as [|f c IH]; intros t; cbn; [by rewrite app_nil_r|].
      change (foldl _ ?u c) with (plug c u). rewrite IH. unfold plug1. rewrite cells_join, addr_join. solve_Permutation. }
    by rewrite P.
  - constructor; [done|]. done.
Qed.

Lemma wp_link_node s c n : focus s c Leaf -> unlinked s (plug c Leaf) n ->
  wp (rb_link_node n (parent_of c) (link_of c) s) (turns_into s c (Node false Leaf n Leaf)).
Proof.
  intros H Hn. destruct (focus_unlinked _ _ _ _ H Hn) as [N HN]. destruct H as [_ Hr]. cbn in HN, Hr.
  unfold rb_link_node. apply wp_bind. eapply wp_mono; [by apply wp_modify|]. intros s1 (H1 & R1 & D1).
  unfold upd in H1. cbn in H1.
  replace (Build_rb_node _ _ _) with (node_at L (parent_of c) false NULL NULL) in H1
    by (unfold node_at; cbn; by rewrite Z.add_0_r).
  destruct c as [|f c]; [cbn; split; [split; [exact H1|done]|done]|]. cbn in *.
  pose proof (wp_modify s1 (f_addr f) (node_at (f_dir f) (parent_of c) (f_black f) NULL (addr (f_sib f)))
    ((n, node_at L (f_addr f) false NULL NULL) :: cells (f_addr f) (f_sib f) ++ path_cells (f_addr f) c)
    (set_child (f_dir f) n) ltac:(holds_by H1)) as W. rewrite set_child_same in W.
  assert (E : assign match f_dir f with L => ToLeft (f_addr f) | R => ToRight (f_addr f) end n s1
              = modify (f_addr f) (set_child (f_dir f) n) s1) by (by destruct (f_dir f)).
  rewrite E. eapply wp_mono; [exact W|]. intros s2 (H2 & R2 & D2). split; [split|dom_trans].
  - cbn. holds_by H2.
  - cbn. congruence.
Qed.

(** Linking a node and [rb_insert_color]: the tree stays balanced and the node is at
    its place in the order. *)
Lemma wp_insert s c n : focus s c Leaf -> rb_tree (plug c Leaf) -> unlinked s (plug c Leaf) n ->
  wp (s ← rb_link_node n (parent_of c) (link_of c) s; rb_insert_color n s)
     (fun s' => exists t, turns_into s [] t s' /\ rb_tree t /\ inorder t = inorder (plug c (Node false Leaf n Leaf))).
Proof.
  intros H Hrb Hn. destruct (unplug _ _ Hrb) as (h & Hh & Hc & _). cbn in Hh. subst h.
  apply wp_bind. eapply wp_mono; [by apply wp_link_node|]. intros s1 [H1 D1].
  unfold rb_insert_color. apply wp_bind. eapply wp_mono; [eapply color_loop_ok; [exact H1|done..|]|].
  { pose proof (focus_size _ _ _ H1). pose proof (path_length c (Node false Leaf n Leaf)). lia. }
  intros s2 (t & [H2 D2] & Ht & Ho & [h Hb]). destruct t as [|b x a y]; [done|].
  pose proof H2 as [_ ->]. cbn. eapply wp_mono; [by apply (wp_black s2 [] L b)|]. intros s3 [H3 D3].
  exists (join L true x a y). split_and!; [split; [done|dom_trans]|split; [done|by exists h]|done].
Qed.

(** ** Removal *)

(** [if (t) rb_set_black(t)] *)
Lemma wp_blacken s c t : focus s c t ->
  wp (unless_null (addr t) (rb_set_black (addr t)) s) (turns_into s c (blacken t)).
Proof.
  intros H. unfold unless_null. destruct t as [|b x a y]; [done|]. cbn.
  destruct (focus_node s c L b x a y H) as (_ & Hn & _). destruct (Z.eqb_spec a NULL); [done|].
  by apply (wp_black s c L b x a y).
Qed.

(** The children of the sibling, from a focus on the node. *)
Lemma focus_to_sib s d b p c t bo x o y : focus s (Build_frame d b p (join d bo x o y) :: c) t ->
  focus s (Build_frame (opp d) bo o x :: Build_frame (opp d) b p t :: c) y.
Proof. intros H. apply focus_swap in H. apply focus_up. unfold plug1. cbn. by rewrite join_opp. Qed.
Lemma focus_from_sib s d b p c t bo x o y :
  focus s (Build_frame (opp d) bo o x :: Build_frame (opp d) b p t :: c) y ->
  focus s (Build_frame d b p (join d bo x o y) :: c) t.
Proof. intros H. apply focus_swap. apply focus_up in H. unfold plug1 in H. cbn in H. by rewrite join_opp in H. Qed.

Lemma wp_erase_last s d b p c t bo x o y : focus s (Build_frame d b p (join d bo x o y) :: c) t ->
  wp (erase_last d p o s) (fun '(next, s') =>
    next = inr (root_node s') /\ turns_into s c (join d b (join d true t p x) o (blacken y)) s').
Proof.
  intros H. destruct (focus_parent _ _ _ _ H) as (Ep & _ & _ & Hpa). cbn [f_dir f_black f_addr f_sib] in *.
  unfold erase_last. rewrite Ep. cbn [mbind option_bind]. rewrite rb_color_at by done.
  apply wp_bind. apply focus_swap in H. eapply wp_mono; [by eapply wp_color|]. intros s1 [H1 D1].
  apply focus_swap in H1. apply focus_up in H1. unfold plug1 in H1. cbn [f_dir f_black f_addr f_sib] in H1.
  apply wp_bind. eapply wp_mono; [by eapply wp_black|]. intros s2 [H2 D2].
  apply (focus_up _ (Build_frame d true p _)) in H2. pose proof H2 as H2'. apply focus_swap, focus_node in H2' as (Eo & _).
  rewrite Eo. cbn [mbind option_bind]. rewrite child_opp.
  apply wp_bind. apply focus_to_sib in H2. eapply wp_mono; [by apply wp_blacken|]. intros s3 [H3 D3].
  apply focus_from_sib, focus_up in H3. unfold plug1 in H3. cbn [f_dir f_black f_addr f_sib] in H3.
  apply wp_bind. eapply wp_mono; [by apply wp_rotate|]. intros s4 [H4 D4]. cbn.
  split; [done|]. split; [done|dom_trans].
Qed.

(** The sibling [o] is black, its inner child [x] is red and its outer child [y]
    black: after the rotation the outer child is red. *)
Lemma wp_inner s d b p c t x1 w x2 o y : focus s (Build_frame d b p (join d true (join d false x1 w x2) o y) :: c) t ->
  wp (s ← unless_null w (rb_set_black w) s; s ← rb_set_red o s; s ← rb_rotate (opp d) o s;
      n ← mem s !! p; Some (child (opp d) n, s))
     (fun '(other, s') => other = w /\
        turns_into s (Build_frame d b p (join d true x1 w (join d false x2 o y)) :: c) t s').
Proof.
  intros H. apply focus_swap in H. apply (focus_up s (Build_frame d true o y)) in H.
  pose proof (wp_blacken _ _ _ H) as W. rewrite addr_join, blacken_join in W.
  apply wp_bind. eapply wp_mono; [exact W|]. intros s1 [H1 D1]. apply focus_up in H1. unfold plug1 in H1. cbn in H1.
  apply wp_bind. eapply wp_mono; [by eapply wp_red|]. intros s2 [H2 D2].
  rewrite <- (join_opp d), <- (join_opp d true) in H2.
  apply wp_bind. eapply wp_mono; [by apply wp_rotate|]. intros s3 [H3 D3]. rewrite !join_opp in H3.
  apply focus_swap in H3. destruct (focus_parent _ _ _ _ H3) as (Ep & _). cbn [f_dir f_black f_addr f_sib] in Ep.
  rewrite Ep. cbn [mbind option_bind wp]. rewrite child_opp, addr_join. split; [done|]. split; [done|dom_trans].
Qed.

(** The node [t] lacks a black node; removing it from the count of its path. *)
Definition short (h : nat) (c : path) (t : tree) : Prop :=
  path_ok (S h) c /\ if is_black t then rbt h t else rbt (S h) (blacken t).
Definition erased (s : rb_root) (t : tree) (s' : rb_root) : Prop := exists t',
  turns_into s [] t' s' /\ rb_tree t' /\ inorder t' = inorder t.

Lemma erased_plug s s' c t t' : turns_into s c t' s' -> rb_tree (plug c t') -> inorder t' = inorder t ->
  erased s (plug c t) s'.
Proof.
  intros [Hf Hd] Hr Ho. exists (plug c t'). split_and!; [split; [by rewrite <- focus_plug|done]|done|by apply inorder_plug].
Qed.

Lemma wp_erase_far s d b p c t h bo x o y : focus s (Build_frame d b p (join d bo x o y) :: c) t -> bo = true ->
  rbt h t -> is_black t = true -> path_ok (S h) (Build_frame d b p (join d bo x o y) :: c) -> is_black y = false ->
  wp (erase_last d p o s) (fun '(next, s') => next = inr (root_node s') /\
    erased s (plug c (join d b t p (join d bo x o y))) s').
Proof.
  intros H -> Ht Bt [Hs Hc] By. cbn [f_sib f_black] in *. apply rbt_join_black in Hs as [Kx Ky].
  eapply wp_mono; [by eapply wp_erase_last|]. intros [next s1] [-> H1]. split; [done|].
  eapply erased_plug; [exact H1| |].
  - apply rbt_blacken in Ky; [|done]. pose proof (black_blacken y). destruct b.
    + eapply (plug_black _ (S (S h))); [|done|by rewrite black_join]. rewrite !rbt_join_black. tauto.
    + destruct Hc as (_ & Hb & Hc). eapply (plug_ok _ (S h)); [|done|by right].
      rewrite rbt_join_red, rbt_join_black, black_join. tauto.
  - rewrite (inorder_rotate d b true b true). apply inorder_join; [done|]. apply inorder_join; [done|apply inorder_blacken].
Qed.

(** The test of the two children of the sibling. *)
Lemma both_black {A} s d c par bo x o y (k : bool -> option A) : focus s c (join d bo x o y) ->
  (bl ← is_black_at (rb_left (node_at d par bo (addr x) (addr y))) s;
   br ← (if bl : bool then is_black_at (rb_right (node_at d par bo (addr x) (addr y))) s else Some false);
   k br) = k (is_black x && is_black y).
Proof.
  intros H. pose proof (proj2 (focus_up s (Build_frame d bo o y) c x) H) as Hx.
  pose proof (proj1 (focus_swap _ _ _ _ _ _ _) Hx) as Hy.
  unfold node_at. destruct d; cbn [rb_left rb_right];
    rewrite (wp_is_black_at _ _ _ Hx), (wp_is_black_at _ _ _ Hy); cbn; destruct (is_black x), (is_black y); done.
Qed.

(** How a pass of the loop ends: with a node that still lacks a black one, one level
    up, or with a balanced tree. *)
Definition pass_post (s : rb_root) (c : path) (u : tree) (r : (Z * Z + Z) * rb_root) : Prop :=
  let '(next, s') := r in
  match next with
  | inl (node, parent) => parent = parent_of c /\
      exists t h, turns_into s c t s' /\ addr t = node /\ inorder t = inorder u /\ short h c t
                  /\ (is_black u = false -> is_black t = false)
  | inr node => node = root_node s' /\ erased s (plug c u) s'
  end.

Lemma erase_black_other_ok s d b p c t h x o y : focus s (Build_frame d b p (join d true x o y) :: c) t ->
  rbt h t -> is_black t = true -> path_ok (S h) (Build_frame d b p (join d true x o y) :: c) ->
  wp (erase_black_other d p o s) (pass_post s c (join d b t p (join d true x o y))).
Proof.
  intros H Ht Bt Hc. pose proof H as Hs. apply focus_swap in Hs. destruct (focus_node _ _ _ _ _ _ _ Hs) as (Eo & _).
  pose proof (proj2 (focus_up _ (Build_frame d true o y) _ x) Hs) as Hx.
  pose proof (proj1 (focus_swap _ _ _ _ _ _ _) Hx) as Hy.
  unfold erase_black_other. rewrite Eo. cbn [mbind option_bind]. rewrite (both_black _ _ _ _ _ _ _ _ _ Hs).
  destruct (is_black x && is_black y) eqn:Bxy.
  - apply andb_true_iff in Bxy as [Bx By]. apply wp_bind. eapply wp_mono; [by eapply wp_red|]. intros s1 [H1 D1].
    apply focus_swap in H1. destruct (focus_parent _ _ _ _ H1) as (Ep & _ & _ & Hpa).
    cbn [f_dir f_black f_addr f_sib] in Ep. rewrite Ep. cbn [mbind option_bind wp pass_post].
    rewrite rb_parent_at by done. split; [done|]. apply focus_up in H1. unfold plug1 in H1. cbn [f_dir f_black f_addr f_sib] in H1.
    destruct Hc as [Hsib Hc]. cbn [f_sib f_black] in Hsib, Hc. apply rbt_join_black in Hsib.
    exists (join d b t p (join d false x o y)), (if b then S h else h). split_and!.
    + done.
    + apply addr_join.
    + apply inorder_join; [done|apply inorder_join_color].
    + split; [destruct b; [exact Hc|apply Hc]|].
      rewrite black_join. destruct b; [|rewrite blacken_join]; rewrite rbt_join_black, ?rbt_join_red; tauto.
    + by rewrite !black_join.
  - rewrite child_opp, (wp_is_black_at _ _ _ Hy). cbn [mbind option_bind]. destruct (is_black y) eqn:By.
    + rewrite andb_true_r in Bxy. destruct (tree_as_join d x) as (bx & x1 & w & x2 & ->); [by intros ->|].
      rewrite black_join in Bxy. subst bx. rewrite child_same, addr_join.
      apply wp_bind. eapply wp_mono; [by apply wp_inner|]. intros [other s1] [-> [H1 D1]].
      destruct Hc as [Hsib Hc]. cbn [f_sib f_black] in Hsib, Hc. apply rbt_join_black in Hsib as [Kx Ky].
      apply rbt_join_red in Kx as ((K1 & K2) & B1 & B2).
      eapply wp_mono; [eapply (wp_erase_far _ _ _ _ _ _ h); [exact H1|done..| |by rewrite black_join]|].
      * cbn. rewrite rbt_join_black, rbt_join_red, black_join. rewrite black_join in Hc. destruct b; tauto.
      * intros [next s2] [-> (t' & [F2 D2] & R2 & O2)]. split; [done|]. exists t'. split_and!; [split; [done|dom_trans]|done|].
        rewrite O2. apply inorder_plug, inorder_join; [done|]. symmetry. apply inorder_rotate.
    + eapply wp_mono; [by eapply (wp_erase_far _ _ _ _ _ _ h)|]. intros [next s1] [-> He]. split; done.
Qed.

(** A pass may go on from a path that is one longer, below a red node. *)
Lemma erase_fix_ok s d b p sib c t h : focus s (Build_frame d b p sib :: c) t ->
  rbt h t -> is_black t = true -> path_ok (S h) (Build_frame d b p sib :: c) ->
  wp (erase_fix d p s) (fun r => exists s1 c' u, same_dom s s1 /\ pass_post s1 c' u r /\
    inorder (plug c' u) = inorder (plug c (join d b t p sib)) /\ (c' = c \/ is_black u = false)).
Proof.
  intros H Ht Bt Hc. destruct (focus_parent _ _ _ _ H) as (Ep & _). cbn [f_dir f_black f_addr f_sib] in Ep.
  destruct (tree_as_join d sib) as (bs & x & o & y & Es).
  { destruct Hc as [Hs _]. cbn in Hs. by eapply rbt_nonleaf. }
  pose proof H as Hs. apply focus_swap in Hs. rewrite Es in Hs. destruct (focus_node _ _ _ _ _ _ _ Hs) as (Eo & _ & _ & Hpa).
  unfold erase_fix. rewrite Ep. cbn [mbind option_bind]. rewrite child_opp, Es, addr_join, Eo. cbn [mbind option_bind].
  rewrite rb_is_red_at by done. subst sib. destruct bs; cbn [negb].
  - cbn [mbind option_bind]. eapply wp_mono; [by eapply erase_black_other_ok|]. intros r Hr.
    exists s, c, (join d b t p (join d true x o y)). split_and!; auto; done.
  - destruct Hc as [Hsib Hc]. cbn [f_sib f_black] in *. rewrite black_join in Hc. destruct b; [|by destruct Hc].
    apply rbt_join_red in Hsib as ((Kx & Ky) & Bx & By).
    apply wp_bind, wp_bind. eapply wp_mono; [by eapply wp_black|]. intros s1 [H1 D1]. apply focus_swap, focus_up in H1.
    apply wp_bind. unfold plug1 in H1. cbn [f_dir f_black f_addr f_sib] in H1.
    eapply wp_mono; [by eapply wp_red|]. intros s2 [H2 D2].
    apply wp_bind. eapply wp_mono; [by apply wp_rotate|]. intros s3 [H3 D3].
    apply (focus_up _ (Build_frame d true o y)), (focus_up _ (Build_frame d false p x)) in H3.
    destruct (focus_parent _ _ _ _ H3) as (Ep3 & _). cbn [f_dir f_black f_addr f_sib] in Ep3. rewrite Ep3.
    cbn [mbind option_bind wp]. rewrite child_opp.
    destruct (tree_as_join d x) as (bx & x1 & w & x2 & ->); [by eapply rbt_nonleaf|]. rewrite black_join in Bx. subst bx.
    rewrite addr_join. eapply wp_mono; [eapply (erase_black_other_ok _ _ _ _ _ _ h); [exact H3|done..|]|].
    { cbn. rewrite black_join. done. }
    intros r Hr. exists s3, (Build_frame d true o y :: c), (join d false t p (join d true x1 w x2)).
    split_and!; [dom_trans|done| |right; by rewrite black_join].
    change (plug (_ :: c) ?u) with (plug c (join d true u o y)). apply inorder_plug. apply inorder_rotate.
Qed.

(** Only the root is the root. *)
Lemma focus_root_ne s f c t : focus s (f :: c) t -> addr t <> root_node s.
Proof.
  intros [H Hr]. rewrite Hr. cbn in *.
  assert (Hin : forall h c, path_root h c = h \/ path_root h c ∈ (path_cells h c).*1).
  { clear. intros h c. revert h. induction c as [|f c IH]; intros h; [by left|]. cbn. right.
    rewrite fmap_app. destruct (IH (f_addr f)) as [->|Hi]; set_solver. }
  assert (Hm : path_root (f_addr f) c ∈ (path_cells (addr t) (f :: c)).*1).
  { cbn. rewrite fmap_app. destruct (Hin (f_addr f) c) as [->|Hi]; set_solver. }
  intros E. rewrite <- E in Hm. apply list_elem_of_fmap in Hm as (x & Ex & Hx). destruct t as [|b l a r].
  - destruct (holds_in _ _ x H) as (Hn & _); [set_solver|]. by apply Hn.
  - destruct H as [Hd _]. cbn in Hd. apply NoDup_cons in Hd as [Hd _]. apply Hd. rewrite fmap_app.
    apply elem_of_app. right. apply list_elem_of_fmap. by exists x.
Qed.

Lemma short_blacken h c t : short h c t -> is_black t = false \/ c = [] -> rb_tree (plug c (blacken t)).
Proof.
  intros [Hc Ht] Hb. destruct (is_black t) eqn:B.
  - destruct Hb as [| ->]; [done|]. rewrite blacken_black by done. split; [done|by exists h].
  - eapply plug_black; [done|done|apply black_blacken].
Qed.

Lemma erase_loop_ok fuel : forall s c t h, focus s c t -> short h c t ->
  ((if is_black t then length c else O) < fuel)%nat ->
  wp ('(node, s) ← erase_color_loop fuel (addr t) (parent_of c) s; unless_null node (rb_set_black node) s)
     (erased s (plug c t)).
Proof.
  induction fuel as [|fuel IH]; [lia|]. intros s c t h H Hs Hf.
  cbn [erase_color_loop]. rewrite (wp_is_black_at _ _ _ H). cbn [mbind option_bind].
  assert (Hstop : is_black t = false \/ c = [] -> wp (unless_null (addr t) (rb_set_black (addr t)) s) (erased s (plug c t))).
  { intros Hb. eapply wp_mono; [by apply wp_blacken|]. intros s1 H1. eapply erased_plug; [done| |apply inorder_blacken].
    by eapply short_blacken. }
  destruct (is_black t) eqn:B; [|by apply Hstop; left]. destruct c as [|f c].
  { destruct H as [_ Hr]. cbn in Hr. rewrite Hr, Z.eqb_refl. by apply Hstop; right. }
  destruct (Z.eqb_spec (addr t) (root_node s)) as [E|_]; [by apply focus_root_ne in H|]. cbn [andb negb parent_of].
  destruct Hs as [Hc Ht]. rewrite B in Ht.
  destruct (focus_parent _ _ _ _ H) as (Ep & _). rewrite Ep. cbn [mbind option_bind].
  rewrite (focus_side _ _ _ _ H) by (right; destruct Hc as [Hc _]; by eapply rbt_nonleaf).
  destruct f as [d b p sib]. cbn [f_dir f_addr] in *. apply wp_bind, wp_bind.
  eapply wp_mono; [by eapply erase_fix_ok|]. intros [next s1] (s0 & c' & u & D0 & Hp & Ho & Hc').
  change (plug (_ :: c) t) with (plug c (join d b t p sib)). destruct next as [[node par]|node]; cbn in Hp.
  - destruct Hp as (-> & t1 & h1 & [H1 D1] & <- & O1 & S1 & B1).
    pose proof (IH s1 c' t1 h1 H1 S1) as W. 
    assert (Hl : ((if is_black t1 then length c' else 0) < fuel)%nat).
    { cbn in Hf. destruct (is_black t1); [|lia]. destruct Hc' as [->|Hu]; [lia|]. by specialize (B1 Hu). }
    specialize (W Hl). destruct (erase_color_loop fuel (addr t1) (parent_of c') s1) as [[n2 s2]|]; [|done].
    cbn in W |- *. eapply wp_mono; [exact W|]. intros s3 (t3 & [F3 D3] & R3 & O3).
    exists t3. split_and!; [split; [done|dom_trans]|done|]. rewrite O3, <- Ho. by apply inorder_plug.
  - destruct Hp as [-> (t1 & [H1 D1] & R1 & O1)]. cbn [wp].
    pose proof H1 as [_ ->]. cbn [path_root]. eapply wp_mono; [by apply wp_blacken|]. intros s2 [H2 D2].
    exists t1. rewrite blacken_black in H2 by apply R1. split_and!; [split; [done|dom_trans]|done|]. by rewrite O1.
Qed.

Lemma wp_erase_color s c t h : focus s c t -> short h c t ->
  wp (rb_erase_color (addr t) (parent_of c) s) (erased s (plug c t)).
Proof.
  intros H Hs. unfold rb_erase_color. eapply erase_loop_ok; [done|done|].
  pose proof (focus_size _ _ _ H). pose proof (path_length c t). destruct (is_black t); lia.
Qed.

(** *** Positions *)
Lemma plug_split c : exists pre post, forall t, inorder (plug c t) = pre ++ inorder t ++ post.
Proof.
  induction c as [|f c (pre & post & IH)]; [exists [], []; intros; cbn; by rewrite app_nil_r|].
  destruct f as [[] b a y].
  - exists pre, (a :: inorder y ++ post). intros t. change (plug (_ :: c) t) with (plug c (Node b t a y)).
    rewrite IH. cbn. by rewrite <- app_assoc.
  - exists (pre ++ inorder y ++ [a]), post. intros t. change (plug (_ :: c) t) with (plug c (Node b y a t)).
    rewrite IH. cbn. by rewrite <- !app_assoc.
Qed.
Lemma find_node a t : a ∈ inorder t -> exists c b l r, t = plug c (Node b l a r).
Proof.
  induction t as [|b l IHl e r IHr]; cbn; [set_solver|]. rewrite elem_of_app, elem_of_cons. intros [Hl|[->|Hr]].
  - destruct (IHl Hl) as (c & b' & l' & r' & ->). exists (c ++ [Build_frame L b e r]), b', l', r'. by rewrite plug_app.
  - by exists [], b, l, r.
  - destruct (IHr Hr) as (c & b' & l' & r' & ->). exists (c ++ [Build_frame R b e l]), b', l', r'. by rewrite plug_app.
Qed.

(** The path of the loop to the leftmost node. *)
Lemma leftmost_ok fuel : forall s c t, focus s c t -> t <> Leaf -> (length (inorder t) <= fuel)%nat ->
  wp (leftmost fuel (addr t) s) (fun n => exists q b r,
    t = plug q (Node b Leaf n r) /\ Forall (fun f => f_dir f = L) q).
Proof.
  induction fuel as [|fuel IH]; intros s c t H Ht Hl; destruct t as [|b l a r]; try done;
    pose proof (inorder_join_length L b l a r) as El; unfold join in El; [lia|].
  destruct (focus_node s c L b l a r H) as (E & _). cbn. rewrite E. cbn.
  apply (focus_up s (Build_frame L b a r)) in H. change (rb_left (node_at L _ _ ?x _)) with x.
  destruct l as [|bl l1 al l2].
  - cbn. exists [], b, r. auto.
  - cbn [addr]. destruct (focus_node s _ L _ _ _ _ H) as (_ & Hn & _). destruct (Z.eqb_spec al NULL); [done|].
    eapply wp_mono; [eapply (IH s _ _ H); [done|lia]|].
    intros n' (q & b' & r' & E' & Hq). exists (q ++ [Build_frame L b a r]), b', r'.
    rewrite plug_app, <- E'. split; [done|]. apply Forall_app. by repeat constructor.
Qed.

Lemma wp_rb_first s t : focus s [] t -> wp (rb_first s) (fun n => n = default NULL (head (inorder t))).
Proof.
  intros H. unfold rb_first. pose proof (focus_size _ _ _ H) as Hz. pose proof H as [_ Hr]. cbn in Hr. change (plug [] t) with t in Hz. rewrite Hr.
  destruct t as [|b l a r]; [done|]. destruct (focus_node s [] L b l a r H) as (_ & Hn & _). cbn [addr].
  destruct (Z.eqb_spec a NULL); [done|]. eapply wp_mono; [eapply (leftmost_ok _ s [] _ H); [done|lia]|].
  intros n' (q & b' & r' & -> & Hq). clear -Hq. revert b' r'. induction q as [|f q IH] using rev_ind; intros; [done|].
  apply Forall_app in Hq as [Hq Hf]. apply Forall_cons in Hf as [Hf _].
  rewrite plug_app. cbn. unfold plug1, join. rewrite Hf. cbn.
  specialize (IH Hq b' r'). destruct (inorder (plug q (Node b' Leaf n' r'))) eqn:Ei; [|done].
  destruct (plug_split q) as (pre & post & Hp). rewrite Hp in Ei. by destruct pre.
Qed.

(** *** One node takes the place of another *)
Lemma wp_take_place s c b l old r n : focus s c (Node b l old r) -> unlinked s (plug c (Node b l old r)) n -> l <> Leaf ->
  wp (take_place old n s) (turns_into s c (Node b l n r)).
Proof.
  intros H Hu Hl. destruct (focus_unlinked _ _ _ _ H Hu) as [N HN]. destruct Hu as (_ & _ & Hna & _).
  destruct (focus_node s c L b l old r H) as (Eo & Ho & Hoa & Hpa). destruct H as [_ Hr]. cbn [addr cells] in HN, Hr.
  set (O := node_at L (parent_of c) b (addr l) (addr r)) in *.
  unfold take_place. rewrite Eo. cbn [mbind option_bind].
  apply wp_bind. eapply wp_mono; [by apply wp_modify|]. intros s1 (H1 & R1 & D1).
  replace (rb_parent O) with (parent_of c) by (unfold O; by rewrite rb_parent_at).
  apply wp_bind. eapply wp_mono; [apply (wp_replace_child s1 L old n c) with
    (l := (n, O) :: (old, O) :: cells old l ++ cells old r); [holds_by H1|congruence|]|].
  { apply (holds_not_sibling s1 old O c ((n, O) :: cells old l ++ cells old r)). holds_by H1. }
  intros s2 (H2 & R2 & D2).
  destruct (holds_in s2 _ (old, O) H2) as (_ & _ & E2); [set_solver|]. cbn [fst snd] in E2. rewrite E2.
  cbn [mbind option_bind]. change (rb_left O) with (addr l). change (rb_right O) with (addr r).
  assert (Hln : (addr l =? NULL) = false).
  { destruct l as [|bl l1 al l2]; [done|]. destruct (holds_in s2 _ (al, node_at L old bl (addr l1) (addr l2)) H2) as (Hn & _).
    - cbn. set_solver.
    - by apply Z.eqb_neq. }
  pose proof (wp_reparent s2 old n l ((n, O) :: cells old r ++ path_cells n c)) as W. unfold unless_null in W.
  rewrite Hln in W. apply wp_bind. eapply wp_mono; [apply W; [|done..]|].
  { eapply holds_sub; [|exact H2]. solve_submseteq. }
  intros s3 (H3 & R3 & D3). eapply wp_mono; [apply (wp_reparent s3 old n r ((n, O) :: cells n l ++ path_cells n c)); [holds_by H3|done..]|].
  intros s4 (H4 & R4 & D4). split; [split|dom_trans].
  - cbn. holds_by H4.
  - cbn. congruence.
Qed.

(** *** A node without a child on one side leaves the tree *)
Lemma wp_unlink_one s c d b a r : focus s c (join d b Leaf a r) ->
  wp (s ← unless_null (addr r) (rb_set_parent (addr r) (parent_of c)) s; replace_child L (parent_of c) a (addr r) s)
     (turns_into s c r).
Proof.
  intros H. destruct (focus_node _ _ _ _ _ _ _ H) as (_ & _ & Ha & Hp). destruct H as [H Hr].
  rewrite cells_join, addr_join in *. cbn [cells app] in H.
  apply wp_bind. eapply wp_mono; [apply (wp_reparent s a (parent_of c) r) with
    (l := (a, node_at d (parent_of c) b (addr Leaf) (addr r)) :: path_cells a c); [holds_by H|done..]|].
  intros s1 (H1 & R1 & D1). eapply wp_mono; [apply (wp_replace_child s1 L a (addr r) c) with
    (l := (a, node_at d (parent_of c) b (addr Leaf) (addr r)) :: cells (parent_of c) r); [holds_by H1|congruence|]|].
  { eapply (holds_not_sibling s1 a) with (l := cells (parent_of c) r). holds_by H1. }
  intros s2 (H2 & R2 & D2). split; [split|dom_trans]; [|congruence].
  eapply holds_sub; [|exact H2]. solve_submseteq.
Qed.

Lemma wp_unlink_min s f c b a r : focus s (f :: c) (Node b Leaf a r) ->
  wp (s ← unless_null (addr r) (rb_set_parent (addr r) (f_addr f)) s; modify (f_addr f) (set_child (f_dir f) (addr r)) s)
     (turns_into s (f :: c) r).
Proof.
  intros H. destruct (focus_node s (f :: c) L b Leaf a r H) as (_ & _ & Ha & Hp). destruct H as [H Hr].
  cbn [cells app path_cells parent_of path_root addr] in *.
  apply wp_bind. eapply wp_mono; [apply (wp_reparent s a (f_addr f) r) with (l :=
    (a, node_at L (f_addr f) b NULL (addr r)) :: (f_addr f, node_at (f_dir f) (parent_of c) (f_black f) a (addr (f_sib f)))
    :: cells (f_addr f) (f_sib f) ++ path_cells (f_addr f) c); [holds_by H|done..]|].
  intros s1 (H1 & R1 & D1). eapply wp_mono; [apply (wp_modify s1 (f_addr f)
    (node_at (f_dir f) (parent_of c) (f_black f) a (addr (f_sib f))) ((a, node_at L (f_addr f) b NULL (addr r)) ::
    cells (f_addr f) r ++ cells (f_addr f) (f_sib f) ++ path_cells (f_addr f) c)); holds_by H1|].
  intros s2 (H2 & R2 & D2). rewrite set_child_same in H2. split; [split|dom_trans]; [|cbn; congruence].
  eapply holds_sub; [|exact H2]. cbn [path_cells parent_of]. solve_submseteq.
Qed.

(** What is known when the label [color] is reached. *)
Definition unlink_post (s : rb_root) (t : tree) (a : Z) (r : Z * Z * Z * rb_root) : Prop :=
  let '(color, child, parent, s') := r in
  exists b c u l1 l2, color = Z.b2z b /\ child = addr u /\ parent = parent_of c /\ turns_into s c u s' /\
    (if b : bool then exists h, short h c u else rb_tree (plug c u)) /\
    inorder t = l1 ++ a :: l2 /\ inorder (plug c u) = l1 ++ l2.

(** The balance after a node with the colour [b] and the only child [u] left. *)
Lemma unlink_balance d b a u c : rb_tree (plug c (join d b Leaf a u)) ->
  if b then exists h, short h c u else rb_tree (plug c u).
Proof.
  intros H. destruct (unplug _ _ H) as (h & Ht & Hc & Hb). destruct b.
  - destruct (rbt_join_S _ _ _ _ _ _ Ht eq_refl) as [k ->]. apply rbt_join_black in Ht as [_ Ht].
    exists k. split; [done|]. destruct (is_black u) eqn:B; [done|]. by apply rbt_blacken.
  - apply rbt_join_red in Ht as ((_ & ?) & _ & ?). by apply (plug_black _ h).
Qed.

Lemma rb_unlink_one s c d b a u : focus s c (join d b Leaf a u) -> rb_tree (plug c (join d b Leaf a u)) ->
  wp (rb_unlink a s) (unlink_post s (plug c (join d b Leaf a u)) a).
Proof.
  intros H Hr. destruct (focus_node _ _ _ _ _ _ _ H) as (E & _ & _ & Hp).
  unfold rb_unlink. rewrite E. cbn [mbind option_bind].
  assert (Hc : (if rb_left (node_at d (parent_of c) b (addr Leaf) (addr u)) =? NULL
                then rb_right (node_at d (parent_of c) b (addr Leaf) (addr u))
                else rb_left (node_at d (parent_of c) b (addr Leaf) (addr u))) = addr u).
  { unfold node_at. destruct d; cbn; [done|]. by destruct (Z.eqb_spec (addr u) NULL). }
  assert (H2 : negb (rb_left (node_at d (parent_of c) b (addr Leaf) (addr u)) =? NULL)
          && negb (rb_right (node_at d (parent_of c) b (addr Leaf) (addr u)) =? NULL) = false).
  { unfold node_at. destruct d; cbn; [done|apply andb_false_r]. }
  rewrite H2, Hc, rb_parent_at, rb_color_at by done. cbv zeta.
  pose proof (wp_unlink_one _ _ _ _ _ _ H) as W. apply wp_elim in W as (s1 & W & H1).
  destruct (unless_null (addr u) (rb_set_parent (addr u) (parent_of c)) s) as [s0|]; [|done].
  cbn [mbind option_bind] in W |- *. rewrite W. cbn [mbind option_bind wp unlink_post].
  destruct (plug_split c) as (pre & post & Hin). 
  exists b, c, u. destruct d.
  - exists pre, (inorder u ++ post). split_and!; [done..| |by rewrite !Hin|by rewrite Hin].
    by eapply unlink_balance.
  - exists (pre ++ inorder u), post. split_and!; [done..| | |].
    + by eapply unlink_balance.
    + rewrite Hin. unfold join. cbn. by rewrite <- !app_assoc.
    + by rewrite Hin, app_assoc.
Qed.

(** The path to the successor, after it took the place of its ancestor. *)
Lemma path_ok_change q f a c : forall h,
  path_ok h (q ++ f :: c) -> path_ok h (q ++ Build_frame (f_dir f) (f_black f) a (f_sib f) :: c).
Proof.
  induction q as [|g q IH]; intros h; [done|]. cbn. intros [Hs Hc]. split; [done|]. destruct (f_black g); [by apply IH|].
  destruct Hc as (? & Hb & Hc). split_and!; [done| |by apply IH]. by destruct q.
Qed.
Lemma short_change q f a c h u : short h (q ++ f :: c) u ->
  short h (q ++ Build_frame (f_dir f) (f_black f) a (f_sib f) :: c) u.
Proof. intros [? ?]. split; [by apply path_ok_change|done]. Qed.
Lemma rb_tree_change q f a c u : rb_tree (plug (q ++ f :: c) u) ->
  rb_tree (plug (q ++ Build_frame (f_dir f) (f_black f) a (f_sib f) :: c) u).
Proof.
  intros H. destruct (unplug _ _ H) as (h & Hu & Hc & Hb). apply (plug_ok _ h); [done|by apply path_ok_change|].
  destruct Hb; [by left|right]. by destruct q.
Qed.

Lemma focus_path_ne s f q g c t : focus s (f :: q ++ g :: c) t -> f_addr f <> f_addr g.
Proof.
  intros [H _] E. assert (Hin : forall h, f_addr g ∈ (path_cells h (q ++ g :: c)).*1).
  { clear. induction q as [|e q IH]; intros h; cbn; [set_solver|]. rewrite fmap_app. specialize (IH (f_addr e)). set_solver. }
  specialize (Hin (f_addr f)). cbn in H. destruct H as [Hd _]. rewrite fmap_app in Hd. apply NoDup_app in Hd as (_ & _ & Hd).
  cbn in Hd. apply NoDup_cons in Hd as [Hd _]. apply Hd. rewrite fmap_app. rewrite <- E in Hin. apply elem_of_app. by right.
Qed.

Lemma left_split q : Forall (fun f => f_dir f = L) q -> exists post, forall t, inorder (plug q t) = inorder t ++ post.
Proof.
  induction 1 as [|[d b a y] q Hf Hq (post & IH)]; [exists []; intros; cbn; by rewrite app_nil_r|]. cbn in Hf. subst d.
  exists (a :: inorder y ++ post). intros t. change (plug (_ :: q) t) with (plug q (Node b t a y)).
  rewrite IH. cbn. by rewrite <- app_assoc.
Qed.

(** The successor [n] leaves its place. *)
Lemma unlink_successor s q b a l c bn n u : focus s (q ++ Build_frame R b a l :: c) (Node bn Leaf n u) ->
  Forall (fun f => f_dir f = L) q ->
  let par := parent_of (q ++ Build_frame R b a l :: c) in
  wp (s ← unless_null (addr u) (rb_set_parent (addr u) par) s;
      if par =? a then s ← modify par (fun n => n <| rb_right := addr u |>) s; Some (n, s)
      else s ← modify par (fun n => n <| rb_left := addr u |>) s; Some (par, s))
     (fun '(p, s') => p = parent_of (q ++ Build_frame R b n l :: c) /\ turns_into s (q ++ Build_frame R b a l :: c) u s').
Proof.
  intros H Hq. destruct q as [|f q]; cbn.
  - rewrite Z.eqb_refl. pose proof (wp_unlink_min _ _ _ _ _ _ H) as W. cbn in W.
    destruct (unless_null _ _ s) as [s1|]; [|done]. cbn in W |- *.
    apply wp_bind. eapply wp_mono; [exact W|]. done.
  - apply Forall_cons in Hq as [Hf Hq]. apply focus_path_ne in H as Hne. cbn in Hne.
    destruct (Z.eqb_spec (f_addr f) a); [done|]. pose proof (wp_unlink_min _ _ _ _ _ _ H) as W. rewrite Hf in W.
    destruct (unless_null _ _ s) as [s1|]; [|done]. cbn in W |- *.
    apply wp_bind. eapply wp_mono; [exact W|]. done.
Qed.

Lemma rb_unlink_two s c b l a r : focus s c (Node b l a r) -> rb_tree (plug c (Node b l a r)) -> l <> Leaf -> r <> Leaf ->
  wp (rb_unlink a s) (unlink_post s (plug c (Node b l a r)) a).
Proof.
  intros H Hrb Hl Hr. destruct (focus_node s c L b l a r H) as (E & Ha & _ & Hp).
  pose proof (proj2 (focus_up s (Build_frame R b a l) c r) H) as Hfr.
  pose proof (proj1 (focus_swap _ _ _ _ _ _ _) Hfr) as Hfl.
  assert (Hnull : forall c t, focus s c t -> t <> Leaf -> (addr t =? NULL) = false).
  { intros c' [|b' x e y] Hf Ht; [done|]. destruct (focus_node s _ L _ _ _ _ Hf) as (_ & ? & _). by apply Z.eqb_neq. }
  unfold rb_unlink. rewrite E. cbn [mbind option_bind].
  change (rb_left (node_at L _ _ ?x _)) with x. change (rb_right (node_at L _ _ _ ?x)) with x.
  rewrite (Hnull _ _ Hfl Hl), (Hnull _ _ Hfr Hr). cbn [negb andb].
  apply wp_bind. eapply wp_mono; [apply (leftmost_ok _ s _ r Hfr Hr)|].
  { pose proof (focus_size _ _ _ Hfr). pose proof (path_length (Build_frame R b a l :: c) r). lia. }
  intros n (q & bn & u & -> & Hq). set (F := Build_frame R b a l) in *.
  assert (Hfn : focus s (q ++ F :: c) (Node bn Leaf n u)) by (rewrite focus_plug, plug_app, <- focus_plug; done).
  destruct (focus_node s _ L _ _ _ _ Hfn) as (En & Hn0 & Hna & Hpn). rewrite En. cbn [mbind option_bind].
  rewrite rb_parent_at, rb_color_at by done. change (rb_right (node_at L _ _ _ ?x)) with x. cbv zeta.
  pose proof (unlink_successor _ _ _ _ _ _ _ _ _ Hfn Hq) as W. cbv zeta in W. fold F in W.
  destruct (unless_null (addr u) _ s) as [s0|]; [|done]. cbn [mbind option_bind] in W |- *.
  apply wp_bind. eapply wp_mono; [exact W|]. intros [p s1] [-> [H1 D1]].
  change (plug c (Node b l a (plug q (Node bn Leaf n u)))) with (plug (F :: c) (plug q (Node bn Leaf n u))) in *.
  rewrite <- plug_app in *.
  assert (Hun : unlinked s1 (plug (q ++ F :: c) u) n).
  { split_and!; [|done..|].
    - rewrite focus_plug in Hfn. apply focus_inorder in Hfn as (Hd & _). destruct (plug_split (q ++ F :: c)) as (pre & post & Hin).
      rewrite Hin in Hd |- *. cbn in Hd. rewrite <- Permutation_middle in Hd. by apply NoDup_cons in Hd as [? _].
    - apply elem_of_dom. rewrite D1. apply elem_of_dom. eauto. }
  rewrite focus_plug, plug_app, <- focus_plug in H1. apply focus_up in H1. rewrite plug_app in Hun.
  apply wp_bind. eapply wp_mono; [by apply (wp_take_place s1 c b l a (plug q u) n)|]. intros s2 [H2 D2].
  apply (focus_up s2 (Build_frame R b n l)) in H2. rewrite focus_plug, <- plug_app, <- focus_plug in H2.
  destruct (plug_split c) as (pre & post & Hin). destruct (left_split q Hq) as (post' & Hin').
  exists bn, (q ++ Build_frame R b n l :: c), u, (pre ++ inorder l), (n :: inorder u ++ post' ++ post).
  split_and!; [done|done|done|split; [done|dom_trans]| | |].
  - pose proof (unlink_balance L bn n u _ Hrb) as Hb. destruct bn; [destruct Hb as [h Hb]; exists h|];
      [by apply (short_change q F n c)|by apply (rb_tree_change q F n c)].
  - rewrite plug_app. change (plug (_ :: c) ?t) with (plug c (Node b l a t)). rewrite Hin. cbn. rewrite Hin'. cbn.
    by simplify_list_eq.
  - rewrite plug_app. change (plug (_ :: c) ?t) with (plug c (Node b l n t)). rewrite Hin. cbn. rewrite Hin'. cbn.
    by simplify_list_eq.
Qed.

(** [rb_erase] removes the node: the others keep their order and the tree its
    balance. *)
Lemma wp_erase s t a : focus s [] t -> rb_tree t -> a ∈ inorder t ->
  wp (rb_erase a s) (fun s' => exists t' (l1 l2 : list Z), turns_into s [] t' s' /\ rb_tree t' /\
    inorder t = l1 ++ a :: l2 /\ inorder t' = l1 ++ l2).
Proof.
  intros H Hr Ha. apply find_node in Ha as (c & b & l & r & ->). rewrite <- focus_plug in H.
  assert (W : wp (rb_unlink a s) (unlink_post s (plug c (Node b l a r)) a)).
  { destruct l as [|bl l1 al l2]; [by apply (rb_unlink_one s c L b a r)|].
    destruct r as [|br r1 ar r2]; [by apply (rb_unlink_one s c R b a (Node bl l1 al l2))|].
    by apply rb_unlink_two. }
  unfold rb_erase. apply wp_bind. eapply wp_mono; [exact W|].
  intros [[[color child] parent] s1] (b' & c' & u & l1 & l2 & -> & -> & -> & [H1 D1] & Hb & Ho & Ho').
  destruct b'; cbn [Z.b2z Z.eqb RB_BLACK].
  - destruct Hb as [h Hb]. eapply wp_mono; [by eapply wp_erase_color|]. intros s2 (t' & [H2 D2] & R2 & O2).
    exists t', l1, l2. split_and!; [split; [done|dom_trans]|done|done|congruence].
  - cbn. exists (plug c' u), l1, l2. split_and!; [split; [by rewrite <- focus_plug|done]|done..].
Qed.

(** ** Height: the length of a search *)
Fixpoint height (t : tree) : nat := match t with Leaf => O | Node _ l _ r => S (height l `max` height r) end.
Lemma rbt_height h t : rbt h t -> (height t <= 2 * h + (if is_black t then 0 else 1))%nat.
Proof.
  revert h. induction t as [|[] l IHl a r IHr]; intros h; cbn; [lia| |].
  - destruct h as [|h]; [done|]. intros [Hl Hr]. specialize (IHl h Hl). specialize (IHr h Hr).
    destruct (is_black l), (is_black r); lia.
  - intros ((Hl & Hr) & Bl & Br). specialize (IHl h Hl). specialize (IHr h Hr). rewrite Bl in IHl. rewrite Br in IHr. lia.
Qed.
Lemma rbt_count h t : rbt h t -> 2 ^ h <= length (inorder t) + 1.
Proof.
  revert h. induction t as [|[] l IHl a r IHr]; intros h; cbn.
  - intros ->. done.
  - destruct h as [|h]; [done|]. intros [Hl Hr]. specialize (IHl h Hl). specialize (IHr h Hr).
    rewrite length_app. cbn. rewrite Nat2Z.inj_succ, Z.pow_succ_r by lia. lia.
  - intros ((Hl & Hr) & _). specialize (IHl h Hl). rewrite length_app. cbn. lia.
Qed.
Lemma rb_tree_height t : rb_tree t -> height t <= 2 * Z.log2 (length (inorder t) + 1).
Proof.
  intros [Hb [h Hr]]. pose proof (rbt_height h t Hr) as Hh. rewrite Hb in Hh. pose proof (rbt_count h t Hr) as Hc.
  apply Z.log2_le_mono in Hc. rewrite Z.log2_pow2 in Hc by lia. lia.
Qed.

(** Every tree over aligned addresses is the tree of some memory. *)
Definition memory_of (t : tree) : rb_root := Build_rb_root (list_to_map (cells NULL t)) (addr t).
Lemma focus_memory_of t : NoDup (inorder t) -> Forall (fun a => a <> NULL /\ aligned a) (inorder t) -> focus (memory_of t) [] t.
Proof.
  intros Hd Ha. assert (Hd' : NoDup (cells NULL t).*1) by (by rewrite cells_addrs).
  split; [|done]. cbn [path_cells parent_of]. rewrite app_nil_r. split; [done|]. rewrite Forall_forall in Ha.
  apply Forall_forall. intros x Hx. destruct (Ha x.1) as [? ?].
  { rewrite <- (cells_addrs t NULL). apply list_elem_of_fmap. by exists x. }
  split_and!; [done..|]. cbn. apply elem_of_list_to_map; [done|]. by destruct x.
Qed.

(** C7: Linking a node at the place of a leaf and [rb_insert_color]: the call succeeds,
    the memory holds a red black tree again, with the node at that place in the
    order and every other node where it was, and no search in it takes more than
    [2 log2 (n + 1)] steps. *)
Theorem rb_insert_keeps_tree s c n :
  focus s c Leaf -> rb_tree (plug c Leaf) -> unlinked s (plug c Leaf) n -> exists s' t,
    (s ← rb_link_node n (parent_of c) (link_of c) s; rb_insert_color n s) = Some s' /\
    focus s' [] t /\ rb_tree t /\ inorder t = inorder (plug c (Node false Leaf n Leaf)) /\
    height t <= 2 * Z.log2 (length (inorder t) + 1).
Proof.
  intros H Hr Hu. destruct (wp_elim _ _ (wp_insert s c n H Hr Hu)) as (s' & E & t & [Hf _] & Ht & Ho).
  exists s', t. split_and!; [done..|by apply rb_tree_height].
Qed.

(** C8: [rb_erase] of a node of the tree: the call succeeds, the memory holds a red black
    tree again, the order of the other nodes is kept and the height is logarithmic. *)
Theorem rb_erase_keeps_tree s t a : focus s [] t -> rb_tree t -> a ∈ inorder t -> exists s' t' l1 l2,
    rb_erase a s = Some s' /\ focus s' [] t' /\ rb_tree t' /\
    inorder t = l1 ++ a :: l2 /\ inorder t' = l1 ++ l2 /\
    height t' <= 2 * Z.log2 (length (inorder t') + 1).
Proof.
  intros H Hr Ha. destruct (wp_elim _ _ (wp_erase s t a H Hr Ha)) as (s' & E & t' & l1 & l2 & [Hf _] & Ht & Ho & Ho').
  exists s', t', l1, l2. split_and!; [done..|by apply rb_tree_height].
Qed.

Definition some_tree : tree := Node true (Node true Leaf 8 Leaf) 16 (Node true Leaf 24 (Node false Leaf 32 Leaf)).
Lemma some_tree_ok : focus (memory_of some_tree) [] some_tree /\ rb_tree some_tree.
Proof.
  split; [|split; [done|by exists 2%nat]]. apply focus_memory_of; [|by repeat constructor].
  refine (bool_decide_unpack (NoDup _) _). vm_compute. exact I.
Qed.
Lemma rb_erase_keeps_tree_witness : exists s' t', rb_erase 8 (memory_of some_tree) = Some s' /\ focus s' [] t' /\ rb_tree t'.
Proof.
  destruct some_tree_ok as [Hf Hr].
  destruct (rb_erase_keeps_tree (memory_of some_tree) some_tree 8 Hf Hr) as (s' & t' & l1 & l2 & E & F & R & _).
  - cbn. left.
  - exists s', t'. split; [exact E|]. split; assumption.
Defined.

(** The memory of [some_tree] with a node at address 40 that is not in it. *)
Definition some_memory : rb_root := Build_rb_root (<[40 := Build_rb_node 0 0 0]> (mem (memory_of some_tree))) 16.
Definition some_path : path := [Build_frame R false 32 Leaf; Build_frame R true 24 Leaf; Build_frame R true 16 (Node true Leaf 8 Leaf)].
Lemma rb_insert_keeps_tree_witness : exists s' t,
  (s ← rb_link_node 40 32 (ToRight 32) some_memory; rb_insert_color 40 s) = Some s' /\
  focus s' [] t /\ rb_tree t /\ inorder t = [8; 16; 24; 32; 40].
Proof.
  destruct (rb_insert_keeps_tree some_memory some_path 40) as (s' & t & E & F & R & O & _).
  - apply focus_plug. destruct some_tree_ok as [[[Hd Hc] Hr] _]. split; [|reflexivity]. split; [exact Hd|].
    rewrite Forall_forall in *. intros x Hx. destruct (Hc x Hx) as (H0 & H1 & H2). split; [exact H0|]. split; [exact H1|].
    cbn [mem some_memory]. rewrite lookup_insert_ne; [exact H2|].
    intros E. assert (H40 : 40 ∈ inorder some_tree).
    { rewrite <- (cells_addrs some_tree NULL), E. apply list_elem_of_fmap. exists x. split; [done|].
      cbn [path_cells] in Hx. by rewrite app_nil_r in Hx. }
    cbn in H40. rewrite !elem_of_cons in H40. repeat (destruct H40 as [H40|H40]; [discriminate H40|]).
    by apply not_elem_of_nil in H40.
  - destruct some_tree_ok as [_ H]. exact H.
  - split; [|split; [done|split; [done|]]].
    + change (40 ∉ [8; 16; 24; 32]). rewrite !not_elem_of_cons. split_and!; [done..|apply not_elem_of_nil].
    + eexists. cbn [mem some_memory]. apply lookup_insert_eq.
  - exists s', t. split; [exact E|]. split; [exact F|]. split; [exact R|]. rewrite O. reflexivity.
Defined.

End Rbtree.
