(* ===== verification/IoHist.v ===== *)
(** * The sorted write history and the trims

    [log_io_piece] and [prune_io_piece_log] ([src/iolog.c]) for the jobs that do not
    use the segment map ([SegMap] has those), [get_next_verify] ([src/verify.c]) and
    [src/trim.c], [src/trim.h].  A written piece goes to the end of a list, or into a
    red black tree ordered by file and offset, where it replaces an older piece of
    the same place; a share of the pieces is also queued for a trim.

    [a : Z] is the address [malloc] returned for a piece: its [rb_node] is its first
    member.  [opened f]: the file [f] is open, or [td_io_open_file] opened it. *)
From S2P Require Import Prelude Types Rbtree.
From stdpp Require Import gmap sorting.
Local Open Scope Z_scope.

Module IoHist.
Import Types Rbtree.

(** ** [struct io_piece] and the history in [struct thread_data] *)
Record io_piece := {
  ip_file : Z; ip_offset : Z; ip_len : Z; ip_version : Z;
  ip_onrb : bool; ip_onlist : bool; ip_trimmed : bool }.
#[export] Instance eta_io_piece : Eta io_piece := fun p =>
  Build_io_piece (ip_file p) (ip_offset p) (ip_len p) (ip_version p) (ip_onrb p) (ip_onlist p) (ip_trimmed p).

Record hist := {
  io_hist_tree : rb_root;
  pieces : gmap Z io_piece;         (* the pieces that were not freed *)
  io_hist_list : list Z;
  io_hist_len : Z;
  trim_list : list Z;
  trim_entries : Z }.
#[export] Instance eta_hist : Eta hist := fun h =>
  Build_hist (io_hist_tree h) (pieces h) (io_hist_list h) (io_hist_len h) (trim_list h) (trim_entries h).

Definition u64 (x : Z) : Z := wrap 64 x.

Definition upd_piece (a : Z) (g : io_piece -> io_piece) (h : hist) : option hist :=
  p ← pieces h !! a; Some (h <| pieces := <[a := g p]> (pieces h) |>).

(** [malloc] and [init_ipo]; [free] *)
Definition new_piece (a : Z) (p : io_piece) (h : hist) : hist :=
  h <| pieces := <[a := p]> (pieces h) |>
    <| io_hist_tree ::= fun s => s <| mem := <[a := Build_rb_node 0 0 0]> (mem s) |> |>.
Definition free_piece (a : Z) (h : hist) : hist :=
  h <| pieces := delete a (pieces h) |>
    <| io_hist_tree ::= fun s => s <| mem := delete a (mem s) |> |>.

Definition on_tree (g : rb_root -> option rb_root) (h : hist) : option hist :=
  s ← g (io_hist_tree h); Some (h <| io_hist_tree := s |>).

(** ** [src/trim.h], [src/trim.c] *)
Definition remove_trim_entry (a : Z) (h : hist) : hist :=
  if decide (a ∈ trim_list h) then
    h <| trim_list := filter (fun x => x <> a) (trim_list h) |> <| trim_entries := u64 (trim_entries h - 1) |>
  else h.

(** [r] is what the generator of trims returns. *)
Definition io_u_should_trim (use_os : bool) (trim_percentage r : Z) : bool :=
  if trim_percentage =? 0 then false
  else r <=? u64 (rand_max use_os / 100 * trim_percentage).

(** ** [log_io_piece] *)

(** The pieces are read back in the order in which they were written. *)
Definition keep_order (random overwrite randommap verify_none randomagain verifysort : bool) (seq_nr : Z) : bool :=
  (negb random || negb overwrite) && (randommap || verify_none) && (negb randomagain || verify_none)
  && (seq_nr <? 2) && negb verifysort.

(** The loop from the label [restart]: the place of a piece, or the piece that has it. *)
Inductive place := At (parent : Z) (p : rb_link) | Taken (a : Z).
Fixpoint find_place (fuel : nat) (ipo : io_piece) (p : rb_link) (parent : Z) (h : hist) : option place :=
  match fuel with
  | O => None
  | S fuel =>
      cur ← deref p (io_hist_tree h);
      if cur =? NULL then Some (At parent p) else
      __ipo ← pieces h !! cur;
      if ip_file ipo <? ip_file __ipo then find_place fuel ipo (ToLeft cur) cur h
      else if ip_file ipo >? ip_file __ipo then find_place fuel ipo (ToRight cur) cur h
      else if ip_offset ipo <? ip_offset __ipo then find_place fuel ipo (ToLeft cur) cur h
      else if ip_offset ipo >? ip_offset __ipo then find_place fuel ipo (ToRight cur) cur h
      else Some (Taken cur)
  end.

Fixpoint insert_piece (fuel : nat) (a : Z) (ipo : io_piece) (h : hist) : option hist :=
  match fuel with
  | O => None
  | S fuel =>
      pl ← find_place (S (size (mem (io_hist_tree h)))) ipo ToRoot NULL h;
      match pl with
      | At parent p =>
          h ← on_tree (rb_link_node a parent p) h;
          h ← on_tree (rb_insert_color a) h;
          h ← upd_piece a (fun q => q <| ip_onrb := true |>) h;
          Some (h <| io_hist_len := u64 (io_hist_len h + 1) |>)
      | Taken old =>
          q ← pieces h !! old;
          if negb (ip_len ipo =? ip_len q) then None
          else
            let h := h <| io_hist_len := u64 (io_hist_len h - 1) |> in
            h ← on_tree (rb_erase old) h;
            insert_piece fuel a ipo (free_piece old (remove_trim_entry old h))
      end
  end.

Definition log_io_piece (in_order trim : bool) (a file offset buflen version : Z) (h : hist) : option hist :=
  let ipo := Build_io_piece file offset buflen version false false false in
  let h := new_piece a ipo h in
  let h := if trim then h <| trim_list ::= fun l => l ++ [a] |> <| trim_entries := u64 (trim_entries h + 1) |> else h in
  if in_order then
    h ← upd_piece a (fun q => q <| ip_onlist := true |>) (h <| io_hist_list ::= fun l => l ++ [a] |>);
    Some (h <| io_hist_len := u64 (io_hist_len h + 1) |>)
  else
    h ← on_tree (RB_CLEAR_NODE a) h;
    insert_piece (S (S O)) a ipo h.

(** ** [get_next_verify] *)

(** The piece to read: the file, the offset, the length, the version and whether it
    was trimmed; [None] inside: the function returned 1. *)
Definition read_of (p : io_piece) : Z * Z * Z * Z * bool := (ip_file p, ip_offset p, ip_len p, ip_version p, ip_trimmed p).

Definition take_first (h : hist) : option (option Z * hist) :=
  if negb (RB_EMPTY_ROOT (io_hist_tree h)) then
    n ← rb_first (io_hist_tree h);
    h ← on_tree (rb_erase n) h;
    p ← pieces h !! n;
    if negb (ip_onrb p) then None else
    h ← upd_piece n (fun p => p <| ip_onrb := false |>) h;
    Some (Some n, h)
  else
    match io_hist_list h with
    | a :: rest =>
        let h := h <| io_hist_list := rest |> in
        p ← pieces h !! a;
        if negb (ip_onlist p) then None else
        h ← upd_piece a (fun p => p <| ip_onlist := false |>) h;
        Some (Some a, h)
    | [] => Some (None, h)
    end.

Definition get_next_verify (opened : Z -> bool) (h : hist) : option (option (Z * Z * Z * Z * bool) * hist) :=
  '(n, h) ← take_first h;
  match n with
  | Some a =>
      let h := h <| io_hist_len := u64 (io_hist_len h - 1) |> in
      p ← pieces h !! a;
      if negb (opened (ip_file p)) then Some (None, h)
      else Some (Some (read_of p), free_piece a (remove_trim_entry a h))
  | None => Some (None, h)
  end.

(** ** [get_next_trim]: the range to trim *)
Definition get_next_trim (opened : Z -> bool) (trim_zero : bool) (h : hist) : option (option (Z * Z * Z) * hist) :=
  match trim_list h with
  | [] => Some (None, h)
  | a :: _ =>
      if trim_entries h =? 0 then None else
      let h := remove_trim_entry a h in
      p ← pieces h !! a;
      let range := (ip_file p, ip_offset p, ip_len p) in
      h ← (if negb trim_zero then
             h ← (if ip_onlist p then Some (h <| io_hist_list ::= filter (fun x => x <> a) |>)
                  else if ip_onrb p then on_tree (rb_erase a) h else None);
             Some (free_piece a (h <| io_hist_len := u64 (io_hist_len h - 1) |>))
           else upd_piece a (fun p => p <| ip_trimmed := true |>) h);
      if negb (opened (ip_file p)) then Some (None, h) else Some (Some range, h)
  end.

(** ** [prune_io_piece_log] *)
Definition drop_piece (a : Z) (h : hist) : hist :=
  let h := remove_trim_entry a h in
  free_piece a (h <| io_hist_len := u64 (io_hist_len h - 1) |>).
Fixpoint prune_tree (fuel : nat) (h : hist) : option hist :=
  match fuel with
  | O => None
  | S fuel =>
      n ← rb_first (io_hist_tree h);
      if n =? NULL then Some h else
      h ← on_tree (rb_erase n) h;
      prune_tree fuel (drop_piece n h)
  end.
Fixpoint prune_list (l : list Z) (h : hist) : hist :=
  match l with
  | [] => h
  | a :: rest => prune_list rest (drop_piece a (h <| io_hist_list := rest |>))
  end.
Definition prune_io_piece_log (h : hist) : option hist :=
  h ← prune_tree (S (size (pieces h))) h;
  Some (prune_list (io_hist_list h) h).

Definition hist0 : hist := Build_hist (Build_rb_root ∅ NULL) ∅ [] 0 [] 0.

(** ** The order of the pieces *)
Definition klt (p q : io_piece) : Prop :=
  ip_file p < ip_file q \/ (ip_file p = ip_file q /\ ip_offset p < ip_offset q).
Definition same_place (p q : io_piece) : Prop := ip_file p = ip_file q /\ ip_offset p = ip_offset q.
#[export] Instance klt_dec p q : Decision (klt p q). Proof. unfold klt. apply _. Defined.
#[export] Instance same_place_dec p q : Decision (same_place p q). Proof. unfold same_place. apply _. Defined.
#[export] Instance klt_trans : Transitive klt. Proof. intros p q r. unfold klt. lia. Qed.
Lemma klt_not_same p q : klt p q -> ~ same_place p q /\ ~ same_place q p /\ ~ klt q p.
Proof. unfold klt, same_place. lia. Qed.
Lemma klt_total p q : klt p q \/ same_place p q \/ klt q p.
Proof. unfold klt, same_place. lia. Qed.

(** A piece with its address. *)
Notation entry := (Z * io_piece)%type.
Definition elt (x y : entry) : Prop := klt x.2 y.2.
#[export] Instance elt_trans : Transitive elt. Proof. intros x y z. apply klt_trans. Qed.
(** The entries are the pieces in memory. *)
Definition stored (h : hist) (l : list entry) : Prop := Forall (fun x => pieces h !! x.1 = Some x.2) l.

Lemma deref_link s c t : focus s c t -> deref (link_of c) s = Some (addr t).
Proof.
  intros H. destruct c as [|f c]; [destruct H as [_ H]; cbn in *; by rewrite H|].
  destruct (focus_parent _ _ _ _ H) as (E & _). unfold link_of, node_at in *.
  destruct (f_dir f); cbn; by rewrite E.
Qed.

Section find.
Context (h : hist) (ipo : io_piece).
Notation below := (Forall (fun x : entry => klt x.2 ipo)).
Notation above := (Forall (fun x : entry => klt ipo x.2)).

(** The inorder list around a hole. *)
Definition around (c : path) (l1 l2 : list entry) : Prop :=
  (forall u, inorder (plug c u) = l1.*1 ++ inorder u ++ l2.*1) /\ below l1 /\ above l2.

Definition find_post (c : path) (t : tree) (l : list entry) (r : place) : Prop :=
  match r with
  | At parent p => exists c' k1 k2, parent = parent_of c' /\ p = link_of c' /\ focus (io_hist_tree h) c' Leaf /\
      plug c' Leaf = plug c t /\ around c' k1 k2 /\ k1 ++ k2 = l
  | Taken a => exists q, (a, q) ∈ l /\ same_place ipo q
  end.

Lemma around_left c b a r p lr l1 l2 : around c l1 l2 -> lr.*1 = inorder r -> klt ipo p -> Forall (elt (a, p)) lr ->
  around (Build_frame L b a r :: c) l1 ((a, p) :: lr ++ l2).
Proof.
  intros (Hin & H1 & H2) Hr Hp Hlr. split_and!; [|done|].
  - intros u. change (plug (_ :: c) u) with (plug c (Node b u a r)). rewrite Hin. cbn. rewrite fmap_app, Hr.
    by simplify_list_eq.
  - constructor; [done|]. apply Forall_app. split; [|done]. eapply Forall_impl; [exact Hlr|]. intros x Hx. by etrans.
Qed.
Lemma around_right c b a l p ll l1 l2 : around c l1 l2 -> ll.*1 = inorder l -> klt p ipo ->
  Forall (fun x => elt x (a, p)) ll -> around (Build_frame R b a l :: c) (l1 ++ ll ++ [(a, p)]) l2.
Proof.
  intros (Hin & H1 & H2) Hl Hp Hll. split_and!; [| |done].
  - intros u. change (plug (_ :: c) u) with (plug c (Node b l a u)). rewrite Hin. cbn. rewrite !fmap_app, Hl. cbn.
    by simplify_list_eq.
  - apply Forall_app. split; [done|]. apply Forall_app. split; [|constructor; [done|constructor]].
    eapply Forall_impl; [exact Hll|]. intros x Hx. exact (klt_trans _ _ _ Hx Hp).
Qed.

Lemma find_place_ok fuel : forall c t l l1 l2, focus (io_hist_tree h) c t -> l.*1 = inorder t -> stored h l ->
  StronglySorted elt l -> around c l1 l2 -> (length l < fuel)%nat ->
  wp (find_place fuel ipo (link_of c) (parent_of c) h) (find_post c t (l1 ++ l ++ l2)).
Proof.
  induction fuel as [|fuel IH]; [lia|]. intros c t l l1 l2 Hf Hl Hst Hs Ha Hn.
  cbn [find_place]. rewrite (deref_link _ _ _ Hf). cbn [mbind option_bind].
  destruct t as [|b tl a tr].
  { apply fmap_nil_inv in Hl as ->. cbn. exists c, l1, l2. by split_and!. }
  destruct (focus_node _ c L b tl a tr Hf) as (_ & Ha0 & _). cbn [addr]. destruct (Z.eqb_spec a NULL); [done|].
  cbn in Hl. apply fmap_app_inv in Hl as (ll & lr' & Ell & Elr' & ->). destruct lr' as [|[a' p] lr]; [done|].
  cbn in Elr'. injection Elr' as Ea Elr. subst a'.
  apply Forall_app in Hst as [Hstl Hstr]. apply Forall_cons in Hstr as [Hsta Hstr]. cbn in Hsta.
  apply StronglySorted_app in Hs as (Hlt & Hsl & Hsr).
  apply StronglySorted_inv in Hsr as [Hsr Hgt]. rewrite Hsta. cbn [mbind option_bind].
  rewrite length_app in Hn. cbn in Hn.
  assert (GL : klt ipo p -> wp (find_place fuel ipo (ToLeft a) a h) (find_post c (Node b tl a tr) (l1 ++ (ll ++ (a, p) :: lr) ++ l2))).
  { intros Hk. replace (l1 ++ (ll ++ (a, p) :: lr) ++ l2) with (l1 ++ ll ++ (a, p) :: lr ++ l2) by (by simplify_list_eq).
    eapply (IH (Build_frame L b a tr :: c) tl ll l1 ((a, p) :: lr ++ l2)); [by apply focus_up|done..| |lia].
    by apply around_left. }
  assert (GR : klt p ipo -> wp (find_place fuel ipo (ToRight a) a h) (find_post c (Node b tl a tr) (l1 ++ (ll ++ (a, p) :: lr) ++ l2))).
  { intros Hk. replace (l1 ++ (ll ++ (a, p) :: lr) ++ l2) with ((l1 ++ ll ++ [(a, p)]) ++ lr ++ l2) by (by simplify_list_eq).
    eapply (IH (Build_frame R b a tl :: c) tr lr (l1 ++ ll ++ [(a, p)]) l2); [by apply focus_up|done..| |lia].
    apply around_right; [done|done|done|]. rewrite Forall_forall. intros x Hx. apply Hlt; [done|by left]. }
  rewrite !Z.gtb_ltb. unfold klt in GL, GR. cbn [wp].
  destruct (Z.ltb_spec (ip_file ipo) (ip_file p)); [apply GL; lia|].
  destruct (Z.ltb_spec (ip_file p) (ip_file ipo)); [apply GR; lia|].
  destruct (Z.ltb_spec (ip_offset ipo) (ip_offset p)); [apply GL; lia|].
  destruct (Z.ltb_spec (ip_offset p) (ip_offset ipo)); [apply GR; lia|].
  cbn. exists p. split; [rewrite !elem_of_app; right; left; right; by left|unfold same_place; lia].
Qed.
End find.

(** ** What the history is: a list sorted by place, a list in the order of the
    writes, and the pieces to trim *)
Record ahist := { by_place : list entry; in_order : list entry; trims : list Z }.

Definition entries (g : ahist) : list entry := by_place g ++ in_order g.
Definition remove_entry (a : Z) (l : list entry) : list entry := filter (fun x => x.1 <> a) l.
Definition aremove (a : Z) (g : ahist) : ahist :=
  Build_ahist (remove_entry a (by_place g)) (remove_entry a (in_order g)) (filter (fun x => x <> a) (trims g)).
Fixpoint place_entry (e : entry) (l : list entry) : list entry :=
  match l with
  | [] => [e]
  | x :: l' => if decide (elt e x) then e :: l else x :: place_entry e l'
  end.
#[export] Instance elt_dec x y : Decision (elt x y). Proof. unfold elt. apply _. Defined.

Definition alog (io trim : bool) (a file offset len version : Z) (g : ahist) : option ahist :=
  let e := (a, Build_io_piece file offset len version (negb io) io false) in
  let queue := fun g => if trim then Build_ahist (by_place g) (in_order g) (trims g ++ [a]) else g in
  if io then Some (queue (Build_ahist (by_place g) (in_order g ++ [e]) (trims g)))
  else
    let clash := filter (fun x => same_place e.2 x.2) (by_place g) in
    if forallb (fun x => len =? ip_len x.2) clash then
      let g := foldr aremove g clash.*1 in
      Some (queue (Build_ahist (place_entry e (by_place g)) (in_order g) (trims g)))
    else None.
Definition averify (g : ahist) : option (Z * Z * Z * Z * bool) * ahist :=
  match entries g with
  | x :: _ => (Some (read_of x.2), aremove x.1 g)
  | [] => (None, g)
  end.
Definition mark (a : Z) (x : entry) : entry := if decide (x.1 = a) then (x.1, x.2 <| ip_trimmed := true |>) else x.
Definition atrim (zero : bool) (g : ahist) : option (Z * Z * Z) * ahist :=
  match trims g with
  | [] => (None, g)
  | a :: ts =>
      match list_find (fun x => x.1 = a) (entries g) with
      | Some (_, (_, p)) =>
          (Some (ip_file p, ip_offset p, ip_len p),
           if zero then Build_ahist (mark a <$> by_place g) (mark a <$> in_order g) ts else aremove a g)
      | None => (None, g)
      end
  end.
Definition ahist0 : ahist := Build_ahist [] [] [].

(** [malloc] returns aligned addresses. *)
Definition good_addr (a : Z) : Prop := 0 < a < 2 ^ 64 /\ aligned a.

(** [X]: pieces that are allocated and not yet in the history. *)
Record awf (X : gset Z) (g : ahist) : Prop := {
  w_nodup : NoDup (entries g).*1;
  w_sorted : StronglySorted elt (by_place g);
  w_onrb : Forall (fun x => ip_onrb x.2 = true /\ ip_onlist x.2 = false) (by_place g);
  w_onlist : Forall (fun x => ip_onlist x.2 = true) (in_order g);
  w_trims : NoDup (trims g);
  w_sub : forall a, a ∈ trims g -> a ∈ (entries g).*1 \/ a ∈ X;
  w_loose : forall a, a ∈ X -> a ∉ (entries g).*1;
  w_addr : forall a, a ∈ (entries g).*1 -> good_addr a }.

(** The memory holds that history. *)
Record linked (X : gset Z) (h : hist) (g : ahist) (t : tree) : Prop := {
  r_tree : focus (io_hist_tree h) [] t;
  r_bal : rb_tree t;
  r_in : (by_place g).*1 = inorder t;
  r_list : io_hist_list h = (in_order g).*1;
  r_trims : trim_list h = trims g;
  r_len : io_hist_len h = u64 (length (entries g));
  r_ent : trim_entries h = u64 (length (trims g));
  r_stored : stored h (entries g);
  r_dom : dom (pieces h) = list_to_set (entries g).*1 ∪ X;
  r_mem : dom (mem (io_hist_tree h)) = dom (pieces h) }.
Definition refines (h : hist) (g : ahist) : Prop := awf ∅ g /\ exists t, linked ∅ h g t.

(** *** Lists of entries *)
Lemma remove_entry_notin a l : a ∉ l.*1 -> remove_entry a l = l.
Proof.
  induction l as [|x l IH]; [done|]. rewrite fmap_cons, not_elem_of_cons. intros [? ?]. unfold remove_entry in *.
  rewrite filter_cons_True by congruence. f_equal. by apply IH.
Qed.
Lemma remove_entry_app a l1 p l2 : NoDup (l1 ++ (a, p) :: l2).*1 -> remove_entry a (l1 ++ (a, p) :: l2) = l1 ++ l2.
Proof.
  rewrite fmap_app, fmap_cons. cbn [fst]. intros Hd. apply NoDup_app in Hd as (_ & Hx & Hd). apply NoDup_cons in Hd as [Hd _].
  unfold remove_entry. rewrite filter_app, filter_cons_False by (cbn; auto).
  change (remove_entry a l1 ++ remove_entry a l2 = l1 ++ l2). rewrite !remove_entry_notin; [done|done|].
  intros Ha. apply (Hx a Ha). by left.
Qed.
Lemma remove_entry_fmap a l : (remove_entry a l).*1 = filter (fun x => x <> a) l.*1.
Proof.
  induction l as [|x l IH]; [done|]. unfold remove_entry in *. rewrite fmap_cons, !filter_cons.
  destruct (decide (x.1 <> a)); [rewrite fmap_cons; f_equal|]; apply IH.
Qed.
Lemma elem_of_remove a x l : x ∈ remove_entry a l <-> x.1 <> a /\ x ∈ l.
Proof. unfold remove_entry. by rewrite list_elem_of_filter. Qed.
Lemma filter_absent (l : list Z) a : a ∉ l -> filter (fun x => x <> a) l = l.
Proof.
  induction l as [|y l IH]; [done|]. rewrite not_elem_of_cons. intros [? ?].
  rewrite filter_cons_True by congruence. by rewrite IH.
Qed.
Lemma filter_length (l : list Z) a : NoDup l -> a ∈ l -> S (length (filter (fun x => x <> a) l)) = length l.
Proof.
  intros Hd Ha. apply list_elem_of_split in Ha as (l1 & l2 & ->). rewrite filter_app, filter_cons_False by auto.
  apply NoDup_app in Hd as (_ & Hx & Hd). apply NoDup_cons in Hd as [Hd _].
  rewrite !filter_absent; [rewrite !length_app; cbn; lia|done|]. intros Ha. apply (Hx a Ha). by left.
Qed.
Lemma sorted_filter (P : entry -> Prop) `{!forall x, Decision (P x)} l : StronglySorted elt l -> StronglySorted elt (filter P l).
Proof.
  induction 1 as [|x l Hs IH Hx]; [constructor|]. rewrite filter_cons. case_decide; [|done]. constructor; [done|].
  rewrite Forall_forall in *. intros y Hy. apply list_elem_of_filter in Hy as [_ Hy]. auto.
Qed.
Lemma Forall_remove (P : entry -> Prop) a l : Forall P l -> Forall P (remove_entry a l).
Proof. rewrite !Forall_forall. intros H x Hx. apply elem_of_remove in Hx as [_ Hx]. auto. Qed.
Lemma entries_remove a g : entries (aremove a g) = remove_entry a (entries g).
Proof. unfold entries, remove_entry. by rewrite filter_app. Qed.

Lemma awf_remove X a g : awf X g -> a ∉ X -> awf X (aremove a g).
Proof.
  intros [] HX. split.
  - rewrite entries_remove, remove_entry_fmap. by apply NoDup_filter.
  - by apply sorted_filter.
  - by apply Forall_remove.
  - by apply Forall_remove.
  - by apply NoDup_filter.
  - intros x Hx. cbn in Hx. apply list_elem_of_filter in Hx as [? Hx]. rewrite entries_remove, remove_entry_fmap.
    destruct (w_sub0 x Hx); [left; apply list_elem_of_filter; auto|by right].
  - intros x Hx. rewrite entries_remove, remove_entry_fmap, list_elem_of_filter. intros [_ ?]. by apply (w_loose0 x).
  - intros x Hx. rewrite entries_remove, remove_entry_fmap in Hx. apply list_elem_of_filter in Hx as [_ Hx]. auto.
Qed.

(** *** Memory outside the tree *)
Lemma focus_mem s s' t : focus s [] t -> root_node s' = root_node s ->
  (forall a, a ∈ inorder t -> mem s' !! a = mem s !! a) -> focus s' [] t.
Proof.
  intros [[Hd Hc] Hr] Hr' Hm. split; [|by rewrite Hr']. split; [done|]. rewrite Forall_forall in *.
  intros x Hx. destruct (Hc x Hx) as (? & ? & E). split_and!; [done..|]. rewrite Hm; [done|].
  cbn in Hx. rewrite app_nil_r in Hx. rewrite <- (cells_addrs t NULL). apply list_elem_of_fmap. by exists x.
Qed.
Lemma focus_free s t a : focus s [] t -> a ∉ inorder t -> focus (Build_rb_root (delete a (mem s)) (root_node s)) [] t.
Proof.
  intros H Ha. eapply focus_mem; [done|done|]. intros b Hb. cbn. by rewrite lookup_delete_ne by congruence.
Qed.

(** [free_piece] and [remove_trim_entry] as one record. *)
Definition removed (a : Z) (s : rb_root) (h : hist) : hist :=
  let ts := filter (fun x => x <> a) (trim_list h) in
  Build_hist (Build_rb_root (delete a (mem s)) (root_node s)) (delete a (pieces h))
    (filter (fun x => x <> a) (io_hist_list h)) (u64 (io_hist_len h - 1)) ts (u64 (length ts)).

Lemma remove_trim_ok a h : NoDup (trim_list h) -> trim_entries h = u64 (length (trim_list h)) ->
  remove_trim_entry a h = Build_hist (io_hist_tree h) (pieces h) (io_hist_list h) (io_hist_len h)
    (filter (fun x => x <> a) (trim_list h)) (u64 (length (filter (fun x => x <> a) (trim_list h)))).
Proof.
  intros Hd He. unfold remove_trim_entry. destruct h as [s ps hl len ts es]. cbn [trim_list trim_entries] in *.
  destruct (decide (a ∈ ts)) as [Ha|Ha].
  - unfold upd. cbn [trim_list trim_entries io_hist_tree pieces io_hist_list io_hist_len]. f_equal. rewrite He.
    unfold u64. rewrite wrap_sub_l. f_equal. pose proof (filter_length ts a Hd Ha). lia.
  - rewrite filter_absent by done. by rewrite He.
Qed.

Lemma list_to_set_remove a (l : list entry) : list_to_set (C := gset Z) (remove_entry a l).*1 = list_to_set l.*1 ∖ {[a]}.
Proof.
  apply set_eq. intros x. rewrite elem_of_list_to_set, remove_entry_fmap, list_elem_of_filter. set_solver.
Qed.
Lemma length_remove a (l : list entry) : NoDup l.*1 -> a ∈ l.*1 -> S (length (remove_entry a l)) = length l.
Proof.
  intros Hd Ha. pose proof (filter_length _ _ Hd Ha) as E. rewrite <- remove_entry_fmap, !length_fmap in E. done.
Qed.

(** A piece leaves the history: [s], [t] are the memory and the tree without it. *)
Lemma linked_removed X h g t a s t' : awf X g -> linked X h g t -> a ∈ (entries g).*1 ->
  focus s [] t' -> rb_tree t' -> inorder t' = filter (fun x => x <> a) (inorder t) ->
  same_dom (io_hist_tree h) s -> linked X (removed a s h) (aremove a g) t'.
Proof.
  intros [] [] Ha Hf Hr Hi Hd. split; cbn [removed io_hist_tree pieces io_hist_list io_hist_len trim_list trim_entries mem by_place in_order trims aremove].
  - apply focus_free; [done|]. rewrite Hi, list_elem_of_filter. tauto.
  - done.
  - by rewrite remove_entry_fmap, Hi, <- r_in0.
  - by rewrite remove_entry_fmap, r_list0.
  - by rewrite r_trims0.
  - rewrite r_len0, entries_remove. unfold u64. rewrite wrap_sub_l. f_equal.
    pose proof (length_remove a _ w_nodup0 Ha). lia.
  - by rewrite r_trims0.
  - unfold stored in *. rewrite entries_remove, Forall_forall in *. intros x Hx. apply elem_of_remove in Hx as [? Hx].
    cbn [removed pieces]. rewrite lookup_delete_ne by congruence. auto.
  - rewrite dom_delete_L, entries_remove, list_to_set_remove. rewrite r_dom0.
    assert (a ∉ X) by (intros HX; by apply (w_loose0 a)). set_solver.
  - rewrite !dom_delete_L. rewrite Hd. by rewrite r_mem0.
Qed.

Lemma filter_app_mid (l1 l2 : list Z) a : NoDup (l1 ++ a :: l2) -> filter (fun x => x <> a) (l1 ++ a :: l2) = l1 ++ l2.
Proof.
  intros Hd. apply NoDup_app in Hd as (_ & Hx & Hd). apply NoDup_cons in Hd as [Hd _].
  rewrite filter_app, filter_cons_False by auto. rewrite !filter_absent; [done|done|].
  intros Ha. apply (Hx a Ha). by left.
Qed.

(** [rb_erase] of a piece in the tree. *)
Lemma erase_piece X h g t a : awf X g -> linked X h g t -> a ∈ (by_place g).*1 ->
  exists s t', rb_erase a (io_hist_tree h) = Some s /\ same_dom (io_hist_tree h) s /\
    linked X (removed a s h) (aremove a g) t'.
Proof.
  intros Hw Hl Ha. pose proof Hl as []. rewrite r_in0 in Ha. destruct (wp_elim _ _ (wp_erase _ _ _ r_tree0 r_bal0 Ha))
    as (s & E & t' & l1 & l2 & [Hf Hd] & Hr & Hi & Hi').
  exists s, t'. split_and!; [done..|]. apply (linked_removed X h g t a s t'); try done.
  - unfold entries. rewrite fmap_app, elem_of_app, r_in0. by left.
  - pose proof (focus_inorder _ _ r_tree0) as (Hnd & _). rewrite Hi in Hnd |- *. by rewrite filter_app_mid.
Qed.
(** A piece on the list. *)
Lemma unlist_piece X h g t a : awf X g -> linked X h g t -> a ∈ (in_order g).*1 ->
  linked X (removed a (io_hist_tree h) h) (aremove a g) t.
Proof.
  intros Hw Hl Ha. pose proof Hl as []. apply (linked_removed X h g t a _ t); try done.
  - unfold entries. rewrite fmap_app, elem_of_app. by right.
  - rewrite filter_absent; [done|]. rewrite <- r_in0. intros Ha'. destruct Hw. unfold entries in w_nodup0.
    rewrite fmap_app in w_nodup0. apply NoDup_app in w_nodup0 as (_ & Hx & _). by apply (Hx a).
Qed.
Lemma unlist_tree X h g t a : awf X g -> linked X h g t -> a ∈ (by_place g).*1 -> filter (fun x => x <> a) (io_hist_list h) = io_hist_list h.
Proof.
  intros Hw Hl Ha. apply filter_absent. destruct Hl, Hw. rewrite r_list0. unfold entries in w_nodup0.
  rewrite fmap_app in w_nodup0. apply NoDup_app in w_nodup0 as (_ & Hx & _). by apply (Hx a).
Qed.

Ltac hsimp := cbn [io_hist_tree pieces io_hist_list io_hist_len trim_list trim_entries mem root_node fst snd].

Lemma refines_removed h h' g t a : awf ∅ g -> linked ∅ h' (aremove a g) t -> h = h' -> refines h (aremove a g).
Proof. intros Hw Hl ->. split; [apply awf_remove; [done|set_solver]|by exists t]. Qed.

Lemma stored_lookup h g x : stored h (entries g) -> x ∈ entries g -> pieces h !! x.1 = Some x.2.
Proof. unfold stored. rewrite Forall_forall. auto. Qed.

(** Freeing after the trim entry is removed. *)
Lemma free_remove_ok a h s ps len hl : NoDup (trim_list h) -> trim_entries h = u64 (length (trim_list h)) ->
  filter (fun x => x <> a) (io_hist_list h) = hl -> delete a ps = delete a (pieces h) -> len = u64 (io_hist_len h - 1) ->
  free_piece a (remove_trim_entry a (Build_hist s ps hl len (trim_list h) (trim_entries h))) = removed a s h.
Proof.
  intros Hd He Hl Hp ->. rewrite remove_trim_ok by done. unfold free_piece, removed, upd. hsimp. by rewrite Hp, <- Hl.
Qed.

Lemma empty_root X h g t : linked X h g t -> RB_EMPTY_ROOT (io_hist_tree h) = bool_decide (by_place g = []).
Proof.
  intros []. unfold RB_EMPTY_ROOT. destruct (focus_inorder _ _ r_tree0) as (_ & Hin & Hr). rewrite Hr.
  destruct t as [|b l a r]; cbn [addr].
  - apply fmap_nil_inv in r_in0. by rewrite bool_decide_eq_true_2.
  - destruct (Hin a) as [Ha _]; [cbn; rewrite elem_of_app; right; by left|]. rewrite bool_decide_eq_false_2.
    + by apply Z.eqb_neq.
    + intros E. rewrite E in r_in0. cbn in r_in0. by destruct (inorder l).
Qed.

Lemma verify_ok h g : refines h g -> exists h',
  get_next_verify (fun _ => true) h = Some ((averify g).1, h') /\ refines h' (averify g).2.
Proof.
  intros [Hw [t Hl]]. pose proof Hl as []. unfold get_next_verify, take_first. rewrite (empty_root _ _ _ _ Hl).
  unfold averify. pose proof Hw as [].
  assert (Hts : NoDup (trim_list h) /\ trim_entries h = u64 (length (trim_list h))) by (rewrite r_trims0; done).
  destruct Hts as [Hts He].
  destruct (by_place g) as [|[a p] l] eqn:Eb.
  - rewrite bool_decide_eq_true_2 by done. cbn [negb]. rewrite r_list0. unfold entries. rewrite Eb. cbn [app].
    destruct (in_order g) as [|[a p] l] eqn:Ei; cbn [fmap list_fmap fst snd].
    { exists h. split; [done|]. split; [done|by exists t]. }
    assert (Hin : (a, p) ∈ entries g) by (unfold entries; rewrite Eb, Ei; by left).
    unfold upd_piece, upd. hsimp. pose proof (stored_lookup _ _ _ r_stored0 Hin) as Hp. cbn [fst snd] in Hp. rewrite Hp. cbn [mbind option_bind snd].
    rewrite Forall_cons in w_onlist0. destruct w_onlist0 as [Hon _]. cbn in Hon. rewrite Hon. cbn [negb]. hsimp.
    cbn [mbind option_bind]. hsimp. rewrite lookup_insert_eq. cbn [mbind option_bind negb].
    pose proof (unlist_piece ∅ h g t a Hw Hl ltac:(rewrite Ei; by left)) as Hl'.
    eexists. split; [reflexivity|]. eapply refines_removed; [done|exact Hl'|].
    apply free_remove_ok; [done|done| |by rewrite delete_insert_eq|done].
    rewrite r_list0, fmap_cons, filter_cons_False by auto. apply filter_absent.
    unfold entries in w_nodup0. rewrite Eb, Ei in w_nodup0. cbn in w_nodup0. by apply NoDup_cons in w_nodup0 as [? _].
  - rewrite bool_decide_eq_false_2 by done. cbn [negb]. unfold entries. rewrite Eb. cbn [app fst snd].
    assert (Hin : (a, p) ∈ entries g) by (unfold entries; rewrite Eb; by left).
    assert (Hb : a ∈ (by_place g).*1) by (rewrite Eb; by left).
    destruct (wp_elim _ _ (wp_rb_first _ _ r_tree0)) as (n & -> & Hn). rewrite <- r_in0 in Hn. cbn in Hn. subst n.
    destruct (erase_piece ∅ h g t a Hw Hl Hb) as (s & t' & E & Hd & Hl').
    unfold on_tree, upd_piece, upd. cbn [mbind option_bind]. rewrite E. cbn [mbind option_bind]. hsimp.
    pose proof (stored_lookup _ _ _ r_stored0 Hin) as Hp. cbn [fst snd] in Hp. rewrite Hp. cbn [mbind option_bind snd].
    rewrite Forall_cons in w_onrb0. destruct w_onrb0 as [[Hon _] _]. cbn in Hon. rewrite Hon. cbn [negb]. hsimp.
    cbn [mbind option_bind]. hsimp. rewrite lookup_insert_eq. cbn [mbind option_bind negb].
    eexists. split; [reflexivity|]. eapply refines_removed; [done|exact Hl'|].
    apply free_remove_ok; [done|done|by eapply unlist_tree|by rewrite delete_insert_eq|done].
Qed.

(** *** [get_next_trim] *)
Lemma trims_count g : awf ∅ g -> 0 <= length (trims g) < 2 ^ 64.
Proof.
  intros []. split; [lia|].
  assert (Hs : trims g ⊆+ seqZ 1 (2 ^ 64 - 1)).
  { apply NoDup_submseteq; [done|]. intros a Ha. apply elem_of_seqZ. destruct (w_addr0 a) as [? _]; [destruct (w_sub0 a Ha); [done|set_solver]|]. lia. }
  apply submseteq_length in Hs. rewrite length_seqZ in Hs. lia.
Qed.
Lemma find_entry g a : a ∈ (entries g).*1 -> exists i p, list_find (fun x => x.1 = a) (entries g) = Some (i, (a, p)) /\ (a, p) ∈ entries g.
Proof.
  intros Ha. apply list_elem_of_fmap in Ha as ([a' p'] & -> & Hin).
  destruct (list_find_elem_of (fun x : entry => x.1 = a') _ _ Hin eq_refl) as [[i [b p]] E].
  pose proof E as E'. apply list_find_Some in E' as (E1 & E2 & _). cbn in E2. subst b.
  exists i, p. split; [done|]. by eapply list_elem_of_lookup_2.
Qed.

Lemma mark_fst a l : (mark a <$> l).*1 = l.*1.
Proof. rewrite <- list_fmap_compose. apply list_fmap_ext. intros i x _. cbn. unfold mark. by case_decide. Qed.
Lemma mark_piece a x : ip_file (mark a x).2 = ip_file x.2 /\ ip_offset (mark a x).2 = ip_offset x.2 /\
  ip_onrb (mark a x).2 = ip_onrb x.2 /\ ip_onlist (mark a x).2 = ip_onlist x.2.
Proof. unfold mark. case_decide; done. Qed.
Lemma entries_mark a g ts : entries (Build_ahist (mark a <$> by_place g) (mark a <$> in_order g) ts) = mark a <$> entries g.
Proof. unfold entries. cbn. by rewrite fmap_app. Qed.

Lemma refines_mark h g a ts p : refines h g -> trims g = a :: ts -> pieces h !! a = Some p ->
  refines (Build_hist (io_hist_tree h) (<[a := p <| ip_trimmed := true |>]> (pieces h)) (io_hist_list h) (io_hist_len h)
             ts (u64 (length ts))) (Build_ahist (mark a <$> by_place g) (mark a <$> in_order g) ts).
Proof.
  intros [[] [t []]] Ht Hp. split; [split|exists t; split]; hsimp; cbn [by_place in_order trims]; rewrite ?entries_mark, ?mark_fst; try done.
  - clear -w_sorted0. induction w_sorted0 as [|x l Hs IH Hx]; cbn; constructor; [done|].
    rewrite Forall_forall in *. intros y Hy. apply list_elem_of_fmap in Hy as (z & -> & Hz). specialize (Hx z Hz).
    unfold elt, klt in *. destruct (mark_piece a x) as (-> & -> & _), (mark_piece a z) as (-> & -> & _). done.
  - rewrite Forall_fmap. eapply Forall_impl; [exact w_onrb0|]. intros x. destruct (mark_piece a x) as (_ & _ & H1 & H2).
    cbn. by rewrite H1, H2.
  - rewrite Forall_fmap. eapply Forall_impl; [exact w_onlist0|]. intros x. destruct (mark_piece a x) as (_ & _ & H1 & H2).
    cbn. by rewrite H2.
  - rewrite Ht in w_trims0. by apply NoDup_cons in w_trims0 as [_ ?].
  - intros b Hb. apply w_sub0. rewrite Ht. by right.
  - by rewrite length_fmap.
  - unfold stored in *. rewrite Forall_fmap. eapply Forall_impl; [exact r_stored0|]. intros x Hx. cbn beta in Hx. cbn [compose]. unfold mark.
    case_decide as Hd; hsimp.
    + rewrite Hd in Hx |- *. rewrite lookup_insert_eq. f_equal. rewrite Hp in Hx. by injection Hx as ->.
    + by rewrite lookup_insert_ne.
  - rewrite dom_insert_L. rewrite <- r_dom0. assert (a ∈ dom (pieces h)) by (apply elem_of_dom; eauto). set_solver.
  - rewrite dom_insert_L. assert (a ∈ dom (pieces h)) by (apply elem_of_dom; eauto). set_solver.
Qed.

Lemma trim_ok h g zero : refines h g -> exists h',
  get_next_trim (fun _ => true) zero h = Some ((atrim zero g).1, h') /\ refines h' (atrim zero g).2.
Proof.
  intros Hr. pose proof Hr as [Hw [t Hl]]. pose proof Hw as []. pose proof Hl as [].
  unfold get_next_trim, atrim. rewrite r_trims0. destruct (trims g) as [|a ts] eqn:Et; [exists h; done|].
  pose proof (trims_count g Hw) as Hc. rewrite Et in Hc.
  assert (He : (trim_entries h =? 0) = false).
  { rewrite r_ent0. unfold u64. rewrite wrap_small by exact Hc. apply Z.eqb_neq. cbn. lia. }
  rewrite He. assert (Hts : NoDup (trim_list h) /\ trim_entries h = u64 (length (trim_list h))) by (rewrite r_trims0; done).
  destruct Hts as [Hts He'].
  destruct (find_entry g a) as (i & p & Ef & Hin); [destruct (w_sub0 a); [by left|done|set_solver]|]. rewrite Ef.
  pose proof (stored_lookup _ _ _ r_stored0 Hin) as Hp. cbn [fst snd] in Hp.
  assert (Hfl : filter (fun x => x <> a) (a :: ts) = ts).
  { rewrite filter_cons_False by auto. apply filter_absent. by apply NoDup_cons in w_trims0 as [? _]. }
  rewrite remove_trim_ok, r_trims0, Hfl by done. hsimp. rewrite Hp. cbn [mbind option_bind].
  destruct zero; cbn [negb].
  { unfold upd_piece. hsimp. rewrite Hp. cbn [mbind option_bind]. eexists. split; [reflexivity|].
    by apply (refines_mark h g a ts p). }
  unfold entries in Hin. apply elem_of_app in Hin as [Hin|Hin].
  - rewrite Forall_forall in w_onrb0. destruct (w_onrb0 _ Hin) as [Ho Ho']. cbn in Ho, Ho'. rewrite Ho, Ho'.
    assert (Hb : a ∈ (by_place g).*1) by (apply list_elem_of_fmap; by exists (a, p)).
    destruct (erase_piece ∅ h g t a Hw Hl Hb) as (s & t' & E & Hd & Hl').
    unfold on_tree. hsimp. rewrite E. cbn [mbind option_bind]. eexists. split; [reflexivity|]. cbn [snd].
    eapply refines_removed; [done|exact Hl'|]. unfold free_piece, removed, upd. hsimp. rewrite r_trims0, Hfl. f_equal.
    symmetry. by eapply unlist_tree.
  - rewrite Forall_forall in w_onlist0. pose proof (w_onlist0 _ Hin) as Ho. cbn in Ho. rewrite Ho.
    assert (Hb : a ∈ (in_order g).*1) by (apply list_elem_of_fmap; by exists (a, p)).
    pose proof (unlist_piece ∅ h g t a Hw Hl Hb) as Hl'. cbn [mbind option_bind]. eexists. split; [reflexivity|]. cbn [snd].
    eapply refines_removed; [done|exact Hl'|]. unfold free_piece, removed, upd. hsimp. by rewrite r_trims0, Hfl.
Qed.

(** *** [log_io_piece] *)
Lemma place_mid e k1 k2 : Forall (fun x => elt x e) k1 -> Forall (elt e) k2 -> place_entry e (k1 ++ k2) = k1 ++ e :: k2.
Proof.
  intros H1 H2. induction H1 as [|x k1 Hx H1 IH]; cbn.
  - destruct k2 as [|y k2]; [done|]. apply Forall_cons in H2 as [Hy _]. cbn. by rewrite decide_True.
  - rewrite decide_False, IH; [done|]. unfold elt in *. by apply klt_not_same.
Qed.
(** Two pieces of the same place are the same entry. *)
Lemma sorted_unique l x y : StronglySorted elt l -> x ∈ l -> y ∈ l -> same_place x.2 y.2 -> x = y.
Proof.
  intros Hs. induction Hs as [|z l Hs IH Hz]; [set_solver|]. rewrite !elem_of_cons, Forall_forall in *.
  intros [->|Hx] [->|Hy] Hp; [done| | |auto].
  - exfalso. by apply (proj1 (klt_not_same _ _ (Hz y Hy))).
  - exfalso. apply (proj1 (proj2 (klt_not_same _ _ (Hz x Hx)))). done.
Qed.

(** A piece [a] that is allocated but not in the history, and the history without it. *)
Record waiting (a : Z) (ipo : io_piece) (h : hist) (g : ahist) (t : tree) : Prop := {
  q_wf : awf {[a]} g;
  q_linked : linked {[a]} h g t;
  q_piece : pieces h !! a = Some ipo;
  q_addr : good_addr a }.

Definition on_rb (p : io_piece) : io_piece := p <| ip_onrb := true |>.

Lemma awf_place a ipo g k1 k2 : awf {[a]} g -> good_addr a -> by_place g = k1 ++ k2 ->
  ip_onlist ipo = false -> Forall (fun x : entry => klt x.2 ipo) k1 -> Forall (fun x : entry => klt ipo x.2) k2 ->
  awf ∅ (Build_ahist (k1 ++ (a, on_rb ipo) :: k2) (in_order g) (trims g)).
Proof.
  intros [] Ha E Hon H1 H2. unfold entries in *. rewrite E in *.
  assert (Hp : ((k1 ++ (a, on_rb ipo) :: k2) ++ in_order g).*1 ≡ₚ a :: ((k1 ++ k2) ++ in_order g).*1).
  { rewrite !fmap_app, fmap_cons. cbn [fst]. solve_Permutation. }
  split; unfold entries; cbn [by_place in_order trims]; try done.
  - rewrite Hp. constructor; [apply w_loose0; set_solver|done].
  - apply StronglySorted_app in w_sorted0 as (Hlt & Hs1 & Hs2). apply StronglySorted_app. split_and!; [|done|].
    + intros x y Hx. rewrite elem_of_cons. rewrite Forall_forall in H1. intros [->|Hy]; [by apply (H1 x)|auto].
    + apply StronglySorted_cons. split; [|done]. done.
  - rewrite Forall_app in *. rewrite Forall_cons. tauto.
  - intros x Hx. left. rewrite Hp. destruct (w_sub0 x Hx) as [?|Hxa]; [by right|]. apply elem_of_singleton in Hxa as ->. by left.
  - intros x. rewrite Hp, elem_of_cons. intros [->|Hx]; auto.
Qed.

Lemma insert_at fuel a ipo h g t : waiting a ipo h g t -> ip_onlist ipo = false ->
  Forall (fun x => ~ same_place ipo x.2) (by_place g) -> exists h',
  insert_piece (S fuel) a ipo h = Some h' /\
  refines h' (Build_ahist (place_entry (a, on_rb ipo) (by_place g)) (in_order g) (trims g)).
Proof.
  intros [Hw Hl Hp Ha] Hon Hns. pose proof Hl as []. pose proof (focus_inorder _ _ r_tree0) as (_ & _ & Hroot).
  assert (Hn : (length (by_place g) < S (size (mem (io_hist_tree h))))%nat).
  { pose proof (focus_size _ _ _ r_tree0) as Hz. change (plug [] t) with t in Hz. rewrite <- r_in0, length_fmap in Hz. by apply Nat.lt_succ_r. }
  assert (Hst : stored h (by_place g)) by (unfold stored, entries in *; by apply Forall_app in r_stored0 as [? _]).
  assert (Har : around ipo [] [] []) by (split_and!; [intros u; cbn; by rewrite app_nil_r|done..]).
  pose proof (find_place_ok h ipo _ [] t _ [] [] r_tree0 r_in0 Hst (w_sorted _ _ Hw) Har Hn) as W.
  cbn [link_of parent_of app] in W. rewrite app_nil_r in W.
  cbn [insert_piece]. destruct (find_place _ _ _ _ _) as [pl|]; [|done]. cbn [wp] in W. cbn [mbind option_bind].
  destruct pl as [parent lk|old]; [|destruct W as (q & Hq & Hs); rewrite Forall_forall in Hns; by destruct (Hns _ Hq)].
  destruct W as (c & k1 & k2 & -> & -> & Hf & Hpl & (Hin & H1 & H2) & Ek). change (plug [] t) with t in Hpl.
  assert (Hu : unlinked (io_hist_tree h) (plug c Leaf) a).
  { destruct Ha as [? ?]. split_and!; [|unfold NULL; lia|done|].
    - rewrite Hpl, <- r_in0. intros Hx. destruct Hw. apply (w_loose0 a); [set_solver|]. unfold entries. rewrite fmap_app.
      set_solver.
    - apply elem_of_dom. rewrite r_mem0, r_dom0. set_solver. }
  pose proof (wp_insert _ c a Hf ltac:(by rewrite Hpl) Hu) as W.
  unfold on_tree. destruct (rb_link_node a (parent_of c) (link_of c) (io_hist_tree h)) as [s1|]; [|done].
  cbn [mbind option_bind] in W |- *. unfold upd. hsimp. apply wp_elim in W as (s2 & -> & t' & [Hf' Hd'] & Hr' & Hi').
  cbn [mbind option_bind]. hsimp. unfold upd_piece. hsimp. rewrite Hp. cbn [mbind option_bind]. unfold upd. hsimp.
  eexists. split; [reflexivity|]. rewrite <- Ek, (place_mid (a, on_rb ipo)) by done.
  split; [by apply awf_place|]. exists t'. split; hsimp; unfold entries in *; cbn [by_place in_order trims]; rewrite <- ?Ek in *; try done.
  - rewrite Hi', Hin, fmap_app, fmap_cons. done.
  - rewrite r_len0. unfold u64. rewrite wrap_add_l. f_equal. rewrite !length_app. cbn [length]. lia.
  - unfold stored in *. rewrite !Forall_app in *. rewrite Forall_cons. destruct r_stored0 as [[S1 S2] S3]. hsimp.
    assert (S' : forall l : list entry, Forall (fun x => pieces h !! x.1 = Some x.2) l -> a ∉ l.*1 ->
      Forall (fun x : entry => <[a := on_rb ipo]> (pieces h) !! x.1 = Some x.2) l).
    { intros l Hl' Hna. rewrite Forall_forall in *. intros x Hx. rewrite lookup_insert_ne; [auto|].
      intros ->. apply Hna. apply list_elem_of_fmap. by exists x. }
    assert (Hna : a ∉ ((k1 ++ k2) ++ in_order g).*1).
    { destruct Hw. unfold entries in w_loose0. rewrite Ek. apply w_loose0. set_solver. }
    rewrite !fmap_app, !not_elem_of_app in Hna. destruct Hna as [[N1 N2] N3].
    split_and!; [by apply S'|by rewrite lookup_insert_eq|by apply S'|by apply S'].
  - rewrite dom_insert_L, r_dom0, !fmap_app, fmap_cons, !list_to_set_app_L. cbn. set_solver.
  - unfold same_dom in Hd'. rewrite Hd', dom_insert_L, r_mem0.
    assert (a ∈ dom (pieces h)) by (rewrite r_dom0; set_solver). set_solver.
Qed.

Lemma same_place_via p q r : same_place p q -> same_place p r -> same_place q r.
Proof. unfold same_place. lia. Qed.

Lemma clash_one p x l : StronglySorted elt l -> x ∈ l -> same_place p x.2 -> filter (fun y => same_place p y.2) l = [x].
Proof.
  intros Hs Hx Hp. apply list_elem_of_split in Hx as (l1 & l2 & ->).
  apply StronglySorted_app in Hs as (Hlt & _ & Hs). apply StronglySorted_inv in Hs as [_ Hgt].
  assert (N : forall l : list entry, (forall y, y ∈ l -> ~ same_place p y.2) -> filter (fun y => same_place p y.2) l = []).
  { clear. intros l Hl. induction l as [|y l IH]; [done|]. rewrite filter_cons_False by (apply Hl; by left).
    apply IH. intros z Hz. apply Hl. by right. }
  rewrite filter_app, filter_cons_True by done. rewrite !N; [done| |].
  - rewrite Forall_forall in Hgt. intros y Hy Hy'. specialize (Hgt y Hy). apply (proj1 (klt_not_same _ _ Hgt)).
    by eapply same_place_via.
  - intros y Hy Hy'. specialize (Hlt y x Hy ltac:(by left)). apply (proj1 (klt_not_same _ _ Hlt)). by eapply same_place_via.
Qed.

(** The place is taken: [find_place] finds the piece. *)
Lemma find_taken a ipo h g t old q : waiting a ipo h g t -> (old, q) ∈ by_place g -> same_place ipo q ->
  find_place (S (size (mem (io_hist_tree h)))) ipo ToRoot NULL h = Some (Taken old).
Proof.
  intros [Hw Hl Hp Ha] Hq Hs. pose proof Hl as [].
  assert (Hn : (length (by_place g) < S (size (mem (io_hist_tree h))))%nat).
  { pose proof (focus_size _ _ _ r_tree0) as Hz. change (plug [] t) with t in Hz. rewrite <- r_in0, length_fmap in Hz.
    by apply Nat.lt_succ_r. }
  assert (Hst : stored h (by_place g)) by (unfold stored, entries in *; by apply Forall_app in r_stored0 as [? _]).
  assert (Har : around ipo [] [] []) by (split_and!; [intros u; cbn; by rewrite app_nil_r|done..]).
  pose proof (find_place_ok h ipo _ [] t _ [] [] r_tree0 r_in0 Hst (w_sorted _ _ Hw) Har Hn) as W.
  cbn [link_of parent_of app] in W. rewrite app_nil_r in W. apply wp_elim in W as ([parent lk|old'] & -> & W).
  - exfalso. destruct W as (c & k1 & k2 & _ & _ & _ & _ & (_ & H1 & H2) & Ek). rewrite <- Ek in Hq.
    rewrite Forall_forall in *. apply elem_of_app in Hq as [Hq|Hq].
    + apply (proj1 (proj2 (klt_not_same _ _ (H1 _ Hq)))). done.
    + apply (proj1 (klt_not_same _ _ (H2 _ Hq))). done.
  - destruct W as (q' & Hq' & Hs'). assert (E : (old', q') = (old, q)).
    { eapply sorted_unique; [exact (w_sorted _ _ Hw)|done|done|]. by eapply same_place_via. }
    by injection E as -> _.
Qed.

Lemma waiting_removed a ipo h g t old s t' : waiting a ipo h g t -> old ∈ (entries g).*1 ->
  linked {[a]} (removed old s h) (aremove old g) t' -> waiting a ipo (removed old s h) (aremove old g) t'.
Proof.
  intros [Hw Hl Hp Ha] Ho Hl'. assert (Hne : old <> a).
  { intros ->. destruct Hw. apply (w_loose0 a); [set_solver|done]. }
  split; [apply awf_remove; [done|set_solver]|done| |done]. cbn [removed pieces]. by rewrite lookup_delete_ne.
Qed.

Definition queue (trim : bool) (a : Z) (g : ahist) : ahist :=
  if trim then Build_ahist (by_place g) (in_order g) (trims g ++ [a]) else g.

Lemma insert_ok a ipo h g t : waiting a ipo h g t -> ip_onlist ipo = false ->
  let clash := filter (fun x => same_place ipo x.2) (by_place g) in
  if forallb (fun x => ip_len ipo =? ip_len x.2) clash then
    let g' := foldr aremove g clash.*1 in
    exists h', insert_piece 2 a ipo h = Some h' /\
      refines h' (Build_ahist (place_entry (a, on_rb ipo) (by_place g')) (in_order g') (trims g'))
  else insert_piece 2 a ipo h = None.
Proof.
  intros Hq Hon. pose proof Hq as [Hw Hl Hp Ha]. cbv zeta.
  destruct (decide (Forall (fun x => ~ same_place ipo x.2) (by_place g))) as [Hn|Hn].
  - replace (filter (fun x => same_place ipo x.2) (by_place g)) with ([] : list entry); [by eapply insert_at|].
    symmetry. clear -Hn. induction Hn; [done|]. by rewrite filter_cons_False.
  - apply not_Forall_Exists in Hn; [|solve_decision]. apply Exists_exists in Hn as ([old q] & Hin & Hs). cbn in Hs.
    apply dec_stable in Hs. rewrite (clash_one ipo (old, q)) by (done || apply Hw).
    cbn [forallb snd]. rewrite andb_true_r. cbn [insert_piece]. rewrite (find_taken a ipo h g t old q) by done.
    cbn [mbind option_bind]. pose proof Hl as [].
    assert (Hine : (old, q) ∈ entries g) by (unfold entries; set_solver).
    pose proof (stored_lookup _ _ _ r_stored0 Hine) as Hop. cbn [fst snd] in Hop. rewrite Hop. cbn [mbind option_bind].
    destruct (ip_len ipo =? ip_len q) eqn:El; cbn [negb]; [|done].
    assert (Hb : old ∈ (by_place g).*1) by (apply list_elem_of_fmap; by exists (old, q)).
    destruct (erase_piece _ h g t old Hw Hl Hb) as (s & t' & E & Hd & Hl'). unfold on_tree, upd. hsimp. rewrite E.
    cbn [mbind option_bind]. hsimp. pose proof Hw as [].
    rewrite (free_remove_ok old h); [|by rewrite r_trims0|by rewrite r_trims0|by eapply unlist_tree|done|done].
    cbn [fmap list_fmap foldr fst].
    assert (Hq' : waiting a ipo (removed old s h) (aremove old g) t').
    { apply (waiting_removed a ipo h g t); [done| |done]. unfold entries. rewrite fmap_app. set_solver. }
    assert (Hns : Forall (fun x => ~ same_place ipo x.2) (by_place (aremove old g))).
    { rewrite Forall_forall. intros x Hx Hsx. cbn [aremove by_place] in Hx. apply elem_of_remove in Hx as [Hne Hx].
      apply Hne. assert (x = (old, q)) as ->; [|done]. eapply sorted_unique; [exact w_sorted0|done..|]. by eapply same_place_via. }
    exact (insert_at 0 a ipo _ _ _ Hq' Hon Hns).
Qed.

Lemma entries_queue trim a g : entries (queue trim a g) = entries g. Proof. by destruct trim. Qed.
Lemma by_place_queue trim a g : by_place (queue trim a g) = by_place g. Proof. by destruct trim. Qed.
Lemma in_order_queue trim a g : in_order (queue trim a g) = in_order g. Proof. by destruct trim. Qed.

(** The state after [malloc], with the piece queued for a trim or not. *)
Lemma awf_new trim a g : awf ∅ g -> a ∉ (entries g).*1 -> awf {[a]} (queue trim a g).
Proof.
  intros [] Ha. split; rewrite ?entries_queue, ?by_place_queue, ?in_order_queue; try done.
  - destruct trim; [|done]. cbn. apply NoDup_app. split_and!; [done| |apply NoDup_singleton].
    intros x Hx Hxa. apply list_elem_of_singleton in Hxa as ->. destruct (w_sub0 a Hx); [done|set_solver].
  - intros x Hx. destruct trim; cbn in Hx.
    + apply elem_of_app in Hx as [Hx|Hx]; [destruct (w_sub0 x Hx); [by left|set_solver]|right; set_solver].
    + destruct (w_sub0 x Hx); [by left|set_solver].
  - intros x Hx. apply elem_of_singleton in Hx as ->. done.
Qed.

Lemma waiting_new trim a ipo h g m : refines h g -> good_addr a -> pieces h !! a = None ->
  dom m = dom (mem (io_hist_tree h)) ∪ {[a]} -> (forall b, b <> a -> m !! b = mem (io_hist_tree h) !! b) ->
  exists t, waiting a ipo (Build_hist (Build_rb_root m (root_node (io_hist_tree h))) (<[a := ipo]> (pieces h)) (io_hist_list h)
    (io_hist_len h) (trims (queue trim a g)) (u64 (length (trims (queue trim a g))))) (queue trim a g) t.
Proof.
  intros [Hw [t Hl]] Ha Hp Hd Hm. pose proof Hl as []. assert (Hna : a ∉ (entries g).*1).
  { intros Hx. apply not_elem_of_dom in Hp. apply Hp. rewrite r_dom0. set_solver. }
  exists t. split; [by apply awf_new| |hsimp; by rewrite lookup_insert_eq|done].
  split; rewrite ?entries_queue, ?by_place_queue, ?in_order_queue; hsimp; try done.
  - eapply focus_mem; [done|done|]. intros b Hb. hsimp. apply Hm. rewrite <- r_in0 in Hb. intros ->. apply Hna.
    unfold entries. rewrite fmap_app. set_solver.
  - unfold stored in *. rewrite Forall_forall in *. intros x Hx. hsimp. rewrite lookup_insert_ne; [auto|].
    intros ->. apply Hna. apply list_elem_of_fmap. by exists x.
  - rewrite dom_insert_L, r_dom0. set_solver.
  - rewrite Hd, dom_insert_L, r_mem0. set_solver.
Qed.

(** A waiting piece goes to the end of the list. *)
Lemma append_ok a ipo h g t : waiting a ipo h g t -> let p := ipo <| ip_onlist := true |> in
  refines (Build_hist (io_hist_tree h) (<[a := p]> (pieces h)) (io_hist_list h ++ [a]) (u64 (io_hist_len h + 1))
             (trim_list h) (trim_entries h)) (Build_ahist (by_place g) (in_order g ++ [(a, p)]) (trims g)).
Proof.
  intros [Hw Hl Hp Ha] p. pose proof Hw as []. pose proof Hl as []. unfold entries in *.
  assert (Hna : a ∉ (by_place g ++ in_order g).*1) by (apply w_loose0; set_solver).
  assert (Ee : by_place g ++ in_order g ++ [(a, p)] = (by_place g ++ in_order g) ++ [(a, p)]) by apply app_assoc.
  split; [split|exists t; split]; unfold entries; hsimp; cbn [by_place in_order trims]; rewrite ?Ee; try done.
  - rewrite fmap_app. apply NoDup_app. split_and!; [done| |apply NoDup_singleton]. set_solver.
  - apply Forall_app. split; [done|]. by apply Forall_singleton.
  - intros x Hx. left. rewrite fmap_app, elem_of_app. destruct (w_sub0 x Hx) as [?|?]; [by left|]. right. cbn. set_solver.
  - intros x. rewrite fmap_app, elem_of_app. intros [Hx|Hx]; [auto|]. cbn in Hx. apply list_elem_of_singleton in Hx as ->. done.
  - by rewrite r_list0, fmap_app.
  - rewrite r_len0. unfold u64. rewrite wrap_add_l. f_equal. rewrite (length_app (by_place g ++ in_order g)). cbn [length]. lia.
  - unfold stored in *. apply Forall_app. hsimp. split; [|apply Forall_singleton; by rewrite lookup_insert_eq].
    rewrite Forall_forall in *. intros x Hx. rewrite lookup_insert_ne; [auto|].
    intros ->. apply Hna. apply list_elem_of_fmap. by exists x.
  - rewrite dom_insert_L, r_dom0, (fmap_app _ (by_place g ++ in_order g)), list_to_set_app_L. cbn. set_solver.
  - rewrite dom_insert_L, r_mem0. assert (a ∈ dom (pieces h)) by (apply elem_of_dom; eauto). set_solver.
Qed.

Lemma foldr_remove_queue trim a g cl : a ∉ cl -> foldr aremove (queue trim a g) cl = queue trim a (foldr aremove g cl).
Proof.
  induction cl as [|b cl IH]; [done|]. rewrite not_elem_of_cons. intros [Hb Hn]. cbn [foldr]. rewrite IH by done.
  destruct trim; [|done]. unfold aremove, queue. cbn. by rewrite filter_app, filter_cons_True.
Qed.

Lemma log_ok io trim a file offset len version h g : refines h g -> good_addr a -> pieces h !! a = None ->
  match alog io trim a file offset len version g with
  | Some g' => exists h', log_io_piece io trim a file offset len version h = Some h' /\ refines h' g'
  | None => log_io_piece io trim a file offset len version h = None
  end.
Proof.
  intros Hr Ha Hp. pose proof Hr as [Hw [t Hl]]. pose proof Hl as []. pose proof Hw as [].
  assert (Hna : a ∉ (entries g).*1).
  { intros Hx. apply not_elem_of_dom in Hp. apply Hp. rewrite r_dom0. set_solver. }
  set (ipo := Build_io_piece file offset len version false false false).
  assert (Hq : forall h0, h0 = (if trim then (new_piece a ipo h) <| trim_list ::= fun l => l ++ [a] |>
      <| trim_entries := u64 (trim_entries (new_piece a ipo h) + 1) |> else new_piece a ipo h) ->
    h0 = Build_hist (Build_rb_root (<[a := Build_rb_node 0 0 0]> (mem (io_hist_tree h))) (root_node (io_hist_tree h)))
      (<[a := ipo]> (pieces h)) (io_hist_list h) (io_hist_len h) (trims (queue trim a g)) (u64 (length (trims (queue trim a g))))).
  { intros h0 ->. destruct trim; unfold new_piece, upd; hsimp; cbn [queue trims]; rewrite r_trims0, r_ent0; [|done].
    f_equal. unfold u64. rewrite wrap_add_l. f_equal. rewrite length_app. cbn. lia. }
  unfold log_io_piece, alog. fold ipo. cbv zeta. rewrite (Hq _ eq_refl). clear Hq. destruct io.
  - destruct (waiting_new trim a ipo h g (<[a := Build_rb_node 0 0 0]> (mem (io_hist_tree h))) Hr Ha Hp) as [t' Hq].
    { rewrite dom_insert_L. set_solver. } { intros b Hb. by rewrite lookup_insert_ne. }
    unfold upd_piece, upd. hsimp. rewrite lookup_insert_eq. cbn [mbind option_bind]. hsimp.
    eexists. split; [reflexivity|]. pose proof (append_ok _ _ _ _ _ Hq) as Hf. cbv zeta in Hf.
    hsimp. cbn [pieces io_hist_list io_hist_tree io_hist_len trim_list trim_entries] in Hf.
    destruct trim; exact Hf.
  - unfold on_tree, RB_CLEAR_NODE, rb_set_parent, modify. hsimp. rewrite lookup_insert_eq. cbn [mbind option_bind].
    unfold upd. hsimp. cbn [rb_parent_color rb_left rb_right].
    set (m := <[a := _]> (<[a := _]> (mem (io_hist_tree h)))).
    destruct (waiting_new trim a ipo h g m Hr Ha Hp) as [t' Hq].
    { unfold m. rewrite !dom_insert_L. set_solver. } { intros b Hb. unfold m. by rewrite !lookup_insert_ne. }
    pose proof (insert_ok _ _ _ _ _ Hq eq_refl) as W. cbv zeta in W. rewrite by_place_queue in W.
    cbn [snd]. change (same_place ipo) with (same_place (Build_io_piece file offset len version true false false)) in W.
    change (ip_len ipo) with len in W. set (cl := filter _ (by_place g)) in W |- *.
    rewrite foldr_remove_queue, by_place_queue, in_order_queue in W.
    2: { intros Hx. apply list_elem_of_fmap in Hx as (x & -> & Hx). apply list_elem_of_filter in Hx as [_ Hx].
         apply Hna. unfold entries. rewrite fmap_app, elem_of_app. left. apply list_elem_of_fmap. by exists x. }
    destruct (forallb (fun x => len =? ip_len x.2) cl); [|exact W]. destruct trim; exact W.
Qed.

(** *** [prune_io_piece_log] *)
Lemma drop_ok a h g t s t' : awf ∅ g -> linked ∅ h g t -> linked ∅ (removed a s h) (aremove a g) t' ->
  filter (fun x => x <> a) (io_hist_list h) = io_hist_list h ->
  drop_piece a (Build_hist s (pieces h) (io_hist_list h) (io_hist_len h) (trim_list h) (trim_entries h)) = removed a s h.
Proof.
  intros [] [] _ Hf. unfold drop_piece. rewrite remove_trim_ok by (hsimp; by rewrite r_trims0).
  unfold free_piece, removed, upd. hsimp. by rewrite Hf.
Qed.

Lemma prune_tree_ok fuel : forall h g, refines h g -> (length (by_place g) < fuel)%nat ->
  exists h' ts, prune_tree fuel h = Some h' /\ refines h' (Build_ahist [] (in_order g) ts).
Proof.
  induction fuel as [|fuel IH]; [lia|]. intros h g Hr Hn. pose proof Hr as [Hw [t Hl]]. pose proof Hl as []. pose proof Hw as [].
  cbn [prune_tree]. destruct (wp_elim _ _ (wp_rb_first _ _ r_tree0)) as (n & -> & Hh). cbn [mbind option_bind].
  rewrite <- r_in0 in Hh. destruct (by_place g) as [|[a p] l] eqn:Eb; cbn in Hh; subst n.
  - exists h, (trims g). split; [done|]. destruct g as [b i ts]. cbn in Eb. by subst b.
  - assert (Hb : a ∈ (by_place g).*1) by (rewrite Eb; by left).
    destruct (w_addr0 a) as [Hz _]; [unfold entries; rewrite fmap_app; set_solver|].
    destruct (Z.eqb_spec a NULL); [unfold NULL in *; lia|].
    destruct (erase_piece _ h g t a Hw Hl Hb) as (s & t' & E & Hd & Hl'). unfold on_tree, upd. hsimp. rewrite E.
    cbn [mbind option_bind]. rewrite (drop_ok a h g t s t') by (done || by eapply unlist_tree).
    destruct (IH (removed a s h) (aremove a g)) as (h' & ts & E' & Hr').
    + by eapply refines_removed.
    + cbn [aremove by_place]. pose proof (length_remove a (by_place g)) as Hlen. rewrite Eb in *.
      assert (Hd' : NoDup ((a, p) :: l).*1).
      { unfold entries in w_nodup0. rewrite Eb, fmap_app in w_nodup0. by apply NoDup_app in w_nodup0 as [? _]. }
      specialize (Hlen Hd' ltac:(by left)). lia.
    + exists h', ts. split; [done|]. cbn [aremove in_order] in Hr'. rewrite remove_entry_notin in Hr'; [done|].
      unfold entries in w_nodup0. rewrite fmap_app in w_nodup0. apply NoDup_app in w_nodup0 as (_ & Hx & _). by apply Hx.
Qed.

Lemma prune_list_ok l : forall h g, refines h g -> by_place g = [] -> (in_order g).*1 = l ->
  refines (prune_list l h) ahist0.
Proof.
  induction l as [|a l IH]; intros h g Hr Hb Hi.
  - apply fmap_nil_inv in Hi. destruct g as [b i ts]. cbn in *. subst. destruct Hr as [[] [t []]]. cbn in *.
    assert (ts = []) as ->; [|by split; [split|exists t; split]].
    destruct ts as [|x ts]; [done|]. destruct (w_sub0 x) as [?|?]; [by left|set_solver..].
  - pose proof Hr as [Hw [t Hl]]. pose proof Hl as []. pose proof Hw as [].
    assert (Ha : a ∈ (in_order g).*1) by (rewrite Hi; by left).
    pose proof (unlist_piece _ h g t a Hw Hl Ha) as Hl'. cbn [prune_list].
    assert (Hf : filter (fun x => x <> a) (io_hist_list h) = l).
    { rewrite r_list0, Hi, filter_cons_False by auto. apply filter_absent.
      unfold entries in w_nodup0. rewrite fmap_app, Hi in w_nodup0. apply NoDup_app in w_nodup0 as (_ & _ & Hd).
      by apply NoDup_cons in Hd as [? _]. }
    assert (E : drop_piece a (h <| io_hist_list := l |>) = removed a (io_hist_tree h) h).
    { unfold drop_piece. rewrite remove_trim_ok by (unfold upd; hsimp; by rewrite r_trims0).
      unfold free_piece, removed, upd. hsimp. by rewrite Hf. }
    rewrite E. apply (IH _ (aremove a g)).
    + by eapply refines_removed.
    + cbn [aremove by_place]. by rewrite Hb.
    + cbn [aremove in_order]. rewrite remove_entry_fmap, <- r_list0. done.
Qed.

Lemma prune_ok h g : refines h g -> exists h', prune_io_piece_log h = Some h' /\ refines h' ahist0.
Proof.
  intros Hr. pose proof Hr as [Hw [t Hl]]. pose proof Hl as []. unfold prune_io_piece_log.
  assert (Hn : (length (by_place g) < S (size (pieces h)))%nat).
  { pose proof (focus_size _ _ _ r_tree0) as Hz. change (plug [] t) with t in Hz. rewrite <- r_in0, length_fmap in Hz.
    rewrite <- size_dom, r_mem0, size_dom in Hz. by apply Nat.lt_succ_r. }
  destruct (prune_tree_ok _ h g Hr Hn) as (h' & ts & -> & Hr'). cbn [mbind option_bind].
  eexists. split; [reflexivity|]. pose proof Hr' as [_ [t' []]]. by eapply prune_list_ok.
Qed.

(** A failed open only hides the range of a trim. *)
Lemma closed_trim_ok h g opened zero : refines h g -> exists h',
  get_next_trim (fun _ => opened) zero h = Some (if opened then (atrim zero g).1 else None, h') /\ refines h' (atrim zero g).2.
Proof.
  intros Hr. destruct (trim_ok h g zero Hr) as (h' & E & Hr'). exists h'. split; [|done]. destruct opened; [done|].
  unfold get_next_trim in *. destruct (trim_list h); [by simplify_eq|]. destruct (trim_entries h =? 0); [done|].
  destruct (pieces _ !! _) as [p|]; [|done]. cbn [mbind option_bind negb] in *.
  destruct (if negb zero then _ else _); [|done]. cbn [mbind option_bind] in *. by simplify_eq.
Qed.

(** ** Refinement *)

(** [opened]: the file of the piece is open, or could be opened. *)
Inductive hop :=
  | Log (io trim : bool) (a file offset len version : Z)
  | NextVerify (opened : bool)
  | NextTrim (opened zero : bool)
  | Prune.
Inductive hres :=
  | Logged
  | Read (r : option (Z * Z * Z * Z * bool))
  | Trimmed (r : option (Z * Z * Z))
  | Pruned.

Definition step (h : hist) (o : hop) : option (hres * hist) :=
  match o with
  | Log io trim a file offset len version =>
      h ← log_io_piece io trim a file offset len version h; Some (Logged, h)
  | NextVerify opened => '(r, h) ← get_next_verify (fun _ => opened) h; Some (Read r, h)
  | NextTrim opened zero => '(r, h) ← get_next_trim (fun _ => opened) zero h; Some (Trimmed r, h)
  | Prune => h ← prune_io_piece_log h; Some (Pruned, h)
  end.
Definition astep (g : ahist) (o : hop) : option (hres * ahist) :=
  match o with
  | Log io trim a file offset len version =>
      g ← alog io trim a file offset len version g; Some (Logged, g)
  | NextVerify _ => let '(r, g) := averify g in Some (Read r, g)
  | NextTrim opened zero => let '(r, g) := atrim zero g in Some (Trimmed (if opened then r else None), g)
  | Prune => Some (Pruned, ahist0)
  end.
(** The results up to a failed assertion. *)
Fixpoint run {S} (st : S -> hop -> option (hres * S)) (s : S) (os : list hop) : list hres * bool :=
  match os with
  | [] => ([], true)
  | o :: os =>
      match st s o with
      | Some (r, s) => let '(rs, ok) := run st s os in (r :: rs, ok)
      | None => ([], false)
      end
  end.

(** A file whose piece is verified can be opened. *)
Definition opens (o : hop) : Prop := match o with NextVerify opened => opened = true | _ => True end.

(** [malloc] returns the address of no live piece. *)
Definition malloc_ok (h : hist) (o : hop) : Prop :=
  match o with Log _ _ a _ _ _ _ => good_addr a /\ pieces h !! a = None | _ => True end.
Fixpoint mallocs_ok (h : hist) (os : list hop) : Prop :=
  match os with
  | [] => True
  | o :: os => malloc_ok h o /\ match step h o with Some (_, h) => mallocs_ok h os | None => True end
  end.

Lemma hist_step_ok h g o : refines h g -> malloc_ok h o -> opens o ->
  match astep g o with
  | Some (r, g') => exists h', step h o = Some (r, h') /\ refines h' g'
  | None => step h o = None
  end.
Proof.
  intros Hr Hm Ho. destruct o as [io trim a file offset len version|opened|opened zero|]; cbn [astep step].
  - destruct Hm as [Ha Hp]. pose proof (log_ok io trim a file offset len version h g Hr Ha Hp) as W.
    destruct (alog _ _ _ _ _ _ _ g) as [g'|]; cbn; [|by rewrite W]. destruct W as (h' & -> & ?). by exists h'.
  - cbn in Ho. subst opened. destruct (verify_ok h g Hr) as (h' & E & ?). rewrite E. destruct (averify g) as [r g']. by exists h'.
  - destruct (closed_trim_ok h g opened zero Hr) as (h' & E & ?). rewrite E. destruct (atrim zero g) as [r g']. by exists h'.
  - destruct (prune_ok h g Hr) as (h' & E & ?). rewrite E. by exists h'.
Qed.

Lemma refines0 : refines hist0 ahist0.
Proof.
  assert (N : forall a : Z, a ∉ []) by apply not_elem_of_nil.
  split; [split; try (by constructor); intros a Ha; first [by apply N in Ha|set_solver]|].
  exists Leaf. split; cbn; try done; [split; [split; constructor|done]|split; [done|by exists 0%nat]|constructor].
Qed.

Lemma run_ok os : forall h g, refines h g -> mallocs_ok h os -> Forall opens os -> run step h os = run astep g os.
Proof.
  induction os as [|o os IH]; intros h g Hr Hm Hop; [done|]. cbn [run mallocs_ok] in *. destruct Hm as [Ho Hm].
  apply Forall_cons in Hop as [Hop Hops]. pose proof (hist_step_ok h g o Hr Ho Hop) as W. destruct (astep g o) as [[r g']|]; [|by rewrite W].
  destruct W as (h' & E & Hr'). rewrite E in Hm |- *. by rewrite (IH h' g').
Qed.

(** C5: The history in memory (a red black tree, a list, a trim queue and their
    counters) answers every sequence of [log_io_piece], [get_next_verify],
    [get_next_trim] and [prune_io_piece_log] like a list sorted by file and offset,
    a list in the order of the writes and a queue of trims; it fails an assertion
    exactly when a write has the place of another one and a different length.  Assumed:
    the file of a piece that [get_next_verify] takes is open or can be opened
    ([failed_open_breaks_trim] is the other case), and [malloc] succeeds with an aligned
    address that no live piece has. *)
Theorem history_refines_sorted_list os : mallocs_ok hist0 os -> Forall opens os -> run step hist0 os = run astep ahist0 os.
Proof. apply run_ok, refines0. Qed.

Ltac concrete_addr := split; [lia|reflexivity].
Definition some_ops : list hop :=
  [Log false true 64 0 4096 512 1; Log false true 128 0 0 512 2; Log false false 192 0 4096 512 3;
   NextTrim true true; NextVerify true; NextTrim false false; NextVerify true; Log true false 64 0 0 512 4; Prune; NextVerify true].
Lemma history_refines_sorted_list_witness :
  mallocs_ok hist0 some_ops /\ run step hist0 some_ops = run astep ahist0 some_ops.
Proof.
  assert (H : mallocs_ok hist0 some_ops) by (vm_compute; repeat split).
  split; [exact H|]. apply (history_refines_sorted_list some_ops H). repeat constructor.
Defined.

(** ** A history that is logged and then read back *)
Record write := { wr_addr : Z; wr_file : Z; wr_offset : Z; wr_len : Z; wr_version : Z }.
Definition log_write (trim : bool) (h : hist) (w : write) : option hist :=
  log_io_piece false trim (wr_addr w) (wr_file w) (wr_offset w) (wr_len w) (wr_version w) h.
Fixpoint log_all (trim : bool) (h : hist) (ws : list write) : option hist :=
  match ws with [] => Some h | w :: ws => h ← log_write trim h w; log_all trim h ws end.
(** [malloc] returns an aligned address that no live piece has; one that was freed may be
    returned again. *)
Fixpoint fresh_addrs (trim : bool) (h : hist) (ws : list write) : Prop :=
  match ws with
  | [] => True
  | w :: ws => good_addr (wr_addr w) /\ pieces h !! wr_addr w = None /\
      match log_write trim h w with Some h => fresh_addrs trim h ws | None => True end
  end.
(** [get_next_verify] until it returns 1. *)
Fixpoint drain (fuel : nat) (h : hist) : option (list (Z * Z * Z * Z * bool)) :=
  match fuel with
  | O => None
  | S fuel =>
      '(r, h) ← get_next_verify (fun _ => true) h;
      match r with Some x => l ← drain fuel h; Some (x :: l) | None => Some [] end
  end.
(** The last write to a place: its length and version. *)
Definition last_write (ws : list write) (file offset : Z) : option (Z * Z) :=
  foldl (fun r w => if decide (wr_file w = file /\ wr_offset w = offset) then Some (wr_len w, wr_version w) else r) None ws.
Definition read_before (x y : Z * Z * Z * Z * bool) : Prop :=
  let '(f, o, _, _, _) := x in let '(f', o', _, _, _) := y in f < f' \/ (f = f' /\ o < o').

Lemma drain_ok fuel : forall h g, refines h g -> (length (entries g) < fuel)%nat ->
  drain fuel h = Some ((fun x => read_of x.2) <$> entries g).
Proof.
  induction fuel as [|fuel IH]; intros h g Hr Hf; [lia|]. destruct (verify_ok h g Hr) as (h' & E & Hr').
  cbn [drain]. rewrite E. unfold averify in *. destruct (entries g) as [|x l] eqn:Ee; [done|]. cbn [fst snd mbind option_bind] in *.
  assert (Hl : entries (aremove x.1 g) = l).
  { rewrite entries_remove, Ee. unfold remove_entry. rewrite filter_cons_False by auto. change (remove_entry x.1 l = l).
    apply remove_entry_notin. destruct Hr as [[] _]. rewrite Ee in w_nodup0. by apply NoDup_cons in w_nodup0 as [? _]. }
  rewrite (IH h' _ Hr') by (rewrite Hl; cbn in Hf; lia). by rewrite Hl.
Qed.

Lemma length_place e l : length (place_entry e l) = S (length l).
Proof. induction l as [|y l IH]; cbn; [done|]. case_decide; cbn; auto. Qed.
Lemma elem_of_place e x l : x ∈ place_entry e l <-> x = e \/ x ∈ l.
Proof.
  induction l as [|y l IH]; cbn; [set_solver|]. case_decide; [set_solver|]. rewrite !elem_of_cons, IH. tauto.
Qed.

(** What the tree holds after [ws]. *)
Definition holds_last (ws : list write) (g : ahist) : Prop :=
  in_order g = [] /\ (length (by_place g) <= length ws)%nat /\
  forall p, p ∈ (by_place g).*2 <->
    last_write ws (ip_file p) (ip_offset p) = Some (ip_len p, ip_version p)
    /\ ip_onrb p = true /\ ip_onlist p = false /\ ip_trimmed p = false.

Lemma elem_of_snd (l : list entry) p : p ∈ l.*2 <-> exists a, (a, p) ∈ l.
Proof. rewrite list_elem_of_fmap. split; [intros ([a q] & -> & ?); by exists a|intros [a ?]; by exists (a, p)]. Qed.

Lemma last_write_len ws f o l v : last_write ws f o = Some (l, v) ->
  exists w, w ∈ ws /\ wr_file w = f /\ wr_offset w = o /\ wr_len w = l.
Proof.
  unfold last_write. induction ws as [|w ws IH] using rev_ind; [done|]. rewrite foldl_app. cbn. case_decide as Hd.
  - intros E. injection E as <- <-. exists w. set_solver.
  - intros E. destruct (IH E) as (w' & ? & ?). exists w'. set_solver.
Qed.

Lemma entry_unique (l : list entry) a p q : NoDup l.*1 -> (a, p) ∈ l -> (a, q) ∈ l -> p = q.
Proof.
  induction l as [|[b r] l IH]; cbn; [set_solver|]. intros Hd. apply NoDup_cons in Hd as [Hn Hd].
  rewrite !elem_of_cons. intros [E1|H1] [E2|H2]; [congruence| | |auto].
  - injection E1 as <- <-. destruct Hn. apply list_elem_of_fmap. by exists (a, q).
  - injection E2 as <- <-. destruct Hn. apply list_elem_of_fmap. by exists (a, p).
Qed.
Lemma foldr_remove g cl : in_order g = [] -> in_order (foldr aremove g cl) = [] /\
  (length (by_place (foldr aremove g cl)) <= length (by_place g))%nat /\
  forall x, x ∈ by_place (foldr aremove g cl) <-> (x.1 ∉ cl) /\ x ∈ by_place g.
Proof.
  intros Hi. induction cl as [|a cl (IH1 & IHl & IH2)]; cbn [foldr aremove by_place in_order]; [split_and!; [done|done|set_solver]|].
  split; [by rewrite IH1|]. split; [etrans; [apply length_filter|done]|]. intros x. rewrite elem_of_remove, IH2, not_elem_of_cons. tauto.
Qed.
(** The addresses of the pieces of a place. *)
Lemma clash_addr e l x : NoDup l.*1 -> x ∈ l ->
  x.1 ∈ (filter (fun y : entry => same_place e y.2) l).*1 <-> same_place e x.2.
Proof.
  intros Hd Hx. split.
  - intros Hy. apply list_elem_of_fmap in Hy as ([a q] & Exy & Hy). apply list_elem_of_filter in Hy as [Hs Hy].
    destruct x as [a' p]. cbn in Exy. subst a'. by rewrite (entry_unique l a p q).
  - intros Hs. apply list_elem_of_fmap. exists x. split; [done|]. by apply list_elem_of_filter.
Qed.

Lemma alog_ok trim ws w g : awf ∅ g -> holds_last ws g ->
  (forall x, x ∈ ws -> wr_file x = wr_file w -> wr_offset x = wr_offset w -> wr_len x = wr_len w) ->
  exists g', alog false trim (wr_addr w) (wr_file w) (wr_offset w) (wr_len w) (wr_version w) g = Some g' /\
    holds_last (ws ++ [w]) g'.
Proof.
  intros Hw (Hi & Had & Hl) Hlen. set (e := Build_io_piece (wr_file w) (wr_offset w) (wr_len w) (wr_version w) true false false).
  unfold alog. fold e. cbn [negb]. fold e. cbn [snd].
  set (cl := filter _ (by_place g)).
  assert (Hcl : forallb (fun x => wr_len w =? ip_len x.2) cl = true).
  { apply forallb_forall. intros x Hx. apply list_elem_of_In, list_elem_of_filter in Hx as [[Hf Ho] Hx]. cbn in Hf, Ho.
    assert (Hp : x.2 ∈ (by_place g).*2) by (apply list_elem_of_fmap; by exists x). apply Hl in Hp as (E & _).
    apply last_write_len in E as (w' & Hw' & E1 & E2 & E3). apply Z.eqb_eq. rewrite <- E3. symmetry. apply Hlen; congruence. }
  rewrite Hcl.
  destruct (foldr_remove g cl.*1 Hi) as (Hio & Hle & Hmem).
  set (g' := Build_ahist (place_entry (wr_addr w, e) (by_place (foldr aremove g cl.*1))) (in_order (foldr aremove g cl.*1))
               (trims (foldr aremove g cl.*1))).
  assert (Hcl' : forall x, x ∈ by_place g -> x.1 ∈ cl.*1 <-> same_place e x.2).
  { intros x. apply clash_addr. destruct Hw. unfold entries in w_nodup0. by rewrite Hi, app_nil_r in w_nodup0. }
  assert (Hg' : holds_last (ws ++ [w]) g').
  { split_and!; [done| |].
    - cbn [g' by_place]. rewrite length_place, length_app. cbn. lia.
    - intros p. unfold last_write. rewrite foldl_app. cbn [foldl]. fold (last_write ws (ip_file p) (ip_offset p)).
      rewrite elem_of_snd. cbn [g' by_place]. case_decide as Hd.
      + split.
        * intros [a Ha]. apply elem_of_place in Ha as [E|Ha]; [by injection E as -> ->|].
          apply Hmem in Ha as [Hn Ha]. destruct Hn. apply Hcl'; [done|]. exact Hd.
        * intros (E & E1 & E2 & E3). exists (wr_addr w). apply elem_of_place. left. f_equal. unfold e.
          destruct p, Hd. cbn in *. injection E as -> ->. by subst.
      + rewrite <- Hl, elem_of_snd. split; intros [a Ha]; exists a.
        * apply elem_of_place in Ha as [E|Ha]; [injection E as -> ->; by destruct Hd|]. by apply Hmem in Ha as [_ Ha].
        * apply elem_of_place. right. apply Hmem. split; [|done]. intros Hc. apply Hd. by apply (Hcl' (a, p) Ha). }
  cbv zeta. fold g'. destruct trim; eexists; (split; [reflexivity|]); [|exact Hg'].
  destruct Hg' as (? & ? & ?). by split_and!.
Qed.

Lemma log_all_refines trim ws : forall done h g, refines h g -> holds_last done g -> fresh_addrs trim h ws ->
  (forall x y, x ∈ done ++ ws -> y ∈ done ++ ws -> wr_file x = wr_file y -> wr_offset x = wr_offset y -> wr_len x = wr_len y) ->
  exists h' g', log_all trim h ws = Some h' /\ refines h' g' /\ holds_last (done ++ ws) g'.
Proof.
  induction ws as [|w ws IH]; intros done h g Hr Hh Ha Hlen; [exists h, g; by rewrite app_nil_r|].
  cbn [fresh_addrs] in Ha. destruct Ha as (Ha & Hp & Has). pose proof Hr as [Hw [t []]].
  destruct (alog_ok trim done w g Hw Hh) as (g' & Eg & Hh'). { intros x Hx. apply Hlen; set_solver. }
  pose proof (log_ok false trim _ (wr_file w) (wr_offset w) (wr_len w) (wr_version w) h g Hr Ha Hp) as W. rewrite Eg in W.
  destruct W as (h' & E & Hr'). cbn [log_all]. unfold log_write in *. rewrite E in Has |- *. cbn [mbind option_bind].
  destruct (IH (done ++ [w]) h' g' Hr' Hh' Has) as (h2 & g2 & ? & ? & Hl); [by rewrite <- app_assoc|].
  exists h2, g2. rewrite <- app_assoc in Hl. done.
Qed.

(** C6: A job that logs its writes into the sorted history and then reads it back: every
    place that was written is verified exactly once, in the order of file and
    offset, against the length and version of its last write.  Assumed: writes to one
    place have one length (else [log_io_piece] fails its assertion, the other
    case of [alog]), [malloc] succeeds with an aligned address that no
    live piece has, and the files are open or can be opened. *)
Theorem sorted_history_verifies_last_write trim ws :
  fresh_addrs trim hist0 ws ->
  (forall x y, x ∈ ws -> y ∈ ws -> wr_file x = wr_file y -> wr_offset x = wr_offset y -> wr_len x = wr_len y) ->
  exists h outs, log_all trim hist0 ws = Some h /\ drain (S (length ws)) h = Some outs /\
    StronglySorted read_before outs /\
    forall f o l v tr, (f, o, l, v, tr) ∈ outs <-> last_write ws f o = Some (l, v) /\ tr = false.
Proof.
  intros Ha Hlen. destruct (log_all_refines trim ws [] hist0 ahist0 refines0) as (h & g & E & Hr & Hi & Had & Hl).
  { split_and!; [done|cbn; lia|]. intros p. split; [set_solver|]. by intros [? _]. } { done. } { done. }
  cbn [app] in *. pose proof Hr as [Hw _]. pose proof Hw as []. unfold entries in w_nodup0. rewrite Hi, app_nil_r in w_nodup0.
  exists h, ((fun x => read_of x.2) <$> by_place g). split_and!; [done| | |].
  - rewrite (drain_ok _ h g Hr); [unfold entries; by rewrite Hi, app_nil_r|]. unfold entries in *. rewrite Hi, app_nil_r in *.
    lia.
  - clear -w_sorted0. induction w_sorted0 as [|x l Hs IH Hx]; cbn; constructor; [done|]. rewrite Forall_fmap.
    eapply Forall_impl; [exact Hx|]. done.
  - intros f o l v tr. rewrite list_elem_of_fmap. split.
    + intros ([a p] & E' & Hp). unfold read_of in E'. cbn in E'. simplify_eq.
      assert (Hp' : p ∈ (by_place g).*2) by (apply elem_of_snd; eauto). apply Hl in Hp' as (? & _ & _ & ?). done.
    + intros [E' ->]. assert (Hp : Build_io_piece f o l v true false false ∈ (by_place g).*2) by (by apply Hl).
      apply elem_of_snd in Hp as [a Hp]. by exists (a, Build_io_piece f o l v true false false).
Qed.

Definition some_writes : list write :=
  [Build_write 64 1 4096 512 1; Build_write 128 0 0 512 2; Build_write 192 1 4096 512 3; Build_write 64 0 8192 512 4].
Lemma sorted_history_verifies_last_write_witness : exists h outs,
  log_all true hist0 some_writes = Some h /\ drain 5 h = Some outs /\ (1, 4096, 512, 3, false) ∈ outs.
Proof.
  destruct (sorted_history_verifies_last_write true some_writes) as (h & outs & E & D & _ & H).
  - vm_compute. repeat split.
  - intros x y Hx Hy _ _. unfold some_writes in *. rewrite !elem_of_cons in Hx, Hy.
    repeat (destruct Hx as [-> |Hx]; [repeat (destruct Hy as [-> |Hy]; [reflexivity|]); set_solver|]). set_solver.
  - exists h, outs. split; [exact E|]. split; [exact D|]. apply H. split; reflexivity.
Defined.

(** When the file of the next piece cannot be opened, [get_next_verify] has taken the
    piece out of the history but not off the trim queue: the next [get_next_trim]
    fails its assertion. *)
Theorem failed_open_breaks_trim file offset len version :
  (h ← log_io_piece false true 64 file offset len version hist0;
   '(r, h) ← get_next_verify (fun _ => false) h;
   Some (r, fst <$> get_next_trim (fun _ => true) false h)) = Some (None, None).
Proof. vm_compute. reflexivity. Qed.

End IoHist.
