(* ===== verification/Flow.v ===== *)
(** * Flow control between jobs

    [src/flow.c].  Jobs with the same [flow_id] share a counter; before each I/O a
    job adds its weight [flow] to it, or is held back while the counter is past the
    watermark on the side of its weight.  The counters are shared objects with a
    reference count: [flow_mem] maps their addresses to their contents, [flow_list]
    is the list that [flow_get] searches, and a job holds the address.

    Calls that take the lock are one step.  The addition to the counter is not
    synchronised: a job that read the counter before other jobs changed it stores its
    sum all the same.  The event [Late] is such an addition; a run without it is one
    in which additions do not overlap. *)
From S2P Require Import Prelude.
From stdpp Require Import gmap.
Local Open Scope Z_scope.

Module Flow.

(** ** Data *)
Record fio_flow := { refs : Z; id : Z; flow_counter : Z }.
#[export] Instance eta_fio_flow : Eta fio_flow := fun f => Build_fio_flow (refs f) (id f) (flow_counter f).

Record flows := { flow_list : list Z; flow_mem : gmap Z fio_flow }.
#[export] Instance eta_flows : Eta flows := fun s => Build_flows (flow_list s) (flow_mem s).

(** The options of a job and its pointer to the flow, [None] for [NULL]. *)
Record job := { o_flow : Z; o_flow_id : Z; o_flow_watermark : Z; o_flow_sleep : Z; td_flow : option Z }.
#[export] Instance eta_job : Eta job := fun j =>
  Build_job (o_flow j) (o_flow_id j) (o_flow_watermark j) (o_flow_sleep j) (td_flow j).

(** ** Operations *)

(** The result, the microseconds slept, and the flows. *)
Definition flow_threshold_exceeded (td : job) (s : flows) : option (Z * Z * flows) :=
  match td_flow td with
  | None => Some (0, 0, s)
  | Some a =>
      f ← flow_mem s !! a;
      let sign := if 0 <? o_flow td then 1 else -1 in
      if sign * flow_counter f >? o_flow_watermark td then Some (1, o_flow_sleep td, s)
      else Some (0, 0, s <| flow_mem := <[a := f <| flow_counter := s64 (flow_counter f + o_flow td) |>]> (flow_mem s) |>)
  end.

(** [flow->flow_counter += td->o.flow] when the job read the value [c] of the counter some
    time before it stores the sum. *)
Definition flow_late_add (td : job) (c : Z) (s : flows) : option flows :=
  match td_flow td with
  | None => Some s
  | Some a =>
      f ← flow_mem s !! a;
      Some (s <| flow_mem := <[a := f <| flow_counter := s64 (c + o_flow td) |>]> (flow_mem s) |>)
  end.

(** The loop of [flow_get]. *)
Fixpoint flow_find (fid : Z) (l : list Z) (s : flows) : option (option Z) :=
  match l with
  | [] => Some None
  | a :: l => f ← flow_mem s !! a; if id f =? fid then Some (Some a) else flow_find fid l s
  end.

(** [new] is what [smalloc] returns. *)
Definition flow_get (new fid : Z) (s : flows) : option (Z * flows) :=
  found ← flow_find fid (flow_list s) s;
  let '(a, s) :=
    match found with
    | Some a => (a, s)
    | None => (new, s <| flow_mem := <[new := Build_fio_flow 0 fid 0]> (flow_mem s) |>
                      <| flow_list ::= fun l => l ++ [new] |>)
    end in
  f ← flow_mem s !! a;
  Some (a, s <| flow_mem := <[a := f <| refs := u32 (refs f + 1) |>]> (flow_mem s) |>).

Definition flow_put (a : Z) (s : flows) : option flows :=
  f ← flow_mem s !! a;
  let f := f <| refs := u32 (refs f - 1) |> in
  Some (if refs f =? 0
        then s <| flow_list ::= filter (fun x => x <> a) |> <| flow_mem ::= delete a |>
        else s <| flow_mem := <[a := f]> (flow_mem s) |>).

Definition flow_init_job (new : Z) (td : job) (s : flows) : option (job * flows) :=
  if o_flow td =? 0 then Some (td, s)
  else '(a, s) ← flow_get new (u32 (o_flow_id td)) s; Some (td <| td_flow := Some a |>, s).

Definition flow_exit_job (td : job) (s : flows) : option (job * flows) :=
  match td_flow td with
  | None => Some (td, s)
  | Some a => s ← flow_put a s; Some (td <| td_flow := None |>, s)
  end.

Definition flow_init : flows := Build_flows [] ∅.

(** ** Runs *)
Record system := { jobs : list job; shared : flows }.

(** Job [j] starts, with what [smalloc] would return, asks to do an I/O, adds its weight to a
    value of the counter it read before, or ends. *)
Inductive event := Start (j : nat) (new : Z) | Ask (j : nat) | Late (j : nat) (c : Z) | Exit (j : nat).

Definition step (y : system) (e : event) : option (Z * system) :=
  match e with
  | Start j new =>
      td ← jobs y !! j; '(td, s) ← flow_init_job new td (shared y);
      Some (0, Build_system (<[j := td]> (jobs y)) s)
  | Ask j =>
      td ← jobs y !! j; '(r, _, s) ← flow_threshold_exceeded td (shared y);
      Some (r, Build_system (jobs y) s)
  | Late j c => td ← jobs y !! j; s ← flow_late_add td c (shared y); Some (0, Build_system (jobs y) s)
  | Exit j =>
      td ← jobs y !! j; '(td, s) ← flow_exit_job td (shared y);
      Some (0, Build_system (<[j := td]> (jobs y)) s)
  end.

(** A job is started once, before it asks; [smalloc] returns free memory. *)
Definition enabled (y : system) (e : event) : Prop :=
  match e with
  | Start j new => exists td, jobs y !! j = Some td /\ td_flow td = None /\ flow_mem (shared y) !! new = None
  | Ask j | Late j _ | Exit j => is_Some (jobs y !! j)
  end.
Definition on_time (e : event) : Prop := match e with Late _ _ => False | _ => True end.

(** The states of a system of jobs; [quiet]: additions do not overlap. *)
Inductive reachable (quiet : bool) (js : list job) : system -> Prop :=
  | reach_init : reachable quiet js (Build_system js flow_init)
  | reach_step y e r y' : reachable quiet js y -> enabled y e -> (quiet = true -> on_time e) ->
      step y e = Some (r, y') -> reachable quiet js y'.

(** ** The flows in use *)
Definition users (a : Z) (js : list job) : Z := length (filter (fun td => td_flow td = Some a) js).


Lemma counter_small x : - 2 ^ 63 <= x < 2 ^ 63 -> s64 x = x.
Proof. intros H. unfold swrap. destruct (Z.ltb_spec (x mod 2 ^ 64) (2 ^ (64 - 1))); Z.to_euclidean_division_equations; lia. Qed.

Lemma users_insert a js j td td' : js !! j = Some td ->
  users a (<[j := td']> js) = users a js - (if decide (td_flow td = Some a) then 1 else 0)
                              + (if decide (td_flow td' = Some a) then 1 else 0).
Proof.
  intros E. unfold users. apply list_elem_of_split_length in E as (l1 & l2 & -> & ->).
  rewrite insert_app_r_alt, Nat.sub_diag by done. cbn [insert list_insert]. rewrite !filter_app, !filter_cons, !length_app.
  repeat case_decide; cbn [length]; lia.
Qed.
Lemma users_pos a js td : td ∈ js -> td_flow td = Some a -> 0 < users a js.
Proof.
  intros Hin Ha. unfold users.
  assert (Hf : td ∈ filter (fun td => td_flow td = Some a) js) by (by apply list_elem_of_filter).
  destruct (filter _ js); [by apply not_elem_of_nil in Hf|cbn; lia].
Qed.
Lemma users_le a js : users a js <= length js.
Proof. unfold users. pose proof (length_filter (fun td => td_flow td = Some a) js). lia. Qed.
Lemma users_zero a js : (forall td, td ∈ js -> td_flow td <> Some a) -> users a js = 0.
Proof.
  intros H. unfold users. destruct (filter _ js) as [|td l] eqn:E; [done|].
  assert (Hin : td ∈ filter (fun td => td_flow td = Some a) js) by (rewrite E; by left).
  apply list_elem_of_filter in Hin as [? ?]. by destruct (H td).
Qed.

Lemma flow_find_ok fid s l : (forall a, a ∈ l -> is_Some (flow_mem s !! a)) -> exists r, flow_find fid l s = Some r /\
  match r with
  | Some a => a ∈ l /\ exists f, flow_mem s !! a = Some f /\ id f = fid
  | None => forall a f, a ∈ l -> flow_mem s !! a = Some f -> id f <> fid
  end.
Proof.
  induction l as [|b l IH]; intros Hl; [exists None; split; [done|set_solver]|]. cbn.
  destruct (Hl b ltac:(by left)) as [f Hf]. rewrite Hf. cbn. destruct (Z.eqb_spec (id f) fid) as [E|E].
  - exists (Some b). split; [done|]. split; [by left|eauto].
  - destruct IH as (r & -> & Hr); [set_solver|]. exists r. split; [done|]. destruct r as [a|].
    + destruct Hr as [? ?]. split; [by right|done].
    + intros a g Ha Hg. apply elem_of_cons in Ha as [->|Ha]; [congruence|eauto].
Qed.

Lemma elem_insert (js : list job) j td x : x ∈ <[j := td]> js -> x = td \/ x ∈ js.
Proof.
  intros H. apply list_elem_of_lookup in H as [i Hi]. destruct (decide (i = j)) as [->|].
  - destruct (decide (j < length js)%nat).
    + rewrite list_lookup_insert_eq in Hi by done. left. congruence.
    + rewrite list_insert_ge in Hi by lia. right. by eapply list_elem_of_lookup_2.
  - rewrite list_lookup_insert_ne in Hi by done. right. by eapply list_elem_of_lookup_2.
Qed.

(** A flow that is updated keeps its id. *)
Lemma ids_insert (m : gmap Z fio_flow) a f f' b g : m !! a = Some f -> id f' = id f -> <[a := f']> m !! b = Some g ->
  exists g', m !! b = Some g' /\ id g' = id g.
Proof.
  intros Ha Hid. destruct (decide (a = b)) as [->|].
  - rewrite lookup_insert_eq. intros E. injection E as <-. eauto.
  - rewrite lookup_insert_ne by done. eauto.
Qed.

(** Watermarks and weights are values of an [int], at most [W] and [F]; there are fewer jobs
    than an [unsigned int] counts. *)
Lemma s64_range x : - 2 ^ 63 <= s64 x < 2 ^ 63.
Proof. unfold swrap. destruct (Z.ltb_spec (x mod 2 ^ 64) (2 ^ (64 - 1))); Z.to_euclidean_division_equations; lia. Qed.

Section bounds.
Context (W F : Z) (quiet : bool) (HW : - 2 ^ 31 <= W < 2 ^ 31) (HF : 0 <= F < 2 ^ 31).

Definition job_ok (td : job) : Prop :=
  o_flow_watermark td <= W /\ - F <= o_flow td <= F /\ (o_flow td = 0 -> td_flow td = None).
(** The counter never leaves this range. *)
Definition in_range (c : Z) : Prop :=
  - 2 ^ 63 <= c < 2 ^ 63 /\ (quiet = true -> - (Z.max W 0 + F) <= c <= Z.max W 0 + F).

Record sys_ok (y : system) : Prop := {
  k_jobs : Forall job_ok (jobs y);
  k_few : length (jobs y) < 2 ^ 32;
  k_nodup : NoDup (flow_list (shared y));
  k_dom : forall a, a ∈ flow_list (shared y) <-> is_Some (flow_mem (shared y) !! a);
  k_refs : forall a f, flow_mem (shared y) !! a = Some f -> refs f = users a (jobs y) /\ 0 < refs f;
  k_ids : forall a b f g, flow_mem (shared y) !! a = Some f -> flow_mem (shared y) !! b = Some g -> id f = id g -> a = b;
  k_held : forall td a, td ∈ jobs y -> td_flow td = Some a ->
             exists f, flow_mem (shared y) !! a = Some f /\ id f = u32 (o_flow_id td);
  k_count : forall a f, flow_mem (shared y) !! a = Some f -> in_range (flow_counter f) }.
(** *** Asking *)
Lemma ask_range td c : job_ok td -> o_flow td <> 0 -> in_range c ->
  ((if 0 <? o_flow td then 1 else -1) * c >? o_flow_watermark td) = false -> in_range (s64 (c + o_flow td)).
Proof.
  intros (HW' & Hf & _) Hn [_ Hc] Hg. split; [apply s64_range|]. intros Hq. specialize (Hc Hq).
  rewrite Z.gtb_ltb in Hg. apply Z.ltb_ge in Hg.
  destruct (Z.ltb_spec 0 (o_flow td)); rewrite counter_small by lia; lia.
Qed.

(** A new value of a counter. *)
Lemma sys_ok_count js s a f c : sys_ok (Build_system js s) -> flow_mem s !! a = Some f -> in_range c ->
  sys_ok (Build_system js (s <| flow_mem := <[a := f <| flow_counter := c |>]> (flow_mem s) |>)).
Proof.
  intros Hk Hf Hr. pose proof Hk as []. cbn [jobs shared] in *. unfold upd. split; cbn [jobs shared flow_list flow_mem]; try done.
  - intros b. rewrite k_dom0. destruct (decide (a = b)) as [->|]; [rewrite lookup_insert_eq, Hf; split; eauto|].
    by rewrite lookup_insert_ne.
  - intros b g. destruct (decide (a = b)) as [->|]; [rewrite lookup_insert_eq; intros E; injection E as <-; exact (k_refs0 b f Hf)|].
    rewrite lookup_insert_ne by done. apply k_refs0.
  - intros b d g k Hg Hkk E. apply (ids_insert _ _ f) in Hg as (g' & ? & ?); [|done..].
    apply (ids_insert _ _ f) in Hkk as (k' & ? & ?); [|done..]. eapply k_ids0; [done..|congruence].
  - intros td' b Hin' Hb. destruct (k_held0 td' b Hin' Hb) as (g & Hg & Hgid). destruct (decide (a = b)) as [->|].
    + rewrite lookup_insert_eq. eexists. split; [reflexivity|]. cbn. congruence.
    + rewrite lookup_insert_ne by done. eauto.
  - intros b g. destruct (decide (a = b)) as [->|]; [rewrite lookup_insert_eq; intros E; by injection E as <-|].
    rewrite lookup_insert_ne by done. apply k_count0.
Qed.

Lemma sys_ok_ask y j td : sys_ok y -> jobs y !! j = Some td -> exists r sl s,
  flow_threshold_exceeded td (shared y) = Some (r, sl, s) /\ sys_ok (Build_system (jobs y) s).
Proof.
  destruct y as [js s]. intros Hk Hj. pose proof Hk as []. cbn [jobs shared] in *. unfold flow_threshold_exceeded. assert (Hin : td ∈ js) by (by eapply list_elem_of_lookup_2).
  destruct (td_flow td) as [a|] eqn:Ea; [|do 3 eexists; split; [reflexivity|done]].
  destruct (k_held0 td a Hin Ea) as (f & Hf & Hid). rewrite Hf. cbn [mbind option_bind].
  rewrite Forall_forall in k_jobs0. pose proof (k_jobs0 td Hin) as Hok.
  assert (Hn : o_flow td <> 0) by (intros E; destruct Hok as (_ & _ & Hz); specialize (Hz E); congruence).
  destruct (_ >? _) eqn:Eg; [do 3 eexists; split; [reflexivity|done]|].
  do 3 eexists. split; [reflexivity|]. apply sys_ok_count; [done|done|]. by apply ask_range; [..|by apply (k_count0 a)|].
Qed.
Lemma sys_ok_late y j td c : quiet = false -> sys_ok y -> jobs y !! j = Some td -> exists s,
  flow_late_add td c (shared y) = Some s /\ sys_ok (Build_system (jobs y) s).
Proof.
  intros Hq. destruct y as [js s]. intros Hk Hj. pose proof Hk as []. cbn [jobs shared] in *. unfold flow_late_add.
  assert (Hin : td ∈ js) by (by eapply list_elem_of_lookup_2).
  destruct (td_flow td) as [a|] eqn:Ea; [|eexists; split; [reflexivity|done]].
  destruct (k_held0 td a Hin Ea) as (f & Hf & Hid). rewrite Hf. cbn [mbind option_bind]. eexists. split; [reflexivity|].
  apply sys_ok_count; [done..|]. split; [apply s64_range|]. by rewrite Hq.
Qed.

(** *** Starting and ending *)

(** Job [j] takes a reference to the flow [a], which is in the list. *)
Lemma sys_ok_take js s j td a f : sys_ok (Build_system js s) -> js !! j = Some td -> td_flow td = None -> o_flow td <> 0 ->
  flow_mem s !! a = Some f -> id f = u32 (o_flow_id td) ->
  sys_ok (Build_system (<[j := td <| td_flow := Some a |>]> js)
            (Build_flows (flow_list s) (<[a := f <| refs := u32 (refs f + 1) |>]> (flow_mem s)))).
Proof.
  intros Hk Hj Hn Ho Hf Hid. pose proof Hk as []. cbn [jobs shared] in *.
  assert (Hin : td ∈ js) by (by eapply list_elem_of_lookup_2).
  set (td' := td <| td_flow := Some a |>).
  assert (Hu : forall b, users b (<[j := td']> js) = users b js + (if decide (a = b) then 1 else 0)).
  { intros b. rewrite (users_insert b js j td td') by done. rewrite Hn. cbn [td' td_flow]. unfold td', upd. cbn [td_flow].
    repeat case_decide; simplify_eq; lia. }
  assert (Href : u32 (refs f + 1) = refs f + 1).
  { destruct (k_refs0 a f Hf) as [E ?]. pose proof (users_le a (<[j := td']> js)) as Hle. rewrite length_insert, Hu in Hle.
    rewrite decide_True in Hle by done. apply wrap_small. unfold is_word. lia. }
  split; unfold upd; cbn [jobs shared flow_list flow_mem]; try done.
  - apply Forall_insert; [done|]. rewrite Forall_forall in k_jobs0. destruct (k_jobs0 td Hin) as (? & ? & ?).
    unfold job_ok, td', upd. cbn. split_and!; [done|lia|lia|done].
  - by rewrite length_insert.
  - intros b. rewrite k_dom0. destruct (decide (a = b)) as [->|]; [rewrite lookup_insert_eq, Hf; split; eauto|].
    by rewrite lookup_insert_ne.
  - intros b g. rewrite Hu. destruct (decide (a = b)) as [->|].
    + rewrite lookup_insert_eq. intros E. injection E as <-. cbn. rewrite Href. destruct (k_refs0 b f Hf). lia.
    + rewrite lookup_insert_ne, Z.add_0_r by done. apply k_refs0.
  - intros b c g k Hg Hkk E. apply (ids_insert _ _ f) in Hg as (g' & ? & ?); [|done..].
    apply (ids_insert _ _ f) in Hkk as (k' & ? & ?); [|done..]. eapply k_ids0; [done..|congruence].
  - intros x b Hx Hb. apply elem_insert in Hx as [->|Hx].
    + unfold td', upd in Hb. cbn in Hb. injection Hb as <-. rewrite lookup_insert_eq. eexists. split; [reflexivity|]. done.
    + destruct (k_held0 x b Hx Hb) as (g & Hg & Hgi). destruct (decide (a = b)) as [->|].
      * rewrite lookup_insert_eq. eexists. split; [reflexivity|]. cbn. congruence.
      * rewrite lookup_insert_ne by done. eauto.
  - intros b g. destruct (decide (a = b)) as [->|]; [rewrite lookup_insert_eq; intros E; injection E as <-; by apply (k_count0 b f)|].
    rewrite lookup_insert_ne by done. apply k_count0.
Qed.

(** Job [j] is the first user of its flow. *)
Lemma sys_ok_new js s j td new : sys_ok (Build_system js s) -> js !! j = Some td -> td_flow td = None -> o_flow td <> 0 ->
  flow_mem s !! new = None -> (forall a f, flow_mem s !! a = Some f -> id f <> u32 (o_flow_id td)) ->
  sys_ok (Build_system (<[j := td <| td_flow := Some new |>]> js)
            (Build_flows (flow_list s ++ [new]) (<[new := Build_fio_flow 1 (u32 (o_flow_id td)) 0]> (flow_mem s)))).
Proof.
  intros Hk Hj Hn Ho Hf Hid. pose proof Hk as []. cbn [jobs shared] in *.
  assert (Hin : td ∈ js) by (by eapply list_elem_of_lookup_2).
  set (td' := td <| td_flow := Some new |>).
  assert (Hnew : users new js = 0).
  { apply users_zero. intros x Hx Hx'. destruct (k_held0 x new Hx Hx') as (g & ? & _). congruence. }
  assert (Hu : forall b, users b (<[j := td']> js) = users b js + (if decide (new = b) then 1 else 0)).
  { intros b. rewrite (users_insert b js j td td') by done. rewrite Hn. unfold td', upd. cbn [td_flow].
    repeat case_decide; simplify_eq; lia. }
  assert (Hni : new ∉ flow_list s) by (rewrite k_dom0, Hf; by intros [? ?]).
  split; cbn [jobs shared flow_list flow_mem]; try done.
  - apply Forall_insert; [done|]. rewrite Forall_forall in k_jobs0. destruct (k_jobs0 td Hin) as (? & ? & ?).
    unfold job_ok, td', upd. cbn. split_and!; [done|lia|lia|done].
  - by rewrite length_insert.
  - apply NoDup_app. split_and!; [done|set_solver|apply NoDup_singleton].
  - intros b. rewrite elem_of_app, k_dom0, list_elem_of_singleton. destruct (decide (new = b)) as [->|].
    + rewrite lookup_insert_eq. split; eauto.
    + rewrite lookup_insert_ne by done. split; [intros [?|?]; [done|congruence]|auto].
  - intros b g. rewrite Hu. destruct (decide (new = b)) as [->|].
    + rewrite lookup_insert_eq. intros E. injection E as <-. cbn. lia.
    + rewrite lookup_insert_ne, Z.add_0_r by done. apply k_refs0.
  - intros b c g k Hg Hkk E. destruct (decide (new = b)) as [Eb|Eb], (decide (new = c)) as [Ec|Ec]; [congruence|subst b|subst c|].
    + rewrite lookup_insert_eq in Hg. rewrite lookup_insert_ne in Hkk by done. injection Hg as <-. by destruct (Hid c k).
    + rewrite lookup_insert_eq in Hkk. rewrite lookup_insert_ne in Hg by done. injection Hkk as <-. by destruct (Hid b g).
    + rewrite lookup_insert_ne in Hg, Hkk by done. by eapply k_ids0.
  - intros x b Hx Hb. apply elem_insert in Hx as [->|Hx].
    + unfold td', upd in Hb. cbn in Hb. injection Hb as <-. rewrite lookup_insert_eq. eexists. split; [reflexivity|]. done.
    + destruct (k_held0 x b Hx Hb) as (g & Hg & Hgi). rewrite lookup_insert_ne by congruence. eauto.
  - intros b g. destruct (decide (new = b)) as [->|]; [rewrite lookup_insert_eq; intros E; injection E as <-; unfold in_range; cbn; split; lia|].
    rewrite lookup_insert_ne by done. apply k_count0.
Qed.

Lemma sys_ok_start js s j td new : sys_ok (Build_system js s) -> js !! j = Some td -> td_flow td = None ->
  flow_mem s !! new = None -> exists td' s', flow_init_job new td s = Some (td', s') /\
    sys_ok (Build_system (<[j := td']> js) s').
Proof.
  intros Hk Hj Hn Hf. unfold flow_init_job. destruct (Z.eqb_spec (o_flow td) 0) as [E|E].
  { exists td, s. split; [done|]. by rewrite list_insert_id. }
  pose proof Hk as []. cbn [jobs shared] in *. unfold flow_get.
  destruct (flow_find_ok (u32 (o_flow_id td)) s (flow_list s)) as (r & Er & Hr); [intros a; apply k_dom0|]. rewrite Er.
  cbn [mbind option_bind]. destruct r as [a|].
  - destruct Hr as (_ & f & Ha & Hid). rewrite Ha. cbn [mbind option_bind]. do 2 eexists. split; [reflexivity|].
    by eapply sys_ok_take.
  - unfold upd. cbn [flow_mem flow_list]. rewrite lookup_insert_eq. cbn [mbind option_bind].
    do 2 eexists. split; [reflexivity|]. cbn [flow_mem flow_list refs id flow_counter]. rewrite insert_insert_eq.
    apply sys_ok_new; [done..|]. intros a f Ha. apply (Hr a f); [apply k_dom0; eauto|done].
Qed.

(** Job [j] gives its reference back. *)
Lemma sys_ok_exit js s j td : sys_ok (Build_system js s) -> js !! j = Some td ->
  exists td' s', flow_exit_job td s = Some (td', s') /\ sys_ok (Build_system (<[j := td']> js) s').
Proof.
  intros Hk Hj. unfold flow_exit_job. destruct (td_flow td) as [a|] eqn:Ea.
  2: { exists td, s. split; [done|]. by rewrite list_insert_id. }
  pose proof Hk as []. cbn [jobs shared] in *. assert (Hin : td ∈ js) by (by eapply list_elem_of_lookup_2).
  destruct (k_held0 td a Hin Ea) as (f & Hf & Hid). destruct (k_refs0 a f Hf) as [Hrf Hpos].
  set (td' := td <| td_flow := None |>).
  assert (Hu : forall b, users b (<[j := td']> js) = users b js - (if decide (a = b) then 1 else 0)).
  { intros b. rewrite (users_insert b js j td td') by done. rewrite Ea. unfold td', upd. cbn [td_flow].
    repeat case_decide; simplify_eq; lia. }
  assert (Hjobs : Forall job_ok (<[j := td']> js)).
  { apply Forall_insert; [done|]. rewrite Forall_forall in k_jobs0. destruct (k_jobs0 td Hin) as (? & ? & ?).
    unfold job_ok, td', upd. cbn. done. }
  assert (Href : u32 (refs f - 1) = refs f - 1).
  { pose proof (users_le a js). apply wrap_small. unfold is_word. lia. }
  unfold flow_put. rewrite Hf. cbn [mbind option_bind]. exists td'.
  assert (Hheld : forall x b, x ∈ <[j := td']> js -> td_flow x = Some b -> x ∈ js).
  { intros x b Hx Hb. apply elem_insert in Hx as [->|Hx]; done. }
  unfold upd. cbn [refs]. rewrite Href. destruct (Z.eqb_spec (refs f - 1) 0) as [E|E]; eexists; (split; [reflexivity|]).
  - assert (Hz : users a (<[j := td']> js) = 0) by (rewrite Hu, decide_True by done; lia).
    split; cbn [jobs shared flow_list flow_mem]; [done|by rewrite length_insert|by apply NoDup_filter|..].
    + intros b. rewrite list_elem_of_filter, k_dom0. destruct (decide (a = b)) as [->|].
      * rewrite lookup_delete_eq. split; [tauto|by intros [? ?]].
      * rewrite lookup_delete_ne by done. split; [tauto|auto].
    + intros b g Hg. apply lookup_delete_Some in Hg as [Hne Hg]. rewrite Hu, decide_False, Z.sub_0_r by done. by apply k_refs0.
    + intros b c g k Hg Hkk. apply lookup_delete_Some in Hg as [_ Hg], Hkk as [_ Hkk]. by eapply k_ids0.
    + intros x b Hx Hb. destruct (k_held0 x b (Hheld x b Hx Hb) Hb) as (g & ? & ?). exists g. split; [|done].
      apply lookup_delete_Some. split; [|done]. intros ->. pose proof (users_pos b _ x Hx Hb). lia.
    + intros b g Hg. apply lookup_delete_Some in Hg as [_ Hg]. by eapply k_count0.
  - split; cbn [jobs shared flow_list flow_mem]; [done|by rewrite length_insert|done|..].
    + intros b. rewrite k_dom0. destruct (decide (a = b)) as [->|]; [rewrite lookup_insert_eq, Hf; split; eauto|].
      by rewrite lookup_insert_ne.
    + intros b g. rewrite Hu. destruct (decide (a = b)) as [->|].
      * rewrite lookup_insert_eq. intros Eg. injection Eg as <-. cbn. lia.
      * rewrite lookup_insert_ne, Z.sub_0_r by done. apply k_refs0.
    + intros b c g k Hg Hkk Ei. apply (ids_insert _ _ f) in Hg as (g' & ? & ?); [|done..].
      apply (ids_insert _ _ f) in Hkk as (k' & ? & ?); [|done..]. eapply k_ids0; [done..|congruence].
    + intros x b Hx Hb. destruct (k_held0 x b (Hheld x b Hx Hb) Hb) as (g & Hg & Hgi). destruct (decide (a = b)) as [->|].
      * rewrite lookup_insert_eq. eexists. split; [reflexivity|]. cbn. congruence.
      * rewrite lookup_insert_ne by done. eauto.
    + intros b g. destruct (decide (a = b)) as [->|]; [rewrite lookup_insert_eq; intros Eg; injection Eg as <-; by apply (k_count0 b f)|].
      rewrite lookup_insert_ne by done. apply k_count0.
Qed.

Lemma step_ok y e : sys_ok y -> enabled y e -> (quiet = true -> on_time e) ->
  exists r y', step y e = Some (r, y') /\ sys_ok y'.
Proof.
  destruct y as [js s]. intros Hk He Hq. destruct e as [j new|j|j c|j]; cbn in He |- *.
  - destruct He as (td & Hj & Hn & Hf). destruct (sys_ok_start js s j td new Hk Hj Hn Hf) as (td' & s' & E & ?).
    rewrite Hj. cbn. rewrite E. cbn. eauto.
  - destruct He as [td Hj]. destruct (sys_ok_ask _ j td Hk Hj) as (r & sl & s' & E & ?). cbn in E. rewrite Hj. cbn. rewrite E. cbn. eauto.
  - destruct He as [td Hj]. assert (quiet = false) as Hf by (destruct quiet; [by destruct (Hq eq_refl)|done]).
    destruct (sys_ok_late _ j td c Hf Hk Hj) as (s' & E & ?). cbn in E. rewrite Hj. cbn. rewrite E. cbn. eauto.
  - destruct He as [td Hj]. destruct (sys_ok_exit js s j td Hk Hj) as (td' & s' & E & ?). rewrite Hj. cbn. rewrite E. cbn. eauto.
Qed.

Context (js : list job) (Hjobs : Forall job_ok js) (Hfresh : Forall (fun td => td_flow td = None) js)
  (Hfew : length js < 2 ^ 32).

Lemma reachable_ok y : reachable quiet js y -> sys_ok y.
Proof.
  induction 1 as [|y e r y' _ IH He Hq E].
  - split; cbn; try done; [constructor|intros a; rewrite lookup_empty; split; [by intros ?%not_elem_of_nil|by intros [? ?]]|].
    intros td a Hin Ha. rewrite Forall_forall in Hfresh. specialize (Hfresh td Hin). congruence.
  - destruct (step_ok y e IH He Hq) as (r' & y'' & E' & ?). rewrite E in E'. by injection E' as <- <-.
Qed.
End bounds.

(** C22: In every reachable state, racing additions included: each flow that is used is on
    the list once and has the id of no other, with as many references as there are jobs
    that use it; a job's pointer designates the live flow of its [flow_id]; no call fails.
    When additions to the counter do not overlap, it stays within the largest watermark
    plus the largest weight. *)
Theorem flow_state_invariant W F quiet js y : - 2 ^ 31 <= W < 2 ^ 31 -> 0 <= F < 2 ^ 31 ->
  Forall (job_ok W F) js -> Forall (fun td => td_flow td = None) js -> length js < 2 ^ 32 -> reachable quiet js y ->
  NoDup (flow_list (shared y)) /\ (forall a, a ∈ flow_list (shared y) <-> is_Some (flow_mem (shared y) !! a)) /\
  (forall a b f g, flow_mem (shared y) !! a = Some f -> flow_mem (shared y) !! b = Some g -> id f = id g -> a = b) /\
  (forall a f, flow_mem (shared y) !! a = Some f ->
     refs f = users a (jobs y) /\ 0 < refs f /\ (quiet = true -> Z.abs (flow_counter f) <= Z.max W 0 + F)) /\
  (forall td a, td ∈ jobs y -> td_flow td = Some a ->
     exists f, flow_mem (shared y) !! a = Some f /\ id f = u32 (o_flow_id td)) /\
  (forall e, enabled y e -> (quiet = true -> on_time e) -> is_Some (step y e)).
Proof.
  intros HW HF Hj Hn Hl Hr. pose proof (reachable_ok W F quiet HW HF js Hj Hn Hl y Hr) as Hk. pose proof Hk as [].
  split_and!; [done..| |done|].
  - intros a f Hf. destruct (k_refs0 a f Hf). destruct (k_count0 a f Hf) as [_ Hc]. split_and!; [done..|]. intros Hq. specialize (Hc Hq). lia.
  - intros e He Hq. destruct (step_ok W F quiet HW HF y e Hk He Hq) as (r & y' & -> & _). eauto.
Qed.

Definition two_jobs : list job := [Build_job 8 1 1024 0 None; Build_job (-1) 1 1024 0 None].
Lemma flow_state_invariant_witness : exists y, reachable true two_jobs y /\
  forall a f, flow_mem (shared y) !! a = Some f -> Z.abs (flow_counter f) <= 1032.
Proof.
  assert (R : exists y, reachable true two_jobs y /\ flow_list (shared y) = [64]).
  { eexists. split; [eapply (reach_step _ _ _ (Ask 0)); [eapply (reach_step _ _ _ (Start 0 64)); [constructor| | |]|..]|].
    - eexists. split; [reflexivity|]. split; reflexivity.
    - done.
    - vm_compute. reflexivity.
    - eexists. reflexivity.
    - done.
    - vm_compute. reflexivity.
    - reflexivity. }
  destruct R as (y & R & _). exists y. split; [exact R|]. intros a f Hf.
  destruct (flow_state_invariant 1024 8 true two_jobs y) as (_ & _ & _ & H & _); try exact R; try lia.
  - repeat constructor; cbn; lia.
  - repeat constructor.
  - reflexivity.
  - destruct (H a f Hf) as (_ & _ & Hc). exact (Hc eq_refl).
Defined.

(** ** Progress *)
Fixpoint asks (y : system) (ks : list nat) : option (list Z * system) :=
  match ks with
  | [] => Some ([], y)
  | k :: ks => '(r, y) ← step y (Ask k); '(rs, y) ← asks y ks; Some (r :: rs, y)
  end.

Definition sign (td : job) : Z := if 0 <? o_flow td then 1 else -1.

(** The job [td] is [j] and uses the flow [f] at [a]. *)
Definition uses (y : system) (j : nat) (td : job) (a : Z) (f : fio_flow) : Prop :=
  jobs y !! j = Some td /\ td_flow td = Some a /\ flow_mem (shared y) !! a = Some f.

Lemma ask_held y j td a f : uses y j td a f -> o_flow_watermark td < sign td * flow_counter f -> step y (Ask j) = Some (1, y).
Proof.
  intros (Hj & Ha & Hf) Hh. destruct y as [js s]. cbn in *. rewrite Hj. cbn. unfold flow_threshold_exceeded. rewrite Ha, Hf. cbn.
  fold (sign td). rewrite Z.gtb_ltb. by rewrite (proj2 (Z.ltb_lt _ _) Hh).
Qed.
Lemma ask_passes y j td a f : uses y j td a f -> sign td * flow_counter f <= o_flow_watermark td ->
  exists y', step y (Ask j) = Some (0, y') /\ jobs y' = jobs y /\
    flow_mem (shared y') = <[a := f <| flow_counter := s64 (flow_counter f + o_flow td) |>]> (flow_mem (shared y)).
Proof.
  intros (Hj & Ha & Hf) Hh. destruct y as [js s]. cbn in *. rewrite Hj. cbn. unfold flow_threshold_exceeded. rewrite Ha, Hf. cbn.
  fold (sign td). rewrite Z.gtb_ltb. rewrite (proj2 (Z.ltb_ge _ _) Hh). eexists. split; [reflexivity|]. done.
Qed.

(** The job goes on once its side of the counter is down by [n]. *)
Lemma released W F quiet (HW : - 2 ^ 31 <= W < 2 ^ 31) (HF : 0 <= F < 2 ^ 31) n : forall y j k tj tk a f,
  sys_ok W F quiet y -> uses y j tj a f -> uses y k tk a f -> 0 <= o_flow_watermark tj -> 0 <= o_flow_watermark tk ->
  sign tj * o_flow tk < 0 -> sign tj * flow_counter f - o_flow_watermark tj <= Z.of_nat n ->
  exists m y' y'', asks y (replicate m k) = Some (replicate m 0, y') /\ step y' (Ask j) = Some (0, y'').
Proof.
  induction n as [|n IH]; intros y j k tj tk a f Hk Hj Hkk Wj Wk Fk Hn.
  { destruct (ask_passes y j tj a f Hj) as (y' & E & _); [lia|]. by exists 0%nat, y, y'. }
  destruct (Z.le_gt_cases (sign tj * flow_counter f) (o_flow_watermark tj)) as [Hc|Hc].
  { destruct (ask_passes y j tj a f Hj) as (y' & E & _); [lia|]. by exists 0%nat, y, y'. }
  assert (Sk : sign tk = - sign tj /\ (sign tj = 1 \/ sign tj = -1)).
  { unfold sign in *. destruct (Z.ltb_spec 0 (o_flow tj)), (Z.ltb_spec 0 (o_flow tk)); lia. }
  destruct Sk as [Sk Sj].
  destruct (ask_passes y k tk a f Hkk) as (y' & E & Ej & Em); [rewrite Sk; lia|].
  assert (Hs : s64 (flow_counter f + o_flow tk) = flow_counter f + o_flow tk).
  { pose proof Hk as []. destruct Hkk as (Hkj & _ & Hf). destruct (k_count0 a f Hf) as [Hr _].
    rewrite Forall_forall in k_jobs0. destruct (k_jobs0 tk) as (_ & ? & _); [by eapply list_elem_of_lookup_2|].
    apply counter_small. destruct Sj as [E1|E1]; rewrite E1 in *; lia. }
  set (f' := f <| flow_counter := s64 (flow_counter f + o_flow tk) |>) in Em.
  assert (Hk' : sys_ok W F quiet y').
  { destruct (step_ok W F quiet HW HF y (Ask k) Hk) as (r & y2 & E2 & ?); [exists tk; apply Hkk|done|].
    rewrite E in E2. by injection E2 as <- <-. }
  destruct (IH y' j k tj tk a f' Hk') as (m & y2 & y3 & E2 & E3); [..|done|done|done| |].
  - destruct Hj as (? & ? & _). split_and!; [by rewrite Ej|done|by rewrite Em, lookup_insert_eq].
  - destruct Hkk as (? & ? & _). split_and!; [by rewrite Ej|done|by rewrite Em, lookup_insert_eq].
  - unfold f', upd. cbn. rewrite Hs. lia.
  - exists (S m), y2, y3. split; [|done]. cbn [replicate asks]. rewrite E. cbn [mbind option_bind]. by rewrite E2.
Qed.

(** C23: In every reachable state, racing additions included, a job that is held back goes on
    after finitely many I/Os of a job whose weight has the other sign, none of which is held
    back; the watermarks of the two are not negative, and the other jobs of the flow do not
    ask meanwhile. *)
Theorem held_job_is_released W F quiet js y j k tj tk a f :
  - 2 ^ 31 <= W < 2 ^ 31 -> 0 <= F < 2 ^ 31 ->
  Forall (job_ok W F) js -> Forall (fun td => td_flow td = None) js -> length js < 2 ^ 32 -> reachable quiet js y ->
  uses y j tj a f -> uses y k tk a f -> 0 <= o_flow_watermark tj -> 0 <= o_flow_watermark tk ->
  (0 < o_flow tj /\ o_flow tk < 0) \/ (o_flow tj < 0 /\ 0 < o_flow tk) ->
  exists n y' y'', asks y (replicate n k) = Some (replicate n 0, y') /\ step y' (Ask j) = Some (0, y'').
Proof.
  intros HW HF Hjobs Hn Hl Hr Hj Hk Wj Wk Hf.
  apply (released W F quiet HW HF (Z.to_nat (sign tj * flow_counter f - o_flow_watermark tj)) y j k tj tk a f); [|done..| |lia].
  - by apply (reachable_ok W F quiet HW HF js).
  - unfold sign. destruct (Z.ltb_spec 0 (o_flow tj)); lia.
Qed.

(** Two jobs of weights 8 and -1 are started and the first does an I/O. *)
Definition two_jobs' : list job := [Build_job 8 1 1 0 None; Build_job (-1) 1 1 0 None].
Definition held_system : system :=
  Build_system [Build_job 8 1 1 0 (Some 64); Build_job (-1) 1 1 0 (Some 64)]
    (Build_flows [64] (<[64 := Build_fio_flow 2 1 8]> ∅)).
Lemma held_system_reachable : reachable true two_jobs' held_system.
Proof.
  eapply (reach_step _ _ _ (Ask 0)); [eapply (reach_step _ _ _ (Start 1 128)); [eapply (reach_step _ _ _ (Start 0 64)); [constructor| | |]|..]|..].
  - eexists. split; [reflexivity|]. split; reflexivity.
  - done.
  - vm_compute. reflexivity.
  - eexists. split; [reflexivity|]. split; reflexivity.
  - done.
  - vm_compute. reflexivity.
  - eexists. reflexivity.
  - done.
  - vm_compute. reflexivity.
Qed.
Lemma held_job_is_released_witness : step held_system (Ask 0) = Some (1, held_system) /\ exists n y' y'',
  asks held_system (replicate n 1%nat) = Some (replicate n 0, y') /\ step y' (Ask 0) = Some (0, y'').
Proof.
  split; [vm_compute; reflexivity|].
  apply (held_job_is_released 1 8 true two_jobs' held_system 0 1 (Build_job 8 1 1 0 (Some 64)) (Build_job (-1) 1 1 0 (Some 64)) 64
           (Build_fio_flow 2 1 8)); try lia; try (split; [|split]; reflexivity).
  - repeat constructor; cbn; lia.
  - repeat constructor.
  - reflexivity.
  - exact held_system_reachable.
  - cbn. lia.
  - cbn. lia.
  - left. cbn. lia.
Defined.

Lemma held_for_ever y j td a f m : uses y j td a f -> o_flow_watermark td < sign td * flow_counter f ->
  asks y (replicate m j) = Some (replicate m 1, y).
Proof.
  intros Hu Hh. induction m as [|m IH]; [done|]. cbn [replicate asks]. rewrite (ask_held y j td a f) by done.
  cbn [mbind option_bind]. by rewrite IH.
Qed.

Lemma stalls W F quiet (HW : - 2 ^ 31 <= W < 2 ^ 31) (HF : 0 <= F < 2 ^ 31) n : forall y j td a f,
  sys_ok W F quiet y -> uses y j td a f -> 0 < o_flow td -> o_flow_watermark td - flow_counter f < Z.of_nat n ->
  exists k y', asks y (replicate k j) = Some (replicate k 0, y') /\
    forall m, asks y' (replicate m j) = Some (replicate m 1, y').
Proof.
  induction n as [|n IH]; intros y j td a f Hk Hu Hf Hn.
  all: assert (Hok : job_ok W F td) by (destruct Hk, Hu as [? _]; rewrite Forall_forall in k_jobs0; apply k_jobs0;
      by eapply list_elem_of_lookup_2).
  all: assert (S1 : sign td = 1) by (unfold sign; by destruct (Z.ltb_spec 0 (o_flow td)); [|lia]).
  all: destruct (Z.lt_ge_cases (o_flow_watermark td) (flow_counter f)) as [Hc|Hc];
    [exists 0%nat, y; split; [done|]; intros m; eapply held_for_ever; [done|]; lia|].
  - lia.
  - destruct (ask_passes y j td a f Hu) as (y' & E & Ej & Em); [lia|].
    assert (Hs : s64 (flow_counter f + o_flow td) = flow_counter f + o_flow td).
    { destruct Hk. destruct Hu as (_ & _ & Hm). destruct (k_count0 a f Hm) as [Hr _].
      destruct Hok as (? & ? & _). apply counter_small. lia. }
    destruct (step_ok W F quiet HW HF y (Ask j) Hk) as (r & y2 & E2 & Hk2); [exists td; apply Hu|done|].
    rewrite E in E2. injection E2 as <- <-.
    destruct (IH y' j td a (f <| flow_counter := s64 (flow_counter f + o_flow td) |>) Hk2) as (k & y3 & E3 & Hm); [|done| |].
    + destruct Hu as (? & ? & _). split_and!; [by rewrite Ej|done|by rewrite Em, lookup_insert_eq].
    + unfold upd. cbn. rewrite Hs. lia.
    + exists (S k), y3. split; [|done]. cbn [replicate asks]. rewrite E. cbn [mbind option_bind]. by rewrite E3.
Qed.

(** A job whose partners have ended is held back for ever after a bounded number of
    I/Os: [flow_exit_job] leaves the counter where it is. *)
Theorem lone_job_is_held_for_ever W F quiet js y j td a f :
  - 2 ^ 31 <= W < 2 ^ 31 -> 0 <= F < 2 ^ 31 ->
  Forall (job_ok W F) js -> Forall (fun td => td_flow td = None) js -> length js < 2 ^ 32 -> reachable quiet js y ->
  uses y j td a f -> 0 < o_flow td ->
  exists k y', asks y (replicate k j) = Some (replicate k 0, y') /\
    forall m, asks y' (replicate m j) = Some (replicate m 1, y').
Proof.
  intros HW HF Hjobs Hn Hl Hr Hu Hf.
  apply (stalls W F quiet HW HF (S (Z.to_nat (o_flow_watermark td - flow_counter f))) y j td a f); [|done..|lia].
  by apply (reachable_ok W F quiet HW HF js).
Qed.

End Flow.
