(* ===== verification/CString.v ===== *)
(** * Strings of C

    The part of [<string.h>], [<ctype.h>] and [<stdlib.h>] the option parser uses.  A
    string is the list of its characters before the terminating NUL; the character
    at the index of its length is the NUL.  The classes of characters are those of
    the C locale. *)
From S2P Require Import Prelude.
From stdpp Require Import strings.
From Stdlib Require Ascii String.
Local Open Scope Z_scope.

Module CString.

Definition cstr : Type := list Z.
(** [$"abc"] is the string literal. *)
Definition lit (s : string) : cstr := List.map (fun c => Z.of_N (Ascii.N_of_ascii c)) (String.list_ascii_of_string s).
Declare Scope cstr_scope.
Notation "$ s" := (lit s%string) (at level 1, s at level 0) : cstr_scope.
Definition chr (s : string) : Z := default 0 (head (lit s)).

Definition at_index (s : cstr) (i : nat) : Z := nth i s 0.

(** ** [<ctype.h>] *)
Definition isdigit (c : Z) : bool := (48 <=? c) && (c <=? 57).
Definition isupper (c : Z) : bool := (65 <=? c) && (c <=? 90).
Definition islower (c : Z) : bool := (97 <=? c) && (c <=? 122).
Definition isalpha (c : Z) : bool := isupper c || islower c.
Definition isspace (c : Z) : bool := (c =? 32) || ((9 <=? c) && (c <=? 13)).
Definition iscntrl (c : Z) : bool := ((0 <=? c) && (c <=? 31)) || (c =? 127).
Definition tolower (c : Z) : Z := if isupper c then c + 32 else c.

(** ** [<string.h>] *)
Definition streq (a b : cstr) : bool := bool_decide (a = b).
(** [strncmp(a, b, n) == 0] *)
Definition strneq (a b : cstr) (n : nat) : bool := bool_decide (take n a = take n b).
Fixpoint strchr (s : cstr) (c : Z) : option nat :=
  match s with
  | [] => None
  | x :: s => if x =? c then Some O else S <$> strchr s c
  end.
Fixpoint strstr (s w : cstr) : option nat :=
  if bool_decide (take (length w) s = w) then Some O
  else match s with [] => None | _ :: s => S <$> strstr s w end.

(** ** [strtoll] *)
Definition digit_of (base c : Z) : option Z :=
  let d := if isdigit c then Some (c - 48)
           else if isalpha c then Some (tolower c - 97 + 10) else None in
  d ← d; if d <? base then Some d else None.
Fixpoint read_digits (base acc : Z) (s : cstr) : Z :=
  match s with
  | [] => acc
  | c :: s => match digit_of base c with Some d => read_digits base (acc * base + d) s | None => acc end
  end.
Fixpoint skip_space (s : cstr) : cstr :=
  match s with c :: s' => if isspace c then skip_space s' else s | [] => [] end.
Definition skip_sign (s : cstr) : bool * cstr :=
  match s with
  | c :: s' => if c =? 45 then (true, s') else if c =? 43 then (false, s') else (false, s)
  | [] => (false, s)
  end.
(** The prefix "0x" or "0X" of a number to the base 16, if a digit follows. *)
Definition skip_0x (base : Z) (s : cstr) : cstr :=
  match s with
  | z :: x :: d :: s' =>
      if (base =? 16) && (z =? 48) && (tolower x =? 120) && bool_decide (is_Some (digit_of 16 d))
      then d :: s' else s
  | _ => s
  end.

Definition LLONG_MAX : Z := 2 ^ 63 - 1.
Definition LLONG_MIN : Z := - 2 ^ 63.
(** The value, and whether [errno] became [ERANGE]. *)
Definition strtoll (s : cstr) (base : Z) : Z * bool :=
  let '(neg, s) := skip_sign (skip_space s) in
  let v := read_digits base 0 (skip_0x base s) in
  let v := if neg : bool then - v else v in
  if v >? LLONG_MAX then (LLONG_MAX, true)
  else if v <? LLONG_MIN then (LLONG_MIN, true)
  else (v, false).

(** ** Lemmas *)
Lemma isdigit_spec c : isdigit c = true <-> 48 <= c <= 57.
Proof. unfold isdigit. lia. Qed.
Lemma isalpha_not_digit c : isalpha c = true -> isdigit c = false.
Proof. unfold isalpha, isupper, islower, isdigit. lia. Qed.

Lemma strchr_some s c i : strchr s c = Some i -> exists a b, s = a ++ c :: b /\ length a = i /\ c ∉ a.
Proof.
  revert i. induction s as [|x s IH]; intros i; cbn; [done|]. destruct (Z.eqb_spec x c) as [->|Hx].
  - intros E. injection E as <-. exists [], s. split_and!; [done|done|apply not_elem_of_nil].
  - destruct (strchr s c) as [j|]; [|done]. intros E. injection E as <-. destruct (IH j eq_refl) as (a & b & -> & <- & Ha).
    exists (x :: a), b. split_and!; [done|done|]. apply not_elem_of_cons. split; [congruence|done].
Qed.
Lemma strchr_none s c : strchr s c = None <-> c ∉ s.
Proof.
  induction s as [|x s IH]; cbn; [split; [intros _; apply not_elem_of_nil|done]|]. rewrite not_elem_of_cons.
  destruct (Z.eqb_spec x c) as [->|Hx]; [split; [done|tauto]|]. destruct (strchr s c); cbn; split; try done.
  - intros [_ H]. by apply IH in H.
  - intros _. split; [congruence|by apply IH].
Qed.
Lemma strchr_app a c b : c ∉ a -> strchr (a ++ c :: b) c = Some (length a).
Proof.
  induction a as [|x a IH]; cbn; [by rewrite Z.eqb_refl|]. rewrite not_elem_of_cons. intros [Hx Ha].
  destruct (Z.eqb_spec x c); [congruence|]. by rewrite IH.
Qed.

(** The value of a list of decimal digits. *)
Definition dec_val (ds : cstr) : Z := foldl (fun acc c => acc * 10 + (c - 48)) 0 ds.
Definition digits (ds : cstr) : Prop := Forall (fun c => isdigit c = true) ds.
Definition no_digit_first (s : cstr) : Prop := match s with [] => True | c :: _ => isdigit c = false end.

Lemma read_digits_app ds rest : forall acc, digits ds -> no_digit_first rest ->
  read_digits 10 acc (ds ++ rest) = foldl (fun acc c => acc * 10 + (c - 48)) acc ds.
Proof.
  induction ds as [|c ds IH]; intros acc Hd Hr; cbn.
  - destruct rest as [|c rest]; [done|]. cbn in Hr |- *. unfold digit_of. rewrite Hr. destruct (isalpha c) eqn:Ha; [|done]. cbn.
    destruct (Z.ltb_spec (tolower c - 97 + 10) 10); [|done]. unfold tolower, isalpha, isupper, islower in *.
    destruct (_ && _) eqn:E in *; lia.
  - apply Forall_cons in Hd as [Hc Hd]. unfold digit_of. rewrite Hc. cbn. apply isdigit_spec in Hc as Hc'.
    destruct (Z.ltb_spec (c - 48) 10); [|lia]. cbn. by apply IH.
Qed.
Lemma dec_val_nonneg ds : digits ds -> 0 <= dec_val ds.
Proof.
  unfold dec_val. intros Hd. assert (H : forall acc, 0 <= acc -> 0 <= foldl (fun acc c => acc * 10 + (c - 48)) acc ds).
  { induction Hd as [|c ds Hc Hd IH]; intros acc Ha; cbn; [done|]. apply IH. apply isdigit_spec in Hc. lia. }
  by apply H.
Qed.
Lemma strtoll_dec ds rest : digits ds -> ds <> [] -> no_digit_first rest -> dec_val ds <= LLONG_MAX ->
  strtoll (ds ++ rest) 10 = (dec_val ds, false).
Proof.
  intros Hd Hn Hr Hv. pose proof (dec_val_nonneg ds Hd) as H0. destruct ds as [|c ds]; [done|].
  apply Forall_cons in Hd as Hc. destruct Hc as [Hc _]. apply isdigit_spec in Hc.
  unfold strtoll. cbn [app skip_space]. unfold isspace. replace ((c =? 32) || ((9 <=? c) && (c <=? 13))) with false by lia.
  cbn [skip_sign]. destruct (Z.eqb_spec c 45); [lia|]. destruct (Z.eqb_spec c 43); [lia|].
  assert (E : skip_0x 10 (c :: ds ++ rest) = (c :: ds) ++ rest) by (cbn; destruct (ds ++ rest) as [|x [|d s]]; done).
  rewrite E, read_digits_app by done. fold (dec_val (c :: ds)). rewrite Z.gtb_ltb.
  destruct (Z.ltb_spec LLONG_MAX (dec_val (c :: ds))); [lia|].
  destruct (Z.ltb_spec (dec_val (c :: ds)) LLONG_MIN); [unfold LLONG_MIN in *; lia|]. done.
Qed.

(** Printing. *)
Fixpoint dec_digits (fuel : nat) (n : Z) (acc : cstr) : cstr :=
  match fuel with
  | O => acc
  | S fuel =>
      let acc := (48 + n mod 10) :: acc in
      if n / 10 =? 0 then acc else dec_digits fuel (n / 10) acc
  end.
(** [sprintf("%lld", n)] of a number that is not negative. *)
Definition print_dec (n : Z) : cstr := dec_digits (S (Z.to_nat (Z.log2 n))) n [].

Lemma digits_dec fuel : forall n acc, 0 <= n -> digits acc -> digits (dec_digits fuel n acc).
Proof.
  induction fuel as [|fuel IH]; intros n acc Hn Ha; [done|]. cbn.
  assert (Ha' : digits ((48 + n mod 10) :: acc)).
  { constructor; [|done]. apply isdigit_spec. Z.to_euclidean_division_equations. lia. }
  destruct (_ =? _); [done|]. apply IH; [|done]. Z.to_euclidean_division_equations. lia.
Qed.
Lemma dec_val_app a b : dec_val (a ++ b) = foldl (fun acc c => acc * 10 + (c - 48)) (dec_val a) b.
Proof. unfold dec_val. apply foldl_app. Qed.
Lemma dec_digits_app fuel : forall n acc, dec_digits fuel n acc = dec_digits fuel n [] ++ acc.
Proof.
  induction fuel as [|fuel IH]; intros n acc; [done|]. cbn. destruct (_ =? _); [done|].
  rewrite IH, (IH _ [_]). by rewrite <- app_assoc.
Qed.
Lemma dec_val_digits fuel : forall n, 0 <= n < 2 ^ Z.of_nat fuel -> (fuel <> O) -> dec_val (dec_digits fuel n []) = n.
Proof.
  induction fuel as [|fuel IH]; intros n Hn Hf; [done|]. cbn [dec_digits].
  destruct (Z.eqb_spec (n / 10) 0) as [E|E].
  - unfold dec_val. cbn. Z.to_euclidean_division_equations. lia.
  - rewrite Nat2Z.inj_succ, Z.pow_succ_r in Hn by lia.
    assert (Hd : 0 <= n / 10 < 2 ^ fuel) by (Z.to_euclidean_division_equations; lia).
    destruct fuel as [|fuel]; [cbn in Hd; lia|].
    rewrite dec_digits_app, dec_val_app, IH by done. cbn. Z.to_euclidean_division_equations. lia.
Qed.
Lemma print_dec_ok n : 0 <= n -> digits (print_dec n) /\ print_dec n <> [] /\ dec_val (print_dec n) = n.
Proof.
  intros Hn. unfold print_dec. split_and!.
  - apply digits_dec; [done|constructor].
  - cbn. destruct (_ =? _); [done|]. rewrite dec_digits_app. by destruct (dec_digits _ _ []).
  - apply dec_val_digits; [|done]. split; [done|]. rewrite Nat2Z.inj_succ, Z2Nat.id by apply Z.log2_nonneg.
    destruct (Z.eq_dec n 0) as [->|]; [done|]. apply Z.log2_spec. lia.
Qed.
End CString.
