(* ===== verification/Parse.v ===== *)
(** * The option parser

    [src/parse.c], [src/parse.h] and [find_option] ([src/options.h]): numbers with a
    suffix, the values of an option, the split of a value into the parts for reads
    and for writes, and the search for an option.

    [data], the structure the options are stored in, is a map from the offset of a
    member to its value ([roff1] and the like are addresses of other variables);
    callbacks and checks of an option are functions on it.  A floating point list is
    a parameter.  [kb_base] is what [fio_get_kb_base] returns; [errno] says whether
    [errno] was [ERANGE] before the call. *)
From S2P Require Import Prelude CString.
From Stdlib Require Import QArith.
From stdpp Require Import gmap strings.
Local Open Scope Z_scope.
Local Open Scope cstr_scope.

Module Parse.
Import CString.

(** ** Numbers *)
Definition get_mult_time (c : Z) : Z :=
  if (c =? chr "m") || (c =? chr "M") then 60
  else if (c =? chr "h") || (c =? chr "H") then 60 * 60
  else if (c =? chr "d") || (c =? chr "D") then 24 * 60 * 60
  else 1.

Fixpoint mult_pow (n : nat) (mult : Z) (ret : Z) : Z :=
  match n with O => ret | S n => mult_pow n mult (wrap 64 (ret * mult)) end.

(** The multiplier, and whether the suffix is "%"; [None] is a null pointer. *)
Definition __get_mult_bytes (kb_base : Z) (p : option cstr) : Z * bool :=
  match p with
  | None => (1, false)
  | Some p =>
      let c := map tolower p in
      if streq $"pib" c then (mult_pow 5 1000 1, false)
      else if streq $"tib" c then (mult_pow 4 1000 1, false)
      else if streq $"gib" c then (mult_pow 3 1000 1, false)
      else if streq $"mib" c then (mult_pow 2 1000 1, false)
      else if streq $"kib" c then (mult_pow 1 1000 1, false)
      else if streq $"p" c || streq $"pb" c then (mult_pow 5 kb_base 1, false)
      else if streq $"t" c || streq $"tb" c then (mult_pow 4 kb_base 1, false)
      else if streq $"g" c || streq $"gb" c then (mult_pow 3 kb_base 1, false)
      else if streq $"m" c || streq $"mb" c then (mult_pow 2 kb_base 1, false)
      else if streq $"k" c || streq $"kb" c then (mult_pow 1 kb_base 1, false)
      else if streq $"%" c then (1, true)
      else (1, false)
  end.

(** The loop of [get_mult_bytes]: the rest of the string from the first character
    that is neither a digit nor a leading sign. *)
Fixpoint skip_number (digit_seen : bool) (p : cstr) : cstr :=
  match p with
  | [] => []
  | c :: p' =>
      if negb (isdigit c) && ((negb (c =? chr "+") && negb (c =? chr "-")) || digit_seen) then p
      else skip_number (digit_seen || isdigit c) p'
  end.

Definition get_mult_bytes (kb_base : Z) (s : cstr) : Z * bool :=
  if (length s <? 2)%nat then __get_mult_bytes kb_base (Some s)
  else
    let p := skip_number false s in
    __get_mult_bytes kb_base (if negb (isalpha (at_index p 0)) && negb (at_index p 0 =? chr "%") then None else Some p).

(** [None]: the function returns 1. *)
Definition str_to_decimal (kb_base : Z) (errno kilo : bool) (s : cstr) : option Z :=
  if (length s =? 0)%nat then None
  else
    let base := if bool_decide (is_Some (strstr s $"0x")) || bool_decide (is_Some (strstr s $"0X")) then 16 else 10 in
    let '(val, erange) := strtoll s base in
    if (val =? LLONG_MAX) && (errno || erange) then None
    else
      Some (if kilo then
              let '(mult, perc) := get_mult_bytes kb_base s in
              if perc : bool then s64 (2 ^ 64 - 1 - val) else s64 (val * mult)
            else s64 (val * get_mult_time (at_index s (length s - 1)))).

(** [parse_is_percent] of the value as an unsigned number. *)
Definition parse_is_percent (val : Z) : bool :=
  (val <=? 2 ^ 64 - 1) && (val >=? 2 ^ 64 - 1 - 100).

(** ** Blanks *)
Definition strip_blank_front (s : cstr) : cstr := skip_space s.

Definition blank (c : Z) : bool := isspace c || iscntrl c.
(** The loop of [strip_blank_end], from index [i] down; the character at the end of
    the string is the NUL. *)
Fixpoint last_kept (s : cstr) (i : nat) : nat :=
  match i with
  | O => O
  | S i' => if blank (at_index s i) then last_kept s i' else i
  end.
Definition cut_at (s : cstr) (c : Z) : cstr :=
  match strchr s c with Some i => take i s | None => s end.
Definition strip_blank_end (s : cstr) : cstr :=
  if (length s =? 0)%nat then s
  else
    let s := cut_at (cut_at s (chr ";")) (chr "#") in
    take (S (last_kept s (length s))) s.

(** ** Options *)
Inductive fio_opt_type :=
  | FIO_OPT_INVALID | FIO_OPT_STR | FIO_OPT_STR_MULTI | FIO_OPT_STR_VAL | FIO_OPT_STR_VAL_TIME
  | FIO_OPT_STR_STORE | FIO_OPT_RANGE | FIO_OPT_INT | FIO_OPT_BOOL | FIO_OPT_FLOAT_LIST
  | FIO_OPT_STR_SET | FIO_OPT_DEPRECATED.
#[export] Instance fio_opt_type_eq_dec : EqDecision fio_opt_type.
Proof. solve_decision. Defined.

(** A [double]. *)
Inductive fp := Fin (q : Q) | Infinite (negative : bool) | NaN.
Definition isnan (x : fp) : bool := match x with NaN => true | _ => false end.
Definition fp_lt (x y : fp) : bool :=
  match x, y with
  | NaN, _ | _, NaN => false
  | Fin a, Fin b => negb (Qle_bool b a)
  | Infinite true, Infinite true => false
  | Infinite true, _ => true
  | Infinite false, _ => false
  | Fin _, Infinite negative => negb negative
  end.

(** The members of [data] by offset, the variables [roff1] and the like point to,
    the members that are strings, and those that are arrays of [double]s, by offset
    and index. *)
Record store := { members : gmap Z Z; others : gmap Z Z; strings : gmap Z cstr; floats : gmap (Z * nat) fp }.
#[export] Instance eta_store : Eta store := fun d => Build_store (members d) (others d) (strings d) (floats d).

Record value_pair := { ival : cstr; oval : Z; vor : bool; vp_cb : option (store -> option cstr -> Z * store) }.
Definition PARSE_MAX_VP : nat := 16.

(** A member that is 0 in the code (no offset, no range) is 0 here. *)
Record fio_option := {
  name : cstr; alias : option cstr; type : fio_opt_type;
  off1 : Z; off2 : Z; off3 : Z; off4 : Z;
  roff1 : Z; roff2 : Z; roff3 : Z; roff4 : Z;
  maxval : Z; minval : Z; neg : bool; prio : Z;
  cb_str : option (store -> option cstr -> Z * store);
  cb_val : option (store -> Z -> Z * store);
  cb_int : option (store -> Z -> Z * store);
  def : option cstr;
  posval : list value_pair;
  verify : option (store -> Z);
  maxlen : Z; maxfp : fp; minfp : fp }.

(** [val_store] to an [int] and to a [long long]; the same to a variable. *)
Definition store_int (off val : Z) (d : store) : store := d <| members := <[off := s32 val]> (members d) |>.
Definition or_int (off val : Z) (d : store) : store :=
  d <| members := <[off := Z.lor (default 0 (members d !! off)) (s32 val)]> (members d) |>.
Definition store_ull (off val : Z) (d : store) : store := d <| members := <[off := s64 val]> (members d) |>.
Definition rstore_uint (r val : Z) (d : store) : store := d <| others := <[r := u32 val]> (others d) |>.
Definition ror_uint (r val : Z) (d : store) : store :=
  d <| others := <[r := Z.lor (default 0 (others d !! r)) (u32 val)]> (others d) |>.
Definition rstore_ull (r val : Z) (d : store) : store := d <| others := <[r := wrap 64 val]> (others d) |>.

(** [posval_sort]: the values up to the first empty one, the longer ones first.  The
    order [qsort] gives values of the same length is that of the list here. *)
Fixpoint posval_entries (n : nat) (l : list value_pair) : list value_pair :=
  match n, l with
  | S n, vp :: l => if (length (ival vp) =? 0)%nat then [] else vp :: posval_entries n l
  | _, _ => []
  end.
Definition posval_sort (o : fio_option) : list value_pair :=
  sort_desc (fun vp => Z.of_nat (length (ival vp))) (posval_entries PARSE_MAX_VP (posval o)).

Definition opt_len (s : cstr) : nat := default (length s) (strchr s (chr ":")).
Definition vp_match (s : cstr) (vp : value_pair) : bool := strneq (ival vp) s (opt_len s).

(** The loop over the values for [FIO_OPT_STR] and [FIO_OPT_STR_MULTI]: every value
    that matches is stored. *)
Definition store_value (o : fio_option) (vp : value_pair) (d : store) : store :=
  if negb (roff1 o =? 0) then
    (if vor vp then ror_uint (roff1 o) (oval vp) d else rstore_uint (roff1 o) (oval vp) d)
  else if off1 o =? 0 then d
  else if vor vp then or_int (off1 o) (oval vp) d else store_int (off1 o) (oval vp) d.
Definition store_matches (o : fio_option) (s : cstr) (vps : list value_pair) (d : store) : store :=
  foldl (fun d vp => if vp_match s vp then store_value o vp d else d) d vps.

Section code.
Context (kb_base : Z) (errno : bool).
(** [sscanf] of one "%lf": the number it reads, if it reads one. *)
Context (sscanf_lf : cstr -> option fp).

Definition handle_str (o : fio_option) (s : cstr) (d : store) : Z * store :=
  let vps := posval_sort o in
  let ret := if existsb (vp_match s) vps then 0 else 1 in
  let d := store_matches o s vps d in
  if (ret =? 1) && negb (bool_decide (vps = [])) then (ret, d)
  else match cb_str o with Some fn => fn d (Some s) | None => (ret, d) end.

(** [check_range_bytes]: the value as a [long]. *)
Definition check_range_bytes (s : cstr) : option Z := str_to_decimal kb_base errno true s.

(** Where a number goes: the first value to the first place, the last to the second. *)
Definition put1 (big first : bool) (o : fio_option) (v : Z) (d : store) : store :=
  if first then
    (if negb (roff1 o =? 0) then (if big then rstore_ull (roff1 o) v d else rstore_uint (roff1 o) v d)
     else if big then store_ull (off1 o) v d else store_int (off1 o) v d)
  else d.
Definition put2 (big more : bool) (o : fio_option) (v : Z) (d : store) : store :=
  if more then d
  else if negb (roff2 o =? 0) then (if big then rstore_ull (roff2 o) v d else rstore_uint (roff2 o) v d)
  else if negb (off2 o =? 0) then (if big then store_ull (off2 o) v d else store_int (off2 o) v d)
  else d.

Definition handle_val (o : fio_option) (s : cstr) (first more : bool) (d : store) : Z * store :=
  match str_to_decimal kb_base errno (negb (bool_decide (type o = FIO_OPT_STR_VAL_TIME))) s with
  | None => (1, d)
  | Some ull =>
      if negb (maxval o =? 0) && (ull >? maxval o) then (1, d)
      else if negb (minval o =? 0) && (ull <? minval o) then (1, d)
      else match cb_val o with
           | Some fn => fn d ull
           | None =>
               let big := negb (bool_decide (type o = FIO_OPT_INT)) in
               (0, put2 big more o ull (put1 big first o ull d))
           end
  end.

(** [tmp] after [strncpy(tmp, ptr, 127)] and the search for a comma: the characters up
    to it.  Of 127 characters or more there is no NUL in [tmp], and without a comma the
    search reads what was never written: [None]. *)
Definition range_buf (s : cstr) : option cstr :=
  match strchr (take 127 s) (chr ",") with
  | Some i => Some (take i s)
  | None => if (length s <? 127)%nat then Some s else None
  end.
(** A range "low-high" or "low:high". *)
Definition handle_range (o : fio_option) (s : cstr) (first : bool) (d : store) : option (Z * store) :=
  tmp ← range_buf s; Some
  match (match strchr tmp (chr "-") with Some i => Some i | None => strchr tmp (chr ":") end) with
  | None => (1, d)
  | Some i =>
      match check_range_bytes (take i tmp) with
      | None => (1, d)
      | Some a =>
          match check_range_bytes (drop (S i) tmp) with
          | None => (1, d)
          | Some b =>
              let '(ul1, ul2) := if a >? b then (b, a) else (a, b) in
              let d := if first then
                         let d := if negb (roff1 o =? 0) then rstore_uint (roff1 o) ul1 d else store_int (off1 o) ul1 d in
                         if negb (roff2 o =? 0) then rstore_uint (roff2 o) ul2 d else store_int (off2 o) ul2 d
                       else d in
              (0, if negb (roff3 o =? 0) && negb (roff4 o =? 0)
                  then rstore_uint (roff4 o) ul2 (rstore_uint (roff3 o) ul1 d)
                  else if negb (off3 o =? 0) && negb (off4 o =? 0)
                  then store_int (off4 o) ul2 (store_int (off3 o) ul1 d)
                  else d)
          end
      end
  end.

(** [check_int]: [sscanf] with "%x" or "%u"; [Some None] if there is no number, [None]
    if it does not fit 32 bits, which C leaves undefined. *)
Definition check_int (s : cstr) : option (option Z) :=
  if (length s =? 0)%nat then Some None
  else
    let base := if bool_decide (is_Some (strstr s $"0x")) || bool_decide (is_Some (strstr s $"0X")) then 16 else 10 in
    let '(neg, t) := skip_sign (skip_space s) in
    if bool_decide (is_Some (c ← head (skip_0x base t); digit_of base c)) then
      let v := read_digits base 0 (skip_0x base t) in
      if v <? 2 ^ 32 then Some (Some (s32 (if neg : bool then - v else v))) else None
    else Some None.

Definition handle_int (o : fio_option) (s : option cstr) (first more : bool) (d : store) : option (Z * store) :=
  il ← match s with
       | Some s => check_int s
       | None => Some (if bool_decide (type o = FIO_OPT_BOOL) then None else Some 1)
       end; Some
  match il with
  | None => (1, d)
  | Some il =>
      if negb (maxval o =? 0) && (il >? s32 (maxval o)) then (1, d)
      else if negb (minval o =? 0) && (il <? minval o) then (1, d)
      else
        let il := if neg o then (if il =? 0 then 1 else 0) else il in
        match cb_int o with
        | Some fn => fn d il
        | None => (0, put2 false more o il (put1 false first o il d))
        end
  end.

(** [FIO_OPT_FLOAT_LIST]; [curr] is the index of the part. *)
Definition handle_float_list (o : fio_option) (s : cstr) (first : bool) (curr : nat) (d : store) : Z * store :=
  let d := if first then store_int (off2 o) 1 d else d in
  if Z.of_nat curr >=? maxlen o then (1, d)
  else match sscanf_lf s with
       | None => (1, d)
       | Some uf =>
           if negb (isnan (maxfp o)) && fp_lt (maxfp o) uf then (1, d)
           else if negb (isnan (minfp o)) && fp_lt uf (minfp o) then (1, d)
           else (0, d <| floats := <[(off1 o, curr) := uf]> (floats d) |>)
       end.

(** [FIO_OPT_STR_STORE]; the outer [None] is the use of a null pointer. *)
Definition handle_store (o : fio_option) (s : cstr) (d : store) : option (Z * store) :=
  let slot := if negb (roff1 o =? 0) then Some (- roff1 o) else if negb (off1 o =? 0) then Some (off1 o) else None in
  let d := match slot with Some c => d <| strings := <[c := s]> (strings d) |> | None => d end in
  match cb_str o with
  | Some fn => Some (fn d (Some s))
  | None =>
      match posval o, posval_sort o with
      | [], _ => Some (0, d)
      | _, [] => Some (1, d)
      | _, vps =>
          cp ← slot;
          match list_find (fun vp => vp_match s vp = true) vps with
          | None => Some (0, d)
          | Some (_, vp) =>
              let cur := default [] (strings d !! cp) in
              match strchr cur (chr ":") with
              | None => Some (0, d)
              | Some i =>
                  let d := d <| strings := <[cp := take i cur]> (strings d) |> in
                  match vp_cb vp with
                  | Some fn => Some (fn d (Some (drop (S i) cur)))
                  | None => Some (0, d)
                  end
              end
          end
      end
  end.

(** An option that takes a string, without one: the values are compared with a null
    pointer. *)
Definition handle_str_null (o : fio_option) (d : store) : option (Z * store) :=
  match posval_sort o with
  | [] => Some (match cb_str o with Some fn => fn d None | None => (1, d) end)
  | _ => None
  end.

(** The [switch] of [__handle_option], then its end. *)
Definition handle_type (o : fio_option) (s : option cstr) (first more : bool) (curr : nat) (d : store)
    : option (Z * store) :=
  match s with
  | None =>
      match type o with
      | FIO_OPT_STR_SET => handle_int o None first more d
      | FIO_OPT_STR => handle_str_null o d
      | _ => Some (1, d)
      end
  | Some s =>
      match type o with
      | FIO_OPT_STR | FIO_OPT_STR_MULTI => Some (handle_str o s d)
      | FIO_OPT_STR_VAL_TIME | FIO_OPT_INT | FIO_OPT_STR_VAL => Some (handle_val o s first more d)
      | FIO_OPT_FLOAT_LIST => Some (handle_float_list o s first curr d)
      | FIO_OPT_STR_STORE => handle_store o s d
      | FIO_OPT_RANGE => handle_range o s first d
      | FIO_OPT_BOOL | FIO_OPT_STR_SET => handle_int o (Some s) first more d
      | FIO_OPT_DEPRECATED => Some (0, d)
      | FIO_OPT_INVALID => Some (1, d)
      end
  end.

Definition __handle_option (o : fio_option) (s : option cstr) (first more : bool) (curr : nat) (d : store)
    : option (Z * store) :=
  '(ret, d) ← handle_type o s first more curr d;
  Some (if negb (ret =? 0) then (ret, d)
        else match verify o with Some v => (v d, d) | None => (ret, d) end).

(** The separator of [handle_option] in the rest of a value, and that rest, without a
    comma at its end. *)
Definition find_sep (o : fio_option) (s : cstr) : cstr * option nat :=
  match type o with
  | FIO_OPT_STR_STORE | FIO_OPT_STR => (s, None)
  | FIO_OPT_FLOAT_LIST => (s, strchr s (chr ":"))
  | t =>
      match strchr s (chr ",") with
      | Some i => (if (S i =? length s)%nat then take i s else s, Some i)
      | None =>
          (s, if bool_decide (t = FIO_OPT_STR_MULTI) then None
              else match strchr s (chr ":") with Some i => Some i | None => strchr s (chr "-") end)
      end
  end.

Fixpoint handle_loop (fuel : nat) (o : fio_option) (s : option cstr) (done : nat) (ret : Z) (d : store)
    : option (Z * store) :=
  match fuel with
  | O => None
  | S fuel =>
      let '(arg, sep) := match s with Some s => let '(a, i) := find_sep o s in (Some a, i) | None => (None, None) end in
      '(r, d) ← __handle_option o arg (done =? 0)%nat (bool_decide (is_Some sep)) done d;
      let ret := if negb (ret =? 0) then r else ret in
      match sep, s with
      | Some i, Some s => handle_loop fuel o (Some (drop (S i) s)) (S done) ret d
      | _, _ => Some (ret, d)
      end
  end.

Definition handle_option (o : fio_option) (s : option cstr) (d : store) : option (Z * store) :=
  handle_loop (S (length (default [] s))) o s 0 1 d.

(** ** The table of options *)
Definition o_match (o : fio_option) (opt : cstr) : bool :=
  streq (name o) opt || match alias o with Some a => streq a opt | None => false end.
Definition find_option (options : list fio_option) (opt : cstr) : option fio_option :=
  snd <$> list_find (fun o => o_match o opt = true) options.

(** The option and the value after "=". *)
Definition get_option (opt : cstr) (options : list fio_option) : option fio_option * option cstr :=
  match strchr opt (chr "=") with
  | Some i => (find_option options (strip_blank_end (take i opt)), Some (drop (S i) opt))
  | None => (find_option options opt, None)
  end.

Definition parse_cmd_option (opt : cstr) (val : option cstr) (options : list fio_option) (d : store)
    : option (Z * store) :=
  match find_option options opt with
  | None => Some (1, d)
  | Some o => '(r, d) ← handle_option o val d; Some (if r =? 0 then 0 else 1, d)
  end.

(** The characters of a buffer up to the first NUL. *)
Definition c_string (buf : list Z) : cstr := match strchr buf 0 with Some i => take i buf | None => buf end.
(** What [parse_option] leaves in the buffer of an option it does not know, whose
    value starts at [post]; [buf] is the buffer after [get_option]. *)
Definition restore_option (buf : list Z) (post : nat) : list Z :=
  let len := length (c_string buf) in
  let p := c_string (drop post buf) in
  let buf := if (S len =? post)%nat then buf
             else take (S len) buf ++ p ++ drop (S len + length p) buf in
  <[len := chr "="]> buf.
(** The buffer [get_option] leaves when it finds the "=" at [i]: a NUL in its place,
    and those [strip_blank_end] writes into the name. *)
Definition nul_at (k : option nat) (buf : list Z) : list Z :=
  match k with Some k => <[k := 0]> buf | None => buf end.
Definition cut_option (opt : cstr) (i : nat) : list Z :=
  let buf := <[i := 0]> (opt ++ [0]) in
  let name := take i opt in
  if (length name =? 0)%nat then buf
  else
    let name1 := cut_at name (chr ";") in
    let name2 := cut_at name1 (chr "#") in
    nul_at (Some (S (last_kept name2 (length name2)))) (nul_at (strchr name1 (chr "#")) (nul_at (strchr name (chr ";")) buf)).

(** The result, the option, and the string of an option that is not known. *)
Definition parse_option (opt : cstr) (options : list fio_option) (d : store)
    : option (Z * option fio_option * cstr * store) :=
  match get_option opt options with
  | (Some o, post) => '(r, d) ← handle_option o post d; Some (if r =? 0 then 0 else 1, Some o, opt, d)
  | (None, Some _) =>
      i ← strchr opt (chr "=");
      Some (1, None, c_string (restore_option (cut_option opt i) (S i)), d)
  | (None, None) => Some (1, None, opt, d)
  end.

Fixpoint fill_default_options (options : list fio_option) (d : store) : option store :=
  match options with
  | [] => Some d
  | o :: options =>
      match def o with
      | None => fill_default_options options d
      | Some v => '(_, d) ← handle_option o (Some v) d; fill_default_options options d
      end
  end.
End code.

(** [option_init]: the range of a boolean, and no range for a list of [double]s, whatever
    the table says. *)
Definition with_limits (maxv minv : Z) (maxf minf : fp) (o : fio_option) : fio_option :=
  Build_fio_option (name o) (alias o) (type o) (off1 o) (off2 o) (off3 o) (off4 o) (roff1 o) (roff2 o) (roff3 o)
    (roff4 o) maxv minv (neg o) (prio o) (cb_str o) (cb_val o) (cb_int o) (def o) (posval o) (verify o)
    (maxlen o) maxf minf.
Definition option_init (o : fio_option) : fio_option :=
  match type o with
  | FIO_OPT_BOOL => with_limits 1 0 (maxfp o) (minfp o) o
  | FIO_OPT_FLOAT_LIST => with_limits (maxval o) (minval o) NaN NaN o
  | _ => o
  end.
Definition options_init (options : list fio_option) : list fio_option := map option_init options.

(** ** [string_distance] *)

(** [p[0], ..., p[s2_len]] at the start; the numbers are [unsigned int]s. *)
Definition first_row (n : nat) : list Z := map (fun i => u32 (Z.of_nat i)) (seq 0 (S n)).
(** The loop over [j]: [left] is [q[j - 1]], [p] the rest of the row above from
    [p[j - 1]]. *)
Fixpoint row_loop (c : Z) (s2 : cstr) (p : list Z) (left : Z) : list Z :=
  match s2, p with
  | d :: s2, sub :: (up :: _) as p' =>
      let sub := if negb (c =? d) then u32 (sub + 1) else sub in
      let v := Z.min (u32 (up + 1)) (Z.min (u32 (left + 1)) sub) in
      v :: row_loop c s2 (tail p) v
  | _, _ => []
  end.
Definition next_row (c : Z) (s2 : cstr) (p : list Z) : list Z :=
  let q0 := u32 (at_index p 0 + 1) in q0 :: row_loop c s2 p q0.
Definition string_distance (s1 s2 : cstr) : Z :=
  s32 (at_index (foldl (fun p c => next_row c s2 p) (first_row (length s2)) s1) (length s2)).

(** * Properties *)

(** ** Numbers *)
Lemma no_char_strstr s a b : b ∉ s -> strstr s [a; b] = None.
Proof.
  induction s as [|x s IH]; cbn; [done|]. rewrite not_elem_of_cons. intros [Hx Hs]. rewrite (IH Hs).
  rewrite bool_decide_eq_false_2; [done|]. intros E. injection E as _ E. destruct s as [|y s]; [done|]. cbn in E.
  injection E as ->. apply Hs. by left.
Qed.

(** A suffix of letters. *)
Definition letters (s : cstr) : Prop := Forall (fun c => isalpha c = true) s.
Definition no_x (s : cstr) : Prop := (chr "x" ∉ s) /\ (chr "X" ∉ s).

Lemma digits_no_x ds : digits ds -> no_x ds.
Proof.
  intros Hd. unfold digits in Hd. rewrite Forall_forall in Hd.
  split; intros H; apply Hd in H; vm_compute in H; done.
Qed.
Lemma no_x_app a b : no_x a -> no_x b -> no_x (a ++ b).
Proof. unfold no_x. rewrite !not_elem_of_app. tauto. Qed.

Lemma skip_number_digits ds rest seen : digits ds -> match rest with [] => True | c :: _ => isdigit c = false /\ c <> chr "+" /\ c <> chr "-" end ->
  skip_number seen (ds ++ rest) = rest.
Proof.
  intros Hd Hr. revert seen. induction Hd as [|c ds Hc Hd IH]; intros seen; cbn [app skip_number].
  - destruct rest as [|c rest]; [done|]. destruct Hr as (Hc & Hp & Hm). cbn [skip_number]. rewrite Hc.
    by rewrite (proj2 (Z.eqb_neq _ _) Hp), (proj2 (Z.eqb_neq _ _) Hm).
  - rewrite Hc. cbn [negb andb]. apply IH.
Qed.

(** The multiplier of what follows a decimal number. *)
Definition suffix_mult (kb_base : Z) (rest : cstr) : Z * bool :=
  __get_mult_bytes kb_base (match rest with c :: _ => if isalpha c || (c =? chr "%") then Some rest else None | [] => None end).

Lemma mult_digit kb c : isdigit c = true -> __get_mult_bytes kb (Some [c]) = (1, false).
Proof.
  intros Hc. apply isdigit_spec in Hc. unfold __get_mult_bytes. cbn [map]. unfold tolower, isupper.
  replace ((65 <=? c) && (c <=? 90)) with false by lia.
  assert (F : forall w, forallb (fun x => negb (isdigit x)) w = true -> streq w [c] = false).
  { intros w Hw. apply bool_decide_eq_false_2. intros ->. cbn in Hw. unfold isdigit in Hw. lia. }
  by rewrite !F.
Qed.

Lemma get_mult_digits kb ds rest : digits ds -> ds <> [] ->
  match rest with [] => True | c :: _ => isdigit c = false /\ c <> chr "+" /\ c <> chr "-" end ->
  get_mult_bytes kb (ds ++ rest) = suffix_mult kb rest.
Proof.
  intros Hd Hn Hr. unfold get_mult_bytes, suffix_mult. destruct (Nat.ltb_spec (length (ds ++ rest)) 2) as [Hl|Hl].
  - rewrite length_app in Hl. destruct ds as [|c [|c' ds]]; cbn in Hl; [done| |lia]. destruct rest; [|cbn in Hl; lia].
    apply Forall_cons in Hd as [Hd _]. exact (mult_digit kb c Hd).
  - rewrite skip_number_digits by done. destruct rest as [|c rest]; [done|]. cbn [at_index nth].
    destruct (isalpha c), (c =? chr "%"); done.
Qed.

(** A decimal number with anything but a digit or a sign after it. *)
Lemma str_to_decimal_digits kb ds rest : digits ds -> ds <> [] -> no_x rest -> dec_val ds < LLONG_MAX ->
  match rest with [] => True | c :: _ => isdigit c = false /\ c <> chr "+" /\ c <> chr "-" end ->
  str_to_decimal kb false true (ds ++ rest) =
    Some (let '(mult, perc) := suffix_mult kb rest in
          if perc : bool then s64 (2 ^ 64 - 1 - dec_val ds) else s64 (dec_val ds * mult)).
Proof.
  intros Hd Hn Hx Hv Hr. unfold str_to_decimal.
  destruct (Nat.eqb_spec (length (ds ++ rest)) 0) as [E|_]; [rewrite length_app in E; destruct ds; cbn in E; [done|lia]|].
  destruct (no_x_app _ _ (digits_no_x ds Hd) Hx) as [H1 H2].
  change $"0x" with [48; chr "x"]. change $"0X" with [48; chr "X"].
  rewrite !no_char_strstr by done. rewrite !bool_decide_eq_false_2 by (by intros [? ?]). cbn [orb].
  rewrite strtoll_dec; [|done|done|destruct rest; [done|apply Hr]|lia].
  destruct (Z.eqb_spec (dec_val ds) LLONG_MAX); [lia|]. cbn [andb]. by rewrite get_mult_digits.
Qed.

(** The units of a size: the power, and whether it is one of 1000 or of [kb_base]. *)
Definition units : list (cstr * bool * nat) :=
  [($"k", false, 1); ($"kb", false, 1); ($"kib", true, 1); ($"m", false, 2); ($"mb", false, 2); ($"mib", true, 2);
   ($"g", false, 3); ($"gb", false, 3); ($"gib", true, 3); ($"t", false, 4); ($"tb", false, 4); ($"tib", true, 4);
   ($"p", false, 5); ($"pb", false, 5); ($"pib", true, 5)]%nat.
Definition unit_value (kb_base : Z) (dec : bool) (k : nat) : Z := (if dec then 1000 else kb_base) ^ Z.of_nat k.

Lemma tolower_alpha c : isalpha (tolower c) = isalpha c /\ isdigit (tolower c) = isdigit c /\
  (tolower c <> chr "x" -> c <> chr "x" /\ c <> chr "X") /\ (isalpha c = true -> c <> chr "+" /\ c <> chr "-").
Proof.
  unfold tolower, isalpha, isupper, islower, isdigit. change (chr "x") with 120. change (chr "X") with 88.
  change (chr "+") with 43. change (chr "-") with 45. destruct ((65 <=? c) && (c <=? 90)) eqn:E; lia.
Qed.
Lemma s64_small n : 0 <= n < LLONG_MAX -> s64 n = n.
Proof. unfold swrap, LLONG_MAX. intros H. rewrite Z.mod_small by lia. destruct (Z.ltb_spec n (2 ^ (64 - 1))); lia. Qed.


Lemma mult_pow_ok n kb : 0 <= kb <= 1024 -> forall r, 0 <= r -> r * kb ^ Z.of_nat n < 2 ^ 64 -> mult_pow n kb r = r * kb ^ Z.of_nat n.
Proof.
  intros Hk. induction n as [|n IH]; intros r Hr Hb; [cbn; lia|]. cbn [mult_pow].
  rewrite Nat2Z.inj_succ, Z.pow_succ_r in * by lia. pose proof (Z.pow_nonneg kb (Z.of_nat n) ltac:(lia)).
  destruct (Z.eq_dec kb 0) as [->|Hk0].
  { rewrite Z.mul_0_r, Z.mul_0_l. unfold wrap. rewrite Z.mod_0_l by lia.
    clear -IH. rewrite IH by lia. lia. }
  assert (0 < kb ^ Z.of_nat n) by (apply Z.pow_pos_nonneg; lia).
  rewrite wrap_small by (split; [nia|]; nia). rewrite IH by nia. lia.
Qed.
Lemma pow_kb_bound kb k : 0 <= kb <= 1024 -> (k <= 5)%nat -> 1 * kb ^ Z.of_nat k < 2 ^ 64.
Proof.
  intros Hk Hn. pose proof (Z.pow_le_mono_l kb 1024 (Z.of_nat k) ltac:(lia)).
  pose proof (Z.pow_le_mono_r 1024 (Z.of_nat k) 5 ltac:(lia) ltac:(lia)). lia.
Qed.

Lemma tolower_idem c : tolower (tolower c) = tolower c.
Proof. unfold tolower, isupper. destruct ((65 <=? c) && (c <=? 90)) eqn:E; [|by rewrite E]. replace ((65 <=? c + 32) && (c + 32 <=? 90)) with false by lia. done. Qed.

(** The case of the letters of a unit does not matter. *)
Lemma suffix_mult_lower kb u u' : map tolower u' = u -> match u with [] => False | c :: _ => isalpha c = true end ->
  suffix_mult kb u' = __get_mult_bytes kb (Some u).
Proof.
  intros Hl Hu. unfold suffix_mult. destruct u' as [|c u']; cbn in Hl; [by subst|]. subst u.
  rewrite (proj1 (tolower_alpha c)) in Hu. rewrite Hu. cbn [orb]. unfold __get_mult_bytes. cbn [map].
  rewrite tolower_idem, List.map_map. rewrite (List.map_ext _ tolower tolower_idem). done.
Qed.

Lemma units_ok kb : Forall (fun '(u, dec, k) =>
  match u with [] => False | c :: _ => isalpha c = true end /\ (k <= 5)%nat /\
  __get_mult_bytes kb (Some u) = (mult_pow k (if dec : bool then 1000 else kb) 1, false) /\
  forallb (fun c => negb (c =? chr "x")) u = true) units.
Proof. unfold units. repeat (constructor; [split; [reflexivity|split; [lia|split; reflexivity]]|]). constructor. Qed.

Lemma suffix_mult_units kb u dec k u' : 0 < kb <= 1024 -> (u, dec, k) ∈ units -> map tolower u' = u ->
  suffix_mult kb u' = (unit_value kb dec k, false) /\ no_x u' /\
  match u' with [] => True | c :: _ => isdigit c = false /\ c <> chr "+" /\ c <> chr "-" end.
Proof.
  intros Hk Hu Hl. pose proof (units_ok kb) as A. rewrite Forall_forall in A. destruct (A _ Hu) as (Ha & H5 & Hm & Hx).
  split_and!.
  - rewrite (suffix_mult_lower kb u u') by done. rewrite Hm. unfold unit_value. f_equal.
    destruct dec; rewrite mult_pow_ok; try lia; apply pow_kb_bound; lia.
  - rewrite forallb_forall in Hx. assert (N : forall c, c ∈ u' -> tolower c <> chr "x").
    { intros c Hc E. specialize (Hx (tolower c)). rewrite <- Hl in Hx.
      rewrite E in Hx. discriminate Hx. rewrite <- E. apply in_map. by apply list_elem_of_In. }
    split; intros Hc; by apply (N _ Hc).
  - destruct u' as [|c u']; [done|]. cbn in Hl. subst u. destruct (tolower_alpha c) as (E1 & E2 & _ & E3). rewrite E1 in Ha.
    split; [by apply isalpha_not_digit|by apply E3].
Qed.

(** A size that is printed and given a unit, in any case, is read back as the number
    times the unit; without a unit it is read back as the number.  The product wraps
    at 64 bits. *)
Theorem size_roundtrip kb n u dec k u' : 0 < kb <= 1024 -> 0 <= n < LLONG_MAX -> (u, dec, k) ∈ units -> map tolower u' = u ->
  str_to_decimal kb false true (print_dec n) = Some n /\
  str_to_decimal kb false true (print_dec n ++ u') = Some (s64 (n * unit_value kb dec k)).
Proof.
  intros Hk Hn Hu Hl. destruct (print_dec_ok n) as (Hd & Hne & Hv); [lia|].
  destruct (suffix_mult_units kb u dec k u' Hk Hu Hl) as (Hm & Hx & Hr). split.
  - rewrite <- (app_nil_r (print_dec n)), str_to_decimal_digits; [|done|done|split; apply not_elem_of_nil|lia|done].
    change (suffix_mult kb []) with (1, false). cbv iota beta. rewrite Hv, Z.mul_1_r. f_equal. by apply s64_small.
  - rewrite str_to_decimal_digits by (done || lia). by rewrite Hm, Hv.
Qed.
Lemma size_roundtrip_witness : str_to_decimal 1024 false true (print_dec 4 ++ $"KB") = Some 4096.
Proof.
  destruct (size_roundtrip 1024 4 $"kb" false 1 $"KB") as [_ H]; [lia|unfold LLONG_MAX; lia| |reflexivity|exact H].
  unfold units. right. left.
Defined.

(** "n%" is stored as [-1 - n]: [parse_is_percent] recognises it exactly when [n] is
    at most 100, and the number can be recovered. *)
Theorem percent_roundtrip kb n : 0 <= n < LLONG_MAX -> exists v,
  str_to_decimal kb false true (print_dec n ++ $"%") = Some v /\
  parse_is_percent (wrap 64 v) = (n <=? 100) /\ 2 ^ 64 - 1 - wrap 64 v = n.
Proof.
  intros Hn. destruct (print_dec_ok n) as (Hd & Hne & Hv); [lia|].
  rewrite str_to_decimal_digits; [|done|done| |lia|].
  - change (suffix_mult kb $"%") with (1, true). cbv iota. rewrite Hv. eexists. split; [reflexivity|].
    assert (E : wrap 64 (s64 (2 ^ 64 - 1 - n)) = 2 ^ 64 - 1 - n).
    { unfold swrap, wrap, LLONG_MAX in *. rewrite (Z.mod_small (2 ^ 64 - 1 - n)) by lia.
      destruct (Z.ltb_spec (2 ^ 64 - 1 - n) (2 ^ (64 - 1))); Z.to_euclidean_division_equations; lia. }
    rewrite E. unfold parse_is_percent, LLONG_MAX in *. split; [|lia]. lia.
  - change $"%" with [37]. split; rewrite list_elem_of_singleton; done.
  - change $"%" with [37]. split; [reflexivity|]. split; done.
Qed.
Lemma percent_roundtrip_witness : exists v, str_to_decimal 1024 false true (print_dec 20 ++ $"%") = Some v /\
  parse_is_percent (wrap 64 v) = true.
Proof.
  destruct (percent_roundtrip 1024 20) as (v & E & P & _); [unfold LLONG_MAX; lia|].
  exists v. split; [exact E|]. rewrite P. reflexivity.
Defined.

(** ** The values of a number option *)

(** A unit, or none; its value. *)
Definition unit_of (kb_base : Z) (u : cstr) (m : Z) : Prop :=
  (u = [] /\ m = 1) \/ exists u0 dec k, (u0, dec, k) ∈ units /\ map tolower u = u0 /\ m = unit_value kb_base dec k.

Lemma mult_comma kb s : chr "," ∈ s -> __get_mult_bytes kb (Some s) = (1, false).
Proof.
  intros Hc. unfold __get_mult_bytes.
  assert (F : forall w, forallb (fun x => negb (x =? chr ",")) w = true -> streq w (map tolower s) = false).
  { intros w Hw. apply bool_decide_eq_false_2. intros ->. rewrite forallb_forall in Hw.
    specialize (Hw (chr ",")). discriminate Hw. apply in_map_iff. exists (chr ","). split; [done|]. by apply list_elem_of_In. }
  by rewrite !F.
Qed.
Lemma suffix_mult_comma kb s : chr "," ∈ s -> suffix_mult kb s = (1, false).
Proof. intros Hc. unfold suffix_mult. destruct s as [|c s]; [done|]. destruct (_ || _); [by apply mult_comma|done]. Qed.

(** A unit starts no number and has none of the characters that separate values. *)
Definition sep_free (s : cstr) : Prop := (chr "," ∉ s) /\ (chr ":" ∉ s) /\ (chr "-" ∉ s).
Lemma sep_free_digits s : digits s -> sep_free s.
Proof. intros Hd. unfold digits in Hd. rewrite Forall_forall in Hd. split_and!; intros H; apply Hd in H; vm_compute in H; done. Qed.
Lemma sep_free_app a b : sep_free a -> sep_free b -> sep_free (a ++ b).
Proof. unfold sep_free. rewrite !not_elem_of_app. tauto. Qed.

Lemma units_letters : Forall (fun '(u, _, _) => forallb isalpha u = true) units.
Proof. repeat constructor. Qed.
Lemma unit_of_letters kb u m : unit_of kb u m -> letters u.
Proof.
  intros [[-> _]|(u0 & dec & k & Hu & Hl & _)]; [constructor|]. pose proof units_letters as A. rewrite Forall_forall in A.
  apply A in Hu. cbn in Hu. rewrite forallb_forall in Hu. unfold letters. apply Forall_forall. intros c Hc.
  rewrite <- (proj1 (tolower_alpha c)). apply Hu. rewrite <- Hl. apply in_map. by apply list_elem_of_In.
Qed.
Lemma letters_sep_free u : letters u -> sep_free u.
Proof. intros Hd. unfold letters in Hd. rewrite Forall_forall in Hd. split_and!; intros H; apply Hd in H; vm_compute in H; done. Qed.
Definition starts_no_number (s : cstr) : Prop :=
  match s with [] => True | c :: _ => isdigit c = false /\ c <> chr "+" /\ c <> chr "-" end.

Lemma unit_of_spec kb u m : 0 < kb <= 1024 -> unit_of kb u m ->
  suffix_mult kb u = (m, false) /\ no_x u /\ starts_no_number u /\ sep_free u.
Proof.
  intros Hk Hu. pose proof (letters_sep_free u (unit_of_letters kb u m Hu)) as Hs.
  destruct Hu as [[-> ->]|(u0 & dec & k & Hu & Hl & ->)].
  - split_and!; try done; try apply not_elem_of_nil; split; apply not_elem_of_nil.
  - destruct (suffix_mult_units kb u0 dec k u Hk Hu Hl) as (H1 & H2 & H3). done.
Qed.

(** An option whose number goes to [off1] for reads and to [off2] for writes. *)
Record number_option (o : fio_option) : Prop := {
  no_type : type o = FIO_OPT_INT; no_roff : roff1 o = 0 /\ roff2 o = 0; no_off2 : off2 o <> 0;
  no_cb : cb_val o = None; no_verify : verify o = None }.
Definition in_range (o : fio_option) (v : Z) : Prop :=
  (maxval o = 0 \/ v <= maxval o) /\ (minval o = 0 \/ minval o <= v).

Section number.
Context (kb : Z) (fl : cstr -> option fp) (o : fio_option).
Hypothesis Ho : number_option o.

Lemma handle_number s v first more curr d : str_to_decimal kb false true s = Some v -> in_range o v ->
  __handle_option kb false fl o (Some s) first more curr d =
    Some (0, (if more then fun d => d else store_int (off2 o) v) ((if first then store_int (off1 o) v else fun d => d) d)).
Proof.
  destruct Ho as [Ht [Hr1 Hr2] H2 Hc Hv]. intros Hs [Hmax Hmin]. unfold __handle_option, handle_type. rewrite Ht. unfold handle_val.
  rewrite Ht. cbn [bool_decide]. rewrite (bool_decide_eq_false_2 (FIO_OPT_INT = FIO_OPT_STR_VAL_TIME)) by done.
  rewrite (bool_decide_eq_true_2 (FIO_OPT_INT = FIO_OPT_INT)) by done. cbn [negb]. rewrite Hs, Hc, Hv.
  replace (negb (maxval o =? 0) && (v >? maxval o)) with false by lia.
  replace (negb (minval o =? 0) && (v <? minval o)) with false by lia.
  unfold put1, put2. rewrite Hr1, Hr2. cbn [Z.eqb negb]. rewrite (proj2 (Z.eqb_neq _ _) H2). by destruct first, more.
Qed.

Lemma find_sep_none s : sep_free s -> find_sep o s = (s, None).
Proof.
  intros (H1 & H2 & H3). unfold find_sep. rewrite (no_type _ Ho).
  rewrite (proj2 (strchr_none _ _) H1), (proj2 (strchr_none _ _) H2), (proj2 (strchr_none _ _) H3). by case_bool_decide.
Qed.
Lemma find_sep_comma a b : chr "," ∉ a -> b <> [] -> find_sep o (a ++ chr "," :: b) = (a ++ chr "," :: b, Some (length a)).
Proof.
  intros Ha Hb. unfold find_sep. rewrite (no_type _ Ho), (strchr_app _ _ _ Ha).
  destruct (Nat.eqb_spec (S (length a)) (length (a ++ chr "," :: b))) as [E|]; [|done].
  rewrite length_app in E. destruct b; [done|cbn in E; lia].
Qed.

(** One number is stored for reads and for writes. *)
Lemma one_number a u m d : 0 < kb <= 1024 -> 0 <= a < LLONG_MAX -> unit_of kb u m -> in_range o (s64 (a * m)) ->
  handle_option kb false fl o (Some (print_dec a ++ u)) d =
    Some (0, store_int (off2 o) (s64 (a * m)) (store_int (off1 o) (s64 (a * m)) d)).
Proof.
  intros Hk Ha Hu Hr. destruct (print_dec_ok a) as (Hd & Hne & Hv); [lia|].
  destruct (unit_of_spec kb u m Hk Hu) as (Hm & Hx & Hn & Hs). unfold handle_option. cbn [handle_loop default].
  rewrite find_sep_none by (apply sep_free_app; [by apply sep_free_digits|done]).
  rewrite (bool_decide_eq_false_2 (is_Some None)) by (by intros [? ?]).
  rewrite (handle_number _ (s64 (a * m))); [reflexivity| |done].
  rewrite str_to_decimal_digits by (done || lia). by rewrite Hm, Hv.
Qed.

Lemma two_numbers a u m b w k d : 0 < kb <= 1024 -> 0 <= a < LLONG_MAX -> 0 <= b < LLONG_MAX ->
  unit_of kb u m -> unit_of kb w k -> in_range o a -> in_range o (s64 (b * k)) ->
  handle_option kb false fl o (Some ((print_dec a ++ u) ++ chr "," :: (print_dec b ++ w))) d =
    Some (0, store_int (off2 o) (s64 (b * k)) (store_int (off1 o) a d)).
Proof.
  intros Hk Ha Hb Hu Hw Hra Hrb. destruct (print_dec_ok a) as (Hd & Hne & Hv); [lia|].
  destruct (print_dec_ok b) as (Hdb & Hneb & Hvb); [lia|].
  destruct (unit_of_spec kb u m Hk Hu) as (Hm & Hx & Hn & Hs). destruct (unit_of_spec kb w k Hk Hw) as (Hmw & Hxw & Hnw & Hsw).
  assert (S1 : sep_free (print_dec a ++ u)) by (apply sep_free_app; [by apply sep_free_digits|done]).
  assert (S2 : sep_free (print_dec b ++ w)) by (apply sep_free_app; [by apply sep_free_digits|done]).
  unfold handle_option. cbn [from_option id]. rewrite length_app. cbn [length]. rewrite Nat.add_succ_r. cbn [handle_loop].
  rewrite find_sep_comma; [|apply S1|destruct (print_dec b); done].
  rewrite (bool_decide_eq_true_2 (is_Some _)) by (by eexists).
  rewrite (handle_number _ a); [| |done].
  - cbn [mbind option_bind Nat.eqb Z.eqb negb]. rewrite drop_app_ge, Nat.sub_succ_l, Nat.sub_diag by lia. cbn [drop]. rewrite drop_0.
    rewrite find_sep_none by done. rewrite (bool_decide_eq_false_2 (is_Some None)) by (by intros [? ?]).
    rewrite (handle_number _ (s64 (b * k))); [reflexivity| |done]. rewrite str_to_decimal_digits by (done || lia). by rewrite Hmw, Hvb.
  - rewrite <- app_assoc, str_to_decimal_digits; [|done|done| |lia|].
    + rewrite suffix_mult_comma by (apply elem_of_app; right; left). rewrite Hv, Z.mul_1_r. f_equal.
      by apply s64_small.
    + apply no_x_app; [done|]. change (chr "," :: print_dec b ++ w) with ([chr ","] ++ print_dec b ++ w).
      apply no_x_app; [split; rewrite list_elem_of_singleton; done|]. apply no_x_app; [by apply digits_no_x|done].
    + destruct u as [|c u]; [done|apply Hn].
Qed.
End number.

(** A number given once, with any unit, is stored for reads and for writes.  Of two
    numbers with a comma between them the first is stored for reads and the second
    for writes, but the unit of the first is lost: what follows the digits of the
    first number is read up to the end of the whole value, which is no unit.
    "bs=4k,8k" gives 4 bytes for reads. *)
Theorem number_option_values kb fl o a u m b w k d : number_option o -> 0 < kb <= 1024 ->
  0 <= a < LLONG_MAX -> 0 <= b < LLONG_MAX -> unit_of kb u m -> unit_of kb w k ->
  in_range o a -> in_range o (s64 (a * m)) -> in_range o (s64 (b * k)) ->
  handle_option kb false fl o (Some (print_dec a ++ u)) d =
    Some (0, store_int (off2 o) (s64 (a * m)) (store_int (off1 o) (s64 (a * m)) d)) /\
  handle_option kb false fl o (Some ((print_dec a ++ u) ++ chr "," :: (print_dec b ++ w))) d =
    Some (0, store_int (off2 o) (s64 (b * k)) (store_int (off1 o) a d)).
Proof. intros. split; [by apply one_number|by apply (two_numbers kb fl o) with m]. Qed.

(** "bs", with places 1 and 2. *)
Definition bs_option : fio_option :=
  Build_fio_option $"bs" (Some $"blocksize") FIO_OPT_INT 1 2 0 0 0 0 0 0 0 1 false 0 None None None None [] None 0 NaN NaN.
Definition no_floats (s : cstr) : option fp := None.
Definition store0 : store := Build_store ∅ ∅ ∅ ∅.
Lemma number_option_values_witness :
  handle_option 1024 false no_floats bs_option (Some $"4k,8k") store0 = Some (0, store_int 2 8192 (store_int 1 4 store0)).
Proof.
  destruct (number_option_values 1024 no_floats bs_option 4 $"k" 1024 8 $"k" 1024 store0) as [_ H];
    [by constructor|lia|unfold LLONG_MAX; lia|unfold LLONG_MAX; lia| | | | | |exact H].
  1,2: right; exists $"k", false, 1%nat; split; [left|split; reflexivity].
  all: split; [by left|right; vm_compute; discriminate].
Defined.

(** ** The values of a string option *)

(** The value of an argument up to its first colon. *)
Definition arg_name (s : cstr) : cstr := take (opt_len s) s.
Lemma vp_match_spec s vp : vp_match s vp = true <-> arg_name s = take (opt_len s) (ival vp).
Proof. unfold vp_match, strneq, arg_name. rewrite bool_decide_eq_true. split; done. Qed.
Lemma opt_len_le s : (opt_len s <= length s)%nat.
Proof.
  unfold opt_len. destruct (strchr s (chr ":")) as [i|] eqn:E; cbn; [|done].
  apply strchr_some in E as (a & b & -> & <- & _). rewrite length_app. cbn. lia.
Qed.

(** A match is at least as long as the argument; one that is not longer is the
    argument. *)
Lemma vp_match_len s vp : vp_match s vp = true -> (opt_len s <= length (ival vp))%nat /\
  (length (ival vp) = opt_len s -> ival vp = arg_name s).
Proof.
  rewrite vp_match_spec. intros E. pose proof (f_equal length E) as L. unfold arg_name in L. rewrite !length_take in L.
  pose proof (opt_len_le s). split; [lia|]. intros El. rewrite E. symmetry. apply take_ge. lia.
Qed.

Lemma store_matches_app o s l1 vp l2 d : vp_match s vp = true -> Forall (fun x => vp_match s x = false) l2 ->
  store_matches o s (l1 ++ vp :: l2) d = store_value o vp (store_matches o s l1 d).
Proof.
  intros Hv Hl. unfold store_matches. rewrite foldl_app. cbn. rewrite Hv.
  generalize (store_value o vp (foldl (fun d vp => if vp_match s vp then store_value o vp d else d) d l1)).
  induction Hl as [|x l Hx Hl IH]; intros d'; cbn; [done|]. rewrite Hx. apply IH.
Qed.

(** The last of the values that match. *)
Lemma last_match s l : existsb (vp_match s) l = true ->
  exists l1 vp l2, l = l1 ++ vp :: l2 /\ vp_match s vp = true /\ Forall (fun x => vp_match s x = false) l2.
Proof.
  induction l as [|x l IH]; cbn; [done|]. destruct (existsb (vp_match s) l) eqn:E.
  - intros _. destruct IH as (l1 & vp & l2 & -> & Hv & Hl); [done|]. by exists (x :: l1), vp, l2.
  - rewrite orb_false_r. intros Hx. exists [], x, l. split_and!; [done|done|]. apply Forall_forall. intros y Hy.
    destruct (vp_match s y) eqn:Ey; [|done]. rewrite <- E. symmetry. apply existsb_exists. exists y. split; [by apply list_elem_of_In|done].
Qed.

(** What is stored before is overwritten. *)
Lemma store_matches_over o s l v d : roff1 o = 0 -> off1 o <> 0 ->
  store_int (off1 o) v (store_matches o s l d) = store_int (off1 o) v d.
Proof.
  intros Hr Ho. unfold store_matches. revert d. induction l as [|x l IH]; intros d; [done|]. cbn [foldl]. rewrite IH.
  destruct (vp_match s x); [|done]. unfold store_value. rewrite Hr. cbn [Z.eqb negb]. rewrite (proj2 (Z.eqb_neq _ _) Ho).
  unfold store_int, or_int. destruct d, (vor x); cbn; by rewrite insert_insert_eq.
Qed.

(** The values an argument is compared with: up to its first colon, and only as many
    characters as it has.  The value stored is that of a shortest one of those the
    argument is a prefix of, so an argument that is the name of a value gets the
    number of that name, however many longer values it abbreviates; an argument
    that abbreviates several values is not rejected.  Without any match the option
    is rejected and nothing is stored. *)
Theorem string_option_takes_shortest o s d : roff1 o = 0 -> off1 o <> 0 -> cb_str o = None ->
  Forall (fun vp => vor vp = false) (posval_entries PARSE_MAX_VP (posval o)) -> posval_entries PARSE_MAX_VP (posval o) <> [] ->
  let vps := posval_entries PARSE_MAX_VP (posval o) in
  (existsb (vp_match s) vps = false -> handle_str o s d = (1, d)) /\
  (existsb (vp_match s) vps = true -> exists vp, vp ∈ vps /\ vp_match s vp = true /\
     handle_str o s d = (0, store_int (off1 o) (oval vp) d) /\
     forall x, x ∈ vps -> vp_match s x = true -> (length (ival vp) <= length (ival x))%nat /\
       (ival x = arg_name s -> ival vp = arg_name s)).
Proof.
  intros Hr Ho Hc Hv Hne vps. destruct (sort_desc_spec (fun vp => Z.of_nat (length (ival vp))) vps) as [Hs Hp].
  change (sort_desc _ vps) with (posval_sort o) in Hs, Hp. fold vps in Hv, Hne.
  assert (Ee : existsb (vp_match s) (posval_sort o) = existsb (vp_match s) vps).
  { apply eq_true_iff_eq. rewrite !existsb_exists. setoid_rewrite <- list_elem_of_In. by setoid_rewrite Hp. }
  assert (Hne' : posval_sort o <> []) by (intros E; rewrite E in Hp; by apply Permutation_nil_l in Hp).
  unfold handle_str. rewrite Ee, Hc. split; intros E; rewrite E; cbn [Z.eqb andb].
  - rewrite bool_decide_eq_false_2 by done. cbn [negb]. f_equal. unfold store_matches.
    rewrite <- Ee in E. clear -E. revert d. induction (posval_sort o) as [|x l IH]; intros d; [done|]. cbn in E |- *.
    apply orb_false_elim in E as [-> E]. by apply IH.
  - rewrite <- Ee in E. destruct (last_match s _ E) as (l1 & vp & l2 & El & Hm & Hl2).
    assert (Hin : vp ∈ vps) by (rewrite <- Hp, El; apply elem_of_app; right; left). exists vp. split_and!; [done|done| |].
    + rewrite El, store_matches_app by done. f_equal. unfold store_value. rewrite Hr. cbn [Z.eqb negb].
      rewrite (proj2 (Z.eqb_neq _ _) Ho). rewrite Forall_forall in Hv. rewrite (Hv vp Hin). by apply store_matches_over.
    + intros x Hx Mx. assert (Lx : (length (ival vp) <= length (ival x))%nat).
      { rewrite <- Hp, El in Hx. apply elem_of_app in Hx as [Hx|Hx].
        - rewrite El in Hs. apply sorted_desc_split in Hs. rewrite Forall_forall in Hs. apply Hs in Hx. cbn in Hx. lia.
        - apply elem_of_cons in Hx as [->|Hx]; [done|]. rewrite Forall_forall in Hl2. by rewrite (Hl2 x Hx) in Mx. }
      split; [done|]. intros Ex. destruct (vp_match_len s vp Hm) as [L Hq]. apply Hq.
      rewrite Ex in Lx. unfold arg_name in Lx. rewrite length_take in Lx. lia.
Qed.

(** Some of the values of "rw". *)
Definition rw_option : fio_option :=
  let v s n := Build_value_pair s n false None in
  Build_fio_option $"rw" None FIO_OPT_STR 1 0 0 0 0 0 0 0 0 0 false 0 None None None None
    [v $"read" 0; v $"write" 1; v $"randread" 4; v $"rw" 2; v $"readwrite" 2] None 0 NaN NaN.
Lemma string_option_takes_shortest_witness :
  exists vp, handle_str rw_option $"read" store0 = (0, store_int 1 (oval vp) store0) /\ ival vp = $"read".
Proof.
  destruct (string_option_takes_shortest rw_option $"read" store0 eq_refl) as [_ H]; [done|done|by repeat constructor|done|].
  destruct H as (vp & _ & _ & E & H); [reflexivity|]. exists vp. split; [exact E|].
  apply (H (Build_value_pair $"read" 0 false None)); [left|reflexivity|reflexivity].
Defined.

(** ** [string_distance] *)

(** [edits a b n]: [n] characters are deleted, inserted or replaced to make [b] of
    [a]. *)
Inductive edits : cstr -> cstr -> Z -> Prop :=
  | edits_nil : edits [] [] 0
  | edits_keep c a b n : edits a b n -> edits (c :: a) (c :: b) n
  | edits_replace c d a b n : edits a b n -> edits (c :: a) (d :: b) (n + 1)
  | edits_delete c a b n : edits a b n -> edits (c :: a) b (n + 1)
  | edits_insert d a b n : edits a b n -> edits a (d :: b) (n + 1).

Lemma edits_app a b n a' b' n' : edits a b n -> edits a' b' n' -> edits (a ++ a') (b ++ b') (n + n').
Proof.
  intros H H'. induction H; cbn; try (rewrite <- Z.add_assoc, (Z.add_comm 1), Z.add_assoc); by try constructor.
Qed.
Lemma edits_rev a b n : edits a b n -> edits (rev a) (rev b) n.
Proof.
  induction 1; cbn.
  - constructor.
  - rewrite <- (Z.add_0_r n). apply edits_app; [done|]. apply edits_keep, edits_nil.
  - apply edits_app; [done|]. apply (edits_replace _ _ _ _ 0), edits_nil.
  - rewrite <- (app_nil_r (rev b)). apply edits_app; [done|]. apply (edits_delete _ _ _ 0), edits_nil.
  - rewrite <- (app_nil_r (rev a)). apply edits_app; [done|]. apply (edits_insert _ _ _ 0), edits_nil.
Qed.

(** The distance by recursion on both strings. *)
Fixpoint lev (a b : cstr) : Z :=
  match a with
  | [] => length b
  | c :: a' =>
      (fix lev1 (b : cstr) : Z :=
         match b with
         | [] => length a
         | d :: b' => Z.min (lev a' b + 1) (Z.min (lev1 b' + 1) (if negb (c =? d) then lev a' b' + 1 else lev a' b'))
         end) b
  end.
Lemma lev_cons c a d b : lev (c :: a) (d :: b) =
  Z.min (lev a (d :: b) + 1) (Z.min (lev (c :: a) b + 1) (if negb (c =? d) then lev a b + 1 else lev a b)).
Proof. done. Qed.
Lemma lev_nil_r a : lev a [] = length a.
Proof. by destruct a. Qed.

Lemma lev_edits a : forall b, edits a b (lev a b).
Proof.
  induction a as [|c a IH].
  - induction b as [|d b IHb]; [constructor|]. cbn in *. replace (Z.of_nat (S (length b))) with (length b + 1) by lia. by constructor.
  - induction b as [|d b IHb].
    + cbn. replace (Z.of_nat (S (length a))) with (length a + 1) by lia. constructor. rewrite <- lev_nil_r. apply IH.
    + rewrite lev_cons. apply Z.min_case; [by constructor|]. apply Z.min_case; [by constructor|].
      destruct (Z.eqb_spec c d) as [->|]; cbn; by constructor.
Qed.

(** One more character is at most one more edit. *)
Lemma lev_step a : (forall b d, lev a (d :: b) <= lev a b + 1) /\ (forall b c, lev (c :: a) b <= lev a b + 1).
Proof.
  split.
  - intros b d. destruct a as [|c a]; [cbn; lia|]. rewrite lev_cons. lia.
  - intros b c. destruct b as [|d b]; [rewrite !lev_nil_r; cbn; lia|]. rewrite lev_cons. lia.
Qed.
Lemma lev_diag a : forall b c, lev (c :: a) (c :: b) <= lev a b.
Proof. intros b c. rewrite lev_cons, Z.eqb_refl. cbn. lia. Qed.
Lemma lev_least a b n : edits a b n -> lev a b <= n.
Proof.
  induction 1 as [|c a b n H IH|c d a b n H IH|c a b n H IH|d a b n H IH]; [done| | | |].
  - pose proof (lev_diag a b c). lia.
  - rewrite lev_cons. destruct (negb _); lia.
  - pose proof (proj2 (lev_step a) b c). lia.
  - pose proof (proj1 (lev_step a) b d). lia.
Qed.

(** A row of the table: the distances of [ra] to the longer and longer prefixes of
    the other string, both strings reversed. *)
Fixpoint row (ra pre s2 : cstr) : list Z :=
  lev ra pre :: match s2 with [] => [] | d :: s2 => row ra (d :: pre) s2 end.
Lemma row_head ra pre s2 : exists l, row ra pre s2 = lev ra pre :: l.
Proof. destruct s2; by eexists. Qed.

Lemma lev_bound a : forall b, 0 <= lev a b <= length a + length b.
Proof.
  induction a as [|c a IH]; intros b; [cbn; lia|]. induction b as [|d b IHb]; [rewrite lev_nil_r; cbn; lia|].
  rewrite lev_cons. pose proof (IH (d :: b)). pose proof (IH b). cbn [length] in *. destruct (negb (c =? d)); lia.
Qed.
Lemma row_loop_ok c ra : forall s2 pre, length (c :: ra) + length pre + length s2 < 2 ^ 32 ->
  row_loop c s2 (row ra pre s2) (lev (c :: ra) pre) = tail (row (c :: ra) pre s2).
Proof.
  induction s2 as [|d s2 IH]; intros pre Hl; [done|]. specialize (IH (d :: pre)). cbn [row tail].
  destruct (row_head ra (d :: pre) s2) as [l El]. destruct (row_head (c :: ra) (d :: pre) s2) as [m Em].
  rewrite El, Em in *. cbn [row_loop tail].
  pose proof (lev_bound ra (d :: pre)). pose proof (lev_bound (c :: ra) pre). pose proof (lev_bound ra pre). cbn [length] in *.
  rewrite !(wrap_small 32) by (unfold is_word; lia). rewrite lev_cons in *. rewrite IH by lia. done.
Qed.
Lemma next_row_ok c ra s2 : length (c :: ra) + length s2 < 2 ^ 32 -> next_row c s2 (row ra [] s2) = row (c :: ra) [] s2.
Proof.
  intros Hl. unfold next_row. replace (u32 (at_index (row ra [] s2) 0 + 1)) with (lev (c :: ra) []).
  2: { rewrite lev_nil_r. cbn [length] in Hl. destruct s2; cbn [row at_index nth]; rewrite lev_nil_r, wrap_small; unfold is_word; cbn [length]; lia. }
  rewrite row_loop_ok by (cbn in *; lia). by destruct s2.
Qed.
Lemma rows_ok s2 : forall s1 ra, length s1 + length ra + length s2 < 2 ^ 32 ->
  foldl (fun p c => next_row c s2 p) (row ra [] s2) s1 = row (rev s1 ++ ra) [] s2.
Proof.
  induction s1 as [|c s1 IH]; intros ra Hl; [done|]. cbn [foldl rev length] in *.
  rewrite next_row_ok, IH, <- app_assoc by (cbn; lia). reflexivity.
Qed.
Lemma first_row_from : forall s2 pre, length pre + length s2 < 2 ^ 32 ->
  map (fun i => u32 (Z.of_nat i)) (seq (length pre) (S (length s2))) = row [] pre s2.
Proof.
  induction s2 as [|d s2 IH]; intros pre Hl; [cbn; f_equal; apply wrap_small; unfold is_word; cbn in Hl; lia|].
  specialize (IH (d :: pre)). cbn [length seq map row lev] in *. rewrite <- IH by lia. f_equal. apply wrap_small. unfold is_word. lia.
Qed.
Lemma first_row_ok s2 : length s2 < 2 ^ 32 -> first_row (length s2) = row [] [] s2.
Proof. intros Hl. apply (first_row_from s2 []). cbn. lia. Qed.
Lemma row_last ra : forall s2 pre, at_index (row ra pre s2) (length s2) = lev ra (rev s2 ++ pre).
Proof.
  induction s2 as [|d s2 IH]; intros pre; [done|]. cbn [row length rev]. rewrite <- app_assoc. apply (IH (d :: pre)).
Qed.

(** C30: The two rows of [string_distance] compute the least number of characters to
    delete, insert or replace to make one string of the other, for strings of together
    fewer than [2^31] characters. *)
Theorem string_distance_least s1 s2 : length s1 + length s2 < 2 ^ 31 ->
  edits s1 s2 (string_distance s1 s2) /\ forall n, edits s1 s2 n -> string_distance s1 s2 <= n.
Proof.
  intros Hl. assert (E : string_distance s1 s2 = lev (rev s1) (rev s2)).
  { unfold string_distance. rewrite first_row_ok, rows_ok, row_last, !app_nil_r by (cbn; lia).
    pose proof (lev_bound (rev s1) (rev s2)) as Hb. rewrite !length_rev in Hb.
    unfold swrap. rewrite Z.mod_small by lia. destruct (Z.ltb_spec (lev (rev s1) (rev s2)) (2 ^ (32 - 1))); lia. }
  rewrite E. split.
  - rewrite <- (rev_involutive s1) at 1. rewrite <- (rev_involutive s2) at 1. apply edits_rev, lev_edits.
  - intros n H. by apply lev_least, edits_rev.
Qed.
Lemma string_distance_least_witness : string_distance $"rwmix" $"rxmixread" = 5 /\ ~ edits $"rwmix" $"rxmixread" 4.
Proof.
  assert (E : string_distance $"rwmix" $"rxmixread" = 5) by (vm_compute; reflexivity). split; [exact E|].
  intros H. destruct (string_distance_least $"rwmix" $"rxmixread") as [_ L]; [cbn; lia|]. apply L in H. rewrite E in H. lia.
Defined.

(** ** Blanks and unknown options *)
Lemma cut_at_none s c : c ∉ s -> cut_at s c = s.
Proof. intros H. unfold cut_at. by rewrite (proj2 (strchr_none _ _) H). Qed.
Lemma at_index_app_l a b i : (i < length a)%nat -> at_index (a ++ b) i = at_index a i.
Proof. intros. by apply app_nth1. Qed.
Lemma at_index_app_r a b i : (length a <= i)%nat -> at_index (a ++ b) i = at_index b (i - length a).
Proof. intros. by apply app_nth2. Qed.

(** The blanks at the end, and the NUL, are passed over. *)
Lemma last_kept_blanks name b : name <> [] -> blank (at_index name (length name - 1)) = false -> Forall (fun c => blank c = true) b ->
  forall j, (length name - 1 <= j <= length name + length b)%nat ->
  last_kept (name ++ b) j = (length name - 1)%nat.
Proof.
  intros Hn Hb Hbl. assert (L : (0 < length name)%nat) by (destruct name; cbn; [done|lia]).
  induction j as [|j IH]; intros Hj; cbn [last_kept]; [lia|].
  destruct (decide (S j < length name)%nat) as [Hlt|Hge].
  - replace (S j) with (length name - 1)%nat by lia. rewrite at_index_app_l by lia. by rewrite Hb.
  - rewrite at_index_app_r by lia. assert (B : blank (at_index b (S j - length name)) = true).
    { unfold at_index. destruct (nth_in_or_default (S j - length name) b 0) as [H | ->]; [|done].
      apply list_elem_of_In in H. rewrite Forall_forall in Hbl. by apply Hbl. }
    rewrite B. apply IH. lia.
Qed.

(** A name: not empty, without the characters the parser looks for, and without a
    blank at its end. *)
Definition option_name (s : cstr) : Prop :=
  s <> [] /\ (chr "=" ∉ s) /\ (chr ";" ∉ s) /\ (chr "#" ∉ s) /\ (0 ∉ s) /\ blank (at_index s (length s - 1)) = false.
Lemma not_in_blanks c name k : c ∉ name -> c <> 32 -> c ∉ name ++ replicate k 32.
Proof. intros H1 H2. rewrite not_elem_of_app. split; [done|]. rewrite elem_of_replicate. by intros [? _]. Qed.

Lemma strip_name name k : option_name name -> strip_blank_end (name ++ replicate k 32) = name.
Proof.
  intros (Hn & _ & Hs & Hh & _ & Hb). unfold strip_blank_end.
  destruct (Nat.eqb_spec (length (name ++ replicate k 32)) 0) as [E|_]; [rewrite length_app in E; destruct name; cbn in E; [done|lia]|].
  rewrite (cut_at_none _ (chr ";")), (cut_at_none _ (chr "#")) by (by apply not_in_blanks). rewrite last_kept_blanks; [|done|done|by apply Forall_replicate|rewrite length_app; lia].
  assert (0 < length name)%nat by (destruct name; cbn; [done|lia]). rewrite take_app_le by lia. apply take_ge. lia.
Qed.

Lemma c_string_app a b : 0 ∉ a -> c_string (a ++ 0 :: b) = a.
Proof. intros H. unfold c_string. rewrite strchr_app by done. apply take_app_length. Qed.

Lemma list_insert_middle (a : list Z) x y b : <[length a := y]> (a ++ x :: b) = a ++ y :: b.
Proof. rewrite <- (Nat.add_0_r (length a)). by rewrite insert_app_r. Qed.

(** The buffer after [get_option]: the NUL after the name, the blanks that are left,
    the NUL of the "=" and the value. *)
Lemma cut_option_layout name k v : option_name name ->
  cut_option (name ++ replicate (S k) 32 ++ chr "=" :: v) (length name + S k) =
    name ++ 0 :: replicate k 32 ++ 0 :: v ++ [0].
Proof.
  intros H. pose proof H as (Hn & _ & Hs & Hh & _ & Hb). assert (L : (0 < length name)%nat) by (destruct name; cbn; [done|lia]).
  unfold cut_option. rewrite app_assoc.
  rewrite (take_app_length' (name ++ replicate (S k) 32)) by (rewrite length_app, length_replicate; lia).
  destruct (Nat.eqb_spec (length (name ++ replicate (S k) 32)) 0) as [E|_]; [rewrite length_app in E; lia|].
  rewrite (cut_at_none _ (chr ";")), (cut_at_none _ (chr "#")) by (by apply not_in_blanks).
  rewrite (proj2 (strchr_none _ (chr "#"))) by (by apply not_in_blanks).
  rewrite (proj2 (strchr_none _ (chr ";"))) by (by apply not_in_blanks). cbn [nul_at].
  rewrite last_kept_blanks; [|done|done|by apply Forall_replicate|rewrite length_app; lia].
  replace (S (length name - 1)) with (length name + 0)%nat by lia.
  rewrite <- app_assoc, <- !app_comm_cons, <- app_assoc, !insert_app_r. f_equal.
  change (replicate (S k) 32) with (32 :: replicate k 32). cbn [app list_insert]. cbn. f_equal.
  pose proof (list_insert_middle (replicate k 32) (chr "=") 0 (v ++ [0])) as E. rewrite length_replicate in E. exact E.
Qed.
Lemma cut_option_plain name v : option_name name -> cut_option (name ++ chr "=" :: v) (length name) = name ++ 0 :: v ++ [0].
Proof.
  intros (Hn & _ & Hs & Hh & _ & Hb). assert (L : (0 < length name)%nat) by (destruct name; cbn; [done|lia]).
  unfold cut_option. rewrite take_app_length. destruct (Nat.eqb_spec (length name) 0) as [E|_]; [lia|].
  rewrite (cut_at_none name (chr ";")), (cut_at_none name (chr "#")) by done.
  rewrite (proj2 (strchr_none _ (chr "#"))), (proj2 (strchr_none _ (chr ";"))) by done. cbn [nul_at].
  pose proof (last_kept_blanks name [] Hn Hb (Forall_nil_2 _) (length name) ltac:(cbn; lia)) as E. rewrite app_nil_r in E. rewrite E.
  replace (S (length name - 1)) with (length name) by lia. by rewrite <- app_assoc, <- app_comm_cons, !list_insert_middle.
Qed.

(** The value moved over the blanks. *)
Lemma restore_moved name k v : (0 ∉ name) -> (0 ∉ v) -> (S k <= length v)%nat ->
  restore_option (name ++ 0 :: replicate k 32 ++ 0 :: v ++ [0]) (S (length name + S k)) =
    name ++ chr "=" :: v ++ drop (length v - S k) v ++ [0].
Proof.
  intros Hn Hv Hk. unfold restore_option. rewrite c_string_app by done.
  assert (Ed : drop (S (length name + S k)) (name ++ 0 :: replicate k 32 ++ 0 :: v ++ [0]) = v ++ [0]).
  { rewrite drop_app_ge by lia. replace (S (length name + S k) - length name)%nat with (S (k + 1)) by lia. cbn [drop].
    rewrite drop_app_ge by (rewrite length_replicate; lia). rewrite length_replicate. by replace (k + 1 - k)%nat with 1%nat by lia. }
  rewrite Ed, c_string_app by done. destruct (Nat.eqb_spec (S (length name)) (S (length name + S k))) as [E|_]; [lia|].
  replace (take (S (length name)) _) with (name ++ [0]).
  2: { rewrite take_app_ge by lia. by replace (S (length name) - length name)%nat with 1%nat by lia. }
  replace (drop (S (length name) + length v) _) with (drop (length v - S k) v ++ [0]).
  2: { rewrite drop_app_ge by lia. replace (S (length name) + length v - length name)%nat with (S (length v)) by lia. cbn [drop].
       rewrite drop_app_ge by (rewrite length_replicate; lia). rewrite length_replicate.
       replace (length v - k)%nat with (S (length v - S k)) by lia. cbn [drop]. by rewrite drop_app_le by lia. }
  by rewrite <- app_assoc, <- app_comm_cons, list_insert_middle.
Qed.

(** An option that is not known, with [k] blanks before its "=", is to be given back
    as it was for the options of the engine to be looked through.  Without a blank
    it is; with up to as many blanks as its value has characters, the last [k]
    characters of the value are repeated, since the value is moved over the blanks
    without its NUL. *)
Theorem unknown_option_gets_tail kb fl options name k v d : option_name name -> (0 ∉ v) -> (k <= length v)%nat ->
  find_option options name = None ->
  parse_option kb false fl (name ++ replicate k 32 ++ chr "=" :: v) options d =
    Some (1, None, name ++ chr "=" :: v ++ drop (length v - k) v, d).
Proof.
  intros Hn Hv Hk Hf. pose proof Hn as (Hne & He & _ & _ & H0 & _).
  assert (Hp : strchr (name ++ replicate k 32 ++ chr "=" :: v) (chr "=") = Some (length name + k)%nat).
  { rewrite app_assoc, strchr_app by (by apply not_in_blanks). by rewrite length_app, length_replicate. }
  unfold parse_option, get_option. rewrite Hp. rewrite app_assoc at 1.
  rewrite (take_app_length' (name ++ replicate k 32)) by (rewrite length_app, length_replicate; lia).
  rewrite strip_name, Hf by done. cbn [mbind option_bind]. do 2 f_equal. do 2 f_equal.
  assert (HN : 0 ∉ name ++ chr "=" :: v ++ drop (length v - k) v).
  { rewrite not_elem_of_app, not_elem_of_cons, not_elem_of_app. split_and!; [done|done|done|].
    intros Hd. apply Hv. rewrite <- (take_drop (length v - k) v). apply elem_of_app. by right. }
  destruct k as [|k].
  - cbn [replicate app]. rewrite Nat.add_0_r, Nat.sub_0_r, drop_all, app_nil_r, cut_option_plain by done.
    unfold restore_option. rewrite c_string_app, Nat.eqb_refl, list_insert_middle by done.
    rewrite app_comm_cons, app_assoc, c_string_app; [done|]. rewrite Nat.sub_0_r, drop_all, app_nil_r in HN. done.
  - rewrite cut_option_layout, restore_moved by done.
    rewrite app_assoc, app_comm_cons, app_assoc, c_string_app; [done|]. done.
Qed.
Lemma unknown_option_gets_tail_witness :
  parse_option 1024 false no_floats $"cpuload =50" [bs_option] store0 = Some (1, None, $"cpuload=500", store0).
Proof.
  apply (unknown_option_gets_tail 1024 no_floats [bs_option] $"cpuload" 1 $"50" store0); [|vm_compute; intros H|cbn; lia|reflexivity].
  - split_and!; [done| | | | |reflexivity]; intros H; vm_compute in H; repeat (apply elem_of_cons in H as [H|H]; [discriminate H|]); by apply elem_of_nil in H.
  - repeat (apply elem_of_cons in H as [H|H]; [discriminate H|]); by apply elem_of_nil in H.
Defined.

(** ** The loop over the parts of a value ends *)

(** The calls that are defined: a string option without values takes no argument, an
    option that stores one of its values has a place for it, a range ends within its
    buffer, and a number fits. *)
Definition safe_call (o : fio_option) (s : option cstr) : Prop :=
  match type o, s with
  | FIO_OPT_STR, None => posval_sort o = []
  | FIO_OPT_STR_STORE, Some _ => posval o = [] \/ is_Some (cb_str o) \/ roff1 o <> 0 \/ off1 o <> 0
  | FIO_OPT_RANGE, Some s => is_Some (range_buf s)
  | (FIO_OPT_BOOL | FIO_OPT_STR_SET), Some s => is_Some (check_int s)
  | _, _ => True
  end.

Lemma handle_type_safe kb e fl o s first more curr d : safe_call o s -> is_Some (handle_type kb e fl o s first more curr d).
Proof.
  unfold safe_call, handle_type. intros H. destruct s as [s|], (type o) eqn:Et; try (by eexists).
  - unfold handle_store. destruct (cb_str o); [by eexists|]. destruct H as [Hp|[[? ?]|Hs]]; [|done|].
    + rewrite Hp. by eexists.
    + destruct (posval o); [by eexists|]. destruct (posval_sort o); [by eexists|].
      destruct (negb (roff1 o =? 0)) eqn:E1; [|destruct (negb (off1 o =? 0)) eqn:E2; [|lia]]; cbn [mbind option_bind];
        (destruct (list_find _ _) as [[? vp]|]; [|by eexists]; destruct (strchr _ _); [|by eexists]; destruct (vp_cb vp); by eexists).
  - unfold handle_range. destruct H as [tmp ->]. by eexists.
  - unfold handle_int. destruct H as [il ->]. by eexists.
  - unfold handle_int. destruct H as [il ->]. by eexists.
  - unfold handle_str_null. rewrite H. by eexists.
Qed.
Lemma __handle_option_safe kb e fl o s first more curr d : safe_call o s -> is_Some (__handle_option kb e fl o s first more curr d).
Proof.
  intros H. unfold __handle_option. destruct (handle_type_safe kb e fl o s first more curr d H) as [[r d'] ->]. by eexists.
Qed.

Lemma find_sep_bound o s a i : find_sep o s = (a, Some i) -> (i < length s)%nat.
Proof.
  assert (G : forall c j, strchr s c = Some j -> (j < length s)%nat).
  { intros c j H. apply strchr_some in H as (x & y & -> & <- & _). rewrite length_app. cbn. lia. }
  unfold find_sep. intros H. destruct (type o);
    repeat match goal with
    | H : (if _ then _ else _, _) = _ |- _ => injection H as _ H
    | H : (_, _) = (_, _) |- _ => injection H as _ H
    | H : context [match strchr s ?c with _ => _ end] |- _ => destruct (strchr s c) eqn:?
    | H : context [bool_decide ?P] |- _ => destruct (bool_decide P)
    end; try discriminate; simplify_eq; eauto.
Qed.
(** The arguments of the rounds. *)
Fixpoint parts (fuel : nat) (o : fio_option) (s : cstr) : list cstr :=
  match fuel with
  | O => []
  | S fuel => let '(a, sep) := find_sep o s in
      a :: match sep with Some i => parts fuel o (drop (S i) s) | None => [] end
  end.
Lemma handle_loop_safe kb e fl o fuel : forall s done ret d, (length s < fuel)%nat ->
  Forall (fun a => safe_call o (Some a)) (parts fuel o s) ->
  is_Some (handle_loop kb e fl fuel o (Some s) done ret d).
Proof.
  induction fuel as [|fuel IH]; intros s done ret d Hf Hs; [lia|]. cbn [handle_loop]. cbn [parts] in Hs.
  destruct (find_sep o s) as [a i] eqn:E. apply Forall_cons in Hs as [Ha Hs].
  destruct (__handle_option_safe kb e fl o (Some a) (done =? 0)%nat (bool_decide (is_Some i)) done d Ha) as [[r d'] ->]. cbn [mbind option_bind].
  destruct i as [i|]; [|by eexists]. apply IH; [|done]. rewrite length_drop. apply find_sep_bound in E. lia.
Qed.

(** [handle_option] returns: each round starts after the separator of the one before,
    and nothing undefined is done if no round does. *)
Theorem handle_option_returns kb e fl o s d :
  match s with Some s => Forall (fun a => safe_call o (Some a)) (parts (S (length s)) o s) | None => safe_call o None end ->
  exists ret d', handle_option kb e fl o s d = Some (ret, d').
Proof.
  intros Hs. assert (G : is_Some (handle_option kb e fl o s d)); [|destruct G as [[r d'] G]; by exists r, d'].
  unfold handle_option. destruct s as [s|]; [by apply handle_loop_safe; cbn; [lia|]|]. cbn [handle_loop].
  destruct (__handle_option_safe kb e fl o None (0 =? 0)%nat (bool_decide (is_Some (@None nat))) 0 d Hs) as [[r d'] ->]. by eexists.
Qed.
Lemma handle_option_returns_witness : exists ret d', handle_option 1024 false no_floats bs_option (Some $"1,2,,3:x") store0 = Some (ret, d').
Proof. apply (handle_option_returns 1024 false no_floats bs_option). repeat constructor. Defined.
(** A range of 127 characters without a comma has no end in the buffer of the code. *)
Lemma long_range_undefined kb e fl o d : type o = FIO_OPT_RANGE -> handle_type kb e fl o (Some (replicate 127 (chr "1"))) true false 0 d = None.
Proof. intros Ht. unfold handle_type. rewrite Ht. reflexivity. Qed.

(** The option "percentile_list" as the table has it, with the range 0 to 100, and after
    [options_init]: the range is gone, and 101 is accepted. *)
Definition percentile_option : fio_option :=
  Build_fio_option $"percentile_list" None FIO_OPT_FLOAT_LIST 1 2 0 0 0 0 0 0 0 0 false 0 None None None None [] None 20 (Fin 100) (Fin 0).
Lemma float_range_dropped kb e fl s d : fl s = Some (Fin 101) -> strchr s (chr ":") = None ->
  handle_option kb e fl percentile_option (Some s) d = Some (1, store_int 2 1 d) /\
  handle_option kb e fl (option_init percentile_option) (Some s) d =
    Some (0, store_int 2 1 d <| floats := <[(1, 0%nat) := Fin 101]> (floats (store_int 2 1 d)) |>).
Proof.
  intros Hf Hc. unfold handle_option. cbn [handle_loop from_option id]. unfold find_sep. cbn [type percentile_option option_init with_limits].
  rewrite Hc. unfold __handle_option, handle_type, handle_float_list. cbn -[store_int]. rewrite Hf. cbn -[store_int]. done.
Qed.

End Parse.
