(* ===== verification/JobFile.v ===== *)
(** * Job files

    [src/init.c]: the parser of job files, [parse_jobs_ini].  It is written against
    what it uses of the table of jobs, the class [JobTable]; [Jobs.v] has the table.
    The lines come from [strsep] on a buffer or from [fgets]. *)
From S2P Require Import Prelude CString Parse.
From stdpp Require Import strings.
Local Open Scope Z_scope.
Local Open Scope cstr_scope.

Module JobFile.
Import CString.
Import Parse(strip_blank_front, strip_blank_end, blank, cut_at, last_kept).

(** ** Lines *)

(** The strings [strsep(&file, "\n")] returns, up to the null pointer. *)
Fixpoint strsep_lines (s : cstr) : list cstr :=
  match s with
  | [] => [[]]
  | c :: s =>
      if c =? 10 then [] :: strsep_lines s
      else match strsep_lines s with l :: ls => (c :: l) :: ls | [] => [[c]] end
  end.
(** The strings [fgets(string, 4096, f)] returns: a line with its newline, or 4095
    characters of it; [room] is what is left of them. *)
Fixpoint fgets_lines (room : nat) (s : cstr) : list cstr :=
  match s with
  | [] => []
  | c :: s =>
      if c =? 10 then [c] :: fgets_lines 4094 s
      else match room with
           | O => [c] :: fgets_lines 4094 s
           | S room =>
               match s with
               | [] => [[c]]
               | _ => match fgets_lines room s with l :: ls => (c :: l) :: ls | [] => [[c]] end
               end
           end
  end.

(** ** Lines that are skipped, and sections *)
Fixpoint is_empty_or_comment (s : cstr) : bool :=
  match s with
  | [] => true
  | c :: s =>
      if c =? chr ";" then true
      else if c =? chr "#" then true
      else if negb (isspace c) && negb (iscntrl c) then false
      else is_empty_or_comment s
  end.

(** [sscanf(p, "[%255[^\n]]", name)]: the name if it returns 1. *)
Fixpoint until_newline (s : cstr) : cstr :=
  match s with c :: s => if c =? 10 then [] else c :: until_newline s | [] => [] end.
Definition scan_name (p : cstr) : option cstr :=
  match p with
  | c :: t =>
      if c =? chr "[" then match take 255 (until_newline t) with [] => None | n => Some n end
      else None
  | [] => None
  end.

Definition is_global (name : cstr) : bool := strneq name $"global" 6.
Definition skip_this_section (job_sections : list cstr) (name : cstr) : bool :=
  match job_sections with
  | [] => false
  | _ => negb (is_global name) && negb (existsb (fun s => streq s name) job_sections)
  end.

(** ** The table of jobs *)

(** [get_new_job(global, &def_thread, 0)], a pointer or [NULL]; [td->o.stonewall];
    [fio_options_parse], [add_job] and [put_job] with their results. *)
Class JobTable (St Td : Type) := {
  new_job : bool -> St -> option Td * St;
  set_stonewall : Td -> St -> St;
  options_parse : Td -> list cstr -> St -> Z * St;
  add_job : Td -> cstr -> St -> Z * St;
  put_job : Td -> St -> St }.

Section parser.
Context {St Td : Type} `{!JobTable St Td}.
Context (job_sections : list cstr).

(** The inner loop: the options up to the next section, the line of that section if
    there is one, and the lines after it. *)
Fixpoint read_opts (lines : list cstr) : list cstr * option cstr * list cstr :=
  match lines with
  | [] => ([], None, [])
  | p :: lines =>
      if is_empty_or_comment p then read_opts lines
      else
        let p := strip_blank_front p in
        if at_index p 0 =? chr "[" then ([], Some p, lines)
        else let '(opts, next, rest) := read_opts lines in (strip_blank_end p :: opts, next, rest)
  end.

(** A section: [None] if there is no job for it. *)
Definition do_section (name : cstr) (opts : list cstr) (stonewall : bool) (st : St) : Z * St :=
  match new_job (is_global name) st with
  | (None, st) => (1, st)
  | (Some td, st) =>
      let st := if negb (is_global name) && stonewall then set_stonewall td st else st in
      let '(ret, st) := options_parse td opts st in
      if ret =? 0 then add_job td name st else (ret, put_job td st)
  end.

(** The outer loop; [next] is the line that was read and not handled ([skip_fgets]).
    The options are read before the job is made, which does not matter for them. *)
Fixpoint ini_loop (fuel : nat) (next : option cstr) (lines : list cstr) (inside_skip stonewall : bool) (st : St)
    : option (Z * St) :=
  match fuel with
  | O => None
  | S fuel =>
      match next, lines with
      | None, [] => Some (0, st)
      | _, _ =>
          let '(p, lines) := match next, lines with
                             | Some p, _ => (p, lines)
                             | None, p :: lines => (p, lines)
                             | None, [] => ([], [])
                             end in
          let p := strip_blank_end (strip_blank_front p) in
          if is_empty_or_comment p then ini_loop fuel None lines inside_skip stonewall st
          else
            match scan_name p with
            | None => if inside_skip then ini_loop fuel None lines inside_skip stonewall st else Some (0, st)
            | Some name =>
                let name := removelast name in
                if skip_this_section job_sections name then ini_loop fuel None lines true stonewall st
                else
                  let '(opts, next, lines) := read_opts lines in
                  let '(ret, st) := do_section name opts stonewall st in
                  if ret =? 0 then ini_loop fuel next lines false (stonewall && is_global name) st
                  else Some (ret, st)
            end
      end
  end.

Definition parse_jobs_ini (is_buf : bool) (text : cstr) (stonewall : bool) (st : St) : option (Z * St) :=
  let lines := if is_buf then strsep_lines text else fgets_lines 4094 text in
  ini_loop (2 * length lines + 2) None lines false stonewall st.
End parser.

(** * Properties *)

(** ** The loop ends *)
Lemma read_opts_length lines : let '(_, next, rest) := read_opts lines in
  (length rest + (if next is Some _ then 1 else 0) <= length lines)%nat.
Proof.
  induction lines as [|p lines IH]; cbn [read_opts]; [cbn; lia|].
  destruct (is_empty_or_comment p); [destruct (read_opts lines) as [[? []] ?]; cbn in *; lia|].
  cbn zeta. destruct (_ =? _); [cbn; lia|]. destruct (read_opts lines) as [[? []] ?]; cbn in *; lia.
Qed.

Section loop.
Context {St Td : Type} `{!JobTable St Td} (job_sections : list cstr).
Local Abbreviation loop := (ini_loop job_sections).

(** The line the loop handles, if there is one. *)
Definition pick (next : option cstr) (lines : list cstr) : option (cstr * list cstr) :=
  match next, lines with
  | Some p, _ => Some (p, lines)
  | None, p :: lines => Some (p, lines)
  | None, [] => None
  end.
(** A pass of the loop. *)
Lemma loop_step fuel next lines skip sw st : loop (S fuel) next lines skip sw st =
  match pick next lines with
  | None => Some (0, st)
  | Some (p, lines) =>
      let p := strip_blank_end (strip_blank_front p) in
      if is_empty_or_comment p then loop fuel None lines skip sw st
      else
        match scan_name p with
        | None => if skip then loop fuel None lines skip sw st else Some (0, st)
        | Some name =>
            let name := removelast name in
            if skip_this_section job_sections name then loop fuel None lines true sw st
            else
              let '(opts, next, lines) := read_opts lines in
              let '(ret, st) := do_section name opts sw st in
              if ret =? 0 then loop fuel next lines false (sw && is_global name) st else Some (ret, st)
        end
  end.
Proof. by destruct next, lines. Qed.

Definition left (next : option cstr) (lines : list cstr) : nat := 2 * length lines + (if next is Some _ then 1 else 0).
Lemma loop_ends fuel : forall next lines skip sw st, (left next lines < fuel)%nat -> is_Some (loop fuel next lines skip sw st).
Proof.
  induction fuel as [|fuel IH]; intros next lines skip sw st Hf; [lia|]. rewrite loop_step.
  destruct (pick next lines) as [[p ls]|] eqn:E; [|by eexists].
  assert (L : (left None ls < left next lines)%nat).
  { unfold left, pick in *. destruct next, lines; simplify_eq/=; lia. }
  cbn zeta. destruct (is_empty_or_comment _); [apply IH; lia|]. destruct (scan_name _) as [name|]; [|destruct skip; [apply IH; lia|by eexists]].
  destruct (skip_this_section _ _); [apply IH; lia|]. pose proof (read_opts_length ls) as R. destruct (read_opts ls) as [[opts nx] rest].
  destruct (do_section _ _ _ _) as [ret st']. destruct (ret =? 0); [|by eexists]. apply IH. unfold left in *. destruct nx; lia.
Qed.

(** What every section that succeeds keeps is kept by a file that succeeds. *)
Lemma loop_invariant (P : St -> Prop) : (forall name opts sw st st', P st -> do_section name opts sw st = (0, st') -> P st') ->
  forall fuel next lines skip sw st st', P st -> loop fuel next lines skip sw st = Some (0, st') -> P st'.
Proof.
  intros HP. induction fuel as [|fuel IH]; intros next lines skip sw st st' Hst; [done|]. rewrite loop_step.
  destruct (pick next lines) as [[p ls]|]; [|intros [= <-]; done]. cbn zeta.
  destruct (is_empty_or_comment _); [by apply IH|]. destruct (scan_name _) as [name|]; [|destruct skip; [by apply IH|intros [= <-]; done]].
  destruct (skip_this_section _ _); [by apply IH|]. destruct (read_opts ls) as [[opts nx] rest].
  destruct (do_section _ _ _ _) as [ret st1] eqn:E. destruct (Z.eqb_spec ret 0) as [->|]; [|by intros [= ? _]]. apply IH. by eapply HP.
Qed.

(** Whatever the text, [parse_jobs_ini] comes to an end. *)
Theorem parse_jobs_ini_returns is_buf text sw st : exists r, parse_jobs_ini job_sections is_buf text sw st = Some r.
Proof. apply loop_ends. unfold left. lia. Qed.
End loop.

(** ** Texts of a list of sections *)

(** What a line says: no comment in it and no blank around it. *)
Record word (w : cstr) : Prop := {
  w_some : w <> [];
  w_first : blank (at_index w 0) = false;
  w_last : blank (at_index w (length w - 1)) = false;
  w_comment : (chr ";" ∉ w) /\ (chr "#" ∉ w) }.
(** The rest of a line: blanks, and a comment after them. *)
Definition comment (s : cstr) : Prop := s = [] \/ exists c t, s = c :: t /\ (c = chr ";" \/ c = chr "#").
Definition line_end (s : cstr) : Prop := exists b c, s = b ++ c /\ Forall (fun c => blank c = true) b /\ comment c.
Definition line_of (w l : cstr) : Prop :=
  word w /\ exists pre post, l = pre ++ w ++ post /\ Forall (fun c => isspace c = true) pre /\ line_end post.

Record section := { sec_name : cstr; sec_opts : list cstr }.
Definition header_of (name : cstr) : cstr := chr "[" :: name ++ $"]".
Definition header_line (name l : cstr) : Prop :=
  line_of (header_of name) l /\ (10 ∉ name) /\ (length name <= 254)%nat.
Definition opt_line (o l : cstr) : Prop := line_of o l /\ at_index o 0 <> chr "[".

(** The lines of options, and of sections, with empty lines and comments between. *)
Inductive opts_text : list cstr -> list cstr -> Prop :=
  | opts_none : opts_text [] []
  | opts_skip os l ls : is_empty_or_comment l = true -> opts_text os ls -> opts_text os (l :: ls)
  | opts_one o os l ls : opt_line o l -> opts_text os ls -> opts_text (o :: os) (l :: ls).
Inductive file_text : list section -> list cstr -> Prop :=
  | file_none : file_text [] []
  | file_skip ss l ls : is_empty_or_comment l = true -> file_text ss ls -> file_text ss (l :: ls)
  | file_section s ss l ls1 ls2 : header_line (sec_name s) l -> opts_text (sec_opts s) ls1 -> file_text ss ls2 ->
      file_text (s :: ss) (l :: ls1 ++ ls2).

(** *** Lines *)
Lemma cut_at_app a c b : c ∉ a -> cut_at (a ++ c :: b) c = a.
Proof. intros H. unfold cut_at. rewrite strchr_app by done. by rewrite take_app_length. Qed.
Lemma blank_not c b : Forall (fun c => blank c = true) b -> blank c = false -> c ∉ b.
Proof. intros H Hc Hin. rewrite Forall_forall in H. apply H in Hin. congruence. Qed.

Lemma cut_both w b c : (chr ";" ∉ w) -> (chr "#" ∉ w) -> Forall (fun c => blank c = true) b -> comment c ->
  exists b', cut_at (cut_at (w ++ b ++ c) (chr ";")) (chr "#") = w ++ b' /\ Forall (fun c => blank c = true) b'.
Proof.
  intros H1 H2 Hb Hc. exists b. split; [|done].
  assert (N1 : chr ";" ∉ w ++ b) by (apply not_elem_of_app; split; [done|by apply (blank_not _ b)]).
  assert (N2 : chr "#" ∉ w ++ b) by (apply not_elem_of_app; split; [done|by apply (blank_not _ b)]).
  destruct Hc as [->|(x & t & -> & [-> | ->])].
  - rewrite app_nil_r. rewrite (Parse.cut_at_none _ (chr ";")) by done. by rewrite Parse.cut_at_none.
  - rewrite app_assoc, cut_at_app by done. by rewrite Parse.cut_at_none.
  - rewrite app_assoc. unfold cut_at at 2. destruct (strchr (_ ++ _) (chr ";")) as [i|] eqn:E; [|by apply cut_at_app].
    apply strchr_some in E as (a & d & E & <- & Ha). rewrite E, take_app_length.
    assert (exists a', a = (w ++ b) ++ chr "#" :: a') as [a' ->]; [|by apply cut_at_app].
    destruct (decide (length a <= length (w ++ b))%nat) as [L|L].
    + exfalso. assert (F : ((w ++ b) ++ chr "#" :: t) !! length a = Some (chr ";")) by (rewrite E, lookup_app_r, Nat.sub_diag by done; done). clear E; rename F into E.
      destruct (decide (length a < length (w ++ b))%nat).
      * rewrite lookup_app_l in E by done. apply list_elem_of_lookup_2 in E. done.
      * rewrite lookup_app_r in E by lia. replace (length a - length (w ++ b))%nat with O in E by lia. done.
    + apply (f_equal (take (length a))) in E. rewrite take_app_length in E. rewrite take_app_ge in E by lia.
      destruct (length a - length (w ++ b))%nat as [|n] eqn:En; [lia|]. cbn in E. eauto.
Qed.

Lemma skip_space_app pre s : Forall (fun c => isspace c = true) pre -> blank (at_index s 0) = false -> s <> [] ->
  skip_space (pre ++ s) = s.
Proof.
  intros Hp Hs Hn. induction Hp as [|c pre Hc Hp IH]; cbn [app skip_space]; [|by rewrite Hc].
  destruct s as [|c s]; [done|]. cbn in Hs |- *. unfold blank in Hs. apply orb_false_iff in Hs as [-> _]. done.
Qed.
Lemma at_index_head w post : w <> [] -> at_index (w ++ post) 0 = at_index w 0.
Proof. by destruct w. Qed.

(** What is left of a line after the blanks in front are gone, and what is left of
    that. *)
Lemma line_front w l : line_of w l -> exists post, strip_blank_front l = w ++ post /\ line_end post.
Proof.
  intros [[Hn Hf _ _] (pre & post & -> & Hp & He)]. exists post. split; [|done].
  apply skip_space_app; [done|by rewrite at_index_head|by destruct w].
Qed.
Lemma line_both w post : word w -> line_end post -> strip_blank_end (w ++ post) = w.
Proof.
  intros [Hn Hf Hl [H1 H2]] (b & c & -> & Hb & Hc). unfold strip_blank_end.
  destruct (Nat.eqb_spec (length (w ++ b ++ c)) 0) as [E|_]; [rewrite length_app in E; destruct w; cbn in E; [done|lia]|].
  destruct (cut_both w b c H1 H2 Hb Hc) as (b' & -> & Hb'). rewrite Parse.last_kept_blanks; [|done|done|done|rewrite length_app; lia].
  assert (0 < length w)%nat by (destruct w; cbn; [done|lia]). rewrite take_app_le by lia. apply take_ge. lia.
Qed.
Lemma word_not_empty w post : word w -> is_empty_or_comment (w ++ post) = false.
Proof.
  intros [Hn Hf _ [H1 H2]]. destruct w as [|c w]; [done|]. change (blank c = false) in Hf. cbn [app is_empty_or_comment].
  destruct (Z.eqb_spec c (chr ";")) as [->|]; [exfalso; solve [apply H1; by left|apply H2; by left]|]. destruct (Z.eqb_spec c (chr "#")) as [->|]; [exfalso; solve [apply H1; by left|apply H2; by left]|].
  unfold blank in Hf. apply orb_false_iff in Hf as [-> ->]. done.
Qed.
Lemma spaces_empty pre s : Forall (fun c => isspace c = true) pre -> is_empty_or_comment (pre ++ s) = is_empty_or_comment s.
Proof.
  induction 1 as [|c pre Hc Hp IH]; [done|]. cbn [app is_empty_or_comment]. destruct (Z.eqb_spec c (chr ";")) as [->|]; [done|].
  destruct (Z.eqb_spec c (chr "#")) as [->|]; [done|]. by rewrite Hc.
Qed.
Lemma line_not_empty w l : line_of w l -> is_empty_or_comment l = false.
Proof. intros [Hw (pre & post & -> & Hp & He)]. rewrite spaces_empty by done. by apply word_not_empty. Qed.

(** An empty line stays one. *)
Lemma empty_skip_space l : is_empty_or_comment l = true -> is_empty_or_comment (skip_space l) = true.
Proof.
  induction l as [|c l IH]; [done|]. cbn [skip_space]. destruct (isspace c) eqn:E; [|done]. intros H. apply IH. revert H.
  rewrite <- (spaces_empty [c] l); [done|]. by constructor.
Qed.
Lemma empty_take l n : is_empty_or_comment l = true -> is_empty_or_comment (take n l) = true.
Proof.
  revert n. induction l as [|c l IH]; intros [|n]; try done. cbn. destruct (_ =? _); [done|]. destruct (_ =? _); [done|].
  destruct (_ && _); [done|]. apply IH.
Qed.
Lemma empty_strip l : is_empty_or_comment l = true -> is_empty_or_comment (strip_blank_end (strip_blank_front l)) = true.
Proof.
  intros H. unfold strip_blank_front. apply empty_skip_space in H. unfold strip_blank_end. destruct (_ =? _)%nat; [done|].
  apply empty_take. assert (C : forall s c, is_empty_or_comment s = true -> is_empty_or_comment (cut_at s c) = true).
  { intros s c Hs. unfold cut_at. destruct (strchr s c); [by apply empty_take|done]. }
  by apply C, C.
Qed.

Lemma until_newline_all s : 10 ∉ s -> until_newline s = s.
Proof.
  induction s as [|c s IH]; [done|]. rewrite not_elem_of_cons. intros [Hc Hs]. cbn. destruct (Z.eqb_spec c 10); [congruence|]. by rewrite IH.
Qed.
Lemma scan_header name : 10 ∉ name -> (length name <= 254)%nat -> scan_name (header_of name) = Some (name ++ $"]").
Proof.
  intros Hn Hl. unfold scan_name, header_of. cbn [fst]. rewrite Z.eqb_refl. rewrite until_newline_all.
  2:{ rewrite not_elem_of_app. split; [done|]. apply not_elem_of_cons. split; [done|apply not_elem_of_nil]. }
  rewrite take_ge by (rewrite length_app; cbn; lia). by destruct name.
Qed.
Lemma scan_opt o : at_index o 0 <> chr "[" -> scan_name o = None.
Proof. destruct o as [|c o]; [done|]. intros H. change (c <> chr "[") in H. unfold scan_name. by destruct (Z.eqb_spec c (chr "[")). Qed.

(** *** The options of a section *)
Lemma read_empty l ls : is_empty_or_comment l = true -> read_opts (l :: ls) = read_opts ls.
Proof. intros H. cbn [read_opts]. by rewrite H. Qed.
Lemma read_opts_ok os ls1 ss ls2 : opts_text os ls1 -> file_text ss ls2 ->
  (ss = [] /\ read_opts (ls1 ++ ls2) = (os, None, [])) \/
  (exists s ss' p post ls3 ls4, ss = s :: ss' /\ read_opts (ls1 ++ ls2) = (os, Some p, ls3 ++ ls4) /\
     p = header_of (sec_name s) ++ post /\ word (header_of (sec_name s)) /\ line_end post /\ (10 ∉ sec_name s) /\
     (length (sec_name s) <= 254)%nat /\ opts_text (sec_opts s) ls3 /\ file_text ss' ls4).
Proof.
  intros Ho Hf. induction Ho as [|os l ls He Ho IH|o os l ls Hl Ho IH]; cbn [app].
  - induction Hf as [|ss l ls He Hf IH|s ss l ls1 ls2 Hh Ho Hf IH]; [by left|by rewrite read_empty|].
    right. destruct Hh as (Hl & H10 & H254). destruct (line_front _ _ Hl) as (post & E & Hp). exists s, ss, (header_of (sec_name s) ++ post), post, ls1, ls2.
    split; [done|]. split; [|split_and!; try done; apply Hl]. cbn [read_opts]. rewrite (line_not_empty _ _ Hl), E. done.
  - by rewrite read_empty.
  - destruct Hl as [Hl Hb]. destruct (line_front _ _ Hl) as (post & E & Hp).
    assert (R : read_opts (l :: ls ++ ls2) = let '(opts, next, rest) := read_opts (ls ++ ls2) in (o :: opts, next, rest)).
    { cbn [read_opts]. rewrite (line_not_empty _ _ Hl), E. destruct Hl as [Hw _]. rewrite at_index_head by apply Hw.
      destruct (Z.eqb_spec (at_index o 0) (chr "[")); [done|]. by rewrite line_both. }
    rewrite R. destruct IH as [[-> ->]|(s & ss' & p & q & ls3 & ls4 & -> & -> & H)]; [by left|]. right.
    exists s, ss', p, q, ls3, ls4. done.
Qed.

(** ** What a job file does *)
Section run.
Context {St Td : Type} `{!JobTable St Td} (job_sections : list cstr).
Local Abbreviation loop := (ini_loop job_sections).

(** The sections one after the other, as the loop does them: without those that are not
    wanted, up to the first one that fails. *)
Fixpoint do_sections (ss : list section) (stonewall : bool) (st : St) : Z * St :=
  match ss with
  | [] => (0, st)
  | s :: ss =>
      if skip_this_section job_sections (sec_name s) then do_sections ss stonewall st
      else
        let '(ret, st) := do_section (sec_name s) (sec_opts s) stonewall st in
        if ret =? 0 then do_sections ss (stonewall && is_global (sec_name s)) st else (ret, st)
  end.

Lemma removelast_header (name : cstr) : removelast (name ++ $"]") = name.
Proof. rewrite removelast_app by done. cbn. apply app_nil_r. Qed.
Lemma step_empty fuel l ls skip sw st : is_empty_or_comment l = true ->
  loop (S fuel) None (l :: ls) skip sw st = loop fuel None ls skip sw st.
Proof. intros H. rewrite loop_step. cbn [pick]. cbn zeta. by rewrite empty_strip. Qed.

(** A section at the front, whose line may be one that was not handled. *)
Definition section_at (s : section) (next : option cstr) (lines rest : list cstr) : Prop :=
  exists p, pick next lines = Some (p, rest) /\ strip_blank_end (strip_blank_front p) = header_of (sec_name s) /\
    word (header_of (sec_name s)) /\ (10 ∉ sec_name s) /\ (length (sec_name s) <= 254)%nat.
Lemma step_section fuel s next lines rest skip sw st : section_at s next lines rest ->
  loop (S fuel) next lines skip sw st =
    if skip_this_section job_sections (sec_name s) then loop fuel None rest true sw st
    else
      let '(opts, next, lines) := read_opts rest in
      let '(ret, st) := do_section (sec_name s) opts sw st in
      if ret =? 0 then loop fuel next lines false (sw && is_global (sec_name s)) st else Some (ret, st).
Proof.
  intros (p & E & Hs & Hw & H10 & H254). rewrite loop_step, E. cbn zeta. rewrite Hs.
  rewrite <- (app_nil_r (header_of (sec_name s))) at 1. rewrite word_not_empty by done. rewrite scan_header by done. by rewrite removelast_header.
Qed.
Lemma section_line s l rest : header_line (sec_name s) l -> section_at s None (l :: rest) rest.
Proof.
  intros (Hl & H10 & H254). exists l. split; [done|]. destruct (line_front _ _ Hl) as (post & -> & Hp). destruct Hl as [Hw _].
  split; [|done]. by apply line_both.
Qed.
Lemma section_pending s post rest : word (header_of (sec_name s)) -> line_end post -> (10 ∉ sec_name s) -> (length (sec_name s) <= 254)%nat ->
  section_at s (Some (header_of (sec_name s) ++ post)) rest rest.
Proof.
  intros Hw Hp H10 H254. exists (header_of (sec_name s) ++ post). split; [done|]. split; [|done].
  replace (strip_blank_front (header_of (sec_name s) ++ post)) with (header_of (sec_name s) ++ post) by done. by apply line_both.
Qed.
Lemma step_opt fuel o l ls sw st : opt_line o l ->
  loop (S fuel) None (l :: ls) true sw st = loop fuel None ls true sw st.
Proof.
  intros [Hl Hb]. rewrite loop_step. cbn [pick]. cbn zeta. destruct (line_front _ _ Hl) as (post & -> & Hp). destruct Hl as [Hw _].
  rewrite line_both by done. rewrite <- (app_nil_r o) at 1. rewrite word_not_empty by done. by rewrite scan_opt.
Qed.

(** From the options of a section that is skipped, from the lines between sections,
    and from a section. *)
Lemma loop_refines fuel :
  (forall os ls1 ss ls2 skip sw st, opts_text os ls1 -> file_text ss ls2 -> (os = [] \/ skip = true) ->
     (left None (ls1 ++ ls2) < fuel)%nat -> loop fuel None (ls1 ++ ls2) skip sw st = Some (do_sections ss sw st)) /\
  (forall s ss next lines ls1 ls2 skip sw st, section_at s next lines (ls1 ++ ls2) -> opts_text (sec_opts s) ls1 -> file_text ss ls2 ->
     (left next lines < fuel)%nat -> loop fuel next lines skip sw st = Some (do_sections (s :: ss) sw st)).
Proof.
  induction fuel as [|fuel [IHa IHb]]; [split; intros; lia|].
  assert (B : forall s ss next lines ls1 ls2 skip sw st, section_at s next lines (ls1 ++ ls2) -> opts_text (sec_opts s) ls1 -> file_text ss ls2 ->
     (left next lines < S fuel)%nat -> loop (S fuel) next lines skip sw st = Some (do_sections (s :: ss) sw st)).
  { intros s ss next lines ls1 ls2 skip sw st Hs Ho Hf Hl. rewrite (step_section _ _ _ _ _ _ _ _ Hs). cbn [do_sections].
    assert (L : (left None (ls1 ++ ls2) < left next lines)%nat).
    { destruct Hs as (p & E & _). unfold left, pick in *. destruct next; [|destruct lines]; simplify_eq/=; lia. }
    destruct (skip_this_section _ _); [apply (IHa (sec_opts s)); auto; lia|].
    pose proof (read_opts_length (ls1 ++ ls2)) as Rl.
    destruct (read_opts_ok _ _ _ _ Ho Hf) as [[-> E]|(s' & ss' & p & post & ls3 & ls4 & -> & E & -> & Hw & Hp & H10 & H254 & Ho' & Hf')];
      rewrite E in Rl |- *; destruct (do_section _ _ _ _) as [ret st']; destruct (ret =? 0); try done.
    - apply (IHa [] [] [] []); try constructor; [done|]. unfold left in *. cbn in *. lia.
    - apply (IHb _ _ _ _ ls3 ls4); try done; [by apply section_pending|]. unfold left in *. lia. }
  split; [|exact B]. intros os ls1 ss ls2 skip sw st Ho Hf Hs Hl.
  destruct Ho as [|os l ls He Ho|o os l ls Ho' Ho]; cbn [app] in *.
  - destruct Hf as [|ss l ls He Hf|s ss l ls1 ls2 Hh Ho Hf]; [done| |].
    + rewrite step_empty by done. apply (IHa [] []); [constructor|done|by left|unfold left in *; cbn in *; lia].
    + apply (B _ _ _ _ ls1 ls2); try done. by apply section_line.
  - rewrite step_empty by done. apply (IHa os); try done. unfold left in *. cbn in *. lia.
  - destruct Hs as [?| ->]; [done|]. rewrite (step_opt _ _ _ _ _ _ Ho'). apply (IHa os); auto. unfold left in *. cbn in *. lia.
Qed.
End run.

(** ** What the documentation says of a list of sections *)
Section spec.
Context {St Td : Type} `{!JobTable St Td} (job_sections : list cstr).

(** The section "global" sets defaults; any other one is a job, made if it is among the
    sections that were asked for (or none was). *)
Definition wanted (name : cstr) : Prop := job_sections = [] \/ name = $"global" \/ name ∈ job_sections.
Fixpoint run_sections (ss : list section) (stonewall : bool) (st : St) : Z * St :=
  match ss with
  | [] => (0, st)
  | Build_section name opts :: ss =>
      if decide (wanted name) then
        if decide (name = $"global") then
          match new_job true st with
          | (None, st) => (1, st)
          | (Some defaults, st) =>
              match options_parse defaults opts st with
              | (0, st) =>
                  match add_job defaults name st with
                  | (0, st) => run_sections ss stonewall st
                  | failed => failed
                  end
              | (err, st) => (err, put_job defaults st)
              end
          end
        else
          match new_job false st with
          | (None, st) => (1, st)
          | (Some td, st) =>
              match options_parse td opts (if stonewall then set_stonewall td st else st) with
              | (0, st) =>
                  match add_job td name st with
                  | (0, st) => run_sections ss false st
                  | failed => failed
                  end
              | (err, st) => (err, put_job td st)
              end
          end
      else run_sections ss stonewall st
  end.

(** Names the documentation allows: "global", or ones that do not begin with it. *)
Definition documented (s : section) : Prop := is_global (sec_name s) = true -> sec_name s = $"global".

Lemma wanted_skip name : (is_global name = true -> name = $"global") ->
  skip_this_section job_sections name = bool_decide (~ wanted name).
Proof.
  intros Hn. unfold skip_this_section, wanted. destruct job_sections as [|x l] eqn:E.
  { symmetry. apply bool_decide_eq_false_2. tauto. }
  destruct (is_global name) eqn:G; cbn [negb andb].
  { symmetry. apply bool_decide_eq_false_2. specialize (Hn eq_refl). tauto. }
  assert (name <> $"global") as Hng by (intros ->; by vm_compute in G).
  apply eq_bool_prop_intro. rewrite bool_decide_spec. split.
  - intros Hx [?|[?|Hin]]; [done|done|]. apply negb_prop_elim in Hx. apply Hx. apply Is_true_true, existsb_exists.
    exists name. split; [by apply list_elem_of_In|]. by apply bool_decide_eq_true_2.
  - intros Hx. apply negb_prop_intro. intros [y [Hy E']]%Is_true_true%existsb_exists. apply bool_decide_eq_true_1 in E' as ->.
    apply Hx. right. right. by apply list_elem_of_In.
Qed.

Lemma do_sections_documented ss : forall sw st, Forall documented ss ->
  do_sections job_sections ss sw st = run_sections ss sw st.
Proof.
  induction ss as [|[name opts] ss IH]; intros sw st Hd; [done|]. apply Forall_cons in Hd as [Hn Hd]. unfold documented in Hn.
  cbn [do_sections run_sections sec_name sec_opts] in *. rewrite wanted_skip by done.
  destruct (decide (wanted name)) as [Hw|Hw]; [rewrite bool_decide_eq_false_2 by tauto|rewrite bool_decide_eq_true_2 by done; by apply IH].
  unfold do_section. destruct (decide (name = $"global")) as [->|Hng].
  - change (is_global $"global") with true. cbn [negb andb]. destruct (new_job true st) as [[td|] st1]; [|done].
    destruct (options_parse td opts st1) as [[] st2]; try done. cbn [Z.eqb]. destruct (add_job td _ st2) as [[] st3]; try done.
    cbn [Z.eqb]. rewrite andb_true_r. by apply IH.
  - assert (is_global name = false) as Hg by (destruct (is_global name); [by destruct (Hng (Hn eq_refl))|done]).
    rewrite Hg. cbn [negb andb]. destruct (new_job false st) as [[td|] st1]; [|done].
    destruct (options_parse td opts _) as [[] st2]; try done. cbn [Z.eqb]. destruct (add_job td _ st2) as [[] st3]; try done.
    cbn [Z.eqb]. rewrite andb_false_r. by apply IH.
Qed.
End spec.

(** ** Text and lines *)
Fixpoint join_lines (ls : list cstr) : cstr :=
  match ls with [] => [] | [l] => l | l :: ls => l ++ 10 :: join_lines ls end.
Lemma strsep_line l : 10 ∉ l -> strsep_lines l = [l].
Proof.
  induction l as [|c l IH]; [done|]. rewrite not_elem_of_cons. intros [Hc Hl]. cbn. destruct (Z.eqb_spec c 10); [congruence|]. by rewrite IH.
Qed.
Lemma strsep_cons l s : 10 ∉ l -> strsep_lines (l ++ 10 :: s) = l :: strsep_lines s.
Proof.
  induction l as [|c l IH]; [done|]. rewrite not_elem_of_cons. intros [Hc Hl]. cbn. destruct (Z.eqb_spec c 10); [congruence|]. by rewrite IH.
Qed.
Lemma strsep_lines_join ls : Forall (fun l => 10 ∉ l) ls -> strsep_lines (join_lines ls) = match ls with [] => [[]] | _ => ls end.
Proof.
  induction 1 as [|l ls Hl Hls IH]; [done|]. destruct ls as [|l' ls]; [by apply strsep_line|].
  change (join_lines (l :: l' :: ls)) with (l ++ 10 :: join_lines (l' :: ls)). rewrite strsep_cons by done. by rewrite IH.
Qed.
Lemma fgets_line l s : 10 ∉ l -> forall room, (length l <= room)%nat ->
  fgets_lines room (l ++ 10 :: s) = (l ++ [10]) :: fgets_lines 4094 s.
Proof.
  induction l as [|c l IH]; intros Hl room Hr; [done|]. rewrite not_elem_of_cons in Hl. destruct Hl as [Hc Hl].
  destruct room as [|room]; [cbn in Hr; lia|]. cbn [app fgets_lines]. destruct (Z.eqb_spec c 10); [congruence|].
  cbn in Hr. rewrite IH by (done || lia). by destruct l.
Qed.
Lemma fgets_last l : 10 ∉ l -> forall room, (length l <= room)%nat -> fgets_lines room l = match l with [] => [] | _ => [l] end.
Proof.
  induction l as [|c l IH]; intros Hl room Hr; [done|]. rewrite not_elem_of_cons in Hl. destruct Hl as [Hc Hl].
  destruct room as [|room]; [cbn in Hr; lia|]. cbn [fgets_lines]. destruct (Z.eqb_spec c 10); [congruence|].
  cbn in Hr. rewrite IH by (done || lia). by destruct l.
Qed.
Lemma fgets_concat ls : Forall (fun l => (10 ∉ l) /\ (length l <= 4094)%nat) ls ->
  fgets_lines 4094 (concat (map (fun l => l ++ [10]) ls)) = map (fun l => l ++ [10]) ls.
Proof.
  induction 1 as [|l ls [H10 Hl] Hls IH]; [done|]. cbn [map concat]. rewrite <- app_assoc. cbn [app]. rewrite fgets_line by done. by rewrite IH.
Qed.
(** A line as [fgets] returns it: with its newline, if it has one. *)
Definition fgets_of (l l' : cstr) : Prop := l' = l \/ l' = l ++ [10].
Lemma fgets_join ls : Forall (fun l => (10 ∉ l) /\ (length l <= 4094)%nat) ls ->
  exists ls', fgets_lines 4094 (join_lines ls) = ls' /\ (Forall2 fgets_of ls ls' \/ exists k, ls = k ++ [[]] /\ Forall2 fgets_of k ls').
Proof.
  induction 1 as [|l ls [H10 Hl] Hls IH]; [exists []; split; [done|by left]|]. destruct ls as [|l' ls].
  - cbn [join_lines]. rewrite fgets_last by done. eexists. split; [done|]. destruct l as [|c l]; [right; exists []; by split|].
    left. repeat constructor.
  - change (join_lines (l :: l' :: ls)) with (l ++ 10 :: join_lines (l' :: ls)). rewrite fgets_line by done.
    destruct IH as (ls' & E & [HF|(k & Ek & HF)]); rewrite E; eexists; (split; [done|]).
    + left. constructor; [by right|done].
    + right. exists (l :: k). rewrite Ek. split; [done|]. constructor; [by right|done].
Qed.

(** The newline at the end of a line does not matter. *)
Lemma empty_newline l : is_empty_or_comment l = true -> is_empty_or_comment (l ++ [10]) = true.
Proof.
  induction l as [|c l IH]; [done|]. cbn [app is_empty_or_comment]. destruct (_ =? _); [done|]. destruct (_ =? _); [done|].
  destruct (_ && _); [done|exact IH].
Qed.
Lemma line_newline w l : line_of w l -> line_of w (l ++ [10]).
Proof.
  intros [Hw (pre & post & -> & Hp & b & c & -> & Hb & Hc)]. split; [done|].
  destruct Hc as [->|(x & t & -> & Hx)].
  - exists pre, (b ++ [10]). rewrite !app_nil_r, <- !app_assoc. split_and!; [done|done|]. exists (b ++ [10]), []. rewrite app_nil_r.
    split_and!; [done|apply Forall_app; split; [done|by constructor]|by left].
  - exists pre, (b ++ x :: t ++ [10]). split_and!; [by rewrite <- !app_assoc|done|]. exists b, (x :: t ++ [10]).
    split_and!; [done|done|right; eauto].
Qed.
Lemma opts_newline os ls : opts_text os ls -> forall ls', Forall2 fgets_of ls ls' -> opts_text os ls'.
Proof.
  induction 1 as [|os l ls He Ho IH|o os l ls [Hl Hb] Ho IH]; intros ls' HF; inversion HF as [|? l' ? k' Hl' HF']; subst.
  - constructor.
  - apply opts_skip; [|auto]. destruct Hl' as [->| ->]; auto using empty_newline.
  - apply opts_one; [|auto]. split; [|done]. destruct Hl' as [->| ->]; [done|by apply line_newline].
Qed.
Lemma file_newline ss ls : file_text ss ls -> forall ls', Forall2 fgets_of ls ls' -> file_text ss ls'.
Proof.
  induction 1 as [|ss l ls He Hf IH|s ss l ls1 ls2 (Hl & H1 & H2) Ho Hf IH]; intros ls' HF; inversion HF as [|? l' ? k' Hl' HF']; subst.
  - constructor.
  - apply file_skip; [|auto]. destruct Hl' as [->| ->]; auto using empty_newline.
  - apply Forall2_app_inv_l in HF' as (k1 & k2 & F1 & F2 & ->). apply file_section; [|by apply (opts_newline _ ls1)|auto].
    split_and!; [|done|done]. destruct Hl' as [->| ->]; [done|by apply line_newline].
Qed.
(** The empty line at the end does not matter. *)
Lemma line_of_nil w : ~ line_of w [].
Proof. intros [[Hn _ _ _] (pre & post & E & _)]. symmetry in E. apply app_nil in E as [_ [E _]%app_nil]. done. Qed.
Lemma opts_last os ls : opts_text os ls -> forall k, ls = k ++ [[]] -> opts_text os k.
Proof.
  induction 1 as [|os l ls He Ho IH|o os l ls [Hl Hb] Ho IH]; intros k E; [by destruct k| |].
  - destruct k as [|x k]; injection E as -> E; [by subst ls|]. apply opts_skip; auto.
  - destruct k as [|x k]; injection E as -> E; [by apply line_of_nil in Hl|]. apply opts_one; [done|auto].
Qed.
Lemma file_last ss ls : file_text ss ls -> forall k, ls = k ++ [[]] -> file_text ss k.
Proof.
  induction 1 as [|ss l ls He Hf IH|s ss l ls1 ls2 Hh Ho Hf IH]; intros k E; [by destruct k| |].
  - destruct k as [|x k]; injection E as -> E; [by subst ls|]. apply file_skip; auto.
  - destruct k as [|x k]; injection E as -> E; [destruct Hh as [Hl _]; by apply line_of_nil in Hl|].
    destruct ls2 as [|y ls2] using rev_ind; [rewrite app_nil_r in E|].
    + rewrite <- (app_nil_r k). apply file_section; [done|by apply (opts_last _ ls1)|done].
    + rewrite app_assoc in E. apply app_inj_tail in E as [<- ->]. apply file_section; auto.
Qed.

(** C24: A job file does what the documentation says of its list of sections: each wanted
    section makes its job (or sets defaults, if it is "global") with its options, in their
    order, up to the first failure.  Its layout does not matter: blanks around a line, empty
    lines, comments, a buffer or a file (with lines of up to 4094 characters), a newline at
    the end or none.  The names of sections have at most 254 characters and no comment signs
    ([section_name_cut]), and only "global" begins with "global" ([global_prefix]). *)
Theorem parse_jobs_ini_refines {St Td : Type} `{!JobTable St Td} job_sections is_buf ss ls stonewall st :
  file_text ss ls -> Forall documented ss ->
  Forall (fun l => (10 ∉ l) /\ (is_buf = false -> (length l <= 4094)%nat)) ls ->
  parse_jobs_ini job_sections is_buf (join_lines ls) stonewall st = Some (run_sections job_sections ss stonewall st).
Proof.
  intros Hf Hd Hl. unfold parse_jobs_ini. rewrite <- do_sections_documented by done.
  assert (R : forall ls', file_text ss ls' -> ini_loop job_sections (2 * length ls' + 2) None ls' false stonewall st = Some (do_sections job_sections ss stonewall st)).
  { intros ls' Hf'. apply (proj1 (loop_refines job_sections _) [] [] ss ls'); [constructor|done|by left|]. unfold left. cbn [app]. lia. }
  destruct is_buf.
  - rewrite strsep_lines_join by (eapply Forall_impl; [exact Hl|]; by intros l [? _]). destruct ls as [|l ls]; [|by apply R].
    apply R. by constructor.
  - destruct (fgets_join ls) as (ls' & E & HF); [eapply Forall_impl; [exact Hl|]; cbn; naive_solver|]. rewrite E. apply R.
    destruct HF as [HF|(k & -> & HF)]; [by apply (file_newline _ ls)|]. apply (file_newline _ k); [|done]. by apply (file_last _ (k ++ [[]])).
Qed.

(** ** Text that is not a job file *)
Section errors.
Context {St Td : Type} `{!JobTable St Td} (job_sections : list cstr).

(** An option before the first section ends the parser with 0, which is success: the
    rest of the file is not read. *)
Lemma option_outside_ignored o l ls sw st : opt_line o l -> Forall (fun l => 10 ∉ l) (l :: ls) ->
  parse_jobs_ini job_sections true (join_lines (l :: ls)) sw st = Some (0, st).
Proof.
  intros [Hl Hb] Hn. unfold parse_jobs_ini. rewrite strsep_lines_join by done. replace (2 * length (l :: ls) + 2)%nat with (S (2 * length ls + 3)) by (cbn; lia).
  rewrite loop_step. cbn [pick]. cbn zeta. destruct (line_front _ _ Hl) as (post & -> & Hp). destruct Hl as [Hw _].
  rewrite line_both by done. rewrite <- (app_nil_r o) at 1. rewrite word_not_empty by done. by rewrite scan_opt.
Qed.
(** A comment sign in the name of a section cuts the line there, and the name loses
    its last character as if that were the bracket. *)
Lemma section_name_cut st : parse_jobs_ini job_sections true $"[job#1]" false st = Some (run_sections job_sections [Build_section $"jo" []] false st).
Proof.
  rewrite <- do_sections_documented by (constructor; [done|constructor]).
  unfold parse_jobs_ini. cbn [do_sections sec_name sec_opts]. change (strsep_lines $"[job#1]") with [ $"[job#1]"].
  change (2 * length [ $"[job#1]"] + 2)%nat with 4%nat. rewrite loop_step. cbn [pick]. cbn zeta.
  change (strip_blank_end (strip_blank_front $"[job#1]")) with $"[job". change (is_empty_or_comment $"[job") with false.
  change (scan_name $"[job") with (Some $"job"). change (removelast $"job") with $"jo". cbn iota. destruct (skip_this_section _ _); [done|].
  cbn [read_opts]. destruct (do_section _ _ _ _) as [ret st']. by destruct (ret =? 0).
Qed.
(** Every section whose name begins with "global" is the global section. *)
Lemma global_prefix s : is_global ($"global" ++ s) = true.
Proof. unfold is_global, strneq. apply bool_decide_eq_true_2. rewrite take_app_le by (cbn; lia). done. Qed.
End errors.

(** A table that notes what is done with it. *)
Module Trace.
Inductive call := Stonewall (j : nat) | Options (j : option nat) (os : list cstr) | Add (j : option nat) (name : cstr).
Record trace := { made : nat; calls : list call }.
#[global] Instance trace_table : JobTable trace (option nat) := {
  new_job g st := if g : bool then (Some None, st) else (Some (Some (made st)), Build_trace (S (made st)) (calls st));
  set_stonewall td st := match td with Some j => Build_trace (made st) (calls st ++ [Stonewall j]) | None => st end;
  options_parse td os st := (0, Build_trace (made st) (calls st ++ [Options td os]));
  add_job td name st := (0, Build_trace (made st) (calls st ++ [Add td name]));
  put_job td st := st }.
End Trace.

Definition sample_sections : list section := [Build_section $"global" [$"rw=read"]; Build_section $"a" [$"bs=4k"; $"size=1m"]; Build_section $"b" []].
Definition sample_lines : list cstr := [$"; a test"; $"[global]"; $"rw=read"; $""; $" [a]  # first"; $"  bs=4k ; small"; $"size=1m"; $"[b]"].
Ltac by_dec := refine (bool_decide_unpack _ _); vm_compute; exact I.
Ltac a_line pre post b c := split; [split; [done|done|done|split; by_dec]|];
  exists pre, post; split; [reflexivity|]; split; [repeat constructor|]; exists b, c; split; [reflexivity|]; split; [repeat constructor|];
  first [by left|right; eexists _, _; split; [reflexivity|by (left + right)]].
Lemma sample_text : file_text sample_sections sample_lines.
Proof.
  apply file_skip; [done|]. apply (file_section _ _ _ [$"rw=read"; $""]).
  { split; [|split; [by_dec|cbn; lia]]. a_line (@nil Z) (@nil Z) (@nil Z) (@nil Z). }
  { apply opts_one; [split; [|done]; a_line (@nil Z) (@nil Z) (@nil Z) (@nil Z)|]. apply opts_skip; [done|]. apply opts_none. }
  apply (file_section _ _ _ [$"  bs=4k ; small"; $"size=1m"]).
  { split; [|split; [by_dec|cbn; lia]]. a_line ($" ") ($"  # first") ($"  ") ($"# first"). }
  { apply opts_one; [split; [|done]; a_line ($"  ") ($" ; small") ($" ") ($"; small")|].
    apply opts_one; [split; [|done]; a_line (@nil Z) (@nil Z) (@nil Z) (@nil Z)|]. apply opts_none. }
  apply (file_section _ _ _ [] []); [|apply opts_none|apply file_none].
  split; [|split; [by_dec|cbn; lia]]. a_line (@nil Z) (@nil Z) (@nil Z) (@nil Z).
Defined.
Lemma parse_jobs_ini_refines_witness :
  parse_jobs_ini (Td := option nat) [] false (join_lines sample_lines) true (Trace.Build_trace 0 []) =
    Some (0, Trace.Build_trace 2 [Trace.Options None [$"rw=read"]; Trace.Add None $"global"; Trace.Stonewall 0;
      Trace.Options (Some 0%nat) [$"bs=4k"; $"size=1m"]; Trace.Add (Some 0%nat) $"a"; Trace.Options (Some 1%nat) []; Trace.Add (Some 1%nat) $"b"]).
Proof.
  rewrite (parse_jobs_ini_refines (Td := option nat) [] false sample_sections sample_lines true (Trace.Build_trace 0 []) sample_text).
  - vm_compute. reflexivity.
  - by repeat constructor.
  - assert (forallb (fun l => bool_decide (10 ∉ l) && (length l <=? 4094)%nat) sample_lines = true) as H by (vm_compute; reflexivity).
    rewrite forallb_forall in H. apply Forall_forall. intros l Hl%list_elem_of_In%H. apply andb_prop in Hl as [H1 H2].
    split; [by apply bool_decide_eq_true_1 in H1|]. intros _. by apply Nat.leb_le.
Defined.
End JobFile.
