(* ===== verification/Options.v ===== *)
(** * The callbacks of the options

    The functions of [src/options.c] that turn the value of an option into the
    members of a job: block sizes with percentages, the direction, processor lists,
    file names, verify patterns, priorities, the mix of directions and the size.
    The strings are those of [CString], numbers are read by [Parse].  The members of
    a job that are not in [thread_options] are in [job_opts]; [kb_base] and [errno]
    are those of [Parse]. *)
From S2P Require Import Prelude Types Rand RandMap Offset Verify CString Parse JobFile.
From stdpp Require Import gmap strings.
Local Open Scope Z_scope.
Local Open Scope cstr_scope.
Local Open Scope word_scope.

Module Options.
Import CString Types Offset.
Import Parse(str_to_decimal, strip_blank_front, strip_blank_end, parse_is_percent).
Import Verify(verify_t, VERIFY_NONE, VERIFY_PATTERN, MAX_PATTERN_SIZE, pattern_finish, HDR).

(** ** Of the standard library *)
Definition atoi (s : cstr) : Z := s32 (fst (strtoll s 10)).
(** [strsep] with one delimiter: the token, and the string after it. *)
Definition strsep (s : cstr) (c : Z) : cstr * option cstr :=
  match strchr s c with Some i => (take i s, Some (drop (S i) s)) | None => (s, None) end.

Record job_opts := {
  jo : thread_options;
  jo_size : Z; size_percent : Z;
  ioprio : Z; ioprio_set : bool;
  cpumask : gset Z; cpumask_set : bool; verify_cpumask : gset Z; verify_cpumask_set : bool;
  file_names : list cstr; nr_files : Z;
  file_service_nr : Z; jo_sync_file_range_nr : Z; lockfile_batch : Z;
  jo_verify : verify_t; jo_verify_offset : Z; jo_pattern : list Z; jo_pattern_bytes : Z }.
#[export] Instance eta_job_opts : Eta job_opts := fun j =>
  Build_job_opts (jo j) (jo_size j) (size_percent j) (ioprio j) (ioprio_set j) (cpumask j) (cpumask_set j)
    (verify_cpumask j) (verify_cpumask_set j) (file_names j) (nr_files j) (file_service_nr j)
    (jo_sync_file_range_nr j) (lockfile_batch j) (jo_verify j) (jo_verify_offset j) (jo_pattern j) (jo_pattern_bytes j).

(** What a callback does: it returns 0 or 1, or it does something C does not define. *)
Inductive outcome (A : Type) := Accepted (a : A) | Rejected | Undefined.
Arguments Accepted {A} a. Arguments Rejected {A}. Arguments Undefined {A}.
#[export] Instance outcome_bind : MBind outcome := fun _ _ f r =>
  match r with Accepted a => f a | Rejected => Rejected | Undefined => Undefined end.

Definition get_opt_postfix (s : cstr) : option cstr :=
  i ← strchr s (chr ":"); Some (strip_blank_end (strip_blank_front (drop (S i) s))).

Section numbers.
Context (kb_base : Z) (errno : bool).
(** [qsort] with [bs_cmp], which never returns a negative number and so is no order:
    nothing is known of the order of what it leaves. *)
Context (qsort : list (Z * Z) -> list (Z * Z)).

(** ** [bssplit] *)

(** The loop over the entries: sizes with percentages, the largest and the smallest
    size.  An [unsigned char] of 255 is a percentage that is not given.  If a size
    cannot be read, the array in the options is freed, which was not allocated. *)
Fixpoint bssplit_entries (fuel : nat) (str : option cstr) (max_bs min_bs : Z)
    : outcome (list (Z * Z) * Z * Z) :=
  match fuel, str with
  | S fuel, Some str =>
      let '(fname, rest) := strsep str (chr ":") in
      if (length fname =? 0)%nat then Accepted ([], max_bs, min_bs)
      else
        let '(fname, perc) :=
          match strchr fname (chr "/") with
          | Some i =>
              let perc := u32 (atoi (drop (S i) fname)) in
              (take i fname, if perc >? 100 then 100 else if perc =? 0 then 2 ^ 32 - 1 else perc)
          | None => (fname, 2 ^ 32 - 1)
          end in
        match str_to_decimal kb_base errno true fname with
        | None => Undefined
        | Some val =>
            let max_bs := if val >? max_bs then u32 val else max_bs in
            let min_bs := if val <? min_bs then u32 val else min_bs in
            '(l, max_bs, min_bs) ← bssplit_entries fuel rest max_bs min_bs;
            Accepted ((u32 val, u8 perc) :: l, max_bs, min_bs)
        end
  | _, _ => Accepted ([], max_bs, min_bs)
  end.

Definition perc_sum (l : list (Z * Z)) : Z :=
  foldl (fun perc e => if snd e =? 255 then perc else u32 (perc + snd e)) 0 l.
Definition perc_missing (l : list (Z * Z)) : Z := length (filter (fun e => snd e = 255) l).

Definition bssplit_ddir (o : thread_options) (ddir : fio_ddir) (str : cstr) : outcome thread_options :=
  '(l, max, min) ← bssplit_entries (S (length str)) (Some str) 0 (2 ^ 32 - 1);
  let perc := perc_sum l in
  if perc >? 100 then Rejected
  else
    let missing := perc_missing l in
    let l := if missing =? 0 then l
             else map (fun '(bs, p) => (bs, if p =? 255 then u8 (u32 (100 - perc) / missing) else p)) l in
    Accepted (o <| min_bs := set2 ddir min (min_bs o) |> <| max_bs := set2 ddir max (max_bs o) |>
                <| bssplit := set2 ddir (qsort l) (bssplit o) |>).

Definition str_bssplit_cb (o : thread_options) (input : cstr) : outcome thread_options :=
  let str := strip_blank_end (strip_blank_front input) in
  match strchr str (chr ",") with
  | Some i =>
      o ← bssplit_ddir o DDIR_WRITE (drop (S i) str);
      bssplit_ddir o DDIR_READ (take i str)
  | None =>
      o ← bssplit_ddir o DDIR_READ str;
      bssplit_ddir o DDIR_WRITE str
  end.

(** ** The direction *)
Definition str_rw_cb (o : thread_options) (str : cstr) : outcome thread_options :=
  let o := o <| ddir_seq_nr := 1 |> <| ddir_seq_add := 0 |> in
  match get_opt_postfix str with
  | None => Accepted o
  | Some nr =>
      if td_random o then Accepted (o <| ddir_seq_nr := u32 (atoi nr) |>)
      else match str_to_decimal kb_base errno true nr with
           | None => Rejected
           | Some val => Accepted (o <| ddir_seq_add := val |>)
           end
  end.
End numbers.

Definition str_rwmix_read_cb (o : thread_options) (val : Z) : thread_options :=
  o <| rwmix := (u32 val, u32 (100 - val)) |>.
Definition str_rwmix_write_cb (o : thread_options) (val : Z) : thread_options :=
  o <| rwmix := (u32 (100 - val), u32 val) |>.

(** [rw_verify]: no writes when [read_only] is set. *)
Definition rw_verify (read_only : bool) (o : thread_options) : Z := if read_only && td_write o then 1 else 0.

(** ** Priorities *)
Definition IOPRIO_CLASS_BE : Z := 2.
Definition IOPRIO_CLASS_SHIFT : Z := 13.
Definition str_prioclass_cb (j : job_opts) (val : Z) : job_opts :=
  let mask := (1 .<< IOPRIO_CLASS_SHIFT) - 1 in
  j <| ioprio := u32 ((ioprio j .& mask) .| (val .<< IOPRIO_CLASS_SHIFT)) |> <| ioprio_set := true |>.
Definition str_prio_cb (j : job_opts) (val : Z) : job_opts :=
  let p := u32 (ioprio j .| val) in
  let p := if (p .>> IOPRIO_CLASS_SHIFT) =? 0 then u32 (p .| (IOPRIO_CLASS_BE .<< IOPRIO_CLASS_SHIFT)) else p in
  j <| ioprio := p |> <| ioprio_set := true |>.

(** ** Sizes and numbers after a colon *)
Definition str_size_cb (j : job_opts) (v : Z) : job_opts :=
  if parse_is_percent v then j <| jo_size := 0 |> <| size_percent := u32 (2 ^ 64 - 1 - v) |> else j <| jo_size := v |>.
Definition str_fst_cb (j : job_opts) (str : cstr) : job_opts :=
  j <| file_service_nr := match get_opt_postfix str with Some nr => u32 (atoi nr) | None => 1 end |>.
Definition str_sfr_cb (j : job_opts) (str : cstr) : job_opts :=
  j <| jo_sync_file_range_nr := match get_opt_postfix str with Some nr => u32 (atoi nr) | None => 1 end |>.
Definition str_lockfile_cb (j : job_opts) (str : cstr) : job_opts :=
  j <| lockfile_batch := match get_opt_postfix str with Some nr => u32 (atoi nr) | None => 1 end |>.
Definition str_verify_offset_cb (j : job_opts) (off : Z) : outcome job_opts :=
  if negb (off =? 0) && (off <? HDR) then Rejected else Accepted (j <| jo_verify_offset := u32 off |>).

(** ** Processor lists *)
Section cpus.
(** [cpus_online()], the size of a mask, and whether [fio_cpuset_init] fails. *)
Context (max_cpu FIO_MAX_CPUS : Z) (init_fails : bool).

(** [str_cpumask_cb]: bits 0 to 31 of the value; [1 << 31] is negative, and with the
    64-bit value its sign is all the bits from there on. *)
Definition mask_bit (val i : Z) : bool := if i =? 31 then negb ((val .>> 31) =? 0) else Z.testbit val i.
Fixpoint cpumask_bits (n : nat) (i val : Z) (mask : gset Z) : outcome (gset Z) :=
  match n with
  | O => Accepted mask
  | S n =>
      if mask_bit val i then
        (if i >? max_cpu then Rejected else cpumask_bits n (i + 1) val ({[i]} ∪ mask))
      else cpumask_bits n (i + 1) val mask
  end.
Definition str_cpumask_cb (j : job_opts) (val : Z) : outcome job_opts :=
  if init_fails then Rejected
  else mask ← cpumask_bits 32 0 val ∅; Accepted (j <| cpumask := mask |> <| cpumask_set := true |>).

(** The inner loop over what "-" separates: the last number, up to an empty token. *)
Fixpoint last_number (fuel : nat) (str2 : option cstr) (icpu2 : Z) : Z :=
  match fuel, str2 with
  | S fuel, Some s =>
      let '(cpu2, rest) := strsep s (chr "-") in
      if (length cpu2 =? 0)%nat then icpu2 else last_number fuel rest (atoi cpu2)
  | _, _ => icpu2
  end.
(** [while (icpu <= icpu2)], [n] processors to go. *)
Fixpoint set_range (n : nat) (icpu : Z) (mask : gset Z) : outcome (gset Z) :=
  match n with
  | O => Accepted mask
  | S n => if icpu >=? FIO_MAX_CPUS then Rejected
           else if icpu >? max_cpu then Rejected
           else set_range n (icpu + 1) ({[icpu]} ∪ mask)
  end.
(** [atoi(cpu)] after [strsep] has cut it at the "-". *)
Definition set_cpu_token (cpu : cstr) (mask : gset Z) : outcome (gset Z) :=
  let icpu2 := last_number (S (length cpu)) (Some cpu) (-1) in
  let icpu := atoi (fst (strsep cpu (chr "-"))) in
  let icpu2 := if icpu2 =? -1 then icpu else icpu2 in
  set_range (Z.to_nat (icpu2 - icpu + 1)) icpu mask.
Fixpoint set_cpu_list (fuel : nat) (str : option cstr) (mask : gset Z) : outcome (gset Z) :=
  match fuel, str with
  | S fuel, Some s =>
      let '(cpu, rest) := strsep s (chr ",") in
      if (length cpu =? 0)%nat then Accepted mask
      else mask ← set_cpu_token cpu mask; set_cpu_list fuel rest mask
  | _, _ => Accepted mask
  end.
Definition set_cpus_allowed (input : cstr) : outcome (gset Z) :=
  if init_fails then Rejected
  else let str := strip_blank_end (strip_blank_front input) in
       set_cpu_list (S (length str)) (Some str) ∅.

Definition str_cpus_allowed_cb (j : job_opts) (input : cstr) : outcome job_opts :=
  mask ← set_cpus_allowed input; Accepted (j <| cpumask := mask |> <| cpumask_set := true |>).
(** [set_cpus_allowed] itself sets [cpumask_set], of the other mask. *)
Definition str_verify_cpus_allowed_cb (j : job_opts) (input : cstr) : outcome job_opts :=
  mask ← set_cpus_allowed input;
  Accepted (j <| verify_cpumask := mask |> <| cpumask_set := true |> <| verify_cpumask_set := true |>).
End cpus.

(** ** File names *)

(** The loop of [get_next_file_name]: [s] is the string at [start], [k] is
    [str - start].  The name, and what is left in [*ptr]. *)
Fixpoint file_name_loop (fuel : nat) (s : cstr) (k : nat) : cstr * option cstr :=
  match fuel with
  | O => (s, None)
  | S fuel =>
      match strchr (drop k s) (chr ":") with
      | None => (s, None)
      | Some i =>
          let p := (k + i)%nat in
          if (p =? 0)%nat then file_name_loop fuel (drop 1 s) 0
          else if negb (at_index s (p - 1) =? 92) then (take p s, Some (drop (S p) s))
          else file_name_loop fuel (take (p - 1) s ++ drop p s) p
      end
  end.
Definition get_next_file_name (ptr : option cstr) : option (cstr * option cstr) :=
  str ← ptr; if (length str =? 0)%nat then None else Some (file_name_loop (S (length str)) str 0).

(** Its body is compiled out ([#if 0]). *)
Definition check_dir (fname : cstr) : Z := 0.

(** The loop, with the value that is returned; [add_file] gets each name as it is. *)
Fixpoint file_names_loop (fuel : nat) (str : option cstr) (j : job_opts) : job_opts * Z :=
  match fuel with
  | O => (j, 0)
  | S fuel =>
      match get_next_file_name str with
      | None => (j, 0)
      | Some (fname, rest) =>
          if (length fname =? 0)%nat then (j, 0)
          else if negb (check_dir fname =? 0) then (j, 1)
          else file_names_loop fuel rest
                 (j <| file_names := file_names j ++ [fname] |> <| nr_files := u32 (nr_files j + 1) |>)
      end
  end.
(** [files_index] is the number of files the job has. *)
Definition str_filename_cb (files_index : Z) (j : job_opts) (input : cstr) : job_opts * Z :=
  let str := strip_blank_end (strip_blank_front input) in
  let j := if files_index =? 0 then j <| nr_files := 0 |> else j in
  file_names_loop (S (length str)) (Some str) j.

(** ** Verify patterns *)
Definition converthexchartoint (a : Z) : Z :=
  if isdigit a then a - 48
  else if (65 <=? a) && (a <=? 70) then a - 65 + 10
  else if (97 <=? a) && (a <=? 102) then a - 97 + 10
  else a.

(** [while (off)]: the bytes of [off] from the low end, into the array of
    [MAX_PATTERN_SIZE] bytes; [Undefined] is a write past its end. *)
Fixpoint pattern_bytes_of (fuel : nat) (off : Z) : outcome (list Z) :=
  match fuel with
  | O => Undefined
  | S fuel =>
      if off =? 0 then Accepted []
      else l ← pattern_bytes_of fuel (off .>> 8); Accepted (u8 off :: l)
  end.
(** The digits from the end of the string, two for each byte. *)
Fixpoint pattern_digits (rev_digits : cstr) : list Z :=
  match rev_digits with
  | [] => []
  | [c] => [u8 (converthexchartoint c)]
  | c :: d :: l => u8 (converthexchartoint c + converthexchartoint d * 16) :: pattern_digits l
  end.
(** The start of [str_verify_pattern_cb]; [errno] is whether it was [ERANGE] before. *)
Definition pattern_number (errno : bool) (input : cstr) : outcome (list Z) :=
  let loc1 := strstr input $"0x" in
  let loc2 := strstr input $"0X" in
  let base := match loc1, loc2 with None, None => 10 | _, _ => 16 end in
  let '(off, erange) := strtoll input base in
  if negb (off =? LLONG_MAX) || negb (errno || erange) then pattern_bytes_of (S (Z.to_nat MAX_PATTERN_SIZE)) off
  else
    match (match loc1 with Some i => Some i | None => loc2 end) with
    | None => Rejected
    | Some i =>
        let digits := drop (i + 2) input in
        if length digits <? MAX_PATTERN_SIZE * 2 then Accepted (pattern_digits (rev digits)) else Accepted []
    end.
Definition str_verify_pattern_cb (errno : bool) (j : job_opts) (input : cstr) : outcome job_opts :=
  l ← pattern_number errno input;
  let '(pattern, i) := pattern_finish (l ++ drop (length l) (jo_pattern j)) (length l) in
  Accepted (j <| jo_pattern := pattern |> <| jo_pattern_bytes := i |>
              <| jo_verify := if bool_decide (jo_verify j = VERIFY_NONE) then VERIFY_PATTERN else jo_verify j |>).

(** * Properties *)

(** ** Lists of tokens *)

(** Strings with a character between them. *)
Fixpoint join (c : Z) (l : list cstr) : cstr :=
  match l with
  | [] => []
  | [a] => a
  | a :: l => a ++ c :: join c l
  end.
Lemma join_cons c a b l : join c (a :: b :: l) = a ++ c :: join c (b :: l).
Proof. done. Qed.
Lemma join_length c a l : (length (join c l) <= length (join c (a :: l)))%nat /\ (length a <= length (join c (a :: l)))%nat /\
  (l <> [] -> (length a + length (join c l) < length (join c (a :: l)))%nat).
Proof. destruct l as [|b l]; [cbn; split_and!; [lia|lia|done]|]. rewrite join_cons, length_app. cbn [length]. lia. Qed.

Lemma strsep_app a c b : c ∉ a -> strsep (a ++ c :: b) c = (a, Some b).
Proof.
  intros H. unfold strsep. rewrite strchr_app by done. rewrite take_app_length. f_equal. f_equal.
  rewrite drop_app_ge by lia. by replace (S (length a) - length a)%nat with 1%nat by lia.
Qed.
Lemma strsep_none a c : c ∉ a -> strsep a c = (a, None).
Proof. intros H. unfold strsep. by rewrite (proj2 (strchr_none _ _) H). Qed.
Lemma strsep_join c a l : c ∉ a -> strsep (join c (a :: l)) c = (a, match l with [] => None | _ => Some (join c l) end).
Proof. intros H. destruct l as [|b l]; [by apply strsep_none|]. rewrite join_cons. by apply strsep_app. Qed.

(** ** Numbers *)
Lemma print_dec_no n c : 0 <= n -> isdigit c = false -> c ∉ print_dec n.
Proof.
  intros Hn Hc H. destruct (print_dec_ok n Hn) as (Hd & _ & _). unfold digits in Hd. rewrite Forall_forall in Hd.
  apply Hd in H. congruence.
Qed.
Lemma print_dec_length n : 0 <= n -> (0 < length (print_dec n))%nat.
Proof. intros Hn. destruct (print_dec_ok n Hn) as (_ & H & _). destruct (print_dec n); [done|cbn; lia]. Qed.
Lemma atoi_print n : 0 <= n < 2 ^ 31 -> atoi (print_dec n) = n.
Proof.
  intros Hn. destruct (print_dec_ok n) as (Hd & Hne & Hv); [lia|]. unfold atoi.
  rewrite <- (app_nil_r (print_dec n)). rewrite strtoll_dec; [|done|done|done|rewrite Hv; unfold LLONG_MAX; lia].
  cbn [fst]. rewrite Hv. unfold swrap. rewrite Z.mod_small by lia. destruct (Z.ltb_spec n (2 ^ (32 - 1))); lia.
Qed.
Lemma str_to_decimal_print kb n : 0 <= n < LLONG_MAX -> str_to_decimal kb false true (print_dec n) = Some n.
Proof.
  intros Hn. destruct (print_dec_ok n) as (Hd & Hne & Hv); [lia|].
  rewrite <- (app_nil_r (print_dec n)), Parse.str_to_decimal_digits; [|done|done|split; apply not_elem_of_nil|lia|done].
  change (Parse.suffix_mult kb []) with (1, false). cbv iota beta. rewrite Hv, Z.mul_1_r. f_equal. by apply Parse.s64_small.
Qed.

(** ** Block sizes with percentages *)

(** An entry as it is written: the size, and the percentage if it is given. *)
Abbreviation split_entry := (Z * option Z)%type.
Definition entry_wf (e : split_entry) : Prop :=
  0 < e.1 < 2 ^ 32 /\ match e.2 with Some p => 1 <= p <= 100 | None => True end.
Definition print_entry (e : split_entry) : cstr :=
  print_dec e.1 ++ match e.2 with Some p => chr "/" :: print_dec p | None => [] end.
Definition raw_entry (e : split_entry) : Z * Z := (e.1, default 255 e.2).

Lemma print_entry_ok e : entry_wf e -> (chr ":" ∉ print_entry e) /\ (0 < length (print_entry e))%nat.
Proof.
  destruct e as [bs p]. intros [Hb Hp]. cbn in *. split.
  - unfold print_entry. cbn [fst snd]. rewrite not_elem_of_app. split; [apply print_dec_no; [lia|done]|].
    destruct p as [p|]; [|apply not_elem_of_nil]. rewrite not_elem_of_cons. split; [done|apply print_dec_no; [lia|done]].
  - unfold print_entry. rewrite length_app. apply Nat.add_pos_l, print_dec_length. cbn. lia.
Qed.

Lemma bssplit_entries_print kb l : Forall entry_wf l -> l <> [] -> forall fuel max min, (length (join (chr ":") (map print_entry l)) < fuel)%nat ->
  0 <= max -> 0 <= min < 2 ^ 32 ->
  bssplit_entries kb false fuel (Some (join (chr ":") (map print_entry l))) max min =
    Accepted (map raw_entry l, foldl Z.max max (map fst l), foldl Z.min min (map fst l)).
Proof.
  intros Hw Hne. induction Hw as [|e l He Hl IH]; [done|]. clear Hne. intros fuel max min Hf Hmax Hmin.
  destruct (print_entry_ok e He) as [Hc Hlen]. destruct fuel as [|fuel]; [lia|]. cbn [bssplit_entries].
  rewrite (strsep_join _ (print_entry e) (map print_entry l)) by done.
  destruct (Nat.eqb_spec (length (print_entry e)) 0) as [E|_]; [lia|].
  destruct e as [bs p]. destruct He as [Hb Hp]. cbn [fst snd] in Hb, Hp.
  set (fp := match strchr (print_entry (bs, p)) (chr "/") with Some _ => _ | None => _ end).
  assert (Efp : fp = (print_dec bs, default (2 ^ 32 - 1) p)).
  { subst fp. unfold print_entry. cbn [fst snd]. destruct p as [p|].
    - rewrite strchr_app by (apply print_dec_no; [lia|done]). rewrite take_app_length. rewrite drop_app_ge by lia.
      replace (S (length (print_dec bs)) - length (print_dec bs))%nat with 1%nat by lia. cbn [drop]. rewrite drop_0.
      rewrite atoi_print, wrap_small by (unfold is_word; lia). replace (p >? 100) with false by lia. by replace (p =? 0) with false by lia.
    - rewrite app_nil_r, (proj2 (strchr_none _ _)) by (apply print_dec_no; [lia|done]). done. }
  rewrite Efp. clear fp Efp. rewrite str_to_decimal_print by (unfold LLONG_MAX; lia).
  replace (if bs >? max then u32 bs else max) with (Z.max max bs) by (rewrite wrap_small by (unfold is_word; lia); destruct (bs >? max) eqn:?; lia).
  replace (if bs <? min then u32 bs else min) with (Z.min min bs) by (rewrite wrap_small by (unfold is_word; lia); destruct (bs <? min) eqn:?; lia).
  rewrite (wrap_small 32 bs) by (unfold is_word; lia).
  replace (u8 (default (2 ^ 32 - 1) p)) with (default 255 p).
  2: { destruct p as [p|]; cbn [from_option id]; [|reflexivity]. rewrite wrap_small by (unfold is_word; lia). done. }
  destruct l as [|e' l].
  - cbn [map]. destruct fuel; reflexivity.
  - cbn [map] in *. pose proof (proj2 (proj2 (join_length (chr ":") (print_entry (bs, p)) (print_entry e' :: map print_entry l))) ltac:(done)).
    rewrite IH by (done || lia). reflexivity.
Qed.

(** The percentages that are given, and what each of the others gets. *)
Definition given (l : list split_entry) : Z := foldr (fun e n => default 0 e.2 + n) 0 l.
Definition missing (l : list split_entry) : Z := length (filter (fun e => e.2 = None) l).
Definition share (l : list split_entry) : Z := (100 - given l) / missing l.
Definition filled (l : list split_entry) : list (Z * Z) := map (fun e => (e.1, default (share l) e.2)) l.
Definition perc_total (l : list (Z * Z)) : Z := foldr (fun e n => e.2 + n) 0 l.

Lemma given_bounds l : Forall entry_wf l -> 0 <= given l <= 100 * length l.
Proof.
  induction 1 as [|[bs p] l [Hb Hp] Hl IH]; [cbn; lia|]. cbn [given foldr length fst snd] in *. fold (given l) in *.
  destruct p as [p|]; cbn [from_option id]; lia.
Qed.
Lemma perc_sum_raw l : Forall entry_wf l -> length l < 2 ^ 24 -> perc_sum (map raw_entry l) = given l.
Proof.
  intros Hw Hl. unfold perc_sum.
  assert (G : forall acc, 0 <= acc -> acc + given l < 2 ^ 32 ->
    foldl (fun perc e => if e.2 =? 255 then perc else u32 (perc + e.2)) acc (map raw_entry l) = acc + given l).
  { clear Hl. induction Hw as [|[bs p] l [Hb Hp] Hw IH]; intros acc Ha Hs; [cbn; lia|].
    pose proof (given_bounds l Hw). cbn [map foldl raw_entry given foldr fst snd] in *. fold (given l) in *. cbn in Hb, Hp.
    destruct p as [p|]; cbn [from_option id] in *.
    - replace (p =? 255) with false by lia. rewrite wrap_small by (unfold is_word; lia). rewrite IH; lia.
    - cbn [Z.eqb Pos.eqb]. rewrite IH; lia. }
  pose proof (given_bounds l Hw). rewrite (G 0); lia.
Qed.
Lemma perc_missing_raw l : Forall entry_wf l -> perc_missing (map raw_entry l) = missing l.
Proof.
  intros Hw. unfold perc_missing, missing. f_equal. induction Hw as [|[bs p] l [Hb Hp] Hw IH]; [done|].
  cbn [map raw_entry fst snd] in *. rewrite !filter_cons. cbn [fst snd]. destruct p as [p|]; cbn [from_option id].
  - cbn in Hp. rewrite decide_False by (cbn; lia). rewrite decide_False by done. exact IH.
  - rewrite !decide_True by done. cbn [length]. by rewrite IH.
Qed.
Lemma missing_cons bs p l : missing ((bs, p) :: l) = match p with Some _ => missing l | None => missing l + 1 end.
Proof.
  unfold missing. rewrite filter_cons. destruct p as [p|]; [by rewrite decide_False|]. rewrite decide_True by done. cbn [length]. lia.
Qed.
Lemma missing_bounds l : 0 <= missing l <= length l.
Proof. unfold missing. split; [lia|]. apply Nat2Z.inj_le, length_filter. Qed.
Lemma share_bounds l : Forall entry_wf l -> given l <= 100 -> 0 <= share l <= 100.
Proof.
  intros Hw Hg. pose proof (given_bounds l Hw). pose proof (missing_bounds l). unfold share.
  destruct (decide (missing l = 0)) as [->|]; [rewrite Z.div_0_r; lia|]. split; [apply Z.div_pos; lia|].
  apply Z.div_le_upper_bound; nia.
Qed.
Lemma missing_none l : missing l = 0 -> Forall (fun e => e.2 <> None) l.
Proof.
  unfold missing. intros H. apply Forall_forall. intros e He Hn.
  assert (e ∈ filter (fun e : split_entry => e.2 = None) l) as Hi by (by apply list_elem_of_filter).
  destruct (filter _ l); [by apply elem_of_nil in Hi|cbn in H; lia].
Qed.

(** The entries with the shares of those that had no percentage. *)
Lemma filled_raw l : Forall entry_wf l -> given l <= 100 ->
  (if missing l =? 0 then map raw_entry l
   else map (fun '(bs, p) => (bs, if p =? 255 then u8 (u32 (100 - given l) / missing l) else p)) (map raw_entry l)) = filled l.
Proof.
  intros Hw Hg. pose proof (given_bounds l Hw). pose proof (share_bounds l Hw Hg). unfold filled.
  rewrite (wrap_small 32) by (unfold is_word; lia). fold (share l). rewrite wrap_small by (unfold is_word; lia).
  destruct (Z.eqb_spec (missing l) 0) as [E|_].
  - apply missing_none in E. apply map_ext_in. intros e He. apply list_elem_of_In in He. rewrite Forall_forall in E.
    unfold raw_entry. specialize (E e He). by destruct e as [bs [p|]].
  - rewrite map_map. apply map_ext_in. intros e He. apply list_elem_of_In in He. rewrite Forall_forall in Hw.
    destruct e as [bs [p|]]; cbn [raw_entry fst snd from_option id]; [|done]. destruct (Hw _ He) as [_ Hp]. cbn in Hp.
    by replace (p =? 255) with false by lia.
Qed.

(** What the percentages add up to: the given ones, and the equal shares. *)
Lemma filled_total l : perc_total (filled l) = given l + share l * missing l.
Proof.
  unfold filled. generalize (share l). intros s. induction l as [|[bs p] l IH]; [change (missing []) with 0; cbn; lia|].
  rewrite missing_cons. change (default s p + perc_total (map (fun e : split_entry => (e.1, default s e.2)) l) =
          default 0 p + given l + s * match p with Some _ => missing l | None => missing l + 1 end).
  rewrite IH. destruct p as [p|]; cbn [from_option id]; lia.
Qed.
Lemma filled_total_bounds l : given l <= 100 ->
  perc_total (filled l) <= 100 /\ (missing l = 0 -> perc_total (filled l) = given l) /\
  (0 < missing l -> 100 - perc_total (filled l) < missing l).
Proof.
  intros Hg. rewrite filled_total. unfold share. pose proof (missing_bounds l).
  destruct (decide (missing l = 0)) as [->|]; [lia|].
  pose proof (Z.mul_div_le (100 - given l) (missing l)). pose proof (Z.mul_succ_div_gt (100 - given l) (missing l)). lia.
Qed.

Lemma sizes_extremes l : Forall entry_wf l -> l <> [] ->
  least (foldl Z.min (2 ^ 32 - 1) (map fst l)) (map fst l) /\ largest (foldl Z.max 0 (map fst l)) (map fst l).
Proof.
  intros Hw Hne. assert (H : Forall (fun x => 0 < x < 2 ^ 32) (map fst l)).
  { apply Forall_map. eapply Forall_impl; [exact Hw|]. by intros e [He _]. }
  split; [apply foldl_least|apply foldl_largest]; try (by destruct l); (eapply Forall_impl; [exact H|]); cbn; lia.
Qed.
Lemma perc_total_perm l l' : l ≡ₚ l' -> perc_total l = perc_total l'.
Proof. unfold perc_total. induction 1; cbn; lia. Qed.

(** HOWTO: the percentages always add up to 100.  They do not when all are given and
    are less. *)
Lemma bssplit_half : exists o',
  bssplit_ddir 1024 false (sort_desc snd) RandMap.RandMap.test_options DDIR_READ $"4k/50" = Accepted o' /\
  perc_total (at2 (bssplit o') DDIR_READ) = 50.
Proof. eexists. split; reflexivity. Qed.

(** ** File names *)

(** A name with a backslash before each of its colons. *)
Fixpoint escape (s : cstr) : cstr :=
  match s with
  | [] => []
  | c :: s => if c =? chr ":" then 92 :: c :: escape s else c :: escape s
  end.
(** Names with a colon between them: none is empty or ends with a backslash. *)
Definition name_wf (s : cstr) : Prop := s <> [] /\ at_index s (length s - 1) <> 92.
Definition print_names (l : list cstr) : cstr := join (chr ":") (map escape l).

Lemma escape_split s : (chr ":" ∉ s) /\ escape s = s \/
  exists a b, s = a ++ chr ":" :: b /\ (chr ":" ∉ a) /\ escape s = a ++ 92 :: chr ":" :: escape b.
Proof.
  induction s as [|c s IH]; [left; split; [apply not_elem_of_nil|done]|]. cbn [escape]. destruct (Z.eqb_spec c (chr ":")) as [->|Hc].
  - right. exists [], s. split_and!; [done|apply not_elem_of_nil|done].
  - destruct IH as [[H1 H2]|(a & b & -> & H1 & H2)].
    + left. rewrite H2. split; [|done]. by apply not_elem_of_cons.
    + right. exists (c :: a), b. split_and!; [done| |by rewrite H2]. by apply not_elem_of_cons.
Qed.
Lemma drop_app_eq (a b : cstr) : drop (length a) (a ++ b) = b.
Proof. apply drop_app_length. Qed.
Lemma remove_at (a b : cstr) c : take (length a) (a ++ c :: b) ++ drop (S (length a)) (a ++ c :: b) = a ++ b.
Proof.
  rewrite take_app_length, drop_app_ge by lia. by replace (S (length a) - length a)%nat with 1%nat by lia.
Qed.

(** The loop, with a part [pre] of the name behind it: what is left of the name is
    read up to the separator, and its backslashes removed. *)
Lemma file_name_loop_ok rest : (rest = [] \/ exists r, rest = chr ":" :: r) -> forall s pre fuel,
  (length (pre ++ escape s ++ rest) < fuel)%nat ->
  (s <> [] -> at_index s (length s - 1) <> 92) -> (s = [] -> pre <> [] /\ at_index pre (length pre - 1) <> 92) ->
  (pre = [] -> s <> []) ->
  file_name_loop fuel (pre ++ escape s ++ rest) (length pre) =
    (pre ++ s, match rest with [] => None | _ :: r => Some r end).
Proof.
  intros Hrest s. remember (length s) as n eqn:En. revert s En. induction n as [n IH] using lt_wf_ind. intros s En pre fuel Hf Hs Hs0 Hp.
  destruct fuel as [|fuel]; [lia|]. cbn [file_name_loop]. rewrite drop_app_eq.
  destruct (escape_split s) as [[Hc He]|(a & b & Es & Ha & He)]; rewrite He in *.
  - destruct Hrest as [->|[r ->]].
    + rewrite app_nil_r, (proj2 (strchr_none _ _) Hc). done.
    + rewrite strchr_app by done. assert (Hne : pre ++ s <> []) by (destruct pre, s; naive_solver).
      assert (L : (length pre + length s <> 0)%nat) by (rewrite <- length_app; destruct (pre ++ s); [done|cbn; lia]).
      destruct (Nat.eqb_spec (length pre + length s) 0) as [|_]; [done|].
      assert (Hl : at_index (pre ++ s ++ chr ":" :: r) (length pre + length s - 1) <> 92).
      { rewrite app_assoc, Parse.at_index_app_l by (rewrite length_app; lia). destruct s as [|c s].
        - rewrite app_nil_r. cbn [length]. rewrite Nat.add_0_r. by apply Hs0.
        - rewrite Parse.at_index_app_r by (cbn; lia). replace (length pre + length (c :: s) - 1 - length pre)%nat with (n - 1)%nat by (cbn in *; lia).
          by apply Hs. }
      rewrite (proj2 (Z.eqb_neq _ _) Hl). cbn [negb]. rewrite !app_assoc, <- length_app, take_app_length. f_equal. f_equal.
      rewrite drop_app_ge by lia. by replace (S (length (pre ++ s)) - length (pre ++ s))%nat with 1%nat by lia.
  - set (x := pre ++ a). set (tail := escape b ++ rest).
    assert (Ew : pre ++ (a ++ 92 :: chr ":" :: escape b) ++ rest = x ++ 92 :: chr ":" :: tail) by (subst x tail; by rewrite <- !app_assoc).
    rewrite Ew in *. replace ((a ++ 92 :: chr ":" :: escape b) ++ rest) with ((a ++ [92]) ++ chr ":" :: tail)
      by (subst tail; by rewrite <- !app_assoc).
    rewrite strchr_app by (rewrite not_elem_of_app; split; [done|by rewrite list_elem_of_singleton]).
    replace (length pre + length (a ++ [92%Z]))%nat with (S (length x)) by (subst x; rewrite !length_app; cbn; lia).
    cbn [Nat.eqb]. rewrite Nat.sub_succ, Nat.sub_0_r. rewrite Parse.at_index_app_r, Nat.sub_diag by lia.
    cbn [at_index nth Z.eqb Pos.eqb negb]. rewrite remove_at.
    replace (x ++ chr ":" :: tail) with ((x ++ [chr ":"]) ++ escape b ++ rest) by (by rewrite <- app_assoc).
    replace (S (length x)) with (length (x ++ [chr ":"])) by (rewrite length_app; cbn; lia).
    assert (Lb : (length b < n)%nat) by (subst n s; rewrite length_app; cbn; lia).
    rewrite (IH (length b) Lb b eq_refl).
    + subst x s. by rewrite <- !app_assoc.
    + subst tail. rewrite !length_app in *. cbn [length] in *. rewrite length_app in Hf. lia.
    + intros Hb. assert (Ln : n = (length a + S (length b))%nat) by (subst n s; rewrite length_app; done).
      assert (0 < length b)%nat by (destruct b; [done|cbn; lia]). subst s. specialize (Hs ltac:(by destruct a)).
      rewrite Parse.at_index_app_r in Hs by lia. replace (n - 1 - length a)%nat with (S (length b - 1)) in Hs by lia. exact Hs.
    + intros _. split; [by destruct x|]. rewrite length_app. cbn [length]. rewrite Parse.at_index_app_r by lia.
      by replace (length x + 1 - 1 - length x)%nat with 0%nat by lia.
    + by destruct x.
Qed.

Lemma escape_nonempty s : s <> [] -> escape s <> [].
Proof. destruct s as [|c s]; [done|]. intros _. cbn [escape]. by destruct (c =? chr ":"). Qed.
Lemma get_next_print s rest : name_wf s -> (rest = [] \/ exists r, rest = chr ":" :: r) ->
  get_next_file_name (Some (escape s ++ rest)) = Some (s, match rest with [] => None | _ :: r => Some r end).
Proof.
  intros [Hne Hl] Hr. unfold get_next_file_name. cbn [mbind option_bind].
  destruct (Nat.eqb_spec (length (escape s ++ rest)) 0) as [E|_].
  { apply nil_length_inv, app_eq_nil in E as [E _]. by apply escape_nonempty in E. }
  f_equal. apply (file_name_loop_ok rest Hr s []); [cbn; lia|done|done|done].
Qed.

(** The job with more file names. *)
Definition with_files (j : job_opts) (l : list cstr) : job_opts :=
  j <| file_names := file_names j ++ l |> <| nr_files := nr_files j + length l |>.
Lemma with_files_cons j s l : 0 <= nr_files j -> nr_files j + length (s :: l) < 2 ^ 32 ->
  with_files (j <| file_names := file_names j ++ [s] |> <| nr_files := u32 (nr_files j + 1) |>) l = with_files j (s :: l).
Proof.
  intros H0 H. cbn [length] in H. unfold with_files. rewrite wrap_small by (unfold is_word; lia). destruct j. cbn -[length Z.add].
  rewrite <- app_assoc. cbn [app length]. f_equal. lia.
Qed.
Lemma with_files_nil j : with_files j [] = j.
Proof. destruct j. unfold with_files. cbn. by rewrite app_nil_r, Z.add_0_r. Qed.

Lemma file_names_loop_print l : Forall name_wf l -> forall fuel j, (length l < fuel)%nat ->
  0 <= nr_files j -> nr_files j + length l < 2 ^ 32 ->
  file_names_loop fuel (Some (print_names l)) j = (with_files j l, 0).
Proof.
  intros Hw. induction Hw as [|s l Hs Hl IH]; intros fuel j Hf H0 H32; (destruct fuel as [|fuel]; [lia|]).
  { by rewrite with_files_nil. }
  cbn [file_names_loop]. rewrite <- (with_files_cons j s l) by done.
  assert (length s <> 0)%nat by (intros E; apply nil_length_inv in E; by destruct Hs).
  set (j' := j <| file_names := _ |> <| nr_files := _ |>).
  assert (Ej : nr_files j' = nr_files j + 1) by (destruct j; cbn in *; apply wrap_small; unfold is_word; lia).
  destruct l as [|s' l].
  - unfold print_names. cbn [map join]. rewrite <- (app_nil_r (escape s)), get_next_print by (done || by left).
    destruct (Nat.eqb_spec (length s) 0) as [|_]; [done|]. cbn [check_dir Z.eqb negb]. fold j'. rewrite with_files_nil. by destruct fuel.
  - unfold print_names in *. cbn [map] in *. rewrite join_cons, get_next_print by (done || (right; by eexists)).
    destruct (Nat.eqb_spec (length s) 0) as [|_]; [done|]. cbn [check_dir Z.eqb negb]. fold j'. apply IH; cbn [length] in *; lia.
Qed.
Lemma print_names_length l : Forall name_wf l -> (length l <= length (print_names l))%nat.
Proof.
  unfold print_names. induction 1 as [|s l [Hs _] Hl IH]; [cbn; lia|]. cbn [map]. assert (0 < length (escape s))%nat.
  { apply escape_nonempty in Hs. destruct (escape s); [done|cbn; lia]. }
  destruct l as [|s' l]; [cbn [map join length]; lia|]. cbn [map] in *. rewrite join_cons, length_app. cbn [length] in *. lia.
Qed.

(** C35: The option [filename]: names with a backslash before each of their colons, and a
    colon between them, with blanks before them, and blanks and a comment after them.
    None is empty or ends with a backslash, and the list of names neither contains a ';'
    or a '#' nor starts or ends with a blank, for the rest of the line would be cut off
    there.  The callback returns 0, each name goes to [add_file] unchanged and in order,
    and is counted: the count starts over if the job had no file. *)
Theorem file_names_roundtrip files_index j l input : Forall name_wf l -> JobFile.line_of (print_names l) input ->
  let n := if files_index =? 0 then 0 else nr_files j in
  0 <= n -> n + length l < 2 ^ 32 ->
  exists j', str_filename_cb files_index j input = (j', 0) /\
    file_names j' = file_names j ++ l /\ nr_files j' = n + length l.
Proof.
  intros Hw Hi n H0 H32. unfold str_filename_cb.
  destruct (JobFile.line_front _ _ Hi) as (post & -> & He). rewrite JobFile.line_both by (done || apply Hi).
  set (j0 := if files_index =? 0 then _ else _).
  assert (E : file_names j0 = file_names j /\ nr_files j0 = n) by (subst j0 n; by destruct (files_index =? 0)). destruct E as [E1 E2].
  rewrite file_names_loop_print; [|done|pose proof (print_names_length l Hw); lia|by rewrite E2|by rewrite E2].
  eexists. split; [done|]. by rewrite <- E1, <- E2.
Qed.
Definition test_job : job_opts := {|
  jo := RandMap.RandMap.test_options; jo_size := 0; size_percent := 0; ioprio := 0; ioprio_set := false;
  cpumask := ∅; cpumask_set := false; verify_cpumask := ∅; verify_cpumask_set := false;
  file_names := []; nr_files := 1; file_service_nr := 0; jo_sync_file_range_nr := 0; lockfile_batch := 0;
  jo_verify := VERIFY_NONE; jo_verify_offset := 0; jo_pattern := []; jo_pattern_bytes := 0 |}.
Lemma file_names_roundtrip_witness : exists j', str_filename_cb 0 test_job $" a\:b:/dev/sdb:\: # comment" = (j', 0) /\
  file_names j' = [$"a:b"; $"/dev/sdb"; $":"] /\ nr_files j' = 3.
Proof.
  apply (file_names_roundtrip 0 test_job [$"a:b"; $"/dev/sdb"; $":"]); [by repeat constructor| |cbn; lia|cbn; lia].
  split.
  - split; [done|reflexivity|reflexivity|split; apply (bool_decide_unpack _); reflexivity].
  - exists [32], $" # comment". split_and!; [reflexivity|by repeat constructor|].
    exists [32], $"# comment". split_and!; [reflexivity|by repeat constructor|right; eexists _, _; split; [reflexivity|by right]].
Defined.
(** A '#' in a name ends it. *)
Lemma file_name_cut_at_hash : file_names (fst (str_filename_cb 0 test_job $"a#b")) = [$"a"].
Proof. reflexivity. Qed.

(** ** Verify patterns *)
Definition hex_digit (c : Z) : Prop := is_Some (digit_of 16 c).
Definition hex_val (c : Z) : Z := default 0 (digit_of 16 c).
Lemma converthexchartoint_ok c : hex_digit c -> converthexchartoint c = hex_val c /\ 0 <= hex_val c < 16.
Proof.
  unfold hex_digit, hex_val, digit_of, converthexchartoint, isalpha, isupper, islower, tolower, isupper, isdigit. intros [d Hd].
  destruct ((48 <=? c) && (c <=? 57)) eqn:E1; cbn [mbind option_bind] in *; [destruct (Z.ltb_spec (c - 48) 16); cbn; lia|].
  destruct ((65 <=? c) && (c <=? 90)) eqn:E2; cbn [orb mbind option_bind] in *.
  - destruct (Z.ltb_spec (c + 32 - 97 + 10) 16); [|done]. replace ((65 <=? c) && (c <=? 70)) with true by lia. cbn. lia.
  - destruct ((97 <=? c) && (c <=? 122)) eqn:E3; cbn [mbind option_bind] in *; [|done].
    destruct (Z.ltb_spec (c - 97 + 10) 16); [|done]. replace ((65 <=? c) && (c <=? 70)) with false by lia.
    replace ((97 <=? c) && (c <=? 102)) with true by lia. cbn. lia.
Qed.

(** The value of digits from the last one on. *)
Definition rev_val (r : cstr) : Z := foldr (fun c n => hex_val c + 16 * n) 0 r.
Lemma read_digits_snoc ds c : Forall hex_digit ds -> hex_digit c -> forall acc,
  read_digits 16 acc (ds ++ [c]) = read_digits 16 acc ds * 16 + hex_val c.
Proof.
  intros Hd [d Hc]. induction Hd as [|x ds [dx Hx] Hd IH]; intros acc; cbn [app read_digits].
  - unfold hex_val. rewrite Hc. done.
  - rewrite Hx. apply IH.
Qed.
Lemma read_digits_rev ds : Forall hex_digit ds -> read_digits 16 0 ds = rev_val (rev ds).
Proof.
  induction ds as [|c ds IH] using rev_ind; intros H; [done|]. apply Forall_app in H as [H1 H2]. apply Forall_cons in H2 as [H2 _].
  rewrite read_digits_snoc, rev_app_distr by done. cbn [rev app rev_val foldr]. fold (rev_val (rev ds)). rewrite IH by done. lia.
Qed.
Lemma rev_val_nonneg r : Forall hex_digit r -> 0 <= rev_val r.
Proof.
  induction 1 as [|c r Hc Hr IH]; [done|]. cbn [rev_val foldr]. fold (rev_val r). pose proof (proj2 (converthexchartoint_ok c Hc)). lia.
Qed.

Lemma le_val_cons b m : is_byte b -> le_val (b :: m) = b + 256 * le_val m.
Proof.
  intros Hb. cbn [le_val]. rewrite byte_or_xor by done.
  assert (D : Z.land b (Z.shiftl (le_val m) 8) = 0).
  { apply Z.bits_inj'. intros i Hi. rewrite Z.land_spec, Z.bits_0, Z.shiftl_spec by lia. destruct (Z.ltb_spec i 8).
    - by rewrite (Z.testbit_neg_r (le_val m)), andb_false_r by lia.
    - unfold is_byte, is_word in Hb. rewrite <- (Z.mod_small b (2 ^ 8)) by lia. by rewrite Z.mod_pow2_bits_high by lia. }
  rewrite <- Z.add_nocarry_lxor by done. rewrite Z.shiftl_mul_pow2 by lia. lia.
Qed.

Lemma pattern_digits_ok r : Forall hex_digit r -> bytes (pattern_digits r) /\ le_val (pattern_digits r) = rev_val r /\ 2 * length (pattern_digits r) <= length r + 1.
Proof.
  remember (length r) as n eqn:En. revert r En. induction n as [n IH] using lt_wf_ind. intros r En Hr.
  destruct r as [|c [|d r]]; [subst n; cbn; split_and!; [apply Forall_nil_2|done|lia]| |].
  - apply Forall_cons in Hr as [Hc _]. destruct (converthexchartoint_ok c Hc) as [E B].
    assert (Hb : is_byte (hex_val c)) by (unfold is_byte, is_word; lia).
    cbn [pattern_digits]. rewrite E, wrap_small by done. split; [by apply Forall_singleton|].
    split; [|subst n; cbn; lia]. rewrite le_val_cons by done. cbn [rev_val foldr le_val]. lia.
  - apply Forall_cons in Hr as [Hc Hr]. apply Forall_cons in Hr as [Hd Hr].
    destruct (converthexchartoint_ok c Hc) as [E B]. destruct (converthexchartoint_ok d Hd) as [E' B'].
    destruct (IH (length r) ltac:(cbn in *; lia) r eq_refl Hr) as (I1 & I2 & I3).
    assert (Hb : is_byte (hex_val c + hex_val d * 16)) by (unfold is_byte, is_word; lia).
    cbn [pattern_digits]. rewrite E, E', wrap_small by done. split; [by constructor|].
    split; [|subst n; cbn [length] in *; lia]. rewrite le_val_cons, I2 by done. cbn [rev_val foldr]. fold (rev_val r). lia.
Qed.

Lemma pattern_bytes_of_ok k : forall fuel off, 0 <= off < 256 ^ Z.of_nat k -> (k < fuel)%nat ->
  exists l, pattern_bytes_of fuel off = Accepted l /\ bytes l /\ le_val l = off /\ (length l <= k)%nat.
Proof.
  induction k as [|k IH]; intros fuel off Ho Hf; (destruct fuel as [|fuel]; [lia|]); cbn [pattern_bytes_of].
  - assert (off = 0) as -> by (cbn in Ho; lia). exists []. split_and!; [done|constructor|done|cbn; lia].
  - destruct (Z.eqb_spec off 0) as [->|Hn]; [exists []; split_and!; [done|constructor|done|cbn; lia]|].
    rewrite Nat2Z.inj_succ, Z.pow_succ_r in Ho by lia. rewrite Z.shiftr_div_pow2 by lia. change (2 ^ 8) with 256.
    destruct (IH fuel (off / 256)) as (l & El & Hb & Hv & Hl); [|lia|].
    { split; [apply Z.div_pos; lia|apply Z.div_lt_upper_bound; lia]. }
    rewrite El. cbn [mbind outcome_bind]. eexists. split; [done|].
    assert (B : is_byte (u8 off)) by (unfold is_byte, is_word, wrap; apply Z.mod_pos_bound; lia).
    split_and!; [by constructor| |cbn; lia]. rewrite le_val_cons, Hv by done. unfold wrap.
    change (2 ^ 8) with 256. pose proof (Z.div_mod off 256). lia.
Qed.
(** A negative number never becomes 0: the loop runs past the array. *)
Lemma pattern_bytes_of_neg fuel : forall off, off < 0 -> pattern_bytes_of fuel off = Undefined.
Proof.
  induction fuel as [|fuel IH]; intros off Ho; cbn [pattern_bytes_of]; [done|]. destruct (Z.eqb_spec off 0); [lia|].
  rewrite IH; [done|]. rewrite Z.shiftr_div_pow2 by lia. apply Z.div_lt_upper_bound; lia.
Qed.

Lemma strtoll_hex ds : Forall hex_digit ds -> ds <> [] ->
  let v := read_digits 16 0 ds in
  strtoll ($"0x" ++ ds) 16 = (if v >? LLONG_MAX then (LLONG_MAX, true) else (v, false)).
Proof.
  intros Hd Hn. destruct ds as [|d ds]; [done|]. apply Forall_cons in Hd as Hd'. destruct Hd' as [Hd1 _].
  pose proof (rev_val_nonneg (rev (d :: ds)) ltac:(by apply Forall_rev)) as H0. rewrite <- read_digits_rev in H0 by done.
  unfold strtoll. change ($"0x" ++ d :: ds) with (48 :: 120 :: d :: ds).
  change (skip_sign (skip_space (48 :: 120 :: d :: ds))) with (false, 48 :: 120 :: d :: ds). cbv iota beta.
  assert (E : skip_0x 16 (48 :: 120 :: d :: ds) = d :: ds).
  { unfold skip_0x. by rewrite (bool_decide_eq_true_2 (is_Some (digit_of 16 d))) by done. }
  rewrite E. destruct (Z.ltb_spec (read_digits 16 0 (d :: ds)) LLONG_MIN) as [|_]; [unfold LLONG_MIN in *; lia|]. done.
Qed.

Lemma pattern_number_hex ds : Forall hex_digit ds -> ds <> [] -> length ds < MAX_PATTERN_SIZE * 2 ->
  exists l, pattern_number false ($"0x" ++ ds) = Accepted l /\ bytes l /\ le_val l = read_digits 16 0 ds /\ length l <= MAX_PATTERN_SIZE.
Proof.
  intros Hd Hn Hl. unfold pattern_number. change (strstr ($"0x" ++ ds) $"0x") with (Some 0%nat).
  rewrite strtoll_hex by done. pose proof (rev_val_nonneg (rev ds) ltac:(by apply Forall_rev)) as H0. rewrite <- read_digits_rev in H0 by done.
  set (v := read_digits 16 0 ds) in *. destruct (v >? LLONG_MAX) eqn:Ev.
  - rewrite Z.eqb_refl. cbn [negb orb]. change (drop (0 + 2) ($"0x" ++ ds)) with ds.
    replace (length ds <? MAX_PATTERN_SIZE * 2) with true by lia. eexists. split; [done|].
    destruct (pattern_digits_ok (rev ds)) as (H1 & H2 & H3); [by apply Forall_rev|]. rewrite length_rev in H3.
    split_and!; [done| |lia]. rewrite H2. subst v. by rewrite read_digits_rev.
  - cbn [orb negb]. rewrite orb_true_r.
    destruct (pattern_bytes_of_ok 8 (S (Z.to_nat MAX_PATTERN_SIZE)) v) as (l & E & Hb & Hv & Hll).
    + unfold LLONG_MAX in *. change (256 ^ Z.of_nat 8) with (2 ^ 64). lia.
    + unfold MAX_PATTERN_SIZE. lia.
    + exists l. split_and!; [done|done|done|]. unfold MAX_PATTERN_SIZE. lia.
Qed.

(** [pattern_double] repeats the pattern. *)
Lemma tget_store m i x k : 0 <= i -> i <= length m -> 0 <= k < i + length x ->
  tget (Rand.store m i x) k = if k <? i then tget m k else tget x (k - i).
Proof.
  intros Hi Hl Hk. unfold tget, Rand.store. destruct (Z.ltb_spec k i).
  - rewrite app_nth1 by (rewrite length_take; lia). rewrite !nth_lookup. by rewrite lookup_take_lt by lia.
  - rewrite app_nth2 by (rewrite length_take; lia). rewrite length_take, app_nth1 by lia. f_equal. lia.
Qed.
Lemma length_store_at m i x : 0 <= i -> i + length x <= length m -> length (Rand.store m i x) = length m.
Proof. intros. unfold Rand.store. rewrite !length_app, length_take, length_drop. lia. Qed.
Lemma pattern_double_ok fuel : forall p i, 0 < i -> length p = 512%nat -> i <= 512 ->
  let '(p', i') := Verify.pattern_double fuel p i in
  (i | i') /\ i <= i' <= 512 /\ length p' = 512%nat /\ forall k, 0 <= k < i' -> tget p' k = tget p (k mod i).
Proof.
  induction fuel as [|fuel IH]; intros p i Hi Hp Hle; cbn [Verify.pattern_double].
  - split_and!; [done|lia|lia|done|]. intros k Hk. by rewrite Z.mod_small by lia.
  - destruct ((1 <? i) && (i * 2 <=? Verify.MAX_PATTERN_SIZE)) eqn:E.
    2: { split_and!; [done|lia|lia|done|]. intros k Hk. by rewrite Z.mod_small by lia. }
    unfold Verify.MAX_PATTERN_SIZE in E.
    assert (Lt : length (take (Z.to_nat i) p) = Z.to_nat i) by (rewrite length_take; lia).
    assert (Ls : length (Rand.store p i (take (Z.to_nat i) p)) = 512%nat) by (rewrite length_store_at; lia).
    specialize (IH (Rand.store p i (take (Z.to_nat i) p)) (i * 2) ltac:(lia) Ls ltac:(lia)).
    destruct (Verify.pattern_double fuel _ (i * 2)) as [p' i']. destruct IH as (Hd & Hr & Hl & Hk).
    split_and!; [|lia|lia|done|]. { apply Z.divide_trans with (i * 2); [by exists 2; lia|done]. }
    intros k Hkk. rewrite Hk by done. pose proof (Z.mod_pos_bound k (i * 2) ltac:(lia)).
    rewrite tget_store by lia. destruct (Z.ltb_spec (k mod (i * 2)) i) as [L|L].
    + f_equal. symmetry. rewrite <- (Z.mod_mod_divide k (i * 2) i) by (by exists 2; lia). by apply Z.mod_small; lia.
    + assert (Em : k mod i = k mod (i * 2) - i).
      { rewrite <- (Z.mod_mod_divide k (i * 2) i) by (by exists 2; lia).
        symmetry. apply Z.mod_unique_pos with 1; lia. }
      rewrite Em. unfold tget. by rewrite !nth_lookup, lookup_take_lt by lia.
Qed.

(** The pattern of a job: for "0x" and any number of hexadecimal digits that the
    array has room for, the bytes of the number from the low end, repeated over the
    whole length of the pattern; the same bytes whether the number fits a [long] or
    not.  The number 0 has no bytes, and no pattern is used. *)
Theorem verify_pattern_is_number j ds : Forall hex_digit ds -> ds <> [] -> length ds < MAX_PATTERN_SIZE * 2 ->
  length (jo_pattern j) = 512%nat ->
  exists l j', bytes l /\ le_val l = read_digits 16 0 ds /\ str_verify_pattern_cb false j ($"0x" ++ ds) = Accepted j' /\
    (l = [] -> jo_pattern_bytes j' = 0) /\
    (l <> [] -> length l <= jo_pattern_bytes j' <= MAX_PATTERN_SIZE /\ (Z.of_nat (length l) | jo_pattern_bytes j')) /\
    forall k, 0 <= k < jo_pattern_bytes j' -> tget (jo_pattern j') k = tget l (k mod length l).
Proof.
  intros Hd Hn Hl Hp. destruct (pattern_number_hex ds Hd Hn Hl) as (l & El & Hb & Hv & Hll). unfold MAX_PATTERN_SIZE in Hll.
  unfold str_verify_pattern_cb. rewrite El. cbn [mbind outcome_bind]. destruct j. cbn [jo_pattern] in *. set (p0 := l ++ drop (length l) _).
  destruct (pattern_finish p0 (length l)) as [p i] eqn:Ef. exists l. eexists. do 3 (split; [done|]). cbn.
  assert (L0 : length p0 = 512%nat) by (subst p0; rewrite length_app, length_drop; lia).
  assert (G0 : forall k, 0 <= k < length l -> tget p0 k = tget l k).
  { intros k Hk. unfold tget, p0. apply app_nth1. lia. }
  destruct (decide (l = [])) as [->|Hne].
  - cbn in Ef. injection Ef as <- <-. split_and!; [done|done|]. lia.
  - assert (0 < length l)%nat by (destruct l; [done|cbn; lia]). pose proof (pattern_double_ok 9 p0 (length l) ltac:(lia) L0 ltac:(lia)) as D.
    unfold pattern_finish in Ef. destruct (Verify.pattern_double 9 p0 (length l)) as [p' i']. destruct D as (D1 & D2 & D3 & D4).
    destruct (Z.eqb_spec i' 1) as [E1|E1]; injection Ef as Ep Ei; subst p i; (split_and!; [done|unfold MAX_PATTERN_SIZE; split; [lia|done]|]).
    + intros k Hk. assert (k = 0) as -> by lia. specialize (D4 0 ltac:(lia)). rewrite Z.mod_0_l in * by lia.
      rewrite (G0 0) in D4 by lia. exact D4.
    + intros k Hk. transitivity (tget p0 (k mod length l)); [by apply D4|]. apply G0. apply Z.mod_pos_bound. lia.
Qed.
Definition job0 : job_opts :=
  Build_job_opts RandMap.RandMap.test_options 0 0 0 false ∅ false ∅ false [] 0 0 0 0 VERIFY_NONE 0 (replicate 512 0) 0.
Lemma verify_pattern_is_number_witness : exists l j', le_val l = 0x123456789abcdef01122 /\
  str_verify_pattern_cb false job0 $"0x123456789abcdef01122" = Accepted j' /\
  forall k, 0 <= k < jo_pattern_bytes j' -> tget (jo_pattern j') k = tget l (k mod length l).
Proof.
  destruct (verify_pattern_is_number job0 $"123456789abcdef01122") as (l & j' & _ & Hv & E & _ & _ & Hk).
  - repeat (constructor; [by eexists|]). constructor.
  - done.
  - done.
  - done.
  - exists l, j'. split_and!; [exact Hv|exact E|exact Hk].
Defined.

(** A negative pattern is written past the end of the array. *)
Lemma negative_pattern_overruns j : str_verify_pattern_cb false j $"-1" = Undefined.
Proof. reflexivity. Qed.

(** A pattern of 0 has no bytes: random data is written, and the check of the
    pattern then fails on it. *)
Lemma zero_pattern_fails : exists j', str_verify_pattern_cb false job0 $"0" = Accepted j' /\
  jo_verify j' = VERIFY_PATTERN /\
  let o := Verify.ex_opts (jo_verify j') 512 (jo_pattern j') (jo_pattern_bytes j') in
  let u := fst (Verify.fill_pattern o Rand.init_rand (Verify.ex_iou 512) 512 0 false) in
  Verify.verify_io_u_pattern o u (Verify.buf u) = Verify.EILSEQ.
Proof. eexists. split; [vm_compute; reflexivity|]. split; [reflexivity|]. vm_compute. reflexivity. Qed.

(** ** Processor lists *)

(** A range as it is written, and the processors it names. *)
Definition print_range (r : Z * Z) : cstr := print_dec r.1 ++ chr "-" :: print_dec r.2.
Definition in_ranges (l : list (Z * Z)) (c : Z) : Prop := exists a b, (a, b) ∈ l /\ a <= c <= b.

Section cpu_lists.
Context (max_cpu FIO_MAX_CPUS : Z).
Hypothesis Hmax : 0 <= max_cpu < FIO_MAX_CPUS.
Hypothesis Hint : FIO_MAX_CPUS < 2 ^ 31.
Definition range_wf (r : Z * Z) : Prop := 0 <= r.1 <= r.2 /\ r.2 < 2 ^ 31.

Lemma set_range_spec n : forall a mask, 0 <= a ->
  set_range max_cpu FIO_MAX_CPUS n a mask =
    if decide (n <> O /\ a + n - 1 > max_cpu) then Rejected else Accepted (list_to_set (seqZ a n) ∪ mask).
Proof.
  induction n as [|n IH]; intros a mask Ha; cbn [set_range].
  - rewrite decide_False by lia. f_equal. cbn. set_solver.
  - destruct (Z.geb_spec a FIO_MAX_CPUS) as [|_]; [rewrite decide_True by lia; done|].
    destruct (a >? max_cpu) eqn:E; [rewrite decide_True by lia; done|]. rewrite IH by lia.
    destruct (decide (n <> O /\ a + 1 + n - 1 > max_cpu)) as [D|D].
    + rewrite decide_True by lia. done.
    + rewrite decide_False by lia. f_equal. replace (Z.of_nat (S n)) with (Z.succ n) by lia.
      rewrite (seqZ_cons a (Z.succ n)) by lia. replace (Z.pred (Z.succ n)) with (Z.of_nat n) by lia.
      replace (Z.succ a) with (a + 1) by lia. cbn [list_to_set]. set_solver.
Qed.

Lemma last_number_range a b : 0 <= a < 2 ^ 31 -> 0 <= b < 2 ^ 31 ->
  last_number (S (length (print_range (a, b)))) (Some (print_range (a, b))) (-1) = b.
Proof.
  intros Ha Hb. unfold print_range. cbn [fst snd]. cbn [last_number].
  rewrite strsep_app by (apply print_dec_no; [lia|done]). pose proof (print_dec_length a ltac:(lia)).
  destruct (Nat.eqb_spec (length (print_dec a)) 0) as [|_]; [lia|].
  rewrite length_app. cbn [length]. rewrite Nat.add_succ_r. cbn [last_number].
  rewrite strsep_none by (apply print_dec_no; [lia|done]). pose proof (print_dec_length b ltac:(lia)).
  destruct (Nat.eqb_spec (length (print_dec b)) 0) as [|_]; [lia|]. rewrite atoi_print by lia.
  by destruct (length (print_dec a) + length (print_dec b))%nat.
Qed.
Lemma set_cpu_token_range a b mask : range_wf (a, b) ->
  set_cpu_token max_cpu FIO_MAX_CPUS (print_range (a, b)) mask =
    if decide (b > max_cpu) then Rejected else Accepted (list_to_set (seqZ a (b - a + 1)) ∪ mask).
Proof.
  intros [Hr Hb]. cbn in Hr, Hb. unfold set_cpu_token. rewrite last_number_range by lia. unfold print_range. cbn [fst snd].
  rewrite strsep_app by (apply print_dec_no; [lia|done]). cbn [fst]. rewrite atoi_print by lia.
  replace (b =? -1) with false by lia. rewrite set_range_spec by lia. rewrite Z2Nat.id by lia.
  destruct (decide (b > max_cpu)); [rewrite decide_True by lia; done|by rewrite decide_False by lia].
Qed.

Lemma print_range_ok r : range_wf r -> (chr "," ∉ print_range r) /\ (0 < length (print_range r))%nat.
Proof.
  destruct r as [a b]. intros [Hr Hb]. cbn in Hr, Hb. unfold print_range. cbn [fst snd]. split.
  - rewrite not_elem_of_app, not_elem_of_cons. split_and!; [apply print_dec_no; [lia|done]|done|apply print_dec_no; [lia|done]].
  - rewrite length_app. cbn [length]. lia.
Qed.

Lemma set_cpu_list_ranges l : Forall range_wf l -> l <> [] -> forall fuel mask, (length (join (chr ",") (map print_range l)) < fuel)%nat ->
  if decide (Exists (fun r => r.2 > max_cpu) l)
  then set_cpu_list max_cpu FIO_MAX_CPUS fuel (Some (join (chr ",") (map print_range l))) mask = Rejected
  else exists m, set_cpu_list max_cpu FIO_MAX_CPUS fuel (Some (join (chr ",") (map print_range l))) mask = Accepted m /\
    forall c, c ∈ m <-> in_ranges l c \/ c ∈ mask.
Proof.
  intros Hw Hne. induction Hw as [|[a b] l Hr Hl IH]; [done|]. clear Hne. intros fuel mask Hf.
  destruct (print_range_ok _ Hr) as [Hc Hlen]. destruct fuel as [|fuel]; [lia|]. cbn [set_cpu_list].
  change (map print_range ((a, b) :: l)) with (print_range (a, b) :: map print_range l) in *.
  rewrite strsep_join by done. destruct (Nat.eqb_spec (length (print_range (a, b))) 0) as [E|_]; [lia|].
  rewrite set_cpu_token_range by done. destruct (decide (b > max_cpu)) as [Hb|Hb].
  { rewrite decide_True by (by left). done. }
  cbn [mbind outcome_bind]. set (mask' := list_to_set (seqZ a (b - a + 1)) ∪ mask).
  assert (Hm : forall c, c ∈ mask' <-> a <= c <= b \/ c ∈ mask).
  { intros c. subst mask'. rewrite elem_of_union, elem_of_list_to_set, elem_of_seqZ. intuition lia. }
  assert (Hin : forall c, in_ranges ((a, b) :: l) c <-> a <= c <= b \/ in_ranges l c).
  { intros c. unfold in_ranges. setoid_rewrite elem_of_cons. naive_solver. }
  destruct l as [|r l].
  - cbn [map]. rewrite decide_False by (rewrite Exists_cons, Exists_nil; cbn; tauto). exists mask'. split; [by destruct fuel|].
    intros c. rewrite Hm, Hin. unfold in_ranges. setoid_rewrite elem_of_nil. naive_solver.
  - assert (Hf' : (length (join (chr ",") (map print_range (r :: l))) < fuel)%nat).
    { pose proof (proj2 (proj2 (join_length (chr ",") (print_range (a, b)) (map print_range (r :: l)))) ltac:(done)). lia. }
    specialize (IH ltac:(done) fuel mask' Hf'). cbn [map] in *. destruct (decide (Exists _ (r :: l))) as [D|D].
    + rewrite decide_True by (by right). exact IH.
    + rewrite decide_False by (rewrite Exists_cons; cbn; tauto). destruct IH as (m & Em & IH). exists m. split; [exact Em|].
      intros c. rewrite IH, Hm, Hin. tauto.
Qed.
End cpu_lists.

(** A string without blanks, comments or signs of assignment is not changed. *)
Definition plain (c : Z) : Prop := 33 <= c /\ c <> 127 /\ c <> chr ";" /\ c <> chr "#" /\ c <> chr "=".
Lemma strip_plain s : s <> [] -> Forall plain s -> strip_blank_end (strip_blank_front s) = s.
Proof.
  intros Hn Hp. assert (F : forall c, ~ plain c -> c ∉ s) by (intros c Hc H; rewrite Forall_forall in Hp; by apply Hc, Hp).
  assert (Ef : strip_blank_front s = s).
  { destruct s as [|c s]; [done|]. apply Forall_cons in Hp as [[Hc _] _]. unfold strip_blank_front. cbn [skip_space]. unfold isspace.
    by replace ((c =? 32) || ((9 <=? c) && (c <=? 13))) with false by lia. }
  rewrite Ef. pose proof (Parse.strip_name s 0) as N. cbn [replicate] in N. rewrite app_nil_r in N. apply N.
  split_and!; [done|apply F; unfold plain; tauto|apply F; unfold plain; tauto|apply F; unfold plain; tauto|apply F; unfold plain; cbn; lia|].
  destruct (nth_in_or_default (length s - 1) s 0) as [Hin|E].
  - rewrite Forall_forall in Hp. apply list_elem_of_In, Hp in Hin.
    change (plain (at_index s (length s - 1))) in Hin. revert Hin. generalize (at_index s (length s - 1)).
    intros c (H1 & H2 & _). unfold Parse.blank, isspace, iscntrl. lia.
  - exfalso. assert (L : (length s - 1 < length s)%nat) by (destruct s; [done|cbn [length]; lia]).
    apply (nth_In _ 0) in L. rewrite E in L. apply list_elem_of_In in L. apply (F 0); [unfold plain; lia|done].
Qed.
Lemma plain_digits ds : digits ds -> Forall plain ds.
Proof. intros H. eapply Forall_impl; [exact H|]. intros c Hc. apply isdigit_spec in Hc. unfold plain. cbn. lia. Qed.
Lemma plain_print n : 0 <= n -> Forall plain (print_dec n).
Proof. intros Hn. by apply plain_digits, print_dec_ok. Qed.
Lemma plain_join c l : plain c -> Forall (Forall plain) l -> Forall plain (join c l).
Proof.
  intros Hc. induction 1 as [|a l Ha Hl IH]; [constructor|]. destruct l as [|b l]; [done|]. rewrite join_cons.
  apply Forall_app. split; [done|]. by constructor.
Qed.

Lemma plain_ranges l : Forall range_wf l -> Forall plain (join (chr ",") (map print_range l)).
Proof.
  intros Hw. apply plain_join; [by unfold plain|]. apply Forall_map. eapply Forall_impl; [exact Hw|]. intros [a b] [Hr Hb]. cbn in Hr, Hb.
  unfold compose, print_range. cbn [fst snd]. apply Forall_app. split; [apply plain_print; lia|]. constructor; [by unfold plain|apply plain_print; lia].
Qed.

(** [cpus_allowed] of ranges with commas between them: the mask of the job is the
    set of the processors they name.  The option is rejected if one of them is
    larger than the number of processors; that number itself, which is one more
    than the last processor, is taken. *)
Theorem cpus_allowed_ranges max_cpu FIO_MAX_CPUS j l : 0 <= max_cpu < FIO_MAX_CPUS -> FIO_MAX_CPUS < 2 ^ 31 ->
  Forall range_wf l -> l <> [] ->
  let input := join (chr ",") (map print_range l) in
  (Exists (fun r => r.2 > max_cpu) l -> str_cpus_allowed_cb max_cpu FIO_MAX_CPUS false j input = Rejected) /\
  (Forall (fun r => r.2 <= max_cpu) l -> exists j', str_cpus_allowed_cb max_cpu FIO_MAX_CPUS false j input = Accepted j' /\
     cpumask_set j' = true /\ forall c, c ∈ cpumask j' <-> in_ranges l c).
Proof.
  intros Hm HM Hw Hne input. unfold str_cpus_allowed_cb, set_cpus_allowed.
  assert (Hi : input <> []).
  { subst input. destruct l as [|r l]; [done|]. apply Forall_cons in Hw as [Hr _]. destruct (print_range_ok r Hr) as [_ Hl].
    pose proof (proj1 (proj2 (join_length (chr ",") (print_range r) (map print_range l)))) as J. cbn [map].
    intros E. rewrite E in J. cbn [length] in J. lia. }
  rewrite strip_plain by (done || by apply plain_ranges).
  pose proof (set_cpu_list_ranges max_cpu FIO_MAX_CPUS Hm HM l Hw Hne (S (length input)) ∅ ltac:(subst input; lia)) as S.
  fold input in S. split; intros H.
  - rewrite decide_True in S by done. by rewrite S.
  - rewrite decide_False in S.
    2: { rewrite Exists_exists. intros (r & Hr & Hx). rewrite Forall_forall in H. specialize (H r Hr). lia. }
    destruct S as (m & -> & S). eexists. split; [done|]. destruct j. cbn. split; [done|]. intros c. rewrite S. set_solver.
Qed.
Lemma cpus_allowed_ranges_witness : exists j', str_cpus_allowed_cb 4 1024 false job0 $"0-1,3-4" = Accepted j' /\
  forall c, c ∈ cpumask j' <-> in_ranges [(0, 1); (3, 4)] c.
Proof.
  destruct (cpus_allowed_ranges 4 1024 job0 [(0, 1); (3, 4)]) as [_ H]; [lia|lia| |done|].
  - repeat (constructor; [unfold range_wf; cbn; lia|]). constructor.
  - destruct H as (j' & E & _ & H); [repeat (constructor; [cbn; lia|]); constructor|]. exists j'. split; [exact E|exact H].
Defined.

(** The processors of the verify threads: the flag of the mask of the job is set as
    well, so that a job without [cpus_allowed] is bound to no processor at all. *)
Lemma verify_cpus_bind_job max_cpu FIO_MAX_CPUS j input j' : cpumask j = ∅ ->
  str_verify_cpus_allowed_cb max_cpu FIO_MAX_CPUS false j input = Accepted j' -> cpumask_set j' = true /\ cpumask j' = ∅.
Proof.
  intros Hj. unfold str_verify_cpus_allowed_cb. destruct (set_cpus_allowed _ _ _ _); cbn [mbind outcome_bind]; [|done|done].
  intros [= <-]. by destruct j.
Qed.

(** ** Priorities *)

(** The class and the priority set by the two options, in any order. *)
Theorem prio_options j cls p : ioprio j = 0 -> 1 <= cls <= 3 -> 0 <= p <= 7 ->
  let j1 := str_prioclass_cb (str_prio_cb j p) cls in
  let j2 := str_prio_cb (str_prioclass_cb j cls) p in
  ioprio j1 = cls * 2 ^ 13 + p /\ ioprio j2 = cls * 2 ^ 13 + p.
Proof.
  intros Hj Hc Hp. unfold str_prioclass_cb, str_prio_cb. destruct j. cbn in Hj. subst. 
  assert (cls = 1 \/ cls = 2 \/ cls = 3) as C by lia.
  assert (p = 0 \/ p = 1 \/ p = 2 \/ p = 3 \/ p = 4 \/ p = 5 \/ p = 6 \/ p = 7) as P by lia.
  destruct C as [C|[C|C]]; subst cls; repeat (destruct P as [P|P]; [subst p; split; reflexivity|]); subst p; split; reflexivity.
Qed.
(** A second [prio] is not put in place of the first: their bits are united. *)
Lemma prio_united j : ioprio j = 0 -> ioprio (str_prio_cb (str_prio_cb j 4) 3) = 2 * 2 ^ 13 + 7.
Proof. intros Hj. destruct j. cbn in Hj. subst. reflexivity. Qed.
End Options.
