(* ===== verification/OptParse.v ===== *)
(** * The strings of the options

    The end of [src/options.c]: the values of environment variables and of keywords
    are put into the options of a job, the options are sorted by priority and parsed
    ([Parse]), and those that are not known are parsed again with the options of the
    I/O engine.  [getenv], the program "bc", and [ioengine_load] are parameters. *)
From S2P Require Import Prelude CString Parse.
From stdpp Require Import gmap strings.
Local Open Scope Z_scope.
Local Open Scope cstr_scope.

Module OptParse.
Import CString Parse.

Definition OPT_LEN_MAX : Z := 4096.

Section code.
Context (getenv : cstr -> option cstr).

(** ** [option_dup_subs] *)

(** [inp] is the string at [inptr], [out] what is before [outptr]. *)
Fixpoint subs_loop (fuel : nat) (inp out : cstr) (nchr : Z) : cstr :=
  match fuel, inp with
  | S fuel, c :: rest =>
      if nchr >? 0 then
        let ch2 := if (c =? chr "$") && (at_index inp 1 =? chr "{") then strchr inp (chr "}") else None in
        match ch2 with
        | Some i =>
            match getenv (take (i - 2) (drop 2 inp)) with
            | Some env =>
                if length env <=? nchr then subs_loop fuel (drop (S i) inp) (out ++ env) (nchr - length env)
                else subs_loop fuel (drop (S i) inp) out nchr
            | None => subs_loop fuel (drop (S i) inp) out nchr
            end
        | None => subs_loop fuel rest (out ++ [c]) (nchr - 1)
        end
      else out
  | _, _ => out
  end.
Definition option_dup_subs (opt : cstr) : option cstr :=
  if length opt + 1 >? OPT_LEN_MAX then None else Some (subs_loop (S (length opt)) opt [] OPT_LEN_MAX).

(** ** [fio_keyword_replace] *)

(** A buffer of [malloc]: a byte that was not written is [None].  The accesses
    return [None] outside of the buffer. *)
Definition buffer : Type := list (option Z).
Definition buf_write (b : buffer) (off : nat) (bs : list Z) : option buffer :=
  if (off + length bs <=? length b)%nat
  then Some (take off b ++ map Some bs ++ drop (off + length bs) b) else None.
(** The string in a buffer: up to its first NUL; [None] if bytes that were not
    written, or bytes after the buffer, would be read. *)
Fixpoint buf_string (b : buffer) : option cstr :=
  match b with
  | Some c :: b => if c =? 0 then Some [] else s ← buf_string b; Some (c :: s)
  | _ => None
  end.

(** The body of the loop, [olen] the position of the keyword. *)
Definition replace_word (word replace opt : cstr) (olen : nat) : option cstr :=
  new ← buf_write (replicate (S (length opt)) None) 0 (take olen opt);
  new ← buf_write new olen (replace ++ [0]);
  let tail := drop (olen + length word) opt in
  if (length tail =? 0)%nat then buf_string new
  else
    let n := (olen + length word - 1)%nat in
    if (n <=? length tail + 1)%nat
    then new ← buf_write new (olen + length replace) (take n (tail ++ [0])); buf_string new
    else None.
(** [None] is an access outside of a buffer; the boolean is [docalc]. *)
Fixpoint replace_loop (fuel : nat) (word replace opt : cstr) (docalc : bool) : option (cstr * bool) :=
  match fuel, strstr opt word with
  | _, None => Some (opt, docalc)
  | S fuel, Some i => opt ← replace_word word replace opt i; replace_loop fuel word replace opt true
  | O, Some _ => None
  end.

(** [bc_calc]: whether "bc" is there, and what it prints for an expression.  [None] is
    a null pointer. *)
Context (have_bc : bool) (bc : cstr -> option cstr).
Definition bc_calc (str : cstr) : option cstr :=
  let has c := bool_decide (is_Some (strchr str c)) in
  if (negb (has (chr "+")) && negb (has (chr "-")) && negb (has (chr "*")) && negb (has (chr "/"))) || has 39 then Some str
  else match strchr str (chr "=") with
       | None => Some str
       | Some i =>
           let tmp := drop (S i) str in
           if (128 <=? length str)%nat || (100 <? length tmp)%nat then Some str
           else if negb have_bc then None
           else res ← bc tmp;
                let got := take (128 - S i) res in
                if (length got =? 0)%nat then None
                else Some (c_string (take (S i) str ++ take (length got - 1) got))
       end.

(** [fio_keywords]: the words with their replacements. *)
Context (fio_keywords : list (cstr * cstr)).
Definition fio_keyword_replace (opt : cstr) : option (option cstr) :=
  '(opt, docalc) ← foldl (fun r '(word, replace) => '(opt, docalc) ← r; replace_loop (S (length opt)) word replace opt docalc)
                     (Some (opt, false)) fio_keywords;
  Some (if docalc : bool then bc_calc opt else Some opt).

Definition dup_and_sub_option (opt : cstr) : option (option cstr) :=
  match option_dup_subs opt with
  | None => Some None
  | Some s => fio_keyword_replace s
  end.
Definition dup_and_sub_options (opts : list cstr) : option (list (option cstr)) := mapM dup_and_sub_option opts.

(** ** [sort_options] *)
Definition opt_prio (options : list fio_option) (s : option cstr) : Z :=
  match s with
  | Some s => match fst (get_option s options) with Some o => prio o | None => 0 end
  | None => 0
  end.
(** [opt_cmp]: larger priorities first; options with the same one keep their order. *)
Definition sort_options (options : list fio_option) (l : list (option cstr)) : list (option cstr) :=
  sort_desc (opt_prio options) l.

(** ** [fio_options_parse] *)
Context (kb_base : Z) (errno : bool).
Context (sscanf_lf : cstr -> option fp).

(** The first loop: what is left of [opts_copy], the result and the data. *)
Fixpoint parse_known (options : list fio_option) (l : list (option cstr)) (ret : Z) (d : store)
    : option (list (option cstr) * Z * store) :=
  match l with
  | [] => Some ([], ret, d)
  | None :: l =>
      '(l, ret, d) ← parse_known options l (Z.lor ret 1) d; Some (None :: l, ret, d)
  | Some s :: l =>
      '(newret, o, s, d) ← parse_option kb_base errno sscanf_lf s options d;
      match o with
      | None =>
          if negb (newret =? 0) then '(l, ret, d) ← parse_known options l ret d; Some (Some s :: l, ret, d)
          else '(l, ret, d) ← parse_known options l (Z.lor ret newret) d; Some (None :: l, ret, d)
      | Some _ => '(l, ret, d) ← parse_known options l (Z.lor ret newret) d; Some (None :: l, ret, d)
      end
  end.
(** The second loop, over what is left; [None] for the data of the engine is a null
    pointer. *)
Fixpoint parse_engine (options : list fio_option) (l : list (option cstr)) (ret : Z) (eo : option store)
    : option (Z * option store) :=
  match l with
  | [] => Some (ret, eo)
  | None :: l => parse_engine options l ret eo
  | Some s :: l =>
      match eo with
      | None => parse_engine options l (Z.lor ret 1) eo
      | Some d =>
          '(newret, _, _, d) ← parse_option kb_base errno sscanf_lf s options d;
          parse_engine options l (Z.lor ret newret) (Some d)
      end
  end.

(** [ioengine_load]: its result, the options of the engine and their data. *)
Context (ioengine_load : store -> Z * list fio_option * option store).
Definition fio_options_parse (options : list fio_option) (opts : list cstr) (td : store)
    : option (Z * store * option store) :=
  copy ← dup_and_sub_options (omap id (sort_options options (map Some opts)));
  '(todo, ret, td) ← parse_known options copy 0 td;
  if existsb (fun s => bool_decide (is_Some s)) todo then
    let '(r, eoptions, eo) := ioengine_load td in
    let todo := match eo with Some _ => sort_options eoptions todo | None => todo end in
    '(ret, eo) ← parse_engine eoptions todo (Z.lor ret r) eo;
    Some (ret, td, eo)
  else Some (ret, td, None).

(** The options of the command line. *)
Definition fio_cmd_option_parse (options : list fio_option) (opt : cstr) (val : option cstr) (td : store) : option (Z * store) :=
  parse_cmd_option kb_base errno sscanf_lf opt val options td.
(** [fio_cmd_ioengine_option_parse]: the data of the job, not that of the engine, is
    what the option is stored in. *)
Definition fio_cmd_ioengine_option_parse (eoptions : list fio_option) (opt : cstr) (val : option cstr) (td : store)
    : option (Z * store) :=
  parse_cmd_option kb_base errno sscanf_lf opt val eoptions td.
Definition fio_fill_default_options (options : list fio_option) (td : store) : option store :=
  fill_default_options kb_base errno sscanf_lf options td.
End code.

Definition fio_get_kb_base (o_kb_base : option Z) : Z :=
  let kb_base := default 0 o_kb_base in if kb_base =? 0 then 1024 else kb_base.

(** * Properties *)

(** ** Environment variables *)

(** An option as text and variables, what is written and what it stands for. *)
Inductive piece := Text (s : cstr) | Var (name : cstr).
Definition piece_wf (p : piece) : Prop := match p with Text s => chr "$" ∉ s | Var n => chr "}" ∉ n end.
Definition print_piece (p : piece) : cstr := match p with Text s => s | Var n => $"${" ++ n ++ $"}" end.
Definition piece_value (getenv : cstr -> option cstr) (p : piece) : cstr :=
  match p with Text s => s | Var n => default [] (getenv n) end.

Section subs.
Context (getenv : cstr -> option cstr).

Lemma subs_loop_bound fuel : forall inp out nchr, 0 <= nchr ->
  length (subs_loop getenv fuel inp out nchr) <= length out + nchr.
Proof.
  induction fuel as [|fuel IH]; intros inp out nchr Hn; cbn [subs_loop]; [lia|]. destruct inp as [|c inp]; [lia|].
  destruct (nchr >? 0) eqn:En; [|lia]. destruct (if (c =? chr "$") && _ then _ else None) as [i|].
  - destruct (getenv _) as [env|]; [destruct (Z.leb_spec (length env) nchr)|].
    + specialize (IH (drop (S i) (c :: inp)) (out ++ env) (nchr - length env)). rewrite length_app in IH. lia.
    + by apply IH.
    + by apply IH.
  - specialize (IH inp (out ++ [c]) (nchr - 1)). rewrite length_app in IH. cbn [length] in IH. lia.
Qed.

Lemma subs_loop_text s : chr "$" ∉ s -> forall rest fuel out nchr, length s <= nchr ->
  subs_loop getenv (length s + fuel) (s ++ rest) out nchr = subs_loop getenv fuel rest (out ++ s) (nchr - length s).
Proof.
  induction s as [|c s IH]; intros Hs rest fuel out nchr Hn; [cbn [length app Nat.add]; rewrite app_nil_r; f_equal; lia|].
  apply not_elem_of_cons in Hs as [Hc Hs]. cbn [length app Nat.add subs_loop] in *. replace (nchr >? 0) with true by lia.
  replace (c =? chr "$") with false by (symmetry; apply Z.eqb_neq; congruence). cbn [andb]. rewrite IH by (done || lia).
  rewrite <- app_assoc. cbn [app]. f_equal. lia.
Qed.
Lemma subs_loop_var n rest fuel out nchr : chr "}" ∉ n -> nchr > 0 -> length (default [] (getenv n)) <= nchr ->
  subs_loop getenv (S fuel) (print_piece (Var n) ++ rest) out nchr =
    subs_loop getenv fuel rest (out ++ default [] (getenv n)) (nchr - length (default [] (getenv n))).
Proof.
  intros Hn Hp Hl. set (inp := print_piece (Var n) ++ rest).
  assert (Ei : inp = ($"${" ++ n) ++ chr "}" :: rest) by (subst inp; cbn [print_piece]; by rewrite <- !app_assoc).
  assert (Ec : strchr inp (chr "}") = Some (length n + 2)%nat).
  { rewrite Ei, strchr_app; [f_equal; rewrite length_app; cbn; lia|]. rewrite not_elem_of_app. split; [|done].
    intros H. vm_compute in H. repeat (apply elem_of_cons in H as [H|H]; [done|]). by apply elem_of_nil in H. }
  assert (Ed : drop (S (length n + 2)) inp = rest).
  { rewrite Ei, drop_app_ge by (rewrite length_app; cbn; lia). rewrite length_app. cbn [length].
    by replace (S (length n + 2) - (length $"${" + length n))%nat with 1%nat by (cbn; lia). }
  assert (En : take (length n + 2 - 2) (drop 2 inp) = n).
  { rewrite Nat.add_sub, Ei. change (drop 2 (($"${" ++ n) ++ chr "}" :: rest)) with (n ++ chr "}" :: rest). apply take_app_length. }
  assert (Hh : exists t, inp = chr "$" :: t /\ at_index inp 1 = chr "{") by (eexists; split; reflexivity).
  destruct Hh as (t & Et & E1). cbn [subs_loop]. rewrite Et in *. rewrite E1, Ec. replace (nchr >? 0) with true by lia.
  rewrite !Z.eqb_refl. cbn [andb]. cbv iota beta zeta. rewrite En, Ed. destruct (getenv n) as [env|]; cbn [from_option id] in *.
  - replace (length env <=? nchr) with true by lia. done.
  - cbn [length]. rewrite app_nil_r. f_equal. lia.
Qed.

Lemma subs_loop_pieces l : Forall piece_wf l -> forall fuel out nchr,
  (length (concat (map print_piece l)) < fuel)%nat -> length (concat (map (piece_value getenv) l)) <= nchr ->
  subs_loop getenv fuel (concat (map print_piece l)) out nchr = out ++ concat (map (piece_value getenv) l).
Proof.
  induction 1 as [|p l Hp Hl IH]; intros fuel out nchr Hf Hn; [destruct fuel; [cbn in Hf; lia|]; by rewrite app_nil_r|].
  cbn [map concat] in *. rewrite length_app in Hf, Hn. destruct p as [s|n]; cbn [piece_value] in *.
  - cbn [print_piece] in *. replace fuel with (length s + (fuel - length s))%nat by lia. rewrite subs_loop_text by (done || lia).
    rewrite IH by lia. by rewrite <- app_assoc.
  - assert (2 <= length (print_piece (Var n)))%nat by (cbn; lia). destruct (Z.eq_dec nchr 0) as [->|Hz].
    + assert (E1 : default [] (getenv n) = []) by (apply nil_length_inv; lia).
      assert (E2 : concat (map (piece_value getenv) l) = []) by (apply nil_length_inv; lia).
      rewrite E1, E2, !app_nil_r. destruct fuel as [|fuel]; [lia|]. done.
    + destruct fuel as [|fuel]; [lia|]. rewrite subs_loop_var by (done || lia). rewrite IH by lia. by rewrite <- app_assoc.
Qed.

(** The text of an option and the values of the variables in it, in place of
    [${name}], up to [OPT_LEN_MAX] characters; nothing is written past the end of the
    array whatever the option and the variables are. *)
Theorem option_dup_subs_ok :
  (forall opt s, option_dup_subs getenv opt = Some s -> length s <= OPT_LEN_MAX) /\
  forall l, Forall piece_wf l -> length (concat (map print_piece l)) < OPT_LEN_MAX ->
    length (concat (map (piece_value getenv) l)) <= OPT_LEN_MAX ->
    option_dup_subs getenv (concat (map print_piece l)) = Some (concat (map (piece_value getenv) l)).
Proof.
  split.
  - intros opt s. unfold option_dup_subs. destruct (_ >? _); [done|]. intros [= <-].
    apply (subs_loop_bound (S (length opt)) opt [] OPT_LEN_MAX). done.
  - intros l Hl Hp Hv. unfold option_dup_subs. replace (_ >? OPT_LEN_MAX) with false by lia. f_equal.
    rewrite subs_loop_pieces by (done || lia). done.
Qed.
End subs.
Lemma option_dup_subs_ok_witness : option_dup_subs (fun n => if streq n $"HOME" then Some $"/root" else None) $"directory=${HOME}/x${NONE}" = Some $"directory=/root/x".
Proof.
  destruct (option_dup_subs_ok (fun n => if streq n $"HOME" then Some $"/root" else None)) as [_ H].
  apply (H [Text $"directory="; Var $"HOME"; Text $"/x"; Var $"NONE"]); [|reflexivity|done].
  repeat (constructor; [cbn [piece_wf]; intros E; vm_compute in E; repeat (apply elem_of_cons in E as [E|E]; [discriminate E|]); by apply elem_of_nil in E|]).
  constructor.
Defined.

(** ** Keywords *)
Lemma buf_string_app s x : 0 ∉ s -> buf_string (map Some s ++ x) = (app s) <$> buf_string x.
Proof.
  induction s as [|c s IH]; intros Hs; [cbn; by destruct (buf_string x)|]. apply not_elem_of_cons in Hs as [Hc Hs].
  cbn [map app buf_string]. replace (c =? 0) with false by (symmetry; apply Z.eqb_neq; congruence). rewrite IH by done.
  by destruct (buf_string x).
Qed.
Lemma buf_write_at a y bs : buf_write (map Some a ++ y) (length a) bs =
  if (length bs <=? length y)%nat then Some (map Some (a ++ bs) ++ drop (length bs) y) else None.
Proof.
  unfold buf_write. rewrite length_app, length_map.
  destruct (Nat.leb_spec (length bs) (length y)), (Nat.leb_spec (length a + length bs) (length a + length y)); try lia; [|done].
  f_equal. rewrite <- (length_map Some a). rewrite take_app_length, map_app, <- app_assoc. do 2 f_equal.
  rewrite drop_app_ge by lia. f_equal. lia.
Qed.

(** A keyword in an option, with [a] before and [t] after it, is replaced correctly
    when nothing follows it, and in one more case: the number of bytes that are
    copied after it is taken from what is before it.  In all other cases bytes
    outside of a buffer are read, or the string is left without an end. *)
Theorem keyword_replaced_iff a word r t : (0 ∉ a) -> (0 ∉ r) -> (0 ∉ t) -> (2 <= length word)%nat -> (length r <= length word)%nat ->
  replace_word word r (a ++ word ++ t) (length a) =
    if (length t =? 0)%nat || (length a + length word =? length t + 2)%nat then Some (a ++ r ++ t) else None.
Proof.
  intros Ha Hr Ht Hw Hl. unfold replace_word. rewrite take_app_length.
  replace (replicate (S (length (a ++ word ++ t))) (@None Z)) with (map Some [] ++ replicate (length a + (length word + length t + 1)) (@None Z))
    by (rewrite !length_app; cbn [map app]; f_equal; lia).
  change 0%nat with (length (@nil Z)) at 1. rewrite buf_write_at, length_replicate.
  destruct (Nat.leb_spec (length a) (length a + (length word + length t + 1))) as [_|]; [|lia]. cbn [mbind option_bind app].
  rewrite drop_replicate. replace (length a + (length word + length t + 1) - length a)%nat with (length word + length t + 1)%nat by lia.
  rewrite buf_write_at, length_replicate, length_app. cbn [length].
  destruct (Nat.leb_spec (length r + 1) (length word + length t + 1)) as [_|]; [|lia]. cbn [mbind option_bind].
  rewrite drop_replicate. rewrite app_assoc, drop_app_ge by (rewrite length_app; lia). rewrite length_app, Nat.sub_diag, drop_0.
  destruct (Nat.eqb_spec (length t) 0) as [E|Hne].
  - apply nil_length_inv in E as ->. cbn [orb]. rewrite (app_assoc a), app_nil_r, map_app, <- app_assoc, buf_string_app.
    + cbn. by rewrite app_nil_r.
    + rewrite not_elem_of_app. done.
  - cbn [orb]. set (n := (length a + length word - 1)%nat). destruct (Nat.leb_spec n (length t + 1)) as [Hn|Hn].
    2: { destruct (Nat.eqb_spec (length a + length word) (length t + 2)); [lia|done]. }
    rewrite (app_assoc a r), (map_app _ (a ++ r)), <- app_assoc. rewrite <- (length_app a r), buf_write_at.
    rewrite length_take, length_app, length_app, length_map, length_replicate. cbn [length].
    destruct (Nat.leb_spec (n `min` (length t + 1)) (1 + (length word + length t + 1 - (length r + 1)))) as [_|]; [|lia]. cbn [mbind option_bind].
    replace (n `min` (length t + 1))%nat with n by lia. destruct n as [|n'] eqn:En; [lia|]. cbn [map app drop].
    rewrite drop_replicate. destruct (Nat.eqb_spec (length a + length word) (length t + 2)) as [E|E].
    + replace (S n') with (length (t ++ [0])) by (rewrite length_app; cbn; lia). rewrite take_ge by lia.
      rewrite (app_assoc (a ++ r)), map_app, <- app_assoc, buf_string_app; [cbn; by rewrite app_nil_r, <- app_assoc|].
      rewrite !not_elem_of_app. done.
    + rewrite take_app_le by lia. rewrite buf_string_app.
      * destruct (_ - _ - _)%nat; done.
      * rewrite !not_elem_of_app. split; [done|]. intros H. apply Ht. rewrite <- (take_drop (S n') t). apply elem_of_app. by left.
Qed.
Lemma keyword_replaced_iff_witness :
  replace_word $"$pagesize" $"4096" $"bs=$pagesize" 3 = Some $"bs=4096" /\ replace_word $"$pagesize" $"4096" $"bs=$pagesize*2" 3 = None.
Proof.
  assert (F : forall c s, forallb (fun x => negb (x =? c)) s = true -> c ∉ s).
  { intros c s H Hc. rewrite forallb_forall in H. apply list_elem_of_In, H in Hc. by rewrite Z.eqb_refl in Hc. }
  split.
  - apply (keyword_replaced_iff $"bs=" $"$pagesize" $"4096" []); try (by apply F); cbn; lia.
  - apply (keyword_replaced_iff $"bs=" $"$pagesize" $"4096" $"*2"); try (by apply F); cbn; lia.
Defined.

(** ** The two passes of [fio_options_parse] *)
Lemma strstr_first s c w : c ∉ s -> strstr s (c :: w) = None.
Proof.
  induction s as [|x s IH]; intros Hs; [done|]. apply not_elem_of_cons in Hs as [Hx Hs]. cbn [strstr].
  rewrite bool_decide_eq_false_2; [by rewrite IH|]. cbn. intros E. injection E as E _. congruence.
Qed.

(** An option without a "$" is taken as it is. *)
Definition keywords_wf (kws : list (cstr * cstr)) : Prop := Forall (fun kw => exists w, kw.1 = chr "$" :: w) kws.
Lemma dup_and_sub_plain getenv have_bc bc kws s : keywords_wf kws -> chr "$" ∉ s -> length s < OPT_LEN_MAX ->
  dup_and_sub_option getenv have_bc bc kws s = Some (Some s).
Proof.
  intros Hk Hs Hl. unfold dup_and_sub_option.
  pose proof (proj2 (option_dup_subs_ok getenv) [Text s]) as E. cbn [map concat print_piece piece_value] in E. rewrite !app_nil_r in E.
  rewrite E by (first [by repeat constructor|lia]). unfold fio_keyword_replace.
  match goal with |- context [foldl ?f ?x kws] => assert (F : foldl f x kws = x) end.
  { clear E. induction Hk as [|[w r] kws [w' Ew] Hk IH]; [done|]. cbn in Ew. subst w. cbn [foldl mbind option_bind replace_loop].
    rewrite strstr_first by done. exact IH. }
  rewrite F. done.
Qed.

Section passes.
Context (getenv : cstr -> option cstr) (have_bc : bool) (bc : cstr -> option cstr) (kws : list (cstr * cstr)).
Context (kb : Z) (fl : cstr -> option fp) (load : store -> Z * list fio_option * option store).

Lemma parse_option_known options name v o d : option_name name -> find_option options name = Some o ->
  parse_option kb false fl (name ++ chr "=" :: v) options d =
    '(r, d) ← handle_option kb false fl o (Some v) d; Some (if r =? 0 then 0 else 1, Some o, name ++ chr "=" :: v, d).
Proof.
  intros Hn Hf. pose proof Hn as (_ & He & _). unfold parse_option, get_option. rewrite strchr_app by done.
  rewrite take_app_length. pose proof (strip_name name 0 Hn) as Es. cbn [replicate] in Es. rewrite app_nil_r in Es. rewrite Es, Hf.
  rewrite drop_app_ge by lia. by replace (S (length name) - length name)%nat with 1%nat by lia.
Qed.

(** An option of the job is parsed once; one that only the engine knows is parsed
    with the options of the engine, and its value is the one written if there is no
    blank before the "=".  With [k] blanks the last [k] characters of the value are
    repeated: "cpuload =50" gives a load of 500. *)
Theorem engine_option_parsed options eoptions name k v o td eo : keywords_wf kws ->
  option_name name -> (0 ∉ v) -> (chr "$" ∉ name) -> (chr "$" ∉ v) -> (k <= length v)%nat ->
  length (name ++ replicate k 32 ++ chr "=" :: v) < OPT_LEN_MAX ->
  find_option options name = None -> load td = (0, eoptions, Some eo) -> find_option eoptions name = Some o ->
  fio_options_parse getenv have_bc bc kws kb false fl load options [name ++ replicate k 32 ++ chr "=" :: v] td =
    '(r, eo) ← handle_option kb false fl o (Some (v ++ drop (length v - k) v)) eo;
    Some (if r =? 0 then 0 else 1, td, Some eo).
Proof.
  intros Hk Hn Hv Hdn Hdv Hkv Hl Hf Hload He. unfold fio_options_parse. cbn [map sort_options sort_desc foldl insert_desc omap list_omap].
  unfold dup_and_sub_options. cbn [id mapM]. rewrite dup_and_sub_plain; [|done| |done].
  2: { rewrite !not_elem_of_app, not_elem_of_cons. split_and!; [done| |done|done]. rewrite elem_of_replicate. by intros [? _]. }
  cbn [mbind option_bind mret option_ret parse_known]. rewrite unknown_option_gets_tail by done.
  cbn [mbind option_bind Z.eqb negb parse_known existsb]. rewrite bool_decide_eq_true_2 by (by eexists). cbn [orb]. rewrite Hload.
  cbn [sort_options sort_desc foldl insert_desc parse_engine]. rewrite (parse_option_known _ _ _ o) by done.
  destruct (handle_option kb false fl o _ eo) as [[r eo']|]; [|done]. cbn [mbind option_bind parse_engine]. by destruct (r =? 0).
Qed.
End passes.

(** The option "cpuload" of the engine "cpuio", with place 1. *)
Definition cpuload_option : fio_option :=
  Build_fio_option $"cpuload" None FIO_OPT_INT 1 0 0 0 0 0 0 0 0 0 false 0 None None None None [] None 0 NaN NaN.
Lemma engine_option_parsed_witness :
  fio_options_parse (fun _ => None) false (fun _ => None) [] 1024 false no_floats (fun _ => (0, [cpuload_option], Some store0)) [bs_option]
    [$"cpuload =50"] store0 = Some (0, store0, Some (store_int 1 500 store0)).
Proof.
  assert (F : forall c s, forallb (fun x => negb (x =? c)) s = true -> c ∉ s).
  { intros c s H Hc. rewrite forallb_forall in H. apply list_elem_of_In, H in Hc. by rewrite Z.eqb_refl in Hc. }
  apply (engine_option_parsed (fun _ => None) false (fun _ => None) [] 1024 no_floats (fun _ => (0, [cpuload_option], Some store0))
    [bs_option] [cpuload_option] $"cpuload" 1 $"50" cpuload_option); try reflexivity; try (by apply F); [constructor| |cbn; lia].
  split_and!; [done| | | | |reflexivity]; by apply F.
Defined.
End OptParse.
