(* ===== verification/Init.v ===== *)
(** * Setting up the jobs

    [src/init.c]: the options of a job that depend on each other ([fixup_options]) and
    the rates ([setup_rate]).  The platform has process shared mutexes and [fdatasync].  The
    members of [struct thread_options] the I/O path does not read are in
    [setup_opts]. *)
From S2P Require Import Prelude Types RandMap Offset IoU RandJob Verify CString Parse.
From stdpp Require Import gmap strings.
Local Open Scope Z_scope.
Local Open Scope cstr_scope.

Module Init.
Import CString Types Offset.
Import Verify(verify_t, VERIFY_NONE).

Record setup_opts := {
  so : thread_options;
  s_bs : per_ddir Z;
  s_verify : verify_t; s_verify_interval : Z; do_verify : bool; refill_buffers : bool;
  overwrite : bool; file_size_low : Z; file_size_high : Z;
  thinktime : Z; thinktime_spin : Z;
  iodepth : Z; iodepth_low : Z; iodepth_batch : Z;
  s_nr_files : Z; open_files : Z; files_index : Z;   (* the last one of the thread *)
  timeout : Z; fill_device : bool; s_size : Z;
  numjobs : Z; stonewall : bool; new_group : bool;
  pre_read : bool; invalidate_cache : bool;
  compress_percentage : Z; zero_buffers : bool;
  write_iolog_file : bool; read_iolog_file : bool }.
#[export] Instance eta_setup_opts : Eta setup_opts := fun s =>
  Build_setup_opts (so s) (s_bs s) (s_verify s) (s_verify_interval s) (do_verify s) (refill_buffers s) (overwrite s)
    (file_size_low s) (file_size_high s) (thinktime s) (thinktime_spin s) (iodepth s) (iodepth_low s) (iodepth_batch s)
    (s_nr_files s) (open_files s) (files_index s) (timeout s) (fill_device s) (s_size s) (numjobs s) (stonewall s)
    (new_group s) (pre_read s) (invalidate_cache s) (compress_percentage s) (zero_buffers s) (write_iolog_file s)
    (read_iolog_file s).

Definition fixed_block_size (o : thread_options) : bool :=
  (fst (min_bs o) =? fst (max_bs o)) && (snd (min_bs o) =? snd (max_bs o)) && (fst (min_bs o) =? snd (min_bs o)).

Section setup.
(** [warnings_fatal], and of the engine: whether it is "syslet-rw", and [FIO_PIPEIO]. *)
Context (warnings_fatal : Z) (syslet pipeio : bool).

(** The steps of [fixup_options] take and return [ret] with the options. *)
Definition fixup_iolog (r : Z * setup_opts) : Z * setup_opts :=
  let '(ret, s) := r in
  if write_iolog_file s && read_iolog_file s then (warnings_fatal, s <| write_iolog_file := false |>) else (ret, s).

(** Repeated offsets and the map; zones. *)
Definition fixup_again (verify : bool) (o : thread_options) : thread_options :=
  let o := if negb (td_random o) || negb (td_write o) then o <| randomagain_opt := false |> else o in
  let o := if randomagain_opt o && verify && norandommap o then o <| norandommap := false |> else o in
  if randomagain_opt o && negb verify then o <| randomagain_opt := false |> <| norandommap := true |> else o.
Definition fixup_zone_range (o : thread_options) : thread_options :=
  if negb (zone_size o =? 0) && (zone_range o =? 0) then o <| zone_range := zone_size o |> else o.
Definition fixup_random (s : setup_opts) : setup_opts :=
  let o := so s in
  let o := if negb (zone_size o =? 0) && (open_files s =? 1) then o <| zone_size := 0 |> else o in
  let o := fixup_zone_range (fixup_again (negb (bool_decide (s_verify s = VERIFY_NONE))) o) in
  s <| so := o |> <| overwrite := (td_read o || td_rw o || overwrite s) |>.

(** Block sizes and the alignment of offsets. *)
Definition fixup_bs (o : thread_options) (bs : per_ddir Z) : thread_options :=
  let dflt (x b : Z) := if x =? 0 then b else x in
  let o := o <| min_bs := (dflt (fst (min_bs o)) (fst bs), dflt (snd (min_bs o)) (snd bs)) |>
             <| max_bs := (dflt (fst (max_bs o)) (fst bs), dflt (snd (max_bs o)) (snd bs)) |> in
  let o := o <| rw_min_bs := Z.min (fst (min_bs o)) (snd (min_bs o)) |> in
  let align (b m : Z) := if (b =? 0) || negb (td_random o) then m else b in
  o <| ba := (align (fst (ba o)) (fst (min_bs o)), align (snd (ba o)) (snd (min_bs o))) |>.
Definition fixup_align (r : Z * setup_opts) : Z * setup_opts :=
  let '(ret, s) := r in
  let o := fixup_bs (so s) (s_bs s) in
  if (negb (fst (ba o) =? fst (min_bs o)) || negb (snd (ba o) =? snd (min_bs o))) && negb (norandommap o)
  then (warnings_fatal, s <| so := o <| norandommap := true |> |>) else (ret, s <| so := o |>).

Definition fixup_file_size (s : setup_opts) : setup_opts :=
  if file_size_high s =? 0 then s <| file_size_high := file_size_low s |> else s.
Definition fixup_no_verify (r : Z * setup_opts) : Z * setup_opts :=
  let '(ret, s) := r in
  if norandommap (so s) && negb (bool_decide (s_verify s = VERIFY_NONE)) && negb (fixed_block_size (so s))
  then (warnings_fatal, s <| s_verify := VERIFY_NONE |>) else (ret, s).

(** Think times, depths and numbers of files. *)
Definition fixup_depth (s : setup_opts) : setup_opts :=
  let s := if thinktime_spin s >? thinktime s then s <| thinktime_spin := thinktime s |> else s in
  let s := if (iodepth_low s >? iodepth s) || (iodepth_low s =? 0)
           then (if syslet && negb (td_random (so s)) then s <| iodepth_low := 1 |> else s <| iodepth_low := iodepth s |>)
           else s in
  if (iodepth_batch s >? iodepth s) || (iodepth_batch s =? 0) then s <| iodepth_batch := iodepth s |> else s.
Definition fixup_files (s : setup_opts) : setup_opts :=
  let s := if s_nr_files s >? files_index s then s <| s_nr_files := files_index s |> else s in
  if (open_files s >? s_nr_files s) || (open_files s =? 0) then s <| open_files := s_nr_files s |> else s.

(** The sums are those of [unsigned int]. *)
Definition both_rates (o : thread_options) : bool :=
  let nz (x : per_ddir Z) := negb (u32 (fst x + snd x) =? 0) in
  (nz (rate o) && nz (rate_iops o)) || (nz (ratemin o) && nz (rate_iops_min o)).
Definition min_above (o : thread_options) : bool :=
  (fst (rate o) <? fst (ratemin o)) || (snd (rate o) <? snd (ratemin o)) ||
  (fst (rate_iops o) <? fst (rate_iops_min o)) || (snd (rate_iops o) <? snd (rate_iops_min o)).
Definition fixup_rates (r : Z * setup_opts) : Z * setup_opts :=
  let '(ret, s) := r in (if both_rates (so s) || min_above (so s) then 1 else ret, s).

Definition fixup_time (r : Z * setup_opts) : Z * setup_opts :=
  let '(ret, s) := r in
  let '(ret, s) := if (timeout s =? 0) && time_based (so s)
                   then (warnings_fatal, s <| so := (so s) <| time_based := false |> |>) else (ret, s) in
  (ret, if fill_device s && (s_size s =? 0) then s <| s_size := 2 ^ 64 - 1 |> else s).

Definition fixup_verify (r : Z * setup_opts) : Z * setup_opts :=
  let '(ret, s) := r in
  if bool_decide (s_verify s = VERIFY_NONE) then (ret, s)
  else
    let ret := if td_write (so s) && do_verify s && (numjobs s >? 1) then warnings_fatal else ret in
    let s := s <| refill_buffers := true |> in
    (ret, if negb (snd (max_bs (so s)) =? snd (min_bs (so s))) && (s_verify_interval s =? 0)
          then s <| s_verify_interval := snd (min_bs (so s)) |> else s).

Definition fixup_buffers (r : Z * setup_opts) : Z * setup_opts :=
  let '(ret, s) := r in
  let '(ret, s) := if pre_read s then (if pipeio then warnings_fatal else ret, s <| invalidate_cache := false |>) else (ret, s) in
  (ret, if compress_percentage s =? 100 then s <| zero_buffers := true |> <| compress_percentage := 0 |> else s).

Definition on_opts (g : setup_opts -> setup_opts) (r : Z * setup_opts) : Z * setup_opts := (fst r, g (snd r)).
Definition fixup_first (s : setup_opts) : Z * setup_opts := fixup_align (on_opts fixup_random (fixup_iolog (0, s))).
Definition fixup_rest (r : Z * setup_opts) : Z * setup_opts :=
  let r := fixup_no_verify (on_opts fixup_file_size r) in
  let r := fixup_rates (on_opts fixup_files (on_opts fixup_depth r)) in
  fixup_buffers (fixup_verify (fixup_time r)).
Definition fixup_options (s : setup_opts) : Z * setup_opts := fixup_rest (fixup_first s).

(** ** Rates *)

(** The rate in bytes per second; [None] is the result -1.  The product is an
    [unsigned int]. *)
Definition __setup_rate (o : thread_options) (d : fio_ddir) : option Z :=
  let bps := if negb (at2 (rate o) d =? 0) then at2 (rate o) d else u32 (at2 (rate_iops o) d * at2 (min_bs o) d) in
  if bps =? 0 then None else Some bps.
(** The two rates, 0 where there is none. *)
Definition setup_rate (o : thread_options) : option (per_ddir Z) :=
  let limited d := negb (at2 (rate o) d =? 0) || negb (at2 (rate_iops o) d =? 0) in
  r ← (if limited DDIR_READ then __setup_rate o DDIR_READ else Some 0);
  w ← (if limited DDIR_WRITE then __setup_rate o DDIR_WRITE else Some 0);
  Some (r, w).
End setup.

(** * Properties *)

(** ** Options that depend on each other *)

(** Options within the limits the documentation sets: block sizes and depths that are not 0,
    and block size ranges that are not given or are ranges of sizes that are not 0.  The
    parser does not ensure it ([zero_range_not_fixed]). *)
Definition range_given (min max : Z) : Prop := (min = 0 /\ max = 0) \/ (0 < min <= max).
Record within_limits (s : setup_opts) : Prop := {
  p_bs : 0 < fst (s_bs s) /\ 0 < snd (s_bs s);
  p_range d : range_given (at2 (min_bs (so s)) d) (at2 (max_bs (so s)) d);
  p_ba d : 0 <= at2 (ba (so s)) d;
  p_depth : 1 <= iodepth s /\ 0 <= iodepth_low s /\ 0 <= iodepth_batch s;
  p_files : 0 <= s_nr_files s /\ 0 <= files_index s /\ 0 <= open_files s }.

(** What the rest of the program relies on. *)
Record consistent (s : setup_opts) : Prop := {
  c_range d : 0 < at2 (min_bs (so s)) d <= at2 (max_bs (so s)) d;
  c_rw_min_bs : rw_min_bs (so s) = Z.min (fst (min_bs (so s))) (snd (min_bs (so s)));
  c_ba d : 0 < at2 (ba (so s)) d;
  c_map : norandommap (so s) = false \/ td_random (so s) = false -> ba (so s) = min_bs (so s);
  c_again : randomagain_opt (so s) = true -> td_random (so s) = true /\ td_write (so s) = true;
  c_verify_map : s_verify s <> VERIFY_NONE -> norandommap (so s) = true -> fixed_block_size (so s) = true;
  c_verify : s_verify s <> VERIFY_NONE ->
    refill_buffers s = true /\ (snd (max_bs (so s)) = snd (min_bs (so s)) \/ s_verify_interval s <> 0);
  c_depth : 1 <= iodepth_low s <= iodepth s /\ 1 <= iodepth_batch s <= iodepth s;
  c_files : open_files s <= s_nr_files s <= files_index s;
  c_spin : thinktime_spin s <= thinktime s;
  c_zone : zone_size (so s) <> 0 -> zone_range (so s) <> 0;
  c_time : time_based (so s) = true -> timeout s <> 0;
  c_read : td_read (so s) = true -> overwrite s = true }.

Section fixup.
Context (wf : Z) (syslet pipeio : bool).

(** The members the invariant speaks of, in groups. *)
Definition v_depth (s : setup_opts) := (iodepth s, iodepth_low s, iodepth_batch s, thinktime s, thinktime_spin s).
Definition v_files (s : setup_opts) := (s_nr_files s, open_files s, files_index s).
Definition v_verify (s : setup_opts) := (refill_buffers s, s_verify_interval s).
Definition view (s : setup_opts) := (so s, s_bs s, overwrite s, s_verify s, v_verify s, v_depth s, v_files s, timeout s).

(** Each step changes a few of them only. *)
Ltac steps := intros; unfold fixup_iolog, fixup_file_size, fixup_depth, fixup_files, fixup_time, fixup_verify, fixup_buffers; repeat match goal with r : (Z * setup_opts)%type |- _ => destruct r end;
  repeat match goal with s : setup_opts |- _ => destruct s end; cbn; repeat case_match; simplify_eq/=; try done.

Lemma view_iolog r : view (snd (fixup_iolog wf r)) = view (snd r).
Proof. steps. Qed.
Lemma view_random s : view (fixup_random s) =
  (so (fixup_random s), s_bs s, overwrite (fixup_random s), s_verify s, v_verify s, v_depth s, v_files s, timeout s).
Proof. by destruct s. Qed.
Lemma view_align r : let s := snd r in view (snd (fixup_align wf r)) =
  (so (snd (fixup_align wf r)), s_bs s, overwrite s, s_verify s, v_verify s, v_depth s, v_files s, timeout s).
Proof. destruct r as [ret s]. unfold fixup_align. cbn [snd]. case_match; by destruct s. Qed.
Lemma view_file_size s : view (fixup_file_size s) = view s.
Proof. steps. Qed.
Lemma view_no_verify r : let s := snd r in view (snd (fixup_no_verify wf r)) =
  (so s, s_bs s, overwrite s, s_verify (snd (fixup_no_verify wf r)), v_verify s, v_depth s, v_files s, timeout s).
Proof. destruct r as [ret s]. unfold fixup_no_verify. cbn [snd]. case_match; by destruct s. Qed.
Lemma view_depth s : view (fixup_depth syslet s) =
  (so s, s_bs s, overwrite s, s_verify s, v_verify s, v_depth (fixup_depth syslet s), v_files s, timeout s).
Proof. steps. Qed.
Lemma view_files s : view (fixup_files s) =
  (so s, s_bs s, overwrite s, s_verify s, v_verify s, v_depth s, v_files (fixup_files s), timeout s).
Proof. steps. Qed.
Lemma view_rates r : view (snd (fixup_rates r)) = view (snd r).
Proof. by destruct r. Qed.
Lemma view_time r : let s := snd r in view (snd (fixup_time wf r)) =
  (so (snd (fixup_time wf r)), s_bs s, overwrite s, s_verify s, v_verify s, v_depth s, v_files s, timeout s).
Proof. destruct r as [ret s]. unfold fixup_time. cbn [snd]. destruct ((timeout s =? 0) && _), (fill_device s) eqn:?; destruct s; cbn in *; repeat case_match; done. Qed.
Lemma view_verify r : let s := snd r in view (snd (fixup_verify wf r)) =
  (so s, s_bs s, overwrite s, s_verify s, v_verify (snd (fixup_verify wf r)), v_depth s, v_files s, timeout s).
Proof. destruct r as [ret s]. unfold fixup_verify. cbn [snd]. destruct (bool_decide _); destruct s; cbn; repeat case_match; done. Qed.
Lemma view_buffers r : view (snd (fixup_buffers wf pipeio r)) = view (snd r).
Proof. destruct r as [ret s]. unfold fixup_buffers. cbn [snd]. destruct (pre_read s); destruct s; cbn; repeat case_match; done. Qed.

(** What the steps establish. *)
Lemma again_ok v o : let o' := fixup_again v o in
  o' = o <| randomagain_opt := randomagain_opt o' |> <| norandommap := norandommap o' |> /\
  (randomagain_opt o' = true -> td_random o = true /\ td_write o = true).
Proof.
  unfold fixup_again. destruct (td_random o) eqn:Er, (td_write o) eqn:Ew; destruct o as [? ? ? ? ? ? ? ? ? ? ? ? ? ? n a]; cbn in *;
    destruct v, n, a; cbn; split; try done; reflexivity.
Qed.
Lemma zone_range_ok o : let o' := fixup_zone_range o in
  o' = o <| zone_range := zone_range o' |> /\ (zone_size o' <> 0 -> zone_range o' <> 0).
Proof.
  unfold fixup_zone_range. destruct (_ && _) eqn:E; destruct o; cbn in *; (split; [done|]); lia.
Qed.
Lemma random_ok s : let s' := fixup_random s in
  (exists o, so s' = o <| randomagain_opt := randomagain_opt (so s') |> <| norandommap := norandommap (so s') |>
                       <| zone_range := zone_range (so s') |> /\
             exists z, o = (so s) <| zone_size := z |>) /\
  (randomagain_opt (so s') = true -> td_random (so s') = true /\ td_write (so s') = true) /\
  (zone_size (so s') <> 0 -> zone_range (so s') <> 0) /\ (td_read (so s') = true -> overwrite s' = true).
Proof.
  unfold fixup_random. set (o1 := if negb (zone_size (so s) =? 0) && (open_files s =? 1) then (so s) <| zone_size := 0 |> else so s). assert (E1 : exists z, o1 = (so s) <| zone_size := z |>).
  { subst o1. destruct (_ && _); [by eexists|]. exists (zone_size (so s)). by destruct (so s). }
  set (v := negb (bool_decide (s_verify s = VERIFY_NONE))). destruct (again_ok v o1) as [H1 H2]. destruct (zone_range_ok (fixup_again v o1)) as [H3 H4].
  set (o2 := fixup_again v o1) in *. set (o3 := fixup_zone_range o2) in *.
  assert (Er : forall o, td_ddir o = td_ddir (so s) -> td_random o = td_random (so s) /\ td_write o = td_write (so s) /\ td_read o = td_read (so s)).
  { intros o Eo. unfold td_random, td_write, td_read. by rewrite Eo. }
  destruct E1 as [z E1]. assert (D1 : td_ddir o1 = td_ddir (so s)) by (rewrite E1; by destruct (so s)).
  assert (D2 : td_ddir o2 = td_ddir (so s)) by (rewrite H1; by destruct o1).
  assert (D3 : td_ddir o3 = td_ddir (so s)) by (rewrite H3; by destruct o2).
  assert (A3 : randomagain_opt o3 = randomagain_opt o2) by (rewrite H3; by destruct o2).
  assert (N3 : norandommap o3 = norandommap o2) by (rewrite H3; by destruct o2).
  replace (so (s <| so := o3 |> <| overwrite := _ |>)) with o3 by (by destruct s). split_and!.
  - exists o1. split; [|by exists z]. rewrite A3, N3. rewrite H3 at 1. rewrite H1 at 1. by destruct o1.
  - rewrite A3. intros H. destruct (Er o3 D3) as (-> & -> & _). destruct (Er o1 D1) as (<- & <- & _). by apply H2.
  - exact H4.
  - intros H. destruct s. cbn in *. by rewrite H.
Qed.

Lemma bs_ok o bs : 0 < fst bs -> 0 < snd bs -> (forall d, range_given (at2 (min_bs o) d) (at2 (max_bs o) d)) -> (forall d, 0 <= at2 (ba o) d) ->
  let o' := fixup_bs o bs in
  o' = o <| min_bs := min_bs o' |> <| max_bs := max_bs o' |> <| rw_min_bs := rw_min_bs o' |> <| ba := ba o' |> /\
  (forall d, 0 < at2 (min_bs o') d <= at2 (max_bs o') d) /\
  rw_min_bs o' = Z.min (fst (min_bs o')) (snd (min_bs o')) /\ (forall d, 0 < at2 (ba o') d) /\
  (td_random o = false -> ba o' = min_bs o').
Proof.
  intros H1 H2 Hr Hb. pose proof (Hr DDIR_READ) as R1. pose proof (Hr DDIR_WRITE) as R2. pose proof (Hb DDIR_READ) as B1. pose proof (Hb DDIR_WRITE) as B2.
  unfold fixup_bs. destruct (td_random o) eqn:Er; destruct o as [? ? [b1 b2] [m1 m2] [x1 x2]]; unfold range_given, td_random in *; cbn in *; rewrite Er;
    (split_and!; [done| | | |intros; rewrite ?orb_true_r; done]); try (intros d; destruct d; cbn); repeat (case_match; cbn); lia.
Qed.
Lemma align_so r : let s := snd r in let o := fixup_bs (so s) (s_bs s) in exists n, so (snd (fixup_align wf r)) = o <| norandommap := n |> /\
  (n = false -> ba o = min_bs o).
Proof.
  destruct r as [ret s]. unfold fixup_align. cbn [snd]. set (o := fixup_bs (so s) (s_bs s)). destruct (_ && negb (norandommap o)) eqn:E; cbn [snd].
  - exists true. split; [by destruct s|done].
  - exists (norandommap o). split; [destruct s; cbn; by destruct o|]. intros En. rewrite En in E. cbn [negb] in E. rewrite andb_true_r in E.
    destruct (ba o) as [a b], (min_bs o) as [c d]. cbn in E. f_equal; lia.
Qed.
Lemma align_ok r : let s := snd r in let s' := snd (fixup_align wf r) in within_limits s ->
  (exists x, so s' = (so s) <| min_bs := min_bs (so s') |> <| max_bs := max_bs (so s') |> <| rw_min_bs := rw_min_bs (so s') |>
    <| ba := ba (so s') |> <| norandommap := x |>) /\
  (forall d, 0 < at2 (min_bs (so s')) d <= at2 (max_bs (so s')) d) /\
  rw_min_bs (so s') = Z.min (fst (min_bs (so s'))) (snd (min_bs (so s'))) /\
  (forall d, 0 < at2 (ba (so s')) d) /\
  (norandommap (so s') = false \/ td_random (so s') = false -> ba (so s') = min_bs (so s')).
Proof.
  intros s s' [[Hb1 Hb2] Hr Hba _ _]. destruct (align_so r) as (n & E & Hn). fold s s' in E, Hn.
  destruct (bs_ok (so s) (s_bs s) Hb1 Hb2 Hr Hba) as (F & R1 & R2 & R3 & R4). set (o := fixup_bs (so s) (s_bs s)) in *.
  assert (G : min_bs (so s') = min_bs o /\ max_bs (so s') = max_bs o /\ rw_min_bs (so s') = rw_min_bs o /\ ba (so s') = ba o /\
    norandommap (so s') = n /\ td_random (so s') = td_random (so s)).
  { assert (D : td_ddir o = td_ddir (so s)) by (rewrite F; by destruct (so s)). rewrite E. unfold td_random.
    rewrite <- D. by destruct o. }
  destruct G as (-> & -> & -> & -> & -> & ->). split_and!; try done.
  - exists n. rewrite E. rewrite F at 1. by destruct (so s).
  - intros [H|H]; [by apply Hn|by apply R4].
Qed.
Lemma no_verify_ok r : let s := snd r in let s' := snd (fixup_no_verify wf r) in
  s_verify s' <> VERIFY_NONE -> norandommap (so s) = true -> fixed_block_size (so s) = true.
Proof.
  destruct r as [ret s]. unfold fixup_no_verify. cbn [snd]. intros Hv Hn. rewrite Hn in Hv. cbn [andb] in Hv.
  destruct (bool_decide_reflect (s_verify s = VERIFY_NONE)) as [E|E]; cbn [negb andb] in Hv; [by destruct s|].
  destruct (fixed_block_size (so s)); [done|]. cbn [negb] in Hv. by destruct s.
Qed.
Lemma depth_ok s : 1 <= iodepth s -> 0 <= iodepth_low s -> 0 <= iodepth_batch s ->
  let s' := fixup_depth syslet s in 1 <= iodepth_low s' <= iodepth s' /\ 1 <= iodepth_batch s' <= iodepth s' /\
  thinktime_spin s' <= thinktime s'.
Proof. unfold fixup_depth. destruct s. cbn. intros. repeat case_match; cbn in *; lia. Qed.
Lemma files_ok s : 0 <= s_nr_files s -> 0 <= files_index s -> 0 <= open_files s ->
  let s' := fixup_files s in open_files s' <= s_nr_files s' <= files_index s'.
Proof. unfold fixup_files. destruct s. cbn. intros. repeat case_match; cbn in *; lia. Qed.
Lemma time_ok r : let s := snd r in let s' := snd (fixup_time wf r) in
  so s' = (so s) <| time_based := time_based (so s') |> /\
  (time_based (so s') = true -> timeout s <> 0) /\ (time_based (so s') = true -> time_based (so s) = true).
Proof.
  destruct r as [ret s]. unfold fixup_time. cbn [snd]. destruct ((timeout s =? 0) && time_based (so s)) eqn:E; destruct s as [o]; destruct o; cbn in *;
    repeat case_match; cbn; split_and!; try done; intros ->; lia.
Qed.
Lemma fixup_verify_ok r : let s := snd r in let s' := snd (fixup_verify wf r) in s_verify s <> VERIFY_NONE ->
  (forall d, 0 < at2 (min_bs (so s)) d) ->
  refill_buffers s' = true /\ (snd (max_bs (so s)) = snd (min_bs (so s)) \/ s_verify_interval s' <> 0).
Proof.
  destruct r as [ret s]. unfold fixup_verify. cbn [snd]. intros Hv Hm. rewrite bool_decide_eq_false_2 by done. specialize (Hm DDIR_WRITE).
  destruct s as [o]. cbn in *. split; [by repeat case_match|]. destruct (Z.eqb_spec (max_bs o).2 (min_bs o).2); [by left|].
  right. cbn. repeat case_match; cbn; lia.
Qed.

Ltac open_view H := unfold view, v_verify, v_depth, v_files in H; cbn [fst snd] in H; injection H; clear H; intros.

Lemma limits_random s : within_limits s -> within_limits (fixup_random s).
Proof.
  intros [H1 H2 H3 H4 H5]. destruct (random_ok s) as [(o & Eo & z & Ez) _].
  assert (E : min_bs (so (fixup_random s)) = min_bs (so s) /\ max_bs (so (fixup_random s)) = max_bs (so s) /\ ba (so (fixup_random s)) = ba (so s)).
  { rewrite Eo, Ez. by destruct (so s). }
  destruct E as (E1 & E2 & E3). split; [exact H1| | |exact H4|exact H5]; intros d; rewrite ?E1, ?E2, ?E3; auto.
Qed.
Lemma limits_iolog s : within_limits s -> within_limits (snd (fixup_iolog wf (0, s))).
Proof. intros [H1 H2 H3 H4 H5]. unfold fixup_iolog. destruct (_ && _); by split. Qed.

Lemma snd_on_opts F r : snd (on_opts F r) = F (snd r).
Proof. done. Qed.

(** The steps put together. *)
Lemma consistent_of a b c p q d e g h x :
  (randomagain_opt (so a) = true -> td_random (so a) = true /\ td_write (so a) = true) ->
  (zone_size (so a) <> 0 -> zone_range (so a) <> 0) -> (td_read (so a) = true -> overwrite a = true) ->
  so b = (so a) <| min_bs := min_bs (so b) |> <| max_bs := max_bs (so b) |> <| rw_min_bs := rw_min_bs (so b) |>
    <| ba := ba (so b) |> <| norandommap := x |> ->
  (forall d, 0 < at2 (min_bs (so b)) d <= at2 (max_bs (so b)) d) ->
  rw_min_bs (so b) = Z.min (fst (min_bs (so b))) (snd (min_bs (so b))) -> (forall d, 0 < at2 (ba (so b)) d) ->
  (norandommap (so b) = false \/ td_random (so b) = false -> ba (so b) = min_bs (so b)) ->
  so c = so b -> overwrite b = overwrite a -> overwrite c = overwrite b ->
  (s_verify c <> VERIFY_NONE -> norandommap (so c) = true -> fixed_block_size (so c) = true) ->
  (1 <= iodepth_low p <= iodepth p /\ 1 <= iodepth_batch p <= iodepth p /\ thinktime_spin p <= thinktime p) ->
  (open_files q <= s_nr_files q <= files_index q) ->
  view p = (so c, s_bs c, overwrite c, s_verify c, v_verify c, v_depth p, v_files c, timeout c) ->
  view q = (so p, s_bs p, overwrite p, s_verify p, v_verify p, v_depth p, v_files q, timeout p) ->
  view d = view q ->
  view e = (so e, s_bs d, overwrite d, s_verify d, v_verify d, v_depth d, v_files d, timeout d) ->
  so e = (so d) <| time_based := time_based (so e) |> -> (time_based (so e) = true -> timeout d <> 0) ->
  view g = (so e, s_bs e, overwrite e, s_verify e, v_verify g, v_depth e, v_files e, timeout e) ->
  (s_verify e <> VERIFY_NONE -> (forall d, 0 < at2 (min_bs (so e)) d) ->
    refill_buffers g = true /\ (snd (max_bs (so e)) = snd (min_bs (so e)) \/ s_verify_interval g <> 0)) ->
  view h = view g -> consistent h.
Proof.
  intros A1 A2 A3 B0 B1 B2 B3 B4 C0 O1 O2 C1 D1 F1 Vp Vq Vd Ve T1 T2 Vg G1 Vh.
  open_view Vp. open_view Vq. open_view Vd. open_view Ve. open_view Vg. open_view Vh.
  assert (Es : so h = (so b) <| time_based := time_based (so e) |>) by congruence.
  assert (Ka : td_ddir (so b) = td_ddir (so a) /\ randomagain_opt (so b) = randomagain_opt (so a) /\
    zone_size (so b) = zone_size (so a) /\ zone_range (so b) = zone_range (so a)).
  { rewrite B0. by destruct (so a). }
  destruct Ka as (Ka1 & Ka2 & Ka3 & Ka4).
  assert (Kb : td_ddir (so h) = td_ddir (so b) /\ randomagain_opt (so h) = randomagain_opt (so b) /\
    zone_size (so h) = zone_size (so b) /\ zone_range (so h) = zone_range (so b) /\ min_bs (so h) = min_bs (so b) /\
    max_bs (so h) = max_bs (so b) /\ rw_min_bs (so h) = rw_min_bs (so b) /\ ba (so h) = ba (so b) /\ norandommap (so h) = norandommap (so b)).
  { rewrite Es. by destruct (so b). }
  destruct Kb as (Kb1 & Kb2 & Kb3 & Kb4 & Kb5 & Kb6 & Kb7 & Kb8 & Kb9).
  assert (Er : td_random (so h) = td_random (so a) /\ td_random (so h) = td_random (so b) /\ td_write (so h) = td_write (so a) /\ td_read (so h) = td_read (so a)).
  { unfold td_random, td_write, td_read. rewrite Kb1, Ka1. done. }
  destruct Er as (Er1 & Er2 & Er3 & Er4).
  assert (Ef : fixed_block_size (so h) = fixed_block_size (so b)) by (unfold fixed_block_size; by rewrite Kb5, Kb6).
  assert (Ev : s_verify h = s_verify e /\ s_verify h = s_verify c) by (split; congruence).
  assert (Ee : min_bs (so e) = min_bs (so b) /\ max_bs (so e) = max_bs (so b)) by (split; congruence).
  split; rewrite ?Kb2, ?Kb3, ?Kb4, ?Kb5, ?Kb6, ?Kb7, ?Kb8, ?Kb9, ?Er1, ?Er3, ?Er4, ?Ef; try done.
  - rewrite Er1 in Er2. rewrite Er2. done.
  - rewrite Ka2. done.
  - rewrite (proj2 Ev). rewrite C0 in C1. done.
  - rewrite (proj1 Ev). intros Hv. destruct (G1 Hv) as [G2 G3].
    { intros dd. rewrite (proj1 Ee). apply B1. }
    destruct Ee as [<- <-]. split; [congruence|]. destruct G3 as [G3|G3]; [by left|right; congruence].
  - lia.
  - lia.
  - lia.
  - rewrite Ka3, Ka4. done.
  - intros Ht. assert (timeout h = timeout d) as -> by congruence. apply T2. congruence.
  - intros Hr. specialize (A3 Hr). congruence.
Qed.

(** C29: After [fixup_options], options within the limits the documentation sets (block sizes
    and depths not 0, ranges of block sizes not given or not from 0) fit together: every
    direction has a range of block sizes, offsets are aligned to the smallest block
    unless the map is off, data is verified only where the map or a fixed block size
    tells what was written, and depths, files, think times and zones are within their
    limits.  [rw_min_bs] is the smallest block size of the two directions. *)
Theorem fixup_consistent s : within_limits s -> consistent (snd (fixup_options wf syslet pipeio s)).
Proof.
  intros Hp. unfold fixup_options, fixup_first, fixup_rest.
  pose proof (limits_random _ (limits_iolog s Hp)) as Ha. destruct (random_ok (snd (fixup_iolog wf (0, s)))) as (_ & A1 & A2 & A3).
  rewrite <- (snd_on_opts fixup_random) in Ha, A1, A2, A3. generalize dependent (on_opts fixup_random (fixup_iolog wf (0, s))). intros a Ha A1 A2 A3.
  destruct (align_ok a Ha) as ((x & B0) & B1 & B2 & B3 & B4). pose proof (view_align a) as Vb. generalize dependent (fixup_align wf a). intros b B0 B1 B2 B3 B4 Vb.
  pose proof (view_file_size (snd b)) as Vf. rewrite <- (snd_on_opts fixup_file_size b) in Vf. generalize dependent (on_opts fixup_file_size b). intros f Vf.
  pose proof (no_verify_ok f) as C1. pose proof (view_no_verify f) as Vc. generalize dependent (fixup_no_verify wf f). intros c C1 Vc.
  open_view Vb. open_view Vf. open_view Vc. destruct Ha as [_ _ _ Hd Hf].
  pose proof (depth_ok (snd c)) as D1. pose proof (view_depth (snd c)) as Vp. rewrite <- (snd_on_opts (fixup_depth syslet) c) in D1, Vp.
  generalize dependent (on_opts (fixup_depth syslet) c). intros p D1 Vp.
  pose proof (files_ok (snd p)) as F1. pose proof (view_files (snd p)) as Vq. rewrite <- (snd_on_opts fixup_files p) in F1, Vq.
  generalize dependent (on_opts fixup_files p). intros q F1 Vq.
  pose proof (view_rates q) as Vd. generalize dependent (fixup_rates q). intros d Vd.
  destruct (time_ok d) as (T1 & T2 & _). pose proof (view_time d) as Ve. generalize dependent (fixup_time wf d). intros e T1 T2 Ve.
  pose proof (fixup_verify_ok e) as G1. pose proof (view_verify e) as Vg. generalize dependent (fixup_verify wf e). intros g G1 Vg.
  apply (consistent_of (snd a) (snd b) (snd c) (snd p) (snd q) (snd d) (snd e) (snd g) _ x); try done; try congruence.
  - intros Hv Hn. assert (E : so (snd c) = so (snd f)) by congruence. rewrite E in *. by apply C1.
  - apply D1; lia.
  - open_view Vp. apply F1; lia.
  - apply view_buffers.
Qed.
End fixup.

(** A job with random offsets, a map and one block size. *)
Definition sample_opts : setup_opts :=
  Build_setup_opts
    (RandMap.RandMap.test_options <| td_ddir := TD_DDIR_RAND + TD_DDIR_READ |> <| ba := (0, 0) |> <| min_bs := (0, 0) |> <| max_bs := (0, 0) |>)
    (4096, 4096) VERIFY_NONE 0 true false false 0 0 0 0 4 0 1 1 0 1 0 false 0 1 false false false false 0 false false false.
Lemma sample_within_limits : within_limits sample_opts.
Proof. split; cbn; try lia; intros []; cbn; unfold range_given; lia. Defined.
Lemma fixup_consistent_witness : consistent (snd (fixup_options 0 false false sample_opts)).
Proof. apply (fixup_consistent 0 false false sample_opts). exact sample_within_limits. Defined.

Section random.
Context (wf : Z) (syslet pipeio : bool).

(** The options of the I/O path after [fixup_options], but for [time_based]: those of
    the first steps. *)
Lemma fixup_rest_so r : let o := so (snd (fixup_rest wf syslet pipeio r)) in
  o = (so (snd r)) <| time_based := time_based o |> /\ (time_based o = true -> time_based (so (snd r)) = true).
Proof.
  unfold fixup_rest.
  pose proof (view_file_size (snd r)) as Vf. rewrite <- (snd_on_opts fixup_file_size r) in Vf. generalize dependent (on_opts fixup_file_size r). intros f Vf.
  pose proof (view_no_verify wf f) as Vc. generalize dependent (fixup_no_verify wf f). intros c Vc.
  pose proof (view_depth syslet (snd c)) as Vp. rewrite <- (snd_on_opts (fixup_depth syslet) c) in Vp. generalize dependent (on_opts (fixup_depth syslet) c). intros p Vp.
  pose proof (view_files (snd p)) as Vq. rewrite <- (snd_on_opts fixup_files p) in Vq. generalize dependent (on_opts fixup_files p). intros q Vq.
  pose proof (view_rates q) as Vd. generalize dependent (fixup_rates q). intros d Vd.
  destruct (time_ok wf d) as (T1 & _ & T3). pose proof (view_verify wf (fixup_time wf d)) as Vg. generalize dependent (fixup_time wf d). intros e T1 T3 Vg.
  pose proof (view_buffers wf pipeio (fixup_verify wf e)) as Vh. generalize dependent (fixup_verify wf e). intros g Vg Vh.
  unfold view in *. injection Vf; injection Vc; injection Vp; injection Vq; injection Vd; injection Vg; injection Vh; intros.
  assert (E1 : so (snd (fixup_buffers wf pipeio g)) = so (snd e)) by congruence. assert (E2 : so (snd d) = so (snd r)) by congruence.
  rewrite E1. rewrite E2 in T1, T3. done.
Qed.

Lemma again_plain v o : randomagain_opt o = false -> fixup_again v o = o.
Proof.
  intros H. unfold fixup_again. destruct (negb (td_random o) || negb (td_write o)); destruct o; cbn in *; subst; done.
Qed.
Lemma random_plain s : randomagain_opt (so s) = false ->
  exists z r, so (fixup_random s) = (so s) <| zone_size := z |> <| zone_range := r |>.
Proof.
  intros H. unfold fixup_random. set (o := if negb (zone_size (so s) =? 0) && (open_files s =? 1) then (so s) <| zone_size := 0 |> else so s).
  assert (E : exists z, o = (so s) <| zone_size := z |>).
  { subst o. destruct (_ && _); [by eexists|]. exists (zone_size (so s)). by destruct (so s). }
  destruct E as [z E]. rewrite again_plain by (rewrite E; by destruct (so s)).
  destruct (zone_range_ok o) as [F _]. exists z, (zone_range (fixup_zone_range o)). rewrite <- E. by destruct s.
Qed.
Lemma align_plain r bs : let o := so (snd r) in norandommap o = false -> ba o = (0, 0) -> min_bs o = (0, 0) -> max_bs o = (0, 0) -> s_bs (snd r) = (bs, bs) ->
  so (snd (fixup_align wf r)) = o <| min_bs := (bs, bs) |> <| max_bs := (bs, bs) |> <| rw_min_bs := bs |> <| ba := (bs, bs) |>.
Proof.
  destruct r as [ret s]. cbn [snd]. intros Hn Hba Hmin Hmax Hbs. unfold fixup_align, fixup_bs. rewrite Hbs. destruct s as [o]. cbn in *.
  destruct o. cbn in *. subst. cbn. rewrite Z.min_id, !Z.eqb_refl. done.
Qed.
Lemma first_so s bs : norandommap (so s) = false -> randomagain_opt (so s) = false -> ba (so s) = (0, 0) ->
  min_bs (so s) = (0, 0) -> max_bs (so s) = (0, 0) -> s_bs s = (bs, bs) ->
  exists z r, so (snd (fixup_first wf s)) = (so s) <| zone_size := z |> <| zone_range := r |>
    <| min_bs := (bs, bs) |> <| max_bs := (bs, bs) |> <| rw_min_bs := bs |> <| ba := (bs, bs) |>.
Proof.
  intros Hn Ha Hba Hmin Hmax Hbs. unfold fixup_first. 
  assert (V : so (snd (fixup_iolog wf (0, s))) = so s /\ s_bs (snd (fixup_iolog wf (0, s))) = s_bs s).
  { pose proof (view_iolog wf (0, s)) as V. unfold view in V. cbn [snd] in V. split; congruence. }
  destruct V as [Es Eb].
  generalize dependent (fixup_iolog wf (0, s)). intros i Es Eb.
  destruct (random_plain (snd i)) as (z & r & E); [by rewrite Es|]. exists z, r. rewrite Es in E.
  rewrite <- (snd_on_opts fixup_random) in E. assert (Ebs : s_bs (snd (on_opts fixup_random i)) = s_bs (snd i)) by done.
  generalize dependent (on_opts fixup_random i). intros a E Ebs. rewrite (align_plain a bs); rewrite ?E; try (by destruct (so s)). congruence.
Qed.

(** A random job with a map and one block size for both directions: after
    [fixup_options] its options are those of a random job in the sense of the theorems
    on runs. *)
Theorem fixup_gives_random_job s bs : td_random (so s) = true -> norandommap (so s) = false -> randomagain_opt (so s) = false ->
  ddir_seq_nr (so s) = 1 -> zone_skip (so s) = 0 -> time_based (so s) = false -> ba (so s) = (0, 0) ->
  min_bs (so s) = (0, 0) -> max_bs (so s) = (0, 0) -> s_bs s = (bs, bs) -> 0 < bs < 2 ^ 31 ->
  RandJob.random_job (so (snd (fixup_options wf syslet pipeio s))).
Proof.
  intros Hr Hn Ha Hd Hz Ht Hba Hmin Hmax Hbs Hb. unfold fixup_options. destruct (fixup_rest_so (fixup_first wf s)) as [E T].
  generalize dependent (so (snd (fixup_rest wf syslet pipeio (fixup_first wf s)))). intros o E T.
  destruct (first_so s bs) as (z & zr & E1); try done. rewrite E1 in E, T. clear E1.
  assert (Tf : time_based o = false) by (destruct (time_based o); [|done]; rewrite <- Ht; symmetry; destruct (so s); by apply T).
  rewrite Tf in E. subst o. destruct (so s). cbn in *. subst. split; cbn; try done; try lia; intros []; cbn; lia.
Qed.
End random.
Lemma fixup_gives_random_job_witness : RandJob.random_job (so (snd (fixup_options 0 false false sample_opts))).
Proof. apply (fixup_gives_random_job 0 false false sample_opts 4096); try reflexivity; lia. Defined.

(** [warnings_fatal] is put in place of an error that was found before: two rates that
    exclude each other are accepted if the time of the job is wrong as well. *)
Lemma fixup_forgets_error : exists s, within_limits s /\ both_rates (so s) = true /\
  fst (fixup_options 0 false false (s <| so := (so s) <| time_based := false |> |>)) = 1 /\ fst (fixup_options 0 false false s) = 0.
Proof.
  exists (sample_opts <| so := (so sample_opts) <| rate := (1, 1) |> <| rate_iops := (1, 1) |> <| time_based := true |> |>).
  split_and!; [|reflexivity|reflexivity|reflexivity]. split; cbn; try lia; intros []; cbn; unfold range_given; lia.
Qed.

(** A range that starts at 0 is not noticed: with a block size of 64 KiB and a range from 0 to
    4 KiB the smallest block is larger than the largest. *)
Lemma zero_range_not_fixed :
  let s := sample_opts <| s_bs := (65536, 65536) |> <| so ::= fun o => o <| max_bs := (4096, 4096) |> |> in
  let o := so (snd (fixup_options 0 false false s)) in
  fst (fixup_options 0 false false s) = 0 /\ min_bs o = (65536, 65536) /\ max_bs o = (4096, 4096).
Proof. vm_compute. done. Qed.

(** ** Rates *)

(** The rates of a job in bytes per second: the rate given, or the number of blocks
    per second times the block size as a 32-bit number.  The job is rejected exactly
    when that number is 0 for a direction that has a rate. *)
Definition limited (o : thread_options) (d : fio_ddir) : Prop := at2 (rate o) d <> 0 \/ at2 (rate_iops o) d <> 0.
Definition bps_of (o : thread_options) (d : fio_ddir) : Z :=
  if decide (at2 (rate o) d = 0) then (at2 (rate_iops o) d * at2 (min_bs o) d) mod 2 ^ 32 else at2 (rate o) d.
Lemma one_rate_spec o d : 
  ((if negb (at2 (rate o) d =? 0) || negb (at2 (rate_iops o) d =? 0) then __setup_rate o d else Some 0) = None /\ limited o d /\ bps_of o d = 0) \/
  (exists r, (if negb (at2 (rate o) d =? 0) || negb (at2 (rate_iops o) d =? 0) then __setup_rate o d else Some 0) = Some r /\
     (limited o d -> r = bps_of o d /\ bps_of o d <> 0) /\ (~ limited o d -> r = 0)).
Proof.
  unfold __setup_rate, bps_of, limited, u32, wrap.
  destruct (Z.eqb_spec (at2 (rate o) d) 0) as [E|E]; cbn [negb orb].
  - rewrite decide_True by done. destruct (Z.eqb_spec (at2 (rate_iops o) d) 0) as [F|F]; cbn [negb]; [right; eexists; split; [done|]; split; [tauto|done]|].
    case_match; [left; split; [done|]; lia|]. right. eexists. split; [done|]. split; [|tauto]. intros _. split; [done|lia].
  - rewrite decide_False by done. replace (at2 (rate o) d =? 0) with false by lia. right. eexists. split; [done|]. split; [|tauto]. done.
Qed.
Theorem setup_rate_spec o :
  (setup_rate o = None <-> exists d, ddir_rw d = true /\ limited o d /\ bps_of o d = 0) /\
  forall r, setup_rate o = Some r -> forall d, ddir_rw d = true -> limited o d -> at2 r d = bps_of o d.
Proof.
  unfold setup_rate.
  destruct (one_rate_spec o DDIR_READ) as [(E1 & L1 & Z1)|(r1 & E1 & L1 & _)]; rewrite E1; cbn [mbind option_bind].
  { split; [|done]. split; [intros _; by exists DDIR_READ|done]. }
  destruct (one_rate_spec o DDIR_WRITE) as [(E2 & L2 & Z2)|(r2 & E2 & L2 & _)]; rewrite E2; cbn [mbind option_bind].
  { split; [|done]. split; [intros _; by exists DDIR_WRITE|done]. }
  split.
  - split; [done|]. intros ([] & Hd & Hl & Hb); try done; [by destruct (L1 Hl)|by destruct (L2 Hl)].
  - intros r [= <-] [] Hd Hl; try done; cbn; [by destruct (L1 Hl)|by destruct (L2 Hl)].
Qed.

(** Blocks of 64 KiB at 65536 blocks per second: the product does not fit. *)
Lemma iops_rate_wraps : exists o, at2 (rate_iops o) DDIR_READ = 65536 /\ at2 (min_bs o) DDIR_READ = 65536 /\ setup_rate o = None.
Proof. exists (RandMap.RandMap.test_options <| rate_iops := (65536, 0) |> <| min_bs := (65536, 0) |>). done. Qed.
End Init.
