(* ===== verification/Jobs.v ===== *)
(** * The table of jobs

    [src/init.c]: [get_new_job], [put_job] and [add_job], with the files a job gets
    ([add_file] and [dup_files] of [src/filesetup.c]) and the groups of jobs.  The
    table is the array [threads]; a cleared entry is [None], and a pointer to a job is
    [Def] for [&def_thread] or the index of an entry.  [None] as a result is the use of
    memory that is not there. *)
From S2P Require Import Prelude Types Offset Verify CString Flow Init Parse JobFile.
From stdpp Require Import gmap strings.
Local Open Scope Z_scope.
Local Open Scope cstr_scope.

Module Jobs.
Import CString Types Init.

(** ** Data *)
Record job_data := {
  o : setup_opts;
  o_filename : option cstr; o_directory : option cstr; o_name : option cstr; use_thread : bool;
  files : list cstr;                     (* the names of the files *)
  td_number : Z; td_groupid : Z; rate_bps : per_ddir Z;
  td_flow_job : Flow.job }.
#[export] Instance eta_job_data : Eta job_data := fun j =>
  Build_job_data (o j) (o_filename j) (o_directory j) (o_name j) (use_thread j) (files j) (td_number j) (td_groupid j)
    (rate_bps j) (td_flow_job j).

Record table := {
  threads : list (option job_data);   (* [max_jobs] entries *)
  thread_number : nat;
  groupid : Z; prev_group_jobs : Z; nr_thread : Z; nr_process : Z;
  def_thread : job_data;
  flows : Flow.flows }.
#[export] Instance eta_table : Eta table := fun t =>
  Build_table (threads t) (thread_number t) (groupid t) (prev_group_jobs t) (nr_thread t) (nr_process t) (def_thread t) (flows t).

Inductive td_ptr := Def | Slot (i : nat).
#[export] Instance td_ptr_eq_dec : EqDecision td_ptr.
Proof. solve_decision. Defined.
Definition deref (p : td_ptr) (t : table) : option job_data :=
  match p with Def => Some (def_thread t) | Slot i => mjoin (threads t !! i) end.
Definition assign_td (p : td_ptr) (j : job_data) (t : table) : table :=
  match p with Def => t <| def_thread := j |> | Slot i => t <| threads ::= <[i := Some j]> |> end.

(** ** Files *)
Definition add_file (fname : cstr) (j : job_data) : job_data :=
  let file_name := match o_directory j with Some d => d ++ $"/" ++ fname | None => fname end in
  j <| files ::= fun fs => fs ++ [file_name] |> <| o ::= fun s => s <| files_index := files_index s + 1 |> |>.
Fixpoint add_numbered (jobname : cstr) (number : Z) (i n : nat) (j : job_data) : job_data :=
  match n with
  | O => j
  | S n => add_numbered jobname number (S i) n
             (add_file (jobname ++ $"." ++ print_dec number ++ $"." ++ print_dec (Z.of_nat i)) j)
  end.

(** ** The table *)

(** The copy has the flow of its parent as well, and copies of its files. *)
Definition get_new_job (global : bool) (parent : td_ptr) (t : table) : option (option td_ptr * table) :=
  if global then Some (Some Def, t)
  else if (length (threads t) <=? thread_number t)%nat then Some (None, t)
  else
    j ← deref parent t;
    let i := thread_number t in
    Some (Some (Slot i), assign_td (Slot i) (j <| td_number := Z.of_nat (S i) |>) t <| thread_number := S i |>).

Definition put_job (p : td_ptr) (t : table) : option table :=
  match p with
  | Def => Some t
  | Slot i =>
      j ← deref p t;
      '(_, fl) ← Flow.flow_exit_job (td_flow_job j) (flows t);
      Some (t <| flows := fl |> <| threads ::= <[Z.to_nat (td_number j - 1) := None]> |> <| thread_number ::= Nat.pred |>)
  end.

(** [stonewall] and [new_group] begin a group, unless the last one is empty. *)
Definition join_group (p : td_ptr) (t : table) : option table :=
  j ← deref p t;
  let t := if (stonewall (o j) || new_group (o j)) && negb (prev_group_jobs t =? 0)
           then t <| prev_group_jobs := 0 |> <| groupid ::= Z.succ |> else t in
  Some (assign_td p (j <| td_groupid := groupid t |>) t <| prev_group_jobs ::= Z.succ |>).

Section add.
(** [dump_cmdline] and [warnings_fatal]; whether the profile, the unique engine and
    the I/O engine of a job load; of its engine, whether it is "syslet-rw" and
    [FIO_PIPEIO]; what [lstat] tells; whether random seeds are read; and the address
    [smalloc] returns for a flow. *)
Context (dump_cmdline : bool) (warnings_fatal : Z).
Context (loads : job_data -> bool) (syslet pipeio : job_data -> bool).
Context (exists_and_not_file : cstr -> bool) (init_random_state : job_data -> bool).
Context (smalloc : Flow.flows -> Z).

(** The files of a job that names none; whether they were made. *)
Definition alloc_files (jobname : cstr) (j : job_data) : job_data * bool :=
  if bool_decide (o_filename j = None) && (files_index (o j) =? 0) && negb (read_iolog_file (o j)) then
    (if (s_nr_files (o j) =? 1) && exists_and_not_file jobname then add_file jobname j
     else add_numbered jobname (td_number j) 0 (Z.to_nat (s_nr_files (o j))) j, true)
  else (j, false).

(** [add_job] up to its loop, for an entry of the table: the error, or whether files
    were made. *)
Definition add_one (p : td_ptr) (jobname : cstr) (t : table) : option (option bool * table) :=
  j ← deref p t;
  if negb (loads j) then Some (None, t)
  else
    let t := if use_thread j then t <| nr_thread ::= Z.succ |> else t <| nr_process ::= Z.succ |> in
    let '(j, file_alloced) := alloc_files jobname j in
    let '(ret, s) := fixup_options warnings_fatal (syslet j) (pipeio j) (o j) in
    let j := j <| o := s |> in
    if negb (ret =? 0) then Some (None, assign_td p j t)
    else
      '(fj, fl) ← Flow.flow_init_job (smalloc (flows t)) (td_flow_job j) (flows t);
      t ← join_group p (assign_td p (j <| td_flow_job := fj |>) t <| flows := fl |>);
      j ← deref p t;
      if negb (init_random_state j) then Some (None, t)
      else match setup_rate (so (o j)) with
           | None => Some (None, t)
           | Some r =>
               Some (Some file_alloced,
                 assign_td p (j <| rate_bps := r |> <| o_name := Some (default jobname (o_name j)) |>) t)
           end.

(** A copy of a job, before it is added. *)
Definition copy_opts (file_alloced : bool) (j : job_data) : job_data :=
  let j := j <| o ::= fun s => s <| numjobs := 1 |> <| stonewall := false |> <| new_group := false |> |> in
  if file_alloced then j <| o_filename := None |> <| files := [] |> <| o ::= fun s => s <| files_index := 0 |> |> else j.

(** The loop [while (--numjobs)].  [numjobs] of a copy is 1, so that its own loop does
    nothing.  Each pass takes an entry of the table: [fuel] is their number. *)
Fixpoint add_copies (fuel : nat) (numjobs : Z) (p : td_ptr) (jobname : cstr) (file_alloced : bool) (t : table)
    : option (Z * table) :=
  let numjobs := numjobs - 1 in
  if numjobs =? 0 then Some (0, t)
  else
    '(new, t) ← get_new_job false p t;
    match new, fuel with
    | None, _ => t ← put_job p t; Some (-1, t)
    | Some q, O => None
    | Some q, S fuel =>
        j ← deref q t;
        '(r, t) ← add_one q jobname (assign_td q (copy_opts file_alloced j) t);
        match r with
        | None => t ← put_job q t; t ← put_job p t; Some (-1, t)
        | Some _ => add_copies fuel numjobs p jobname file_alloced t
        end
    end.

Definition add_job (p : td_ptr) (jobname : cstr) (t : table) : option (Z * table) :=
  match p with
  | Def => Some (0, t)
  | Slot _ =>
      if dump_cmdline then t ← put_job p t; Some (0, t)
      else
        '(r, t) ← add_one p jobname t;
        match r with
        | None => t ← put_job p t; Some (-1, t)
        | Some file_alloced =>
            j ← deref p t;
            add_copies (length (threads t)) (s32 (numjobs (o j))) p jobname file_alloced t
        end
  end.
End add.

(** * Properties *)

(** ** What [fixup_options] leaves alone *)
Section kept.
Context (wf : Z) (syslet pipeio : bool).

Definition v_job (s : setup_opts) := (numjobs s, stonewall s, new_group s, s_bs s).
Ltac steps := intros; unfold fixup_iolog, fixup_file_size, fixup_no_verify, fixup_depth, fixup_files, fixup_rates, fixup_time, fixup_verify, fixup_buffers, fixup_align;
  repeat match goal with r : (Z * setup_opts)%type |- _ => destruct r end;
  repeat match goal with s : setup_opts |- _ => destruct s end; cbn; repeat case_match; simplify_eq/=; try done.

Lemma vj_iolog r : v_job (snd (fixup_iolog wf r)) = v_job (snd r). Proof. steps. Qed.
Lemma vj_align r : v_job (snd (fixup_align wf r)) = v_job (snd r). Proof. steps. Qed.
Lemma vj_no_verify r : v_job (snd (fixup_no_verify wf r)) = v_job (snd r). Proof. steps. Qed.
Lemma vj_rest r : v_job (snd (fixup_rest wf syslet pipeio r)) = v_job (snd r).
Proof.
  unfold fixup_rest. 
  assert (B : forall r, v_job (snd (fixup_buffers wf pipeio r)) = v_job (snd r)) by steps. rewrite B. clear B.
  assert (B : forall r, v_job (snd (fixup_verify wf r)) = v_job (snd r)) by steps. rewrite B. clear B.
  assert (B : forall r, v_job (snd (fixup_time wf r)) = v_job (snd r)) by steps. rewrite B. clear B.
  assert (B : forall r, v_job (snd (fixup_rates r)) = v_job (snd r)) by steps. rewrite B. clear B.
  cbn [on_opts snd]. assert (B : forall s, v_job (fixup_files s) = v_job s) by steps. rewrite B. clear B.
  assert (B : forall s, v_job (fixup_depth syslet s) = v_job s) by steps. rewrite B. clear B.
  rewrite vj_no_verify. cbn [on_opts snd]. assert (B : forall s, v_job (fixup_file_size s) = v_job s) by steps. by rewrite B.
Qed.
Lemma fixup_keeps_job s : v_job (snd (fixup_options wf syslet pipeio s)) = v_job s.
Proof. unfold fixup_options, fixup_first. rewrite vj_rest, vj_align. cbn [on_opts snd]. change (v_job (fixup_random ?x)) with (v_job x). by rewrite vj_iolog. Qed.
End kept.

(** The block sizes [fixup_options] chooses. *)
Definition dflt (x b : Z) : Z := if x =? 0 then b else x.
Definition final_bs (s : setup_opts) : per_ddir Z :=
  (dflt (fst (min_bs (so s))) (fst (s_bs s)), dflt (snd (min_bs (so s))) (snd (s_bs s))).
Definition v_rates (o : thread_options) := (rate o, rate_iops o, ratemin o, rate_iops_min o).

Section rates.
Context (wf : Z) (syslet pipeio : bool).

Lemma fixup_keeps_rates s : let s' := snd (fixup_options wf syslet pipeio s) in
  v_rates (so s') = v_rates (so s) /\ min_bs (so s') = final_bs s.
Proof.
  unfold fixup_options. destruct (fixup_rest_so wf syslet pipeio (fixup_first wf s)) as [E _]. cbn zeta. rewrite E. clear E.
  set (b := time_based _). clearbody b. unfold fixup_first.
  assert (V : so (snd (fixup_iolog wf (0, s))) = so s /\ s_bs (snd (fixup_iolog wf (0, s))) = s_bs s).
  { pose proof (view_iolog wf (0, s)) as V. unfold view in V. cbn [snd] in V. split; congruence. }
  destruct V as [Es Eb]. generalize dependent (fixup_iolog wf (0, s)). intros i Es Eb.
  destruct (random_ok (snd i)) as [(o1 & Eo & z & Ez) _]. assert (Ebs : s_bs (fixup_random (snd i)) = s_bs (snd i)) by done.
  rewrite <- (snd_on_opts fixup_random i) in Eo, Ebs. generalize dependent (on_opts fixup_random i). intros a Eo Ebs.
  destruct (align_so wf a) as (n & Ea & _). cbn zeta in Ea. rewrite Ea. unfold final_bs.
  assert (F : forall o n b, v_rates (o <| norandommap := n |> <| time_based := b |>) = v_rates o /\ min_bs (o <| norandommap := n |> <| time_based := b |>) = min_bs o) by (by intros []).
  destruct (F (fixup_bs (so (snd a)) (s_bs (snd a))) n b) as [-> ->]. 
  assert (G : forall o bs, v_rates (fixup_bs o bs) = v_rates o /\ min_bs (fixup_bs o bs) = (dflt (fst (min_bs o)) (fst bs), dflt (snd (min_bs o)) (snd bs))) by (by intros []).
  destruct (G (so (snd a)) (s_bs (snd a))) as [-> ->]. rewrite Ebs, Eb, Eo, Ez, Es. by destruct (so s).
Qed.
End rates.

(** If warnings are not fatal, only the rates make [fixup_options] fail. *)
Lemma rates_ext o o' : v_rates o = v_rates o' -> both_rates o = both_rates o' /\ min_above o = min_above o'.
Proof. intros E. unfold v_rates in E. injection E as E1 E2 E3 E4. unfold both_rates, min_above. by rewrite E1, E2, E3, E4. Qed.
Lemma warnings_pass pipeio r : fst r = 0 -> fst (fixup_iolog 0 r) = 0 /\ fst (fixup_align 0 r) = 0 /\ fst (fixup_no_verify 0 r) = 0 /\
  fst (fixup_time 0 r) = 0 /\ fst (fixup_verify 0 r) = 0 /\ fst (fixup_buffers 0 pipeio r) = 0.
Proof.
  destruct r as [ret s']. cbn [fst]. intros ->. unfold fixup_iolog, fixup_align, fixup_no_verify, fixup_time, fixup_verify, fixup_buffers.
  split_and!; repeat case_match; simplify_eq/=; repeat case_match; done.
Qed.
Lemma rates_after pipeio q : v_rates (so (snd (fixup_buffers 0 pipeio (fixup_verify 0 (fixup_time 0 (fixup_rates q)))))) = v_rates (so (snd q)).
Proof.
  assert (T : forall r, v_rates (so (snd (fixup_buffers 0 pipeio r))) = v_rates (so (snd r))) by (intros [ret x]; unfold fixup_buffers; repeat case_match; simplify_eq/=; by repeat case_match).
  rewrite T. clear T.
  assert (T : forall r, v_rates (so (snd (fixup_verify 0 r))) = v_rates (so (snd r))) by (intros [ret x]; unfold fixup_verify; repeat case_match; by simplify_eq/=).
  rewrite T. clear T. destruct (time_ok 0 (fixup_rates q)) as (E & _). cbn zeta in E. rewrite E. destruct q as [ret q]. cbn [fixup_rates snd]. by destruct (so q).
Qed.
Lemma rates_pass s q : both_rates (so s) = false -> min_above (so s) = false -> v_rates (so (snd q)) = v_rates (so s) -> fst q = 0 -> fst (fixup_rates q) = 0.
Proof. destruct q as [ret x]. cbn. intros Hb Hm V ->. destruct (rates_ext _ _ V) as [-> ->]. by rewrite Hb, Hm. Qed.
Lemma fst_on_opts F r : fst (on_opts F r) = fst r.
Proof. done. Qed.
Lemma fixup_accepts syslet pipeio s : both_rates (so s) = false -> min_above (so s) = false -> fst (fixup_options 0 syslet pipeio s) = 0.
Proof.
  intros Hb Hm. pose proof (proj1 (fixup_keeps_rates 0 syslet pipeio s)) as K. revert K. cbn zeta. unfold fixup_options, fixup_rest.
  destruct (warnings_pass pipeio (0, s) eq_refl) as (H1 & _). unfold fixup_first. generalize dependent (fixup_iolog 0 (0, s)). intros i Hi. 
  rewrite <- (fst_on_opts fixup_random) in Hi. generalize dependent (on_opts fixup_random i). intros a Ha.
  destruct (warnings_pass pipeio a Ha) as (_ & H & _). rewrite <- (fst_on_opts fixup_file_size) in H.
  generalize dependent (on_opts fixup_file_size (fixup_align 0 a)). intros b H2. destruct (warnings_pass pipeio b H2) as (_ & _ & H & _).
  rewrite <- (fst_on_opts (fixup_depth syslet)), <- (fst_on_opts fixup_files) in H.
  generalize dependent (on_opts fixup_files (on_opts (fixup_depth syslet) (fixup_no_verify 0 b))). intros q Hq.
  rewrite rates_after. intros K. pose proof (rates_pass s q Hb Hm K Hq) as Hr. generalize dependent (fixup_rates q). intros r Hr.
  destruct (warnings_pass pipeio r Hr) as (_ & _ & _ & H & _). generalize dependent (fixup_time 0 r). intros e He.
  destruct (warnings_pass pipeio e He) as (_ & _ & _ & _ & H & _). generalize dependent (fixup_verify 0 e). intros g Hg.
  by apply warnings_pass.
Qed.

Lemma setup_rate_ext a b : rate a = rate b -> rate_iops a = rate_iops b -> min_bs a = min_bs b -> setup_rate a = setup_rate b.
Proof. intros E1 E2 E3. unfold setup_rate, __setup_rate. by rewrite E1, E2, E3. Qed.

(** ** Flows *)
Definition live (fl : Flow.flows) (a : Z) : Prop := is_Some (Flow.flow_mem fl !! a).
Definition flow_fine (fl : Flow.flows) : Prop := forall a, a ∈ Flow.flow_list fl -> live fl a.
Lemma flow_live_insert l l' (m : gmap Z Flow.fio_flow) a b f : live (Flow.Build_flows l m) a -> live (Flow.Build_flows l' (<[b := f]> m)) a.
Proof. unfold live. cbn. intros H. destruct (decide (b = a)) as [->|]; [by rewrite lookup_insert_eq|by rewrite lookup_insert_ne]. Qed.
Lemma flow_init_total new fj fl : flow_fine fl -> exists fj' fl', Flow.flow_init_job new fj fl = Some (fj', fl') /\ flow_fine fl' /\
  (forall a, live fl a -> live fl' a) /\ (forall a, Flow.td_flow fj' = Some a -> live fl' a \/ Flow.td_flow fj = Some a).
Proof.
  intros Hf. unfold Flow.flow_init_job. destruct (_ =? 0); [exists fj, fl; auto|].
  unfold Flow.flow_get. destruct (Flow.flow_find_ok (u32 (Flow.o_flow_id fj)) fl (Flow.flow_list fl) Hf) as (r & -> & Hr). cbn [mbind option_bind].
  destruct r as [a|].
  - destruct Hr as [Ha (f & Hm & _)]. rewrite Hm. cbn [mbind option_bind]. eexists _, _. split; [done|].
    destruct fl as [l m]. cbn in *. split_and!.
    + intros b Hb. apply (flow_live_insert l). by apply Hf.
    + intros b Hb. by apply (flow_live_insert l).
    + destruct fj. cbn. intros b [= <-]. left. unfold live. cbn. by rewrite lookup_insert_eq.
  - destruct fl as [l m]. cbn. rewrite lookup_insert_eq. cbn [mbind option_bind]. eexists _, _. split; [done|]. rewrite insert_insert_eq. split_and!.
    + intros b Hb. cbn in Hb. apply elem_of_app in Hb as [Hb|Hb]; [by apply (flow_live_insert l), Hf|].
      apply list_elem_of_singleton in Hb as ->. unfold live. cbn. by rewrite lookup_insert_eq.
    + intros b Hb. by apply (flow_live_insert l).
    + destruct fj. cbn. intros b [= <-]. left. unfold live. cbn. by rewrite lookup_insert_eq.
Qed.

(** ** Adding one job *)
Definition rates_fine (s : setup_opts) : Prop :=
  both_rates (so s) = false /\ min_above (so s) = false /\ is_Some (setup_rate ((so s) <| min_bs := final_bs s |>)).
Lemma rates_fine_ext s s' : v_rates (so s') = v_rates (so s) -> final_bs s' = final_bs s -> rates_fine s -> rates_fine s'.
Proof.
  intros V B (H1 & H2 & H3). destruct (rates_ext _ _ V) as [E1 E2]. unfold rates_fine. rewrite E1, E2, B. split_and!; [done|done|].
  erewrite setup_rate_ext; [exact H3|..]; unfold v_rates in V; destruct (so s), (so s'); cbn in *; congruence.
Qed.
Lemma fixup_rates_fine wf syslet pipeio s : rates_fine s -> let s' := snd (fixup_options wf syslet pipeio s) in
  rates_fine s' /\ is_Some (setup_rate (so s')).
Proof.
  intros Hr. cbn zeta. destruct (fixup_keeps_rates wf syslet pipeio s) as [V B]. pose proof (fixup_keeps_job wf syslet pipeio s) as J.
  set (s' := snd (fixup_options wf syslet pipeio s)) in *. split.
  - apply (rates_fine_ext s); [done| |done]. unfold final_bs. rewrite B. assert (s_bs s' = s_bs s) as -> by (unfold v_job in J; congruence).
    unfold final_bs, dflt. cbn. f_equal; repeat case_match; lia.
  - destruct Hr as (_ & _ & H). erewrite setup_rate_ext; [exact H|..]; unfold v_rates in V; destruct (so s), (so s'); cbn in *; congruence.
Qed.

(** What a job keeps when its files are made. *)
Definition v_td (j : job_data) := (so (o j), v_job (o j), td_number j, td_flow_job j, o_name j).
Lemma add_file_keeps f j : v_td (add_file f j) = v_td j.
Proof. by destruct j as [[]]. Qed.
Lemma add_numbered_keeps name num n : forall i j, v_td (add_numbered name num i n j) = v_td j.
Proof. induction n as [|n IH]; intros i j; [done|]. cbn [add_numbered]. by rewrite IH, add_file_keeps. Qed.

Section adding.
Context (loads : job_data -> bool) (syslet pipeio : job_data -> bool).
Context (enf : cstr -> bool) (rnd : job_data -> bool) (smalloc : Flow.flows -> Z).
(** Every profile and engine loads, and the seeds are read. *)
Context (Hload : forall j, loads j = true) (Hrnd : forall j, rnd j = true).
Local Abbreviation add1 := (add_one 0 loads syslet pipeio enf rnd smalloc).

Lemma alloc_files_keeps name j : v_td (fst (alloc_files enf name j)) = v_td j.
Proof. unfold alloc_files. destruct (_ && _ && _); [|done]. cbn [fst]. destruct (_ && _); [apply add_file_keeps|apply add_numbered_keeps]. Qed.

(** Whether the job begins a group. *)
Definition starts (j : job_data) (t : table) : bool := (stonewall (o j) || new_group (o j)) && negb (prev_group_jobs t =? 0).
Record added (i : nat) (name : cstr) (j : job_data) (t : table) (j' : job_data) (t' : table) : Prop := {
  a_threads : threads t' = <[i := Some j']> (threads t);
  a_number : thread_number t' = thread_number t;
  a_fine : flow_fine (flows t');
  a_live a : live (flows t) a -> live (flows t') a;
  a_flow a : Flow.td_flow (td_flow_job j') = Some a -> live (flows t') a \/ Flow.td_flow (td_flow_job j) = Some a;
  a_rates : rates_fine (o j');
  a_job : v_job (o j') = v_job (o j);
  a_td : td_number j' = td_number j /\ o_name j' = Some (default name (o_name j));
  a_group : groupid t' = (if starts j t then groupid t + 1 else groupid t) /\ td_groupid j' = groupid t';
  a_prev : prev_group_jobs t' = (if starts j t then 1 else prev_group_jobs t + 1) }.

Lemma deref_slot i j t : threads t !! i = Some (Some j) -> deref (Slot i) t = Some j.
Proof. intros H. unfold deref. by rewrite H. Qed.
Lemma assign_threads i j t : threads (assign_td (Slot i) j t) = <[i := Some j]> (threads t).
Proof. by destruct t. Qed.

Lemma join_group_ok i j t : threads t !! i = Some (Some j) -> exists t', join_group (Slot i) t = Some t' /\
  threads t' = <[i := Some (j <| td_groupid := groupid t' |>)]> (threads t) /\ thread_number t' = thread_number t /\ flows t' = flows t /\
  groupid t' = (if starts j t then groupid t + 1 else groupid t) /\ prev_group_jobs t' = (if starts j t then 1 else prev_group_jobs t + 1).
Proof.
  intros E. unfold join_group. rewrite (deref_slot _ _ _ E). cbn [mbind option_bind]. fold (starts j t).
  destruct (starts j t); eexists; (split; [reflexivity|]); destruct t; cbn; done.
Qed.

Lemma add_one_ok t i j name : threads t !! i = Some (Some j) -> rates_fine (o j) -> flow_fine (flows t) ->
  exists fa j' t', add1 (Slot i) name t = Some (Some fa, t') /\ added i name j t j' t'.
Proof.
  intros E Hr Hf. unfold add_one. rewrite (deref_slot _ _ _ E). cbn [mbind option_bind]. rewrite Hload. cbn [negb].
  set (t1 := if use_thread j then t <| nr_thread ::= Z.succ |> else t <| nr_process ::= Z.succ |>).
  assert (T1 : threads t1 = threads t /\ thread_number t1 = thread_number t /\ flows t1 = flows t /\ groupid t1 = groupid t /\ prev_group_jobs t1 = prev_group_jobs t).
  { subst t1. destruct (use_thread j); by destruct t. }
  clearbody t1. destruct T1 as (T1 & T2 & T3 & T4 & T5).
  pose proof (alloc_files_keeps name j) as K. destruct (alloc_files enf name j) as [j1 fa]. cbn [fst] in K. unfold v_td in K.
  injection K as K1 K2 K3 K4 K5 K6 K7 K8.
  assert (R1 : rates_fine (o j1)).
  { apply (rates_fine_ext (o j)); [by rewrite K1|unfold final_bs; by rewrite K1, K5|done]. }
  pose proof (fixup_accepts (syslet j1) (pipeio j1) (o j1) (proj1 R1) (proj1 (proj2 R1))) as Ha.
  destruct (fixup_rates_fine 0 (syslet j1) (pipeio j1) (o j1) R1) as [R2 R3]. pose proof (fixup_keeps_job 0 (syslet j1) (pipeio j1) (o j1)) as J.
  destruct (fixup_options 0 (syslet j1) (pipeio j1) (o j1)) as [ret s]. cbn [fst snd] in Ha, R2, R3, J. subst ret. cbn [Z.eqb negb].
  replace (td_flow_job (j1 <| o := s |>)) with (td_flow_job j) by (destruct j1; cbn in *; congruence).
  destruct (flow_init_total (smalloc (flows t1)) (td_flow_job j) (flows t1)) as (fj & fl & Ef & F1 & F2 & F3); [by rewrite T3|].
  rewrite Ef. cbn [mbind option_bind].
  set (j2 := j1 <| o := s |> <| td_flow_job := fj |>). set (t2 := assign_td (Slot i) j2 t1 <| flows := fl |>).
  assert (L : (i < length (threads t))%nat) by (by eapply lookup_lt_Some).
  assert (A2 : threads t2 = <[i := Some j2]> (threads t) /\ thread_number t2 = thread_number t /\ flows t2 = fl /\ starts j2 t2 = starts j t /\ groupid t2 = groupid t /\ prev_group_jobs t2 = prev_group_jobs t).
  { subst t2. unfold starts. rewrite <- T1, <- T2, <- T4, <- T5. unfold v_job in J. injection J as J1 J2 J3 J4. destruct t1, j1; cbn in *. split_and!; try done. by rewrite J2, J3, K3, K4. }
  clearbody t2. destruct A2 as (A1 & A2 & A3 & A4 & A5 & A6).
  destruct (join_group_ok i j2 t2) as (t3 & -> & G1 & G2 & G3 & G4 & G5); [rewrite A1; by apply list_lookup_insert_eq|].
  cbn [mbind option_bind]. rewrite A1, list_insert_insert_eq in G1.
  rewrite (deref_slot i (j2 <| td_groupid := groupid t3 |>)) by (rewrite G1; by apply list_lookup_insert_eq). cbn [mbind option_bind].
  rewrite Hrnd. cbn [negb]. replace (so (o (j2 <| td_groupid := groupid t3 |>))) with (so s) by (by destruct j1). destruct R3 as [r R3]. rewrite R3.
  eexists fa, _, _. split; [reflexivity|]. rewrite A4, A5 in G4. rewrite A4, A6 in G5.
  split.
  - rewrite assign_threads, G1. apply list_insert_insert_eq.
  - destruct t3. cbn in *. congruence.
  - destruct t3. cbn in *. by rewrite G3, A3.
  - intros a Ha. destruct t3. cbn in *. rewrite G3, A3. apply F2. by rewrite T3.
  - intros a Ha. destruct t3. cbn in *. rewrite G3, A3. apply F3. by destruct j1.
  - by destruct j1.
  - destruct j1. cbn in *. rewrite J. unfold v_job. congruence.
  - destruct j1. cbn in *. split; congruence.
  - split; [|by destruct t3, j1]. destruct t3. cbn in G4 |- *. done.
  - by destruct t3.
Qed.
End adding.

(** ** Adding a job and its copies *)
Section copies.
Context (loads : job_data -> bool) (syslet pipeio : job_data -> bool).
Context (enf : cstr -> bool) (rnd : job_data -> bool) (smalloc : Flow.flows -> Z).
Context (Hload : forall j, loads j = true) (Hrnd : forall j, rnd j = true).
Local Abbreviation copies := (add_copies 0 loads syslet pipeio enf rnd smalloc).

(** The job whose copies are made. *)
Record parent (i : nat) (j : job_data) (t : table) : Prop := {
  p_entry : threads t !! i = Some (Some j);
  p_below : (i < thread_number t)%nat;
  p_rates : rates_fine (o j);
  p_fine : flow_fine (flows t);
  p_flow a : Flow.td_flow (td_flow_job j) = Some a -> live (flows t) a }.

Lemma copy_keeps fa j : so (o (copy_opts fa j)) = so (o j) /\ v_job (o (copy_opts fa j)) = (1, false, false, s_bs (o j)) /\
  td_number (copy_opts fa j) = td_number j /\ o_name (copy_opts fa j) = o_name j /\ td_flow_job (copy_opts fa j) = td_flow_job j.
Proof. destruct fa; by destruct j as [[]]. Qed.

(** One pass of the loop that finds a free entry. *)
Definition copy_of (name : cstr) (j c : job_data) (n : nat) (g : Z) : Prop :=
  td_number c = Z.of_nat (S n) /\ td_groupid c = g /\ o_name c = Some (default name (o_name j)) /\ numjobs (o c) = 1.
Lemma copy_pass fuel z i j name fa t : parent i j t -> (thread_number t < length (threads t))%nat -> z - 1 <> 0 ->
  exists t' c, copies (S fuel) z (Slot i) name fa t = copies fuel (z - 1) (Slot i) name fa t' /\ parent i j t' /\
    threads t' = <[thread_number t := Some c]> (threads t) /\ thread_number t' = S (thread_number t) /\
    copy_of name j c (thread_number t) (groupid t) /\ groupid t' = groupid t /\ prev_group_jobs t' = prev_group_jobs t + 1.
Proof.
  intros [E Hb Hr Hf Hl] Hn Hz. cbn [add_copies]. destruct (Z.eqb_spec (z - 1) 0) as [?|_]; [done|]. unfold get_new_job.
  replace (length (threads t) <=? thread_number t)%nat with false by (symmetry; apply Nat.leb_gt; lia).
  rewrite (deref_slot _ _ _ E). cbn [mbind option_bind]. set (n := thread_number t).
  set (t1 := assign_td (Slot n) (j <| td_number := Z.of_nat (S n) |>) t <| thread_number := S n |>).
  assert (T1 : threads t1 = <[n := Some (j <| td_number := Z.of_nat (S n) |>)]> (threads t)) by (by destruct t).
  rewrite (deref_slot n (j <| td_number := Z.of_nat (S n) |>)) by (rewrite T1; apply list_lookup_insert_eq; lia). cbn [mbind option_bind].
  set (c := copy_opts fa (j <| td_number := Z.of_nat (S n) |>)). destruct (copy_keeps fa (j <| td_number := Z.of_nat (S n) |>)) as (C1 & C2 & C3 & C4 & C5). fold c in C1, C2, C3, C4, C5.
  set (t2 := assign_td (Slot n) c t1).
  assert (A : threads t2 = <[n := Some c]> (threads t) /\ thread_number t2 = S n /\ flows t2 = flows t /\ groupid t2 = groupid t /\ prev_group_jobs t2 = prev_group_jobs t).
  { split_and!; try (by destruct t). subst t2. rewrite assign_threads, T1. apply list_insert_insert_eq. }
  clearbody t2. destruct A as (A1 & A2 & A3 & A4 & A5).
  destruct (add_one_ok loads syslet pipeio enf rnd smalloc Hload Hrnd t2 n c name) as (fa' & c' & t' & -> & [B1 B2 B3 B4 B5 B6 B7 [B8 B9] [B10 B11] B12]).
  { rewrite A1. apply list_lookup_insert_eq. lia. }
  { apply (rates_fine_ext (o j)); [by rewrite C1; destruct j|unfold final_bs; rewrite C1|done].
    assert (s_bs (o c) = s_bs (o j)) as -> by (unfold v_job in C2; destruct j; cbn in *; congruence). by destruct j. }
  { by rewrite A3. }
  cbn [mbind option_bind]. rewrite A1, list_insert_insert_eq in B1.
  assert (S1 : starts c t2 = false) by (unfold starts; unfold v_job in C2; injection C2 as _ -> -> _; done).
  rewrite S1 in B10, B12. exists t', c'. split; [done|]. split.
  { split; [rewrite B1, list_lookup_insert_ne by lia; done|lia|done|done|]. intros a Ha. apply B4. rewrite A3. by apply Hl. }
  split_and!; try congruence. split_and!; try congruence.
  - rewrite B8, C3. by destruct j.
  - rewrite B9, C4. by destruct j.
  - unfold v_job in B7, C2. congruence.
Qed.

(** The copies that fit. *)
Lemma copies_fit m : forall fuel i j name fa t, parent i j t -> (m <= fuel)%nat -> (thread_number t + m <= length (threads t))%nat ->
  exists t', copies fuel (Z.of_nat (S m)) (Slot i) name fa t = Some (0, t') /\ (thread_number t' = thread_number t + m)%nat /\
    length (threads t') = length (threads t) /\ groupid t' = groupid t /\ prev_group_jobs t' = prev_group_jobs t + Z.of_nat m /\
    (forall k, ~ (thread_number t <= k < thread_number t + m)%nat -> threads t' !! k = threads t !! k) /\
    (forall k, (thread_number t <= k < thread_number t + m)%nat -> exists c, threads t' !! k = Some (Some c) /\ copy_of name j c k (groupid t)).
Proof.
  induction m as [|m IH]; intros fuel i j name fa t Hp Hm Hn.
  - exists t. destruct fuel; cbn; split_and!; try done; try lia; intros; lia.
  - destruct fuel as [|fuel]; [lia|].
    destruct (copy_pass fuel (Z.of_nat (S (S m))) i j name fa t Hp) as (t1 & c & -> & Hp1 & T1 & N1 & Hc & G1 & P1); [lia|lia|].
    replace (Z.of_nat (S (S m)) - 1) with (Z.of_nat (S m)) by lia.
    destruct (IH fuel i j name fa t1 Hp1) as (t' & -> & N' & L' & G' & P' & K' & C'); [lia|rewrite T1, length_insert; lia|].
    exists t'. rewrite T1 in K', L'. rewrite length_insert in L'. split_and!; try done; try lia; try congruence.
    + intros k Hk. rewrite K' by lia. apply list_lookup_insert_ne. lia.
    + intros k Hk. destruct (decide (k = thread_number t)) as [->|Hne].
      * exists c. split; [|done]. rewrite K' by lia. apply list_lookup_insert_eq. lia.
      * destruct (C' k) as (d & Hd & Hcd); [lia|]. exists d. by rewrite <- G1.
Qed.

(** The table fills up. *)
Lemma flow_exit_live fj fl : (forall a, Flow.td_flow fj = Some a -> live fl a) -> exists r, Flow.flow_exit_job fj fl = Some r.
Proof.
  intros H. unfold Flow.flow_exit_job. destruct (Flow.td_flow fj) as [a|] eqn:E; [|by eexists]. destruct (H a eq_refl) as [f Hf].
  unfold Flow.flow_put. rewrite Hf. cbn. by eexists.
Qed.
Lemma put_parent i j t : parent i j t -> exists t', put_job (Slot i) t = Some t'.
Proof.
  intros [E Hb Hr Hf Hl]. unfold put_job. rewrite (deref_slot _ _ _ E). cbn [mbind option_bind].
  destruct (flow_exit_live _ _ Hl) as [[fj fl] ->]. cbn. by eexists.
Qed.
Lemma copies_full free : forall fuel z i j name fa t, parent i j t -> (length (threads t) - thread_number t = free)%nat -> (free <= fuel)%nat ->
  (z <= 0 \/ Z.of_nat free + 1 < z) -> exists t', copies fuel z (Slot i) name fa t = Some (-1, t').
Proof.
  induction free as [|free IH]; intros fuel z i j name fa t Hp Hl Hf Hz.
  - destruct fuel as [|fuel]; cbn [add_copies]; (destruct (Z.eqb_spec (z - 1) 0); [lia|]); unfold get_new_job;
      (replace (length (threads t) <=? thread_number t)%nat with true by (symmetry; apply Nat.leb_le; lia));
      cbn [mbind option_bind]; destruct (put_parent _ _ _ Hp) as [t' ->]; by exists t'.
  - destruct fuel as [|fuel]; [lia|].
    destruct (copy_pass fuel z i j name fa t Hp) as (t1 & c & -> & Hp1 & T1 & N1 & _); [lia|lia|].
    apply (IH _ _ i j); try done; try lia. rewrite T1, length_insert. lia.
Qed.
End copies.

(** ** [add_job] *)
Section job.
Context (loads : job_data -> bool) (syslet pipeio : job_data -> bool).
Context (enf : cstr -> bool) (rnd : job_data -> bool) (smalloc : Flow.flows -> Z).
Local Abbreviation add := (add_job false 0 loads syslet pipeio enf rnd smalloc).

(** The last entry of the table is a job with its options parsed. *)
Record fresh_job (i : nat) (j : job_data) (t : table) : Prop := {
  f_entry : threads t !! i = Some (Some j);
  f_last : thread_number t = S i;
  f_number : td_number j = Z.of_nat (S i);
  f_rates : rates_fine (o j);
  f_numjobs : 0 <= numjobs (o j) < 2 ^ 31;
  f_fine : flow_fine (flows t);
  f_flow : Flow.td_flow (td_flow_job j) = None }.

Lemma fresh_added i name j t j' t' : fresh_job i j t -> added i name j t j' t' -> parent i j' t' /\ numjobs (o j') = numjobs (o j) /\
  length (threads t') = length (threads t) /\ thread_number t' = S i.
Proof.
  intros [E Hi Hn Hr Hj Hf Hl] [B1 B2 B3 B4 B5 B6 B7 [B8 B9] [B10 B11] B12].
  assert (L : (i < length (threads t))%nat) by (by eapply lookup_lt_Some). rewrite B1, length_insert, B2. split_and!; try done.
  - split; [rewrite B1; by apply list_lookup_insert_eq|lia|done|done|]. intros a Ha. destruct (B5 a Ha) as [?|Hx]; [done|congruence].
  - unfold v_job in B7. congruence.
Qed.

End job.

(** *** A table *)
Definition sample_flow : Flow.job := Flow.Build_job 1 7 1024 0 None.
Definition sample_td : job_data :=
  Build_job_data (sample_opts <| numjobs := 3 |> <| stonewall := true |> <| files_index := 0 |>) None None None false [] 1 0 (0, 0) sample_flow.
Definition sample_table (max_jobs : nat) (j : job_data) : table :=
  Build_table (Some j :: replicate (pred max_jobs) None) 1 0 0 0 0 sample_td Flow.flow_init.
Definition run_add (t : table) := add_job false 0 (fun _ => true) (fun _ => false) (fun _ => false) (fun _ => false) (fun _ => true) (fun _ => 64) (Slot 0) $"job" t.
Lemma sample_fresh m : fresh_job 0 sample_td (sample_table (S m) sample_td).
Proof.
  split; [done|done|done| |cbn; lia| |done].
  - split; [reflexivity|]. split; [reflexivity|]. exists (0, 0). reflexivity.
  - intros a Ha. by apply not_elem_of_nil in Ha.
Defined.

(** ** Errors *)

(** A job whose copies do not fit is taken out, the copies are not: an entry that is
    counted is empty, and one that is not counted is in use. *)
Lemma full_table_keeps_copies : exists t', run_add (sample_table 2 sample_td) = Some (-1, t') /\ (thread_number t' = 1)%nat /\
  threads t' !! 0%nat = Some None /\ exists c, threads t' !! 1%nat = Some (Some c).
Proof. eexists. split; [vm_compute; reflexivity|]. split_and!; [done|done|]. eexists. done. Qed.

(** Two rates that exclude each other, and a time limit that is missing: [fixup_options]
    accepts the job and rejects its copy.  The copy has the flow of the job and gives it
    back without having taken it; the job then gives back a flow that is freed. *)
Definition forgotten : job_data :=
  sample_td <| o ::= fun s => s <| so := (so s) <| rate := (1, 1) |> <| rate_iops := (1, 1) |> <| time_based := true |> |> |>.
Lemma rejected_copy_frees_flow : run_add (sample_table 4 forgotten) = None /\
  exists t', run_add (sample_table 4 (forgotten <| td_flow_job := Flow.Build_job 0 0 0 0 None |>)) = Some (-1, t').
Proof. split; [vm_compute; reflexivity|]. eexists. vm_compute. reflexivity. Qed.

(** ** Job files and the table *)

(** The entries that are counted are jobs, with their numbers. *)
Definition numbered (t : table) (k : nat) : Prop := exists c, threads t !! k = Some (Some c) /\ td_number c = Z.of_nat (S k).
Definition table_ok (t : table) : Prop := forall k, (k < thread_number t)%nat -> numbered t k.

Section files.
Context (dump : bool) (wf : Z) (loads : job_data -> bool) (syslet pipeio : job_data -> bool).
Context (enf : cstr -> bool) (rnd : job_data -> bool) (smalloc : Flow.flows -> Z).
(** [fio_options_parse] on a job; it does not set the number of the job. *)
Context (parse : job_data -> list cstr -> Z * job_data).
Context (Hparse : forall j os, td_number (snd (parse j os)) = td_number j).
Local Abbreviation add1 := (add_one wf loads syslet pipeio enf rnd smalloc).
Local Abbreviation copies := (add_copies wf loads syslet pipeio enf rnd smalloc).
Local Abbreviation add := (add_job dump wf loads syslet pipeio enf rnd smalloc).

(** The table as the parser of job files uses it; [None] after a use of memory that is
    not there. *)
#[local] Instance job_table : JobFile.JobTable (option table) td_ptr := {
  new_job g st := match t ← st; get_new_job g Def t with Some (p, t) => (p, Some t) | None => (None, None) end;
  set_stonewall p st := t ← st; j ← deref p t; Some (assign_td p (j <| o ::= fun s => s <| stonewall := true |> |>) t);
  options_parse p os st :=
    match (t ← st; j ← deref p t; Some (t, parse j os)) with
    | Some (t, (ret, j)) => (ret, Some (assign_td p j t))
    | None => (1, None)
    end;
  add_job p name st := match t ← st; add p name t with Some (r, t) => (r, Some t) | None => (1, None) end;
  put_job p st := t ← st; put_job p t }.

(** An entry changes, and keeps its number. *)
Definition changes (i : nat) (t t' : table) : Prop :=
  thread_number t' = thread_number t /\ exists j j', threads t !! i = Some (Some j) /\ threads t' = <[i := Some j']> (threads t) /\ td_number j' = td_number j.
Lemma changes_numbered i t t' k : changes i t t' -> numbered t k -> numbered t' k.
Proof.
  intros (_ & j & j' & E & T & N) (c & Hc & Nc). unfold numbered. rewrite T. destruct (decide (i = k)) as [->|].
  - exists j'. split; [apply list_lookup_insert_eq; by eapply lookup_lt_Some|]. rewrite N. congruence.
  - exists c. split; [|done]. by rewrite list_lookup_insert_ne.
Qed.
Lemma changes_assign i j j' t : threads t !! i = Some (Some j) -> td_number j' = td_number j -> changes i t (assign_td (Slot i) j' t).
Proof. intros E N. split; [by destruct t|]. exists j, j'. split; [done|]. split; [by destruct t|done]. Qed.
Lemma changes_trans i t t1 t2 : changes i t t1 -> changes i t1 t2 -> changes i t t2.
Proof.
  intros (N1 & j & j1 & E & T1 & M1) (N2 & j1' & j2 & E1 & T2 & M2). split; [congruence|]. exists j, j2. split; [done|].
  rewrite T1, list_lookup_insert_eq in E1 by (by eapply lookup_lt_Some). injection E1 as <-.
  split; [by rewrite T2, T1, list_insert_insert_eq|congruence].
Qed.
Lemma changes_ext i t t1 t1' : threads t1' = threads t1 -> thread_number t1' = thread_number t1 -> changes i t t1 -> changes i t t1'.
Proof. intros E N (H1 & H2). split; [congruence|]. by rewrite E. Qed.
Lemma changes_refl i j t : threads t !! i = Some (Some j) -> changes i t t.
Proof. intros E. split; [done|]. exists j, j. split; [done|]. split; [by rewrite list_insert_id|done]. Qed.

Lemma deref_inv i t j : deref (Slot i) t = Some j -> threads t !! i = Some (Some j).
Proof. unfold deref. destruct (threads t !! i) as [[x|]|]; cbn; congruence. Qed.
Lemma add_one_changes i name t r t' : add1 (Slot i) name t = Some (r, t') -> changes i t t'.
Proof.
  unfold add_one. destruct (deref (Slot i) t) as [j|] eqn:Ed; [|done]. apply deref_inv in Ed. cbn [mbind option_bind].
  destruct (loads j); cbn [negb]; [|intros [= _ <-]; by eapply changes_refl].
  set (t1 := if use_thread j then _ else _). assert (T1 : threads t1 = threads t /\ thread_number t1 = thread_number t) by (subst t1; destruct (use_thread j); by destruct t).
  clearbody t1. destruct T1 as [T1 T2]. pose proof (alloc_files_keeps enf name j) as K. destruct (alloc_files enf name j) as [j1 fa]. cbn [fst] in K.
  assert (Nj : td_number j1 = td_number j) by (unfold v_td in K; congruence). clear K.
  destruct (fixup_options wf (syslet j1) (pipeio j1) (o j1)) as [ret s].
  assert (C : forall j2, td_number j2 = td_number j1 -> changes i t (assign_td (Slot i) j2 t1)).
  { intros j2 N2. split; [destruct t1; cbn in *; congruence|]. exists j, j2. split; [done|]. split; [rewrite assign_threads; by rewrite T1|congruence]. }
  destruct (ret =? 0); cbn [negb]; [|intros [= _ <-]; apply C; by destruct j1].
  destruct (Flow.flow_init_job _ _ _) as [[fj fl]|]; [|done]. cbn [mbind option_bind].
  set (j2 := j1 <| o := s |> <| td_flow_job := fj |>). set (t2 := assign_td (Slot i) j2 t1 <| flows := fl |>).
  assert (C2 : changes i t t2).
  { apply (changes_ext i t (assign_td (Slot i) j2 t1)); [by destruct t1|by destruct t1|]. apply C. by destruct j1. }
  assert (E2 : threads t2 !! i = Some (Some j2)).
  { change (threads (assign_td (Slot i) j2 t1) !! i = Some (Some j2)). rewrite assign_threads, T1.
    apply list_lookup_insert_eq. by eapply lookup_lt_Some. }
  clearbody t2. destruct (join_group_ok i j2 t2 E2) as (t3 & -> & G1 & G2 & _). cbn [mbind option_bind].
  assert (C3 : changes i t2 t3) by (split; [done|]; exists j2, (j2 <| td_groupid := groupid t3 |>); split; [done|]; split; [done|by destruct j1]).
  assert (E3 : threads t3 !! i = Some (Some (j2 <| td_groupid := groupid t3 |>))) by (rewrite G1; apply list_lookup_insert_eq; by eapply lookup_lt_Some).
  rewrite (deref_slot _ _ _ E3). cbn [mbind option_bind]. pose proof (changes_trans _ _ _ _ C2 C3) as C4.
  destruct (rnd _); cbn [negb]; [|by intros [= _ <-]]. destruct (setup_rate _); [|by intros [= _ <-]]. intros [= _ <-].
  eapply changes_trans; [exact C4|]. apply (changes_assign i _ _ t3 E3). by destruct j1.
Qed.

Lemma get_new_ok parent t q t' : get_new_job false parent t = Some (Some q, t') -> table_ok t -> q = Slot (thread_number t) /\ table_ok t'.
Proof.
  unfold get_new_job. destruct (Nat.leb_spec (length (threads t)) (thread_number t)) as [?|L]; [done|].
  destruct (deref parent t) as [j|]; [|done]. cbn [mbind option_bind]. intros [= <- <-] Ht. split; [done|].
  intros k Hk. replace (thread_number _) with (S (thread_number t)) in Hk by (by destruct t). unfold numbered.
  replace (threads _) with (<[thread_number t := Some (j <| td_number := Z.of_nat (S (thread_number t)) |>)]> (threads t)) by (by destruct t).
  destruct (decide (thread_number t = k)) as [<-|].
  - eexists. split; [by apply list_lookup_insert_eq|]. by destruct j.
  - destruct (Ht k) as (c & Hc & Nc); [lia|]. exists c. split; [|done]. by rewrite list_lookup_insert_ne.
Qed.
Lemma changes_ok i t t' : changes i t t' -> table_ok t -> table_ok t'.
Proof. intros Hc Ht k Hk. eapply changes_numbered; [done|]. apply Ht. by destruct Hc as [<- _]. Qed.

Lemma copies_ok fuel : forall z p name fa t t', copies fuel z p name fa t = Some (0, t') -> table_ok t -> table_ok t'.
Proof.
  induction fuel as [|fuel IH]; intros z p name fa t t'; cbn [add_copies]; (destruct (z - 1 =? 0); [intros [= <-]; done|]);
    destruct (get_new_job false p t) as [[q t1]|] eqn:Eg; try done; cbn [mbind option_bind].
  - destruct q; [done|]. destruct (put_job p t1); cbn; done.
  - destruct q as [q|]; [|destruct (put_job p t1); cbn; done]. destruct (deref q t1) as [j|] eqn:Ed; [|done]. cbn [mbind option_bind].
    destruct (add1 q name (assign_td q (copy_opts fa j) t1)) as [[r t2]|] eqn:Ea; [|done]. cbn [mbind option_bind].
    intros H Ht. destruct (get_new_ok _ _ _ _ Eg Ht) as [-> Ht1].
    assert (Ht2 : table_ok t2).
    { eapply changes_ok; [eapply changes_trans; [apply (changes_assign _ j (copy_opts fa j)); [by apply deref_inv|apply copy_keeps]|by eapply add_one_changes]|done]. }
    destruct r; [by eapply IH|]. destruct (put_job _ t2); [|done]. cbn [mbind option_bind] in H. by destruct (put_job p _).
Qed.

Lemma put_last_ok i t t' : thread_number t = S i -> put_job (Slot i) t = Some t' -> table_ok t -> table_ok t'.
Proof.
  intros Hi. unfold put_job. destruct (deref (Slot i) t) as [j|] eqn:Ed; [|done]. apply deref_inv in Ed. cbn [mbind option_bind].
  destruct (Flow.flow_exit_job _ _) as [[fj fl]|]; [|done]. cbn [mbind option_bind]. intros [= <-] Ht. destruct (Ht i) as (c & Hc & Nc); [lia|].
  rewrite Ed in Hc. injection Hc as <-. intros k Hk. replace (thread_number _) with (pred (thread_number t)) in Hk by (by destruct t). unfold numbered.
  replace (threads _) with (<[Z.to_nat (td_number j - 1) := @None job_data]> (threads t)) by (by destruct t).
  rewrite list_lookup_insert_ne by lia. apply Ht. lia.
Qed.
Lemma add_ok i name t t' : thread_number t = S i -> add (Slot i) name t = Some (0, t') -> table_ok t -> table_ok t'.
Proof.
  intros Hi. unfold add_job. destruct dump.
  - destruct (put_job (Slot i) t) as [t1|] eqn:E; [|done]. cbn [mbind option_bind]. intros [= <-]. by eapply put_last_ok.
  - destruct (add1 (Slot i) name t) as [[r t1]|] eqn:E; [|done]. cbn [mbind option_bind]. destruct r as [fa|]; [|by destruct (put_job _ t1)].
    destruct (deref (Slot i) t1); [|done]. cbn [mbind option_bind]. intros H Ht. eapply copies_ok; [exact H|]. eapply changes_ok; [|exact Ht]. by eapply add_one_changes.
Qed.

Definition st_ok (st : option table) : Prop := forall t, st = Some t -> table_ok t.
Lemma st_some t : st_ok (Some t) -> table_ok t.
Proof. intros H. by apply H. Qed.
Lemma ok_st t : table_ok t -> st_ok (Some t).
Proof. by intros H t' [= <-]. Qed.
(** The steps of a section on its own entry. *)
Lemma stonewall_changes i t : (exists j, threads t !! i = Some (Some j)) -> exists t', JobFile.set_stonewall (Slot i) (Some t) = Some t' /\ changes i t t'.
Proof.
  intros [j E]. cbn [JobFile.set_stonewall job_table mbind option_bind]. rewrite (deref_slot _ _ _ E). cbn [mbind option_bind].
  eexists. split; [reflexivity|]. apply (changes_assign i j); [done|by destruct j].
Qed.
Lemma parse_changes i os t : (exists j, threads t !! i = Some (Some j)) -> exists ret t', JobFile.options_parse (Slot i) os (Some t) = (ret, Some t') /\ changes i t t'.
Proof.
  intros [j E]. cbn [JobFile.options_parse job_table mbind option_bind]. rewrite (deref_slot _ _ _ E). cbn [mbind option_bind].
  pose proof (Hparse j os) as N. destruct (parse j os) as [ret j']. cbn [snd] in N. eexists _, _. split; [reflexivity|]. by apply (changes_assign i j).
Qed.
Lemma changes_entry i t t' : changes i t t' -> (exists j, threads t' !! i = Some (Some j)) /\ thread_number t' = thread_number t.
Proof. intros (N & j & j' & E & T & _). split; [|done]. exists j'. rewrite T. apply list_lookup_insert_eq. by eapply lookup_lt_Some. Qed.

Lemma section_keeps name opts sw st st' : st_ok st -> JobFile.do_section name opts sw st = (0, st') -> st_ok st'.
Proof.
  intros Hst. unfold JobFile.do_section. destruct st as [t0|]; [|done]. apply st_some in Hst.
  replace (JobFile.new_job (JobFile.is_global name) (Some t0)) with
    (match get_new_job (JobFile.is_global name) Def t0 with Some (p, t) => (p, Some t) | None => (None, None) end) by done.
  destruct (JobFile.is_global name); cbn [negb andb].
  - cbn [get_new_job]. cbn [JobFile.options_parse job_table mbind option_bind deref]. destruct (parse (def_thread t0) opts) as [ret j]. cbn [assign_td].
    destruct (Z.eqb_spec ret 0); [|intros [= -> _]; done]. cbn. intros [= <-]. apply ok_st. intros k Hk. apply (Hst k). by destruct t0.
  - destruct (get_new_job false Def t0) as [[[q|] t1]|] eqn:Eg; try done. destruct (get_new_ok _ _ _ _ Eg Hst) as [-> Ht1].
    assert (N1 : thread_number t1 = S (thread_number t0)).
    { unfold get_new_job in Eg. destruct (_ <=? _)%nat; [done|]. cbn in Eg. injection Eg as <-. by destruct t0. }
    set (i := thread_number t0) in *. assert (X1 : exists j, threads t1 !! i = Some (Some j)) by (destruct (Ht1 i) as (c & ? & _); [lia|eauto]).
    assert (S2 : exists t2, (if sw then JobFile.set_stonewall (Slot i) (Some t1) else Some t1) = Some t2 /\ changes i t1 t2).
    { destruct sw; [by apply stonewall_changes|]. exists t1. split; [done|]. destruct X1 as [j ?]. by eapply changes_refl. }
    destruct S2 as (t2 & -> & C2). destruct (changes_entry _ _ _ C2) as [X2 N2].
    destruct (parse_changes i opts t2 X2) as (ret & t3 & -> & C3). destruct (changes_entry _ _ _ C3) as [X3 N3].
    destruct (Z.eqb_spec ret 0); [|intros [= -> _]; done]. cbn [JobFile.add_job job_table mbind option_bind].
    destruct (add (Slot i) name t3) as [[r t4]|] eqn:Ea; [|done]. intros [= -> <-]. apply ok_st.
    apply (add_ok i name t3 t4); [congruence|done|]. eapply changes_ok; [exact C3|]. by eapply changes_ok.
Qed.

(** C26: After a job file that is accepted the entries of the table that are counted are
    jobs, each with the number of its entry. *)
Theorem job_file_fills_table sections is_buf text sw t t' : table_ok t ->
  JobFile.parse_jobs_ini sections is_buf text sw (Some t) = Some (0, Some t') -> table_ok t'.
Proof.
  intros Ht H. apply st_some. unfold JobFile.parse_jobs_ini in H. refine (JobFile.loop_invariant sections st_ok _ _ _ _ _ _ _ _ _ H); [|by apply ok_st].
  intros. by eapply section_keeps.
Qed.
End files.

(** A file with two sections, one of them with a copy; the option "copy" stands for
    [numjobs=2]. *)
Definition toy_parse (j : job_data) (os : list cstr) : Z * job_data :=
  (0, j <| o ::= fun s => s <| numjobs := if bool_decide ($"copy" ∈ os) then 2 else 1 |> |>).
Definition toy_file : cstr := $"[a]" ++ [10] ++ $"copy" ++ [10] ++ $"[b]".
Definition toy_table : table := Build_table (replicate 4 None) 0 0 0 0 0 (sample_td <| td_number := 0 |>) Flow.flow_init.
Definition toy_run := JobFile.parse_jobs_ini
  (JobTable0 := job_table false 0 (fun _ => true) (fun _ => false) (fun _ => false) (fun _ => false) (fun _ => true) (fun _ => 64) toy_parse)
  [] true toy_file false (Some toy_table).
Lemma job_file_fills_table_witness : exists t', toy_run = Some (0, Some t') /\ (thread_number t' = 3)%nat /\ table_ok t'.
Proof.
  eexists. split; [vm_compute; reflexivity|]. split; [reflexivity|].
  apply (job_file_fills_table false 0 (fun _ => true) (fun _ => false) (fun _ => false) (fun _ => false) (fun _ => true) (fun _ => 64) toy_parse
    (fun j os => match j with Build_job_data _ _ _ _ _ _ _ _ _ _ => eq_refl end) [] true toy_file false toy_table); [intros k Hk; cbn in Hk; lia|].
  vm_compute. reflexivity.
Defined.
End Jobs.
