(* ===== verification/Net.v ===== *)
(** * The protocol between client and server

    [src/server.c], [src/server.h] and the start of [src/client.c]: the commands on the
    wire, their fragments and checksums, the loops around [send] and [recv], and the
    command lines in a JOBLINE command.  The machine is little endian, as the wire is. *)
From S2P Require Import Prelude Rand Crc Verify CString Parse.
From stdpp Require Import strings list.
Local Open Scope Z_scope.
Local Open Scope word_scope.
Local Open Scope cstr_scope.

Module Net.
Import CString Crc.
Import Rand(store).
Import Verify(get, put, le_bytes, length_le_bytes, le_val_le_bytes, le_bytes_bytes).
Import Parse(c_string).

(** ** Commands *)
Definition FIO_SERVER_VER : Z := 6.
Definition FIO_SERVER_MAX_PDU : nat := 1024.
Definition FIO_NET_CMD_JOB : Z := 3.
Definition FIO_NET_CMD_JOBLINE : Z := 4.
Definition FIO_NET_CMD_TEXT : Z := 5.
Definition FIO_NET_CMD_F_MORE : Z := 1.

Record fio_net_cmd := {
  version : Z; opcode : Z; cmd_flags : Z; tag : Z; pdu_len : Z; cmd_crc16 : Z; pdu_crc16 : Z;
  payload : list Z }.
#[export] Instance eta_fio_net_cmd : Eta fio_net_cmd := fun c =>
  Build_fio_net_cmd (version c) (opcode c) (cmd_flags c) (tag c) (pdu_len c) (cmd_crc16 c) (pdu_crc16 c) (payload c).

(** The structure in memory: the members before the checksums, the checksums. *)
Definition crc_part (c : fio_net_cmd) : list Z :=
  le_bytes 2 (version c) ++ le_bytes 2 (opcode c) ++ le_bytes 4 (cmd_flags c) ++ le_bytes 8 (tag c) ++ le_bytes 4 (pdu_len c).
Definition cmd_bytes (c : fio_net_cmd) : list Z :=
  crc_part c ++ le_bytes 2 (cmd_crc16 c) ++ le_bytes 2 (pdu_crc16 c).
Definition SIZEOF_CMD : nat := 24.
Definition FIO_NET_CMD_CRC_SZ : nat := 20.
Definition cmd_of_bytes (m : list Z) : fio_net_cmd :=
  Build_fio_net_cmd (get m 0 2) (get m 2 2) (get m 4 4) (get m 8 8) (get m 16 4) (get m 20 2) (get m 22 2) [].

Definition fio_init_net_cmd (op : Z) (pdu : option (list Z)) (tg : Z) : fio_net_cmd :=
  match pdu with
  | Some p => Build_fio_net_cmd FIO_SERVER_VER op 0 tg (Z.of_nat (length p)) 0 0 p
  | None => Build_fio_net_cmd FIO_SERVER_VER op 0 tg 0 0 0 []
  end.
Definition fio_net_cmd_crc (c : fio_net_cmd) : fio_net_cmd :=
  let c := c <| cmd_crc16 := u16 (fio_crc16 (crc_part c)) |> in
  if negb (pdu_len c =? 0) then c <| pdu_crc16 := u16 (fio_crc16 (payload c)) |> else c.

(** ** Sockets *)

(** What a call of [send] or [recv] answers: up to [n + 1] bytes are moved, the other
    side is closed, [EAGAIN] or [EINTR], another error; and [exit_backend] after it. *)
Inductive answer := Moved (n : nat) (exit_backend : bool) | Closed | Retry (exit_backend : bool) | Broken.

(** The loop, on [len] bytes of which [avail] can be moved: how many were moved, and
    the answers that are left.  [None]: the last call has not returned. *)
Fixpoint move_loop (ans : list answer) (len avail : nat) : option (nat * list answer) :=
  match ans with
  | [] => None
  | a :: ans =>
      match a with
      | Moved n stop =>
          let k := Nat.min (S n) (Nat.min len avail) in
          if (k =? 0)%nat then Some (0%nat, ans)
          else if (len - k =? 0)%nat then Some (k, ans)
          else if stop then Some (k, ans)
          else '(m, ans) ← move_loop ans (len - k) (avail - k); Some ((k + m)%nat, ans)
      | Closed | Broken => Some (0%nat, ans)
      | Retry stop => if stop then Some (0%nat, ans) else move_loop ans len avail
      end
  end.

(** The result, the answers that are left, and the bytes on the wire. *)
Definition fio_send_data (p : list Z) (ans : list answer) (wire : list Z) : option (Z * list answer * list Z) :=
  if (SIZEOF_CMD + FIO_SERVER_MAX_PDU <? length p)%nat then None
  else
    '(m, ans) ← move_loop ans (length p) (length p);
    Some (if (m =? length p)%nat then 0 else 1, ans, wire ++ take m p).
(** The result, what was received, the answers and the bytes that are left. *)
Definition fio_recv_data (len : nat) (ans : list answer) (wire : list Z) : option (Z * list Z * list answer * list Z) :=
  '(m, ans) ← move_loop ans len (length wire);
  Some (if (m =? len)%nat then 0 else -1, take m wire, ans, drop m wire).

(** ** Sending *)
Fixpoint send_loop (fuel : nat) (op : Z) (buf : list Z) (tg : Z) (ans : list answer) (wire : list Z)
    : option (Z * list answer * list Z) :=
  match fuel with
  | O => None
  | S fuel =>
      let this := take FIO_SERVER_MAX_PDU buf in
      let c := fio_init_net_cmd op (Some this) tg in
      let c := if (length this <? length buf)%nat then c <| cmd_flags := FIO_NET_CMD_F_MORE |> else c in
      let c := fio_net_cmd_crc c in
      '(ret, ans, wire) ← fio_send_data (cmd_bytes c ++ payload c) ans wire;
      let rest := drop FIO_SERVER_MAX_PDU buf in
      if (ret =? 0) && negb (length rest =? 0)%nat then send_loop fuel op rest tg ans wire else Some (ret, ans, wire)
  end.
Definition fio_net_send_cmd (op : Z) (buf : list Z) (tg : Z) (ans : list answer) (wire : list Z) :=
  send_loop (S (length buf)) op buf tg ans wire.
Definition fio_net_send_simple_stack_cmd (op tg : Z) (ans : list answer) (wire : list Z) :=
  fio_send_data (cmd_bytes (fio_net_cmd_crc (fio_init_net_cmd op None tg))) ans wire.

(** ** Receiving *)
Definition verify_convert_cmd (m : list Z) : option fio_net_cmd :=
  let c := cmd_of_bytes m in
  if negb (u16 (fio_crc16 (take FIO_NET_CMD_CRC_SZ m)) =? cmd_crc16 c) then None
  else if negb (version c =? FIO_SERVER_VER) then None
  else if pdu_len c >? Z.of_nat FIO_SERVER_MAX_PDU then None
  else Some c.

(** The end of [fio_net_recv_cmd]: text gets a NUL at [pdu_len]; the buffer has one
    byte more than the payload. *)
Definition finish_cmd (c : fio_net_cmd) : option fio_net_cmd :=
  let c := c <| cmd_flags := c .(cmd_flags) .& notw 32 FIO_NET_CMD_F_MORE |> in
  if negb (pdu_len c =? 0) && ((opcode c =? FIO_NET_CMD_TEXT) || (opcode c =? FIO_NET_CMD_JOB)) then
    if pdu_len c <=? Z.of_nat (length (payload c))
    then Some (c <| payload := <[Z.to_nat (pdu_len c) := 0]> (payload c ++ [0]) |>) else None
  else Some c.

(** [cmdret] is [None] before the first fragment.  The outer [None] is an access outside
    the buffer, or a call that has not returned. *)
Fixpoint recv_loop (fuel : nat) (cmdret : option fio_net_cmd) (ans : list answer) (wire : list Z)
    : option (option fio_net_cmd * list answer * list Z) :=
  match fuel with
  | O => None
  | S fuel =>
      '(ret, m, ans, wire) ← fio_recv_data SIZEOF_CMD ans wire;
      if negb (ret =? 0) then Some (None, ans, wire)
      else match verify_convert_cmd m with
      | None => Some (None, ans, wire)
      | Some cmd =>
          if (match cmdret with Some r => negb (opcode r =? opcode cmd) | None => false end) then Some (None, ans, wire)
          else
            let r := default cmd cmdret in
            if pdu_len cmd =? 0 then r ← finish_cmd r; Some (Some r, ans, wire)
            else
              '(ret, pdu, ans, wire) ← fio_recv_data (Z.to_nat (pdu_len cmd)) ans wire;
              if negb (ret =? 0) then Some (None, ans, wire)
              else if negb (u16 (fio_crc16 pdu) =? pdu_crc16 cmd) then Some (None, ans, wire)
              else
                let r := r <| payload ::= fun p => p ++ pdu |> in
                let r := match cmdret with Some _ => r <| pdu_len ::= fun l => u32 (l + pdu_len cmd) |> | None => r end in
                if cmd_flags cmd .& FIO_NET_CMD_F_MORE =? 0 then r ← finish_cmd r; Some (Some r, ans, wire)
                else recv_loop fuel (Some r) ans wire
      end
  end.
Definition fio_net_recv_cmd (ans : list answer) (wire : list Z) := recv_loop (S (length wire)) None ans wire.

(** ** Command lines *)

(** [send_client_cmd_line]: the lines with their lengths; a length is 16 bits wide, but
    the space is reserved for the whole of it. *)
Fixpoint put_lines (pdu : list Z) (offset : nat) (argv : list cstr) : option (list Z) :=
  match argv with
  | [] => Some pdu
  | a :: argv =>
      let text := a ++ [0] in
      if (length pdu <? offset + 2 + length text)%nat then None
      else
        let pdu := store pdu (offset + 2)%nat text in
        let arg_len := u16 (Z.of_nat (length text)) in
        put_lines (put pdu offset 2 arg_len) (offset + 2 + Z.to_nat arg_len) argv
  end.
Definition cmd_line_pdu (garbage : list Z) (argv : list cstr) : option (list Z) :=
  let mem := (sum_list_with (fun a => S (length a)) argv + 2 + 2 * length argv)%nat in
  let pdu := take mem (garbage ++ replicate mem 0) in
  pdu ← put_lines pdu 2 argv;
  Some (put pdu 0 2 (u16 (Z.of_nat (length argv)))).

(** The arguments [handle_jobline_cmd] finds; [None]: outside the payload. *)
Fixpoint get_lines (n : nat) (pdu : list Z) (offset : nat) : option (list cstr) :=
  match n with
  | O => Some []
  | S n =>
      if (length pdu <? offset + 2)%nat then None
      else
        i ← strchr (drop (offset + 2) pdu) 0;
        argv ← get_lines n pdu (offset + 2 + Z.to_nat (get pdu offset 2));
        Some (take i (drop (offset + 2) pdu) :: argv)
  end.
Definition jobline_args (pdu : list Z) : option (list cstr) :=
  if (length pdu <? 2)%nat then None else get_lines (Z.to_nat (get pdu 0 2)) pdu 2.

(** * Properties *)

(** ** Commands in memory *)
Lemma get_in a n x b : get (a ++ le_bytes n x ++ b) (length a) n = wrap (8 * n) x.
Proof.
  unfold get, Verify.sub. rewrite drop_app_length. rewrite <- (length_le_bytes n x) at 1. rewrite take_app_length. apply le_val_le_bytes.
Qed.
Lemma get_at a n x b off m : m = a ++ le_bytes n x ++ b -> off = length a -> is_word (8 * n) x -> get m off n = x.
Proof. intros -> -> Hx. rewrite get_in. by apply wrap_small. Qed.

Record cmd_wf (c : fio_net_cmd) : Prop := {
  wf_version : is_word 16 (version c); wf_opcode : is_word 16 (opcode c); wf_flags : is_word 32 (cmd_flags c);
  wf_tag : is_word 64 (tag c); wf_len : is_word 32 (pdu_len c); wf_crc : is_word 16 (cmd_crc16 c);
  wf_pcrc : is_word 16 (pdu_crc16 c) }.
Lemma crc_part_length c : length (crc_part c) = FIO_NET_CMD_CRC_SZ.
Proof. unfold crc_part. rewrite !length_app, !length_le_bytes. done. Qed.
Lemma cmd_bytes_length c : length (cmd_bytes c) = SIZEOF_CMD.
Proof. unfold cmd_bytes. rewrite !length_app, crc_part_length, !length_le_bytes. done. Qed.
Lemma crc_part_bytes c : bytes (crc_part c).
Proof. unfold crc_part. repeat (apply Forall_app; split); apply le_bytes_bytes. Qed.
Lemma cmd_of_bytes_of c : cmd_wf c -> cmd_of_bytes (cmd_bytes c) = c <| payload := [] |>.
Proof.
  intros [H1 H2 H3 H4 H5 H6 H7]. unfold cmd_of_bytes, cmd_bytes, crc_part. destruct c as [v op fl tg len c1 c2 p]. cbn [version opcode cmd_flags tag pdu_len cmd_crc16 pdu_crc16 payload upd eta_fio_net_cmd] in *.
  pose proof length_le_bytes as L.
  f_equal.
  - eapply (get_at []); [by rewrite <- !app_assoc|done|done].
  - eapply (get_at (le_bytes 2 v)); [by rewrite <- !app_assoc|by rewrite L|done].
  - eapply (get_at (le_bytes 2 v ++ le_bytes 2 op)); [by rewrite <- !app_assoc|by rewrite !length_app, !L|done].
  - eapply (get_at (le_bytes 2 v ++ le_bytes 2 op ++ le_bytes 4 fl)); [by rewrite <- !app_assoc|by rewrite !length_app, !L|done].
  - eapply (get_at (le_bytes 2 v ++ le_bytes 2 op ++ le_bytes 4 fl ++ le_bytes 8 tg)); [by rewrite <- !app_assoc|by rewrite !length_app, !L|done].
  - eapply (get_at (le_bytes 2 v ++ le_bytes 2 op ++ le_bytes 4 fl ++ le_bytes 8 tg ++ le_bytes 4 len)); [by rewrite <- !app_assoc|by rewrite !length_app, !L|done].
  - eapply (get_at (le_bytes 2 v ++ le_bytes 2 op ++ le_bytes 4 fl ++ le_bytes 8 tg ++ le_bytes 4 len ++ le_bytes 2 c1) _ _ []); [by rewrite app_nil_r, <- !app_assoc|by rewrite !length_app, !L|done].
Qed.

(** ** Sockets that make progress *)
Definition benign (a : answer) : Prop := match a with Moved _ false | Retry false => True | _ => False end.
Definition moves (ans : list answer) : nat := length (filter (fun a => match a with Moved _ _ => true | _ => false end = true) ans).
(** There are answers to move [n] bytes. *)
Definition progress (ans : list answer) (n : nat) : Prop := Forall benign ans /\ (n <= moves ans)%nat.

Lemma move_all ans : forall len avail k, progress ans (len + k) -> (0 < len <= avail)%nat ->
  exists ans', move_loop ans len avail = Some (len, ans') /\ progress ans' k.
Proof.
  induction ans as [|a ans IH]; intros len avail k [Hb Hm] Hl; [cbn in Hm; lia|]. apply Forall_cons in Hb as [Ha Hb].
  destruct a as [n [] | | [] |]; try done; cbn [move_loop].
  - assert (M : (len + k <= S (moves ans))%nat) by exact Hm. set (q := Nat.min (S n) (Nat.min len avail)).
    destruct (Nat.eqb_spec q 0); [lia|]. destruct (Nat.eqb_spec (len - q) 0).
    + exists ans. replace q with len by lia. split; [done|]. split; [done|lia].
    + destruct (IH (len - q)%nat (avail - q)%nat k) as (ans' & -> & Hp); [split; [done|lia]|lia|].
      cbn [mbind option_bind]. exists ans'. split; [|done]. do 2 f_equal. lia.
  - apply IH; [|done]. split; [done|exact Hm].
Qed.
Lemma send_all p ans wire k : p <> [] -> (length p <= SIZEOF_CMD + FIO_SERVER_MAX_PDU)%nat -> progress ans (length p + k) ->
  exists ans', fio_send_data p ans wire = Some (0, ans', wire ++ p) /\ progress ans' k.
Proof.
  intros Hn Hl Hp. unfold fio_send_data. replace (_ <? length p)%nat with false by (symmetry; apply Nat.ltb_ge; lia).
  destruct (move_all ans (length p) (length p) k Hp) as (ans' & -> & Hp'); [destruct p; [done|cbn; lia]|]. cbn [mbind option_bind].
  exists ans'. rewrite Nat.eqb_refl, take_ge by lia. done.
Qed.
Lemma recv_all p rest ans k : p <> [] -> progress ans (length p + k) ->
  exists ans', fio_recv_data (length p) ans (p ++ rest) = Some (0, p, ans', rest) /\ progress ans' k.
Proof.
  intros Hn Hp. unfold fio_recv_data.
  destruct (move_all ans (length p) (length (p ++ rest)) k Hp) as (ans' & -> & Hp'); [rewrite length_app; destruct p; [done|cbn; lia]|].
  cbn [mbind option_bind]. exists ans'. by rewrite Nat.eqb_refl, take_app_length, drop_app_length.
Qed.

(** ** Fragments *)
Definition fragment (op : Z) (this : list Z) (more : bool) (tg : Z) : fio_net_cmd :=
  let c := fio_init_net_cmd op (Some this) tg in
  fio_net_cmd_crc (if more then c <| cmd_flags := FIO_NET_CMD_F_MORE |> else c).
Fixpoint frames (fuel : nat) (op : Z) (buf : list Z) (tg : Z) : list Z :=
  match fuel with
  | O => []
  | S fuel =>
      let this := take FIO_SERVER_MAX_PDU buf in
      let rest := drop FIO_SERVER_MAX_PDU buf in
      cmd_bytes (fragment op this (length this <? length buf)%nat tg) ++ this ++
        (if (length rest =? 0)%nat then [] else frames fuel op rest tg)
  end.

Lemma fragment_payload op this more tg : payload (fragment op this more tg) = this.
Proof. unfold fragment, fio_net_cmd_crc. destruct more; cbn; by destruct (_ =? 0). Qed.
Lemma take_len (buf : list Z) : (length (take FIO_SERVER_MAX_PDU buf) <= FIO_SERVER_MAX_PDU)%nat.
Proof. rewrite length_take. lia. Qed.

Lemma send_loop_ok fuel : forall op buf tg ans wire k, (length buf < fuel)%nat -> progress ans (length (frames fuel op buf tg) + k) ->
  exists ans', send_loop fuel op buf tg ans wire = Some (0, ans', wire ++ frames fuel op buf tg) /\ progress ans' k.
Proof.
  induction fuel as [|fuel IH]; intros op buf tg ans wire k Hf Hp; [lia|]. cbn [send_loop frames] in *.
  set (this := take FIO_SERVER_MAX_PDU buf) in *. set (rest := drop FIO_SERVER_MAX_PDU buf) in *. pose proof (take_len buf) as Lt. fold this in Lt.
  match goal with |- context [fio_net_cmd_crc ?c] => change (fio_net_cmd_crc c) with (fragment op this (length this <? length buf)%nat tg) end.
  set (c := fragment op this (length this <? length buf)%nat tg) in *. assert (Ec : payload c = this) by apply fragment_payload. rewrite Ec.
  set (tail := if (length rest =? 0)%nat then [] else frames fuel op rest tg) in *.
  rewrite app_assoc, length_app in Hp.
  destruct (send_all (cmd_bytes c ++ this) ans wire (length tail + k)) as (ans1 & -> & Hp1).
  { intros E. apply (f_equal length) in E. rewrite length_app, cmd_bytes_length in E. done. }
  { rewrite length_app, cmd_bytes_length. lia. }
  { by rewrite Nat.add_assoc. }
  cbn [mbind option_bind]. subst tail. destruct (Nat.eqb_spec (length rest) 0) as [E|E]; cbn [negb andb Z.eqb].
  - exists ans1. split; [|done]. by rewrite app_nil_r.
  - destruct (IH op rest tg ans1 (wire ++ cmd_bytes c ++ this) k) as (ans' & -> & Hp'); [|done|].
    { subst rest. rewrite length_drop in *. unfold FIO_SERVER_MAX_PDU in *. lia. }
    exists ans'. split; [|done]. by rewrite <- !app_assoc.
Qed.

(** ** Receiving *)
Section receive.
Context (op tg : Z) (Hop : is_word 16 op) (Htg : is_word 64 tg).
Local Abbreviation frag this more := (fragment op this more tg).

Lemma fragment_fields this more : version (frag this more) = FIO_SERVER_VER /\ opcode (frag this more) = op /\
  cmd_flags (frag this more) = (if more then 1 else 0) /\ tag (frag this more) = tg /\ pdu_len (frag this more) = Z.of_nat (length this) /\
  cmd_crc16 (frag this more) = u16 (fio_crc16 (crc_part (frag this more))) /\
  pdu_crc16 (frag this more) = (if (length this =? 0)%nat then 0 else u16 (fio_crc16 this)).
Proof.
  unfold fragment, fio_net_cmd_crc. destruct more; cbn; (destruct (Z.eqb_spec (Z.of_nat (length this)) 0) as [E|E];
    destruct (Nat.eqb_spec (length this) 0); try lia; cbn; done).
Qed.
Lemma fragment_wf this more : (length this <= FIO_SERVER_MAX_PDU)%nat -> cmd_wf (frag this more).
Proof.
  intros Hl. destruct (fragment_fields this more) as (E1 & E2 & E3 & E4 & E5 & E6 & E7). unfold FIO_SERVER_MAX_PDU in Hl.
  split; rewrite ?E1, ?E2, ?E3, ?E4, ?E5, ?E6, ?E7; try done.
  - by destruct more.
  - unfold is_word. lia.
  - apply wrap_range. lia.
  - destruct (_ =? 0)%nat; [done|apply wrap_range; lia].
Qed.
Lemma verify_fragment this more : (length this <= FIO_SERVER_MAX_PDU)%nat ->
  verify_convert_cmd (cmd_bytes (frag this more)) = Some ((frag this more) <| payload := [] |>).
Proof.
  intros Hl. unfold verify_convert_cmd. rewrite cmd_of_bytes_of by (by apply fragment_wf).
  destruct (fragment_fields this more) as (E1 & E2 & E3 & E4 & E5 & E6 & E7).
  assert (T : take FIO_NET_CMD_CRC_SZ (cmd_bytes (frag this more)) = crc_part (frag this more)).
  { unfold cmd_bytes. rewrite <- (crc_part_length (frag this more)). apply take_app_length. }
  rewrite T. generalize dependent (frag this more). intros c E1 E2 E3 E4 E5 E6 E7 T.
  assert (P : cmd_crc16 (c <| payload := [] |>) = cmd_crc16 c /\ version (c <| payload := [] |>) = version c /\ pdu_len (c <| payload := [] |>) = pdu_len c) by (by destruct c).
  destruct P as (-> & -> & ->). rewrite E1, E5, E6, !Z.eqb_refl. cbn [negb]. destruct (Z.gtb_spec (Z.of_nat (length this)) (Z.of_nat FIO_SERVER_MAX_PDU)); [lia|done].
Qed.

(** The command after one more fragment. *)
Definition glue (cmdret : option fio_net_cmd) (this : list Z) (more : bool) : fio_net_cmd :=
  match cmdret with
  | Some r => r <| payload ::= fun p => p ++ this |> <| pdu_len ::= fun l => u32 (l + Z.of_nat (length this)) |>
  | None => frag this more
  end.
Lemma recv_step fuel cmdret this more rest ans k : (length this <= FIO_SERVER_MAX_PDU)%nat -> this <> [] ->
  (forall r, cmdret = Some r -> opcode r = op) -> progress ans (SIZEOF_CMD + length this + k) ->
  exists ans', progress ans' k /\
    recv_loop (S fuel) cmdret ans (cmd_bytes (frag this more) ++ this ++ rest) =
      if more then recv_loop fuel (Some (glue cmdret this more)) ans' rest
      else r ← finish_cmd (glue cmdret this more); Some (Some r, ans', rest).
Proof.
  intros Hl Hn Hr Hp. cbn [recv_loop].
  destruct (recv_all (cmd_bytes (frag this more)) (this ++ rest) ans (length this + k)) as (ans1 & E & Hp1).
  { intros E. apply (f_equal length) in E. by rewrite cmd_bytes_length in E. }
  { rewrite cmd_bytes_length. by rewrite Nat.add_assoc. }
  rewrite cmd_bytes_length in E. rewrite E. cbn [mbind option_bind]. clear E. cbn [Z.eqb negb]. rewrite verify_fragment by done.
  destruct (recv_all this rest ans1 k Hn Hp1) as (ans2 & E & Hp2). exists ans2. split; [done|].
  pose proof (fragment_payload op this more tg) as Ep. destruct (fragment_fields this more) as (E1 & E2 & E3 & E4 & E5 & E6 & E7).
  assert (L : (length this =? 0)%nat = false) by (destruct this; done). rewrite L in E7.
  set (c := frag this more) in *. set (c0 := c <| payload := [] |>). 
  assert (F : opcode c0 = op /\ pdu_len c0 = Z.of_nat (length this) /\ pdu_crc16 c0 = u16 (fio_crc16 this) /\ cmd_flags c0 = (if more then 1 else 0)) by (subst c0; destruct c; cbn [version opcode cmd_flags tag pdu_len cmd_crc16 pdu_crc16 payload upd eta_fio_net_cmd] in *; by subst).
  destruct F as (F1 & F2 & F3 & F4). rewrite F1, F2, F3, F4.
  replace (match cmdret with Some r => negb (opcode r =? op) | None => false end) with false.
  2:{ destruct cmdret as [r|]; [|done]. by rewrite (Hr r eq_refl), Z.eqb_refl. }
  destruct (Z.eqb_spec (Z.of_nat (length this)) 0) as [H0|_]; [destruct this; done|]. rewrite Nat2Z.id, E. cbn [mbind option_bind Z.eqb negb].
  rewrite Z.eqb_refl. cbn [negb].
  assert (G : (match cmdret with
     | Some _ => (default c0 cmdret) <| payload ::= fun p => p ++ this |> <| pdu_len ::= fun l => u32 (l + Z.of_nat (length this)) |>
     | None => (default c0 cmdret) <| payload ::= fun p => p ++ this |>
     end) = glue cmdret this more).
  { unfold glue. destruct cmdret as [r|]; [done|]. fold c. subst c0. clear -Ep. destruct c. cbn in *. by rewrite Ep. }
  rewrite G. by destruct more.
Qed.

Lemma glue_opcode cmdret this more : (forall r, cmdret = Some r -> opcode r = op) -> opcode (glue cmdret this more) = op.
Proof. intros H. destruct cmdret as [r|]; [cbn; rewrite <- (H r eq_refl); by destruct r|]. cbn. apply fragment_fields. Qed.
Lemma glue_glue r a b m : glue (Some (glue (Some r) a m)) b m = glue (Some r) (a ++ b) m.
Proof.
  unfold glue. destruct r. cbn. f_equal; [|by rewrite app_assoc]. rewrite length_app, Nat2Z.inj_add, Z.add_assoc. unfold wrap.
  by rewrite Zplus_mod_idemp_l.
Qed.

(** Fragments that follow a first one. *)
Lemma recv_more fuel : forall fuel' buf r rest ans k, (length buf < fuel)%nat -> (fuel <= fuel')%nat -> buf <> [] -> opcode r = op ->
  progress ans (length (frames fuel op buf tg) + k) ->
  exists ans', progress ans' k /\
    recv_loop fuel' (Some r) ans (frames fuel op buf tg ++ rest) = (r ← finish_cmd (glue (Some r) buf false); Some (Some r, ans', rest)).
Proof.
  induction fuel as [|fuel IH]; intros fuel' buf r rest ans k Hf Hf' Hn Ho Hp; [lia|]. destruct fuel' as [|fuel']; [lia|]. cbn [frames] in *.
  set (this := take FIO_SERVER_MAX_PDU buf) in *. set (more := drop FIO_SERVER_MAX_PDU buf) in *.
  assert (Eb : buf = this ++ more) by (symmetry; apply take_drop). pose proof (take_len buf) as Lt. fold this in Lt.
  assert (Nt : this <> []) by (subst this; destruct buf; done).
  assert (Em : (length this <? length buf)%nat = negb (length more =? 0)%nat).
  { rewrite Eb, length_app. destruct (Nat.eqb_spec (length more) 0), (Nat.ltb_spec (length this) (length this + length more)); cbn; lia. }
  rewrite Em in *. rewrite <- !app_assoc. rewrite !length_app, cmd_bytes_length in Hp.
  destruct (Nat.eqb_spec (length more) 0) as [E|E]; cbn [negb] in *.
  - destruct (recv_step fuel' (Some r) this false rest ans k) as (ans' & Hp' & Es); [done|done|by intros ? [= <-]|cbn in Hp; by rewrite Nat.add_0_r in Hp|].
    exists ans'. split; [done|]. cbn [app]. rewrite Es. assert (more = []) as -> by (by apply length_zero_iff_nil). by rewrite Eb, app_nil_r.
  - destruct (recv_step fuel' (Some r) this true (frames fuel op more tg ++ rest) ans (length (frames fuel op more tg) + k)) as (ans1 & Hp1 & Es);
      [done|done|by intros ? [= <-]|by rewrite <- !Nat.add_assoc in *|]. rewrite Es.
    destruct (IH fuel' more (glue (Some r) this true) rest ans1 k) as (ans' & Hp' & El); try done.
    { subst more. rewrite length_drop in *. unfold FIO_SERVER_MAX_PDU in *. lia. } { lia. } { by destruct more. }
    exists ans'. split; [done|]. rewrite El. change (glue (Some r) this true) with (glue (Some r) this false). by rewrite glue_glue, <- Eb.
Qed.
End receive.

(** ** Round trip *)

(** What the receiver gets: text has a NUL at its end. *)
Definition received (op : Z) (buf : list Z) : list Z :=
  if (negb (length buf =? 0)%nat && ((op =? FIO_NET_CMD_TEXT) || (op =? FIO_NET_CMD_JOB))) then buf ++ [0] else buf.
Lemma finish_ok c : pdu_len c = Z.of_nat (length (payload c)) -> (cmd_flags c = 0 \/ cmd_flags c = 1) ->
  finish_cmd c = Some (c <| cmd_flags := 0 |> <| payload := received (opcode c) (payload c) |>).
Proof.
  intros Hl Hf. unfold finish_cmd, received. destruct c as [v op fl tg len c1 c2 p]. cbn [version opcode cmd_flags tag pdu_len cmd_crc16 pdu_crc16 payload upd eta_fio_net_cmd] in *. subst len.
  assert (Ef : fl .& notw 32 FIO_NET_CMD_F_MORE = 0) by (by destruct Hf as [-> | ->]). rewrite Ef.
  replace (Z.of_nat (length p) =? 0) with (length p =? 0)%nat by (destruct (Nat.eqb_spec (length p) 0), (Z.eqb_spec (Z.of_nat (length p)) 0); lia).
  destruct (negb (length p =? 0)%nat && _); [|done].
  replace (Z.of_nat (length p) <=? Z.of_nat (length p)) with true by lia. rewrite Nat2Z.id.
  rewrite insert_app_r_alt by lia. by rewrite Nat.sub_diag.
Qed.

Lemma frames_length fuel : forall op buf tg, (length buf < fuel)%nat -> (length buf <= length (frames fuel op buf tg))%nat.
Proof.
  induction fuel as [|fuel IH]; intros op buf tg Hf; [lia|]. cbn [frames]. rewrite !length_app, cmd_bytes_length.
  rewrite <- (take_drop FIO_SERVER_MAX_PDU buf) at 1. rewrite length_app. destruct (Nat.eqb_spec (length (drop FIO_SERVER_MAX_PDU buf)) 0); [lia|].
  specialize (IH op (drop FIO_SERVER_MAX_PDU buf) tg). rewrite length_drop in *. unfold FIO_SERVER_MAX_PDU, SIZEOF_CMD in *. lia.
Qed.
Lemma recv_empty op tg fuel rest ans k : is_word 16 op -> is_word 64 tg -> progress ans (SIZEOF_CMD + k) ->
  exists ans', progress ans' k /\
    recv_loop (S fuel) None ans (cmd_bytes (fragment op [] false tg) ++ rest) = (r ← finish_cmd (fragment op [] false tg); Some (Some r, ans', rest)).
Proof.
  intros Hop Htg Hp. cbn [recv_loop].
  destruct (recv_all (cmd_bytes (fragment op [] false tg)) rest ans k) as (ans1 & E & Hp1).
  { intros E. apply (f_equal length) in E. by rewrite cmd_bytes_length in E. }
  { by rewrite cmd_bytes_length. }
  rewrite cmd_bytes_length in E. rewrite E. cbn [mbind option_bind]. clear E. cbn [Z.eqb negb]. rewrite (verify_fragment op tg Hop Htg) by (cbn; lia).
  exists ans1. split; [done|]. destruct (fragment_fields op tg [] false) as (_ & _ & _ & _ & El & _). pose proof (fragment_payload op [] false tg) as Ep.
  generalize dependent (fragment op [] false tg). intros c El Ep. replace (c <| payload := [] |>) with c by (destruct c; cbn in *; by subst).
  rewrite El. reflexivity.
Qed.

(** The receiver's view of the fragments of a command. *)
Lemma recv_frames op buf tg fuel' rest ans : is_word 16 op -> is_word 64 tg -> (Z.of_nat (length buf) < 2 ^ 32) -> (length buf <= fuel')%nat ->
  progress ans (length (frames (S (length buf)) op buf tg)) ->
  exists ans' r, recv_loop (S fuel') None ans (frames (S (length buf)) op buf tg ++ rest) = (r ← finish_cmd r; Some (Some r, ans', rest)) /\
    opcode r = op /\ tag r = tg /\ (cmd_flags r = 0 \/ cmd_flags r = 1) /\ pdu_len r = Z.of_nat (length buf) /\ payload r = buf.
Proof.
  intros Hop Htg Hl Hf Hr. cbn [frames] in *. set (this := take FIO_SERVER_MAX_PDU buf) in *. set (more := drop FIO_SERVER_MAX_PDU buf) in *.
  assert (Eb : buf = this ++ more) by (symmetry; apply take_drop). pose proof (take_len buf) as Lt. fold this in Lt.
  assert (Em : (length this <? length buf)%nat = negb (length more =? 0)%nat).
  { rewrite Eb, length_app. destruct (Nat.eqb_spec (length more) 0), (Nat.ltb_spec (length this) (length this + length more)); cbn; lia. }
  rewrite Em in *. rewrite <- !app_assoc. rewrite !length_app, cmd_bytes_length in Hr.
  destruct (Nat.eqb_spec (length more) 0) as [E|E]; cbn [negb] in *.
  - assert (Eb' : buf = this) by (rewrite Eb; apply length_zero_iff_nil in E; by rewrite E, app_nil_r).
    destruct (fragment_fields op tg this false) as (_ & E2 & E3 & E4 & E5 & _). pose proof (fragment_payload op this false tg) as Ep.
    assert (R : exists ans', recv_loop (S fuel') None ans (cmd_bytes (fragment op this false tg) ++ this ++ [] ++ rest) = (r ← finish_cmd (fragment op this false tg); Some (Some r, ans', rest))).
    { cbn [app length] in Hr |- *. clearbody this. destruct (decide (this = [])) as [Et|Et].
      - rewrite Et in *. cbn [app length] in *. destruct (recv_empty op tg fuel' rest ans 0 Hop Htg) as (ans' & _ & ->); [by rewrite Nat.add_0_r in *|]. by exists ans'.
      - destruct (recv_step op tg Hop Htg fuel' None this false rest ans 0) as (ans' & _ & ->); [done|done|done|by rewrite <- Nat.add_assoc, Nat.add_0_r in *|].
        by exists ans'. }
    destruct R as [ans' ->]. exists ans', (fragment op this false tg). split; [done|]. rewrite E3, E5, Ep, Eb'. auto.
  - assert (Nt : this <> []).
    { intros Hx. apply E. apply (f_equal (@length Z)) in Hx. unfold this in Hx. unfold more. rewrite length_take in Hx. rewrite length_drop. cbn [length] in Hx.
      unfold FIO_SERVER_MAX_PDU in *. lia. }
    destruct (recv_step op tg Hop Htg fuel' None this true (frames (length buf) op more tg ++ rest) ans (length (frames (length buf) op more tg))) as (ans1 & Hp1 & ->);
      [done|done|done|by rewrite <- !Nat.add_assoc in *|].
    assert (Lm : (length more < length buf)%nat) by (rewrite Eb, length_app; destruct this; [done|cbn; lia]).
    destruct (fragment_fields op tg this true) as (_ & E2 & E3 & E4 & E5 & _). pose proof (fragment_payload op this true tg) as Ep.
    destruct (recv_more op tg Hop Htg (length buf) fuel' more (glue op tg None this true) rest ans1 0) as (ans' & _ & ->); [done|done|by destruct more|exact E2|by rewrite Nat.add_0_r|].
    exists ans', (glue op tg (Some (glue op tg None this true)) more false). split; [done|]. unfold glue. set (c := fragment op this true tg) in *. clearbody c.
    destruct c as [v o fl t l c1 c2 p]. cbn [version opcode cmd_flags tag pdu_len cmd_crc16 pdu_crc16 payload upd eta_fio_net_cmd] in *. subst o fl t l p. split_and!; try done; [by right|].
    rewrite Eb, length_app, Nat2Z.inj_add in *. apply wrap_small. unfold is_word. lia.
Qed.

(** C31: A command that was sent is what is received, with its payload put together again
    from its fragments, however the data is cut up by the sockets; what follows on the
    wire is left there. *)
Theorem net_cmd_roundtrip op buf tg ans wire rans rest : is_word 16 op -> is_word 64 tg -> (Z.of_nat (length buf) < 2 ^ 32) ->
  (let n := length (frames (S (length buf)) op buf tg) in progress ans n /\ progress rans n) ->
  exists ans' sent rans' c, fio_net_send_cmd op buf tg ans wire = Some (0, ans', wire ++ sent) /\
    fio_net_recv_cmd rans (sent ++ rest) = Some (Some c, rans', rest) /\
    opcode c = op /\ tag c = tg /\ cmd_flags c = 0 /\ pdu_len c = Z.of_nat (length buf) /\ payload c = received op buf.
Proof.
  intros Hop Htg Hl [Hs Hr]. rewrite <- (Nat.add_0_r (length (frames _ _ _ _))) in Hs.
  destruct (send_loop_ok (S (length buf)) op buf tg ans wire 0) as (ans' & Es & _); [lia|done|].
  unfold fio_net_send_cmd, fio_net_recv_cmd. 
  destruct (recv_frames op buf tg (length (frames (S (length buf)) op buf tg ++ rest)) rest rans) as (rans' & r & Er & F1 & F2 & F3 & F4 & F5); try done.
  { rewrite length_app. pose proof (frames_length (S (length buf)) op buf tg). lia. }
  eexists ans', _, rans', _. split; [exact Es|]. rewrite Er, finish_ok; [|congruence|done]. cbn [mbind option_bind]. split; [reflexivity|].
  clear Es Er Hs Hr. destruct r. cbn [version opcode cmd_flags tag pdu_len cmd_crc16 pdu_crc16 payload upd eta_fio_net_cmd] in *. subst. done.
Qed.

Definition sample_text : list Z := replicate 1500 65.
Definition slow_socket : list answer := Retry false :: replicate 1600 (Moved 0 false).
Lemma slow_progress : progress slow_socket 1600.
Proof. split; [constructor; [done|by apply Forall_replicate]|vm_compute; lia]. Qed.
Lemma progress_le ans n k : progress ans k -> (n <= k)%nat -> progress ans n.
Proof. intros [H1 H2] Hn. split; [done|lia]. Qed.
Lemma net_cmd_roundtrip_witness : exists ans' sent rans' c, fio_net_send_cmd FIO_NET_CMD_TEXT sample_text 7 slow_socket [] = Some (0, ans', [] ++ sent) /\
  fio_net_recv_cmd slow_socket (sent ++ [1; 2]) = Some (Some c, rans', [1; 2]) /\
  opcode c = FIO_NET_CMD_TEXT /\ tag c = 7 /\ cmd_flags c = 0 /\ pdu_len c = 1500 /\ payload c = received FIO_NET_CMD_TEXT sample_text.
Proof.
  apply (net_cmd_roundtrip FIO_NET_CMD_TEXT sample_text 7 slow_socket [] slow_socket [1; 2]); [done|done|vm_compute; reflexivity|].
  split; apply (progress_le _ _ _ slow_progress); vm_compute; lia.
Defined.

(** ** Damage on the wire *)
Lemma crc16_burst pre m m' post : bytes pre -> bytes m -> bytes m' -> bytes post -> length m = length m' -> m <> m' -> (length m <= 2)%nat ->
  u16 (fio_crc16 (pre ++ m' ++ post)) <> u16 (fio_crc16 (pre ++ m ++ post)).
Proof.
  intros B1 B2 B3 B4 Hl Hn H2. destruct (crc_detects_burst pre m m' post) as (D & _); try done. specialize (D ltac:(lia)).
  assert (W : forall x, bytes x -> u16 (fio_crc16 x) = fio_crc16 x).
  { intros x Hx. apply wrap_small. rewrite fio_crc16_run by done. by apply (crc_run_word ref_crc16). }
  rewrite !W by (repeat apply Forall_app_2; done). congruence.
Qed.

Section damage.
Context (op tg : Z) (Hop : is_word 16 op) (Htg : is_word 64 tg).

(** C32: A command is dropped if up to two bytes next to each other are changed in the part of
    its head that the checksum covers (the first 20 bytes of 24), or in the payload that
    follows its first head, whatever they become. *)
Theorem net_burst_detected this more pre m m' post rans rest :
  bytes pre -> bytes m -> bytes m' -> bytes post -> length m = length m' -> m <> m' -> (length m <= 2)%nat ->
  (length this <= FIO_SERVER_MAX_PDU)%nat -> progress rans (SIZEOF_CMD + length this) ->
  (crc_part (fragment op this more tg) = pre ++ m ++ post ->
     exists rans' w, fio_net_recv_cmd rans ((pre ++ m' ++ post) ++ drop FIO_NET_CMD_CRC_SZ (cmd_bytes (fragment op this more tg)) ++ rest) = Some (None, rans', w)) /\
  (this = pre ++ m ++ post ->
     exists rans' w, fio_net_recv_cmd rans (cmd_bytes (fragment op this more tg) ++ (pre ++ m' ++ post) ++ rest) = Some (None, rans', w)).
Proof.
  intros B1 B2 B3 B4 Hl Hn H2 Ht Hp. pose proof (crc16_burst pre m m' post B1 B2 B3 B4 Hl Hn H2) as Hcrc.
  destruct (fragment_fields op tg this more) as (E1 & E2 & E3 & E4 & E5 & E6 & E7). pose proof (verify_fragment op tg Hop Htg this more Ht) as Hv.
  pose proof (fragment_wf op tg Hop Htg this more Ht) as Hw. set (c := fragment op this more tg) in *. clearbody c. split; intros Hsplit.
  - set (head := (pre ++ m' ++ post) ++ drop FIO_NET_CMD_CRC_SZ (cmd_bytes c)).
    assert (L20 : length (pre ++ m' ++ post) = FIO_NET_CMD_CRC_SZ) by (rewrite <- (crc_part_length c), Hsplit, !length_app; lia).
    assert (D : drop FIO_NET_CMD_CRC_SZ (cmd_bytes c) = le_bytes 2 (cmd_crc16 c) ++ le_bytes 2 (pdu_crc16 c)).
    { unfold cmd_bytes. rewrite <- (crc_part_length c). apply drop_app_length. }
    assert (L24 : length head = SIZEOF_CMD) by (unfold head; rewrite length_app, L20, D, length_app, !length_le_bytes; done).
    unfold fio_net_recv_cmd. cbn [recv_loop]. rewrite app_assoc. fold head.
    destruct (recv_all head rest rans (length this)) as (ans' & Er & _); [intros Hx; by rewrite Hx in L24|by rewrite L24|].
    rewrite L24 in Er. rewrite Er. cbn [mbind option_bind Z.eqb negb].
    assert (V : verify_convert_cmd head = None).
    { unfold verify_convert_cmd. assert (T : take FIO_NET_CMD_CRC_SZ head = pre ++ m' ++ post) by (unfold head; rewrite <- L20; apply take_app_length). rewrite T.
      assert (G : cmd_crc16 (cmd_of_bytes head) = cmd_crc16 c).
      { apply (get_at (pre ++ m' ++ post) 2 _ (le_bytes 2 (pdu_crc16 c))); [unfold head; by rewrite D|by rewrite L20|apply Hw]. }
      rewrite G, E6, Hsplit. by destruct (Z.eqb_spec (u16 (fio_crc16 (pre ++ m' ++ post))) (u16 (fio_crc16 (pre ++ m ++ post)))). }
    rewrite V. eauto.
  - unfold fio_net_recv_cmd. cbn [recv_loop].
    destruct (recv_all (cmd_bytes c) ((pre ++ m' ++ post) ++ rest) rans (length this)) as (ans1 & Er & Hp1).
    { intros Hx. apply (f_equal length) in Hx. by rewrite cmd_bytes_length in Hx. } { by rewrite cmd_bytes_length. }
    rewrite cmd_bytes_length in Er. rewrite Er. cbn [mbind option_bind Z.eqb negb]. rewrite Hv.
    assert (F : pdu_len (c <| payload := [] |>) = Z.of_nat (length this) /\ pdu_crc16 (c <| payload := [] |>) = pdu_crc16 c) by (by destruct c).
    destruct F as [-> ->]. assert (L : length (pre ++ m' ++ post) = length this) by (rewrite Hsplit, !length_app; lia).
    assert (N : length this <> 0%nat) by (rewrite Hsplit, !length_app; destruct m; [destruct m'; [done|cbn [length] in *; lia]|cbn [length]; lia]).
    destruct (Z.eqb_spec (Z.of_nat (length this)) 0); [lia|]. rewrite Nat2Z.id.
    destruct (recv_all (pre ++ m' ++ post) rest ans1 0) as (ans2 & Er2 & _); [intros Hx; by rewrite Hx in L|by rewrite L, Nat.add_0_r|].
    rewrite L in Er2. rewrite Er2. cbn [mbind option_bind Z.eqb negb]. destruct (Nat.eqb_spec (length this) 0); [done|].
    rewrite E7, Hsplit. destruct (Z.eqb_spec (u16 (fio_crc16 (pre ++ m' ++ post))) (u16 (fio_crc16 (pre ++ m ++ post)))); [done|]. cbn [negb]. eauto.
Qed.
End damage.

Lemma net_burst_detected_witness : exists rans' w,
  fio_net_recv_cmd slow_socket (cmd_bytes (fragment 5 [65; 66; 67] false 0) ++ [65; 70; 71] ++ []) = Some (None, rans', w).
Proof.
  apply (proj2 (net_burst_detected 5 0 ltac:(done) ltac:(done) [65; 66; 67] false [65] [66; 67] [70; 71] [] slow_socket []
    ltac:(solve_bytes) ltac:(solve_bytes) ltac:(solve_bytes) ltac:(solve_bytes) eq_refl ltac:(done) ltac:(vm_compute; lia) ltac:(vm_compute; lia)
    (progress_le slow_socket 27 1600 slow_progress ltac:(lia)))). reflexivity.
Defined.

(** ** Command lines *)
Definition line_bytes (a : cstr) : list Z := le_bytes 2 (Z.of_nat (S (length a))) ++ a ++ [0].
Definition lines_bytes (argv : list cstr) : list Z := concat (map line_bytes argv).
Definition arg_ok (a : cstr) : Prop := (0 ∉ a) /\ Z.of_nat (length a) < 65535.
Lemma line_bytes_length a : length (line_bytes a) = (3 + length a)%nat.
Proof. unfold line_bytes. rewrite !length_app, length_le_bytes. cbn. lia. Qed.
Lemma lines_length argv : length (lines_bytes argv) = (sum_list_with (fun a => S (length a)) argv + 2 * length argv)%nat.
Proof. induction argv as [|a argv IH]; [done|]. unfold lines_bytes in *. cbn [map concat sum_list_with length]. rewrite length_app, IH, line_bytes_length. lia. Qed.

Lemma store_at (pre g bs : list Z) : (length bs <= length g)%nat -> store (pre ++ g) (length pre) bs = pre ++ bs ++ drop (length bs) g.
Proof.
  intros H. unfold store. rewrite Nat2Z.id. rewrite take_app_length. f_equal. f_equal.
  rewrite drop_app_ge by lia. f_equal. lia.
Qed.
Lemma put_lines_ok argv : forall pre g, Forall arg_ok argv -> (length (lines_bytes argv) <= length g)%nat ->
  put_lines (pre ++ g) (length pre) argv = Some (pre ++ lines_bytes argv ++ drop (length (lines_bytes argv)) g).
Proof.
  induction argv as [|a argv IH]; intros pre g Ha Hl; [done|]. apply Forall_cons in Ha as [[H0 Ha] Has].
  change (lines_bytes (a :: argv)) with (line_bytes a ++ lines_bytes argv) in *. rewrite length_app, line_bytes_length in Hl. cbn [put_lines].
  assert (Lt : length (a ++ [0]) = S (length a)) by (rewrite length_app; cbn; lia). rewrite Lt, length_app.
  replace (_ <? _)%nat with false by (symmetry; apply Nat.ltb_ge; lia).
  assert (Es : put (store (pre ++ g) (length pre + 2)%nat (a ++ [0])) (length pre) 2 (u16 (Z.of_nat (S (length a)))) = (pre ++ line_bytes a) ++ drop (length (line_bytes a)) g).
  { assert (Eg : g = take 2 g ++ drop 2 g) by (by rewrite take_drop). 
    assert (L2 : length (take 2 g) = 2%nat) by (rewrite length_take; lia).
    rewrite Eg at 1. rewrite app_assoc. replace (Z.of_nat (length pre + 2)) with (Z.of_nat (length (pre ++ take 2 g))) by (rewrite length_app; lia).
    rewrite store_at by (rewrite length_drop; lia). rewrite Lt, drop_drop. unfold put. rewrite <- app_assoc.
    rewrite store_at by (rewrite length_le_bytes, length_app; lia). rewrite length_le_bytes. unfold line_bytes at 1. rewrite <- !app_assoc. f_equal.
    assert (wrap 16 (Z.of_nat (S (length a))) = Z.of_nat (S (length a))) as -> by (apply wrap_small; unfold is_word; lia). f_equal.
    rewrite <- L2 at 1. rewrite drop_app_length. rewrite <- ?app_assoc. do 3 f_equal. rewrite line_bytes_length. lia. }
  rewrite Es. replace (length pre + 2 + Z.to_nat (u16 (Z.of_nat (S (length a)))))%nat with (length (pre ++ line_bytes a)).
  2:{ rewrite length_app, line_bytes_length, wrap_small by (unfold is_word; lia). lia. }
  rewrite IH; [|done|rewrite length_drop, line_bytes_length; lia]. f_equal. rewrite drop_drop, <- !app_assoc, !length_app. done.
Qed.
Lemma get_lines_ok argv : forall pre post, Forall arg_ok argv ->
  get_lines (length argv) (pre ++ lines_bytes argv ++ post) (length pre) = Some argv.
Proof.
  induction argv as [|a argv IH]; intros pre post Ha; [done|]. apply Forall_cons in Ha as [[H0 Ha] Has]. cbn [length get_lines].
  change (lines_bytes (a :: argv)) with (line_bytes a ++ lines_bytes argv). rewrite !length_app, line_bytes_length.
  replace (_ <? _)%nat with false by (symmetry; apply Nat.ltb_ge; lia).
  assert (Ed : drop (length pre + 2) (pre ++ (line_bytes a ++ lines_bytes argv) ++ post) = a ++ 0 :: lines_bytes argv ++ post).
  { rewrite <- drop_drop, drop_app_length. unfold line_bytes. rewrite <- !app_assoc. 
    pose proof (drop_app_length (le_bytes 2 (Z.of_nat (S (length a)))) (a ++ [0] ++ lines_bytes argv ++ post)) as D. rewrite length_le_bytes in D. rewrite D. done. }
  rewrite Ed, strchr_app by done. cbn [mbind option_bind].
  assert (Eg : get (pre ++ (line_bytes a ++ lines_bytes argv) ++ post) (length pre) 2 = Z.of_nat (S (length a))).
  { eapply (get_at pre 2); [unfold line_bytes; by rewrite <- !app_assoc|done|unfold is_word; cbn; lia]. }
  rewrite Eg, Nat2Z.id. specialize (IH (pre ++ line_bytes a) post Has). rewrite length_app, line_bytes_length in IH.
  rewrite <- !app_assoc in *. replace (length pre + 2 + S (length a))%nat with (length pre + (3 + length a))%nat by lia. rewrite IH. cbn [mbind option_bind].
  by rewrite take_app_length.
Qed.

(** The arguments of a command line arrive as they are, whatever is in the memory the
    message is made in: up to 65535 arguments of up to 65534 characters. *)
Theorem jobline_roundtrip garbage argv : Forall arg_ok argv -> Z.of_nat (length argv) < 65536 ->
  exists pdu, cmd_line_pdu garbage argv = Some pdu /\ jobline_args pdu = Some argv.
Proof.
  intros Ha Hn. unfold cmd_line_pdu. set (mem := (_ + 2 + _)%nat). set (g := take mem (garbage ++ replicate mem 0)).
  assert (Lg : length g = mem) by (unfold g; rewrite length_take, length_app, length_replicate; lia).
  assert (Lm : mem = (2 + length (lines_bytes argv))%nat) by (rewrite lines_length; lia). clearbody g.
  assert (Eg : g = take 2 g ++ drop 2 g) by (by rewrite take_drop). assert (L2 : length (take 2 g) = 2%nat) by (rewrite length_take; lia).
  pose proof (put_lines_ok argv (take 2 g) (drop 2 g) Ha) as P. rewrite L2, <- Eg in P. rewrite P by (rewrite length_drop; lia). cbn [mbind option_bind].
  eexists. split; [reflexivity|]. rewrite (drop_ge (drop 2 g)) by (rewrite length_drop; lia). rewrite app_nil_r.
  assert (Ep : put (take 2 g ++ lines_bytes argv) 0 2 (u16 (Z.of_nat (length argv))) = le_bytes 2 (Z.of_nat (length argv)) ++ lines_bytes argv).
  { unfold put. pose proof (store_at [] (take 2 g ++ lines_bytes argv) (le_bytes 2 (u16 (Z.of_nat (length argv))))) as S0. cbn [app length] in S0.
    rewrite S0 by (rewrite length_le_bytes, length_app; lia). rewrite length_le_bytes. rewrite wrap_small by (unfold is_word; lia).
    f_equal. rewrite <- L2 at 1. apply drop_app_length. }
  rewrite Ep. unfold jobline_args. rewrite length_app, length_le_bytes. cbn [Nat.ltb Nat.leb plus].
  assert (G : get (le_bytes 2 (Z.of_nat (length argv)) ++ lines_bytes argv) 0 2 = Z.of_nat (length argv)) by (eapply (get_at [] 2); [done|done|unfold is_word; cbn; lia]).
  rewrite G, Nat2Z.id. pose proof (get_lines_ok argv (le_bytes 2 (Z.of_nat (length argv))) [] Ha) as R. rewrite app_nil_r, length_le_bytes in R. exact R.
Qed.
Lemma jobline_roundtrip_witness : exists pdu, cmd_line_pdu [9; 9; 9] [$"--name=a"; $"--rw=read"] = Some pdu /\ jobline_args pdu = Some [$"--name=a"; $"--rw=read"].
Proof.
  apply (jobline_roundtrip [9; 9; 9] [$"--name=a"; $"--rw=read"]); [|done].
  repeat constructor; apply (bool_decide_unpack _); vm_compute; exact I.
Defined.
End Net.
