(* ===== verification/Ieee.v ===== *)
(** * Doubles on the wire

    [src/lib/ieee754.c] and the conversion of a summary ([convert_io_stat] of
    [src/server.c] and [src/client.c]).  A [long double] is a mantissa and an exponent of
    2; the code computes with values of at most 53 bits, for which additions and
    multiplications by powers of 2 are exact.  The product for the significand is rounded
    to 64 bits, which does not reach the next integer. *)
From S2P Require Import Prelude.
From Stdlib Require Import ZifyBool.
Local Open Scope Z_scope.

Module Ieee.

Record ldouble := { mant : Z; ex : Z }.
#[export] Instance eta_ldouble : Eta ldouble := fun f => Build_ldouble (mant f) (ex f).

(** The value as a fraction, and comparisons with an integer. *)
Definition num (f : ldouble) : Z := mant f * 2 ^ Z.max 0 (ex f).
Definition den (f : ldouble) : Z := 2 ^ Z.max 0 (- ex f).
Definition geZ (f : ldouble) (k : Z) : bool := k * den f <=? num f.

(** The two loops that normalise, with the exponent they count. *)
Fixpoint norm_down (fuel : nat) (f : ldouble) (shift : Z) : option (ldouble * Z) :=
  if geZ f 2 then match fuel with O => None | S fuel => norm_down fuel (f <| ex ::= Z.pred |>) (shift + 1) end
  else Some (f, shift).
Fixpoint norm_up (fuel : nat) (f : ldouble) (shift : Z) : option (ldouble * Z) :=
  if negb (geZ f 1) then match fuel with O => None | S fuel => norm_up fuel (f <| ex ::= Z.succ |>) (shift - 1) end
  else Some (f, shift).

Definition pack754 (fuel : nat) (f : ldouble) (bits expbits : Z) : option Z :=
  let significandbits := bits - expbits - 1 in
  if mant f =? 0 then Some 0
  else
    let '(sign, fnorm) := if mant f <? 0 then (1, f <| mant := - mant f |>) else (0, f) in
    '(fnorm, shift) ← norm_down fuel fnorm 0;
    '(fnorm, shift) ← norm_up fuel fnorm shift;
    let fnorm := Build_ldouble (num fnorm - den fnorm) (Z.min 0 (ex fnorm)) in
    (* fnorm * ((1LL << significandbits) + 0.5f), cut off *)
    let significand := num fnorm * (2 * 2 ^ significandbits + 1) / (2 * den fnorm) in
    let exp := shift + (2 ^ (expbits - 1) - 1) in
    Some (u64 (Z.lor (Z.lor (Z.shiftl sign (bits - 1)) (Z.shiftl exp (bits - expbits - 1))) significand)).

(** The loops [result *= 2.0] and [result /= 2.0]. *)
Fixpoint scale_up (fuel : nat) (f : ldouble) (shift : Z) : option ldouble :=
  if shift >? 0 then match fuel with O => None | S fuel => scale_up fuel (f <| ex ::= Z.succ |>) (shift - 1) end else Some f.
Fixpoint scale_down (fuel : nat) (f : ldouble) (shift : Z) : option ldouble :=
  if shift <? 0 then match fuel with O => None | S fuel => scale_down fuel (f <| ex ::= Z.pred |>) (shift + 1) end else Some f.
Definition unpack754 (fuel : nat) (i bits expbits : Z) : option ldouble :=
  let significandbits := bits - expbits - 1 in
  if i =? 0 then Some (Build_ldouble 0 0)
  else
    let result := Build_ldouble (Z.land i (2 ^ significandbits - 1)) 0 in
    let result := result <| ex := - significandbits |> in
    let result := result <| mant ::= fun m => m + 2 ^ significandbits |> in
    let bias := 2 ^ (expbits - 1) - 1 in
    let shift := s64 (Z.land (Z.shiftr i significandbits) (2 ^ expbits - 1) - bias) in
    result ← scale_up fuel result shift;
    (* after the first loop [shift] is 0 or negative *)
    result ← scale_down fuel result (Z.min 0 shift);
    Some (if Z.testbit i (bits - 1) then result <| mant := - mant result |> else result).

(** The loops of a [double] take at most 1100 passes. *)
Definition fio_double_to_uint64 (f : ldouble) : option Z := pack754 1100 f 64 11.
Definition fio_uint64_to_double (i : Z) : option ldouble := unpack754 1100 i 64 11.

(** ** Summaries *)
Record io_stat_d := { max_val : Z; min_val : Z; n_samples : Z; d_mean : ldouble; d_S : ldouble }.
Record io_stat_w := { w_max : Z; w_min : Z; w_samples : Z; w_mean : Z; w_S : Z }.
Definition server_convert_io_stat (src : io_stat_d) : option io_stat_w :=
  m ← fio_double_to_uint64 (d_mean src); s ← fio_double_to_uint64 (d_S src);
  Some (Build_io_stat_w (max_val src) (min_val src) (n_samples src) m s).
(** The counts are taken from [src], the floats from what is in [dst]; [handle_ts] passes one
    summary as both. *)
Definition client_convert_io_stat (dst src : io_stat_w) : option io_stat_d :=
  m ← fio_uint64_to_double (w_mean dst); s ← fio_uint64_to_double (w_S dst);
  Some (Build_io_stat_d (w_max src) (w_min src) (w_samples src) m s).

(** * Properties *)
Section normal.
Context (M : Z) (HM : 2 ^ 52 <= M < 2 ^ 53).

Lemma geZ_2 k : geZ (Build_ldouble M k) 2 = (-51 <=? k).
Proof.
  unfold geZ, num, den. cbn [mant ex]. destruct (Z.leb_spec (-51) k) as [Hk|Hk].
  - apply Z.leb_le. destruct (Z.le_gt_cases 0 k).
    + rewrite (Z.max_l 0 (- k)), (Z.max_r 0 k) by lia. pose proof (pow2_pos k ltac:(lia)). nia.
    + rewrite (Z.max_r 0 (- k)), (Z.max_l 0 k) by lia. assert (2 * 2 ^ (- k) = 2 ^ (- k + 1)) as -> by (rewrite Z.pow_add_r by lia; lia).
      pose proof (Z.pow_le_mono_r 2 (- k + 1) 52 ltac:(lia) ltac:(lia)). lia.
  - apply Z.leb_gt. rewrite (Z.max_r 0 (- k)), (Z.max_l 0 k) by lia. assert (2 * 2 ^ (- k) = 2 ^ (- k + 1)) as -> by (rewrite Z.pow_add_r by lia; lia).
    pose proof (Z.pow_le_mono_r 2 53 (- k + 1) ltac:(lia) ltac:(lia)). lia.
Qed.
Lemma geZ_1 k : geZ (Build_ldouble M k) 1 = (-52 <=? k).
Proof.
  unfold geZ, num, den. cbn [mant ex]. rewrite Z.mul_1_l. destruct (Z.leb_spec (-52) k) as [Hk|Hk].
  - apply Z.leb_le. destruct (Z.le_gt_cases 0 k).
    + rewrite (Z.max_l 0 (- k)), (Z.max_r 0 k) by lia. pose proof (pow2_pos k ltac:(lia)). nia.
    + rewrite (Z.max_r 0 (- k)), (Z.max_l 0 k) by lia. pose proof (Z.pow_le_mono_r 2 (- k) 52 ltac:(lia) ltac:(lia)). lia.
  - apply Z.leb_gt. rewrite (Z.max_r 0 (- k)), (Z.max_l 0 k) by lia. pose proof (Z.pow_le_mono_r 2 53 (- k) ltac:(lia) ltac:(lia)). lia.
Qed.
Lemma norm_down_ok n : forall fuel k s, (n <= fuel)%nat -> k = -52 + Z.of_nat n -> norm_down fuel (Build_ldouble M k) s = Some (Build_ldouble M (-52), s + Z.of_nat n).
Proof.
  induction n as [|n IH]; intros fuel k s Hf ->.
  - destruct fuel; cbn [norm_down]; rewrite geZ_2; change (Z.of_nat 0) with 0; by rewrite !Z.add_0_r.
  - destruct fuel as [|fuel]; [lia|]. cbn [norm_down]. rewrite geZ_2. replace (-51 <=? -52 + Z.of_nat (S n)) with true by lia.
    change ((Build_ldouble M (-52 + Z.of_nat (S n))) <| ex ::= Z.pred |>) with (Build_ldouble M (Z.pred (-52 + Z.of_nat (S n)))).
    rewrite (IH fuel _ (s + 1)) by lia. do 2 f_equal. lia.
Qed.
Lemma norm_down_small fuel k s : k < -51 -> norm_down fuel (Build_ldouble M k) s = Some (Build_ldouble M k, s).
Proof. intros Hk. destruct fuel; cbn [norm_down]; rewrite geZ_2; by replace (-51 <=? k) with false by lia. Qed.
Lemma norm_up_ok n : forall fuel k s, (n <= fuel)%nat -> k = -52 - Z.of_nat n -> norm_up fuel (Build_ldouble M k) s = Some (Build_ldouble M (-52), s - Z.of_nat n).
Proof.
  induction n as [|n IH]; intros fuel k s Hf ->.
  - destruct fuel; cbn [norm_up]; rewrite geZ_1; change (Z.of_nat 0) with 0; by rewrite !Z.sub_0_r.
  - destruct fuel as [|fuel]; [lia|]. cbn [norm_up]. rewrite geZ_1. replace (-52 <=? -52 - Z.of_nat (S n)) with false by lia. cbn [negb].
    change ((Build_ldouble M (-52 - Z.of_nat (S n))) <| ex ::= Z.succ |>) with (Build_ldouble M (Z.succ (-52 - Z.of_nat (S n)))).
    rewrite (IH fuel _ (s - 1)) by lia. do 2 f_equal. lia.
Qed.
(** Both loops: the exponent. *)
Lemma normalise e fuel : -1022 <= e <= 1023 -> (1100 <= fuel)%nat ->
  ('(f, shift) ← norm_down fuel (Build_ldouble M (e - 52)) 0; norm_up fuel f shift) = Some (Build_ldouble M (-52), e).
Proof.
  intros He Hf. destruct (Z.le_gt_cases 0 e).
  - rewrite (norm_down_ok (Z.to_nat e)) by lia. cbn [mbind option_bind]. rewrite (norm_up_ok 0) by lia. do 2 f_equal. lia.
  - rewrite norm_down_small by lia. cbn [mbind option_bind]. rewrite (norm_up_ok (Z.to_nat (- e))) by lia. do 2 f_equal. lia.
Qed.
End normal.

Lemma scale_up_ok n : forall fuel m k, (n <= fuel)%nat -> scale_up fuel (Build_ldouble m k) (Z.of_nat n) = Some (Build_ldouble m (k + Z.of_nat n)).
Proof.
  induction n as [|n IH]; intros fuel m k Hf; [change (Z.of_nat 0) with 0; rewrite Z.add_0_r; by destruct fuel|]. destruct fuel as [|fuel]; [lia|]. cbn [scale_up].
  destruct (Z.gtb_spec (Z.of_nat (S n)) 0); [|lia]. change ((Build_ldouble m k) <| ex ::= Z.succ |>) with (Build_ldouble m (Z.succ k)).
  replace (Z.of_nat (S n) - 1) with (Z.of_nat n) by lia. rewrite IH by lia. do 2 f_equal. lia.
Qed.
Lemma scale_down_ok n : forall fuel m k, (n <= fuel)%nat -> scale_down fuel (Build_ldouble m k) (- Z.of_nat n) = Some (Build_ldouble m (k - Z.of_nat n)).
Proof.
  induction n as [|n IH]; intros fuel m k Hf; [change (Z.of_nat 0) with 0; rewrite Z.sub_0_r; by destruct fuel|]. destruct fuel as [|fuel]; [lia|]. cbn [scale_down].
  destruct (Z.ltb_spec (- Z.of_nat (S n)) 0); [|lia]. change ((Build_ldouble m k) <| ex ::= Z.pred |>) with (Build_ldouble m (Z.pred k)).
  replace (- Z.of_nat (S n) + 1) with (- Z.of_nat n) by lia. rewrite IH by lia. do 2 f_equal. lia.
Qed.

Lemma scale_up_neg fuel f s : s <= 0 -> scale_up fuel f s = Some f.
Proof. intros H. destruct fuel; cbn [scale_up]; by destruct (Z.gtb_spec s 0); [lia|]. Qed.

(** The normal doubles, and their encoding of IEEE 754. *)
Definition double (neg : bool) (m e : Z) : ldouble := Build_ldouble (if neg then - (2 ^ 52 + m) else 2 ^ 52 + m) (e - 52).
Definition ieee_bits (neg : bool) (m e : Z) : Z := (if neg then 2 ^ 63 else 0) + (e + 1023) * 2 ^ 52 + m.

Lemma shiftl_or y n m : 0 <= n -> 0 <= m < 2 ^ n -> Z.lor (Z.shiftl y n) m = y * 2 ^ n + m.
Proof.
  intros Hn Hm. assert (A : Z.land (Z.shiftl y n) m = 0).
  { apply Z.bits_inj'. intros i Hi. rewrite Z.land_spec, Z.bits_0. destruct (Z.ltb_spec i n); [by rewrite Z.shiftl_spec_low|].
    rewrite (word_high n m) by (done || lia). apply andb_false_r. }
  rewrite <- Z.lxor_lor by done. rewrite <- Z.add_nocarry_lxor by done. by rewrite Z.shiftl_mul_pow2.
Qed.
Lemma or_parts neg m x : 0 <= m < 2 ^ 52 -> 0 <= x < 2 ^ 11 ->
  u64 (Z.lor (Z.lor (Z.shiftl (if neg : bool then 1 else 0) 63) (Z.shiftl x 52)) m) = (if neg then 2 ^ 63 else 0) + x * 2 ^ 52 + m.
Proof.
  intros Hm Hx. replace (Z.shiftl (if neg then 1 else 0) 63) with (Z.shiftl (Z.shiftl (if neg then 1 else 0) 11) 52) by (by destruct neg).
  rewrite <- Z.shiftl_lor, (shiftl_or _ 11 x), shiftl_or by lia. rewrite wrap_small by (unfold is_word; destruct neg; lia). destruct neg; lia.
Qed.

(** A normal double is packed into its encoding of IEEE 754, and unpacked from it. *)
Lemma pack_double neg m e : 0 <= m < 2 ^ 52 -> -1022 <= e <= 1023 -> fio_double_to_uint64 (double neg m e) = Some (ieee_bits neg m e).
Proof.
  intros Hm He. unfold fio_double_to_uint64, pack754. assert (HM : 2 ^ 52 <= 2 ^ 52 + m < 2 ^ 53) by lia.
  replace (mant (double neg m e) =? 0) with false by (unfold double; destruct neg; cbn [mant]; lia).
  assert (S : (if mant (double neg m e) <? 0 then (1, (double neg m e) <| mant := - mant (double neg m e) |>) else (0, double neg m e)) =
              (if neg then 1 else 0, Build_ldouble (2 ^ 52 + m) (e - 52))).
  { unfold double. destruct neg; cbn [mant]; [replace (- (2 ^ 52 + m) <? 0) with true by lia|replace (2 ^ 52 + m <? 0) with false by lia; done].
    cbn [upd eta_ldouble mant ex]. do 2 f_equal. lia. }
  rewrite S. clear S. pose proof (normalise (2 ^ 52 + m) HM e 1100 He ltac:(lia)) as N.
  destruct (norm_down 1100 (Build_ldouble (2 ^ 52 + m) (e - 52)) 0) as [[f shift]|]; [|done]. cbn [mbind option_bind] in N |- *. rewrite N. cbn [mbind option_bind].
  f_equal. change (64 - 11 - 1) with 52. change (64 - 1) with 63. change (2 ^ (11 - 1) - 1) with 1023.
  assert (Sg : num (Build_ldouble (num (Build_ldouble (2 ^ 52 + m) (-52)) - den (Build_ldouble (2 ^ 52 + m) (-52))) (Z.min 0 (-52))) * (2 * 2 ^ 52 + 1) /
    (2 * den (Build_ldouble (num (Build_ldouble (2 ^ 52 + m) (-52)) - den (Build_ldouble (2 ^ 52 + m) (-52))) (Z.min 0 (-52)))) = m).
  { unfold num, den. cbn [mant ex]. change (Z.max 0 (-52)) with 0. change (Z.max 0 (- -52)) with 52. change (Z.min 0 (-52)) with (-52).
    change (Z.max 0 (-52)) with 0. change (Z.max 0 (- -52)) with 52. change (2 ^ 0) with 1. replace ((2 ^ 52 + m) * 1 - 2 ^ 52) with m by lia.
    symmetry. apply (Z.div_unique_pos _ _ _ m); lia. }
  cbn [ex] in *. rewrite Sg. rewrite or_parts by lia. unfold ieee_bits. lia.
Qed.
Lemma unpack_double neg m e : 0 <= m < 2 ^ 52 -> -1022 <= e <= 1023 -> fio_uint64_to_double (ieee_bits neg m e) = Some (double neg m e).
Proof.
  intros Hm He. unfold fio_uint64_to_double, unpack754. set (i := ieee_bits neg m e).
  assert (Ei : i = Z.lor (Z.shiftl ((if neg then 2048 else 0) + (e + 1023)) 52) m) by (rewrite shiftl_or by lia; unfold i, ieee_bits; destruct neg; lia).
  replace (i =? 0) with false by (unfold i, ieee_bits; destruct neg; lia). change (64 - 11 - 1) with 52. change (64 - 1) with 63. change (2 ^ (11 - 1) - 1) with 1023.
  assert (E1 : Z.land i (2 ^ 52 - 1) = m).
  { rewrite pow2_sub1, Z.land_ones by lia. unfold i, ieee_bits. replace (_ + _ + m) with (m + ((if neg then 2048 else 0) + (e + 1023)) * 2 ^ 52) by (destruct neg; lia).
    rewrite Z.mod_add by lia. by apply Z.mod_small. }
  assert (E2 : Z.shiftr i 52 = (if neg then 2048 else 0) + (e + 1023)).
  { rewrite Z.shiftr_div_pow2 by lia. unfold i, ieee_bits. symmetry. apply (Z.div_unique_pos _ _ _ m); [lia|]. destruct neg; lia. }
  assert (E3 : Z.land (Z.shiftr i 52) (2 ^ 11 - 1) = e + 1023).
  { rewrite E2, pow2_sub1, Z.land_ones by lia. destruct neg; [|rewrite Z.add_0_l; apply Z.mod_small; lia].
    replace (2048 + (e + 1023)) with (e + 1023 + 1 * 2 ^ 11) by lia. rewrite Z.mod_add by lia. apply Z.mod_small. lia. }
  assert (E4 : Z.testbit i 63 = neg).
  { replace 63 with (11 + 52) by lia. rewrite <- Z.shiftr_spec by lia. rewrite E2.
    destruct neg; [|rewrite Z.add_0_l; apply (word_high 11); unfold is_word; lia]. apply Z.b2z_inj. rewrite Z.testbit_spec' by lia.
    replace (_ / 2 ^ 11) with 1; [done|]. apply (Z.div_unique_pos _ _ _ (e + 1023)); lia. }
  rewrite E1, E3, E4. replace (s64 (e + 1023 - 1023)) with e.
  2:{ unfold swrap. replace (e + 1023 - 1023) with e by lia. destruct (Z.ltb_spec (e mod 2 ^ 64) (2 ^ (64 - 1))); Z.to_euclidean_division_equations; lia. }
  cbn [upd eta_ldouble mant ex]. unfold double. destruct (Z.le_gt_cases 0 e).
  - rewrite <- (Z2Nat.id e) at 1 by lia. rewrite scale_up_ok by lia. cbn [mbind option_bind]. rewrite (Z.min_l 0 e) by lia.
    change 0 with (- Z.of_nat 0). rewrite scale_down_ok by lia. cbn [mbind option_bind]. destruct neg; cbn [upd eta_ldouble mant ex]; do 2 f_equal; lia.
  - rewrite scale_up_neg by lia.
    cbn [mbind option_bind]. rewrite (Z.min_r 0 e) by lia. rewrite <- (Z.opp_involutive e) at 1. rewrite <- (Z2Nat.id (- e)) at 1 by lia.
    rewrite scale_down_ok by lia. cbn [mbind option_bind]. destruct neg; cbn [upd eta_ldouble mant ex]; do 2 f_equal; lia.
Qed.

(** *** The round trip *)

(** The values a summary holds: 0 and the normal doubles. *)
Definition packable (f : ldouble) : Prop := f = Build_ldouble 0 0 \/ exists neg m e, 0 <= m < 2 ^ 52 /\ -1022 <= e <= 1023 /\ f = double neg m e.
Lemma packable_roundtrip f : packable f -> exists i, fio_double_to_uint64 f = Some i /\ is_word 64 i /\ fio_uint64_to_double i = Some f.
Proof.
  intros [->|(neg & m & e & Hm & He & ->)]; [by exists 0|]. exists (ieee_bits neg m e).
  split_and!; [by apply pack_double|unfold is_word, ieee_bits; destruct neg; lia|by apply unpack_double].
Qed.

(** C33: A summary that the server sends is the summary the client reports, mean and sum of
    squares included, and what is on the wire is the encoding of IEEE 754, if both are zero or
    normal doubles ([subnormal_garbled] shows that subnormal ones are not). *)
Theorem io_stat_roundtrip s : packable (d_mean s) -> packable (d_S s) ->
  exists w, server_convert_io_stat s = Some w /\ is_word 64 (w_mean w) /\ is_word 64 (w_S w) /\ client_convert_io_stat w w = Some s /\
    forall neg m e, 0 <= m < 2 ^ 52 -> -1022 <= e <= 1023 ->
      (d_mean s = double neg m e -> w_mean w = ieee_bits neg m e) /\ (d_S s = double neg m e -> w_S w = ieee_bits neg m e).
Proof.
  intros Hm Hs. destruct (packable_roundtrip _ Hm) as (i & E1 & W1 & F1). destruct (packable_roundtrip _ Hs) as (k & E2 & W2 & F2).
  unfold server_convert_io_stat, client_convert_io_stat. rewrite E1, E2. cbn [mbind option_bind]. eexists. split; [reflexivity|].
  cbn [w_mean w_S w_max w_min w_samples]. rewrite F1, F2. cbn [mbind option_bind]. split_and!; try done; [by destruct s|].
  intros neg m e Hm' He'. split; intros Ed; [rewrite Ed, pack_double in E1 by done|rewrite Ed, pack_double in E2 by done]; congruence.
Qed.
Definition sample_stat : io_stat_d := Build_io_stat_d 9 1 3 (double false (2 ^ 51) 2) (Build_ldouble 0 0).
Lemma io_stat_roundtrip_witness : exists w, server_convert_io_stat sample_stat = Some w /\ client_convert_io_stat w w = Some sample_stat.
Proof.
  destruct (io_stat_roundtrip sample_stat) as (w & E & _ & _ & F & _).
  - right. exists false, (2 ^ 51), 2. split; [lia|]. split; [lia|reflexivity].
  - by left.
  - exists w. split; [exact E|exact F].
Defined.

(** The smallest double, 2^-1074, has no normal encoding; its exponent becomes
    negative, and it arrives as - 2^974. *)
Lemma subnormal_garbled : (i ← fio_double_to_uint64 (Build_ldouble 1 (-1074)); fio_uint64_to_double i) = Some (Build_ldouble (- 2 ^ 52) 922).
Proof. vm_compute. reflexivity. Qed.
End Ieee.
