(* ===== verification/Counting.v ===== *)
(** * Counting in lists

    Sums over the elements of a list and the number of those with a property, for the
    components that keep such numbers in counters ([RunJobs], [Mutex]). *)
From S2P Require Import Prelude.
From stdpp Require Import list.
Local Open Scope Z_scope.

Module Counting.
Section counting.
Context {A : Type}.
Implicit Types (w : A -> Z) (p q : A -> bool) (l : list A).

Definition total w l : Z := foldr (fun x a => w x + a) 0 l.
Definition count p l : Z := total (fun x => Z.b2z (p x)) l.

Lemma total_cons w x l : total w (x :: l) = w x + total w l.
Proof. reflexivity. Qed.
Lemma count_cons p x l : count p (x :: l) = Z.b2z (p x) + count p l.
Proof. reflexivity. Qed.
Lemma total_alter w f l : forall i x, l !! i = Some x -> total w (alter f i l) = total w l - w x + w (f x).
Proof.
  induction l as [|y l IH]; intros [|i] x E; cbn in E; try done.
  - injection E as ->. cbn. lia.
  - change (alter f (S i) (y :: l)) with (y :: alter f i l). rewrite !total_cons, (IH i x E). lia.
Qed.
Lemma total_map w f l : (forall x, w (f x) = w x) -> total w (map f l) = total w l.
Proof. intros H. induction l as [|x l IH]; [done|]. cbn [map]. by rewrite !total_cons, H, IH. Qed.
Lemma total_ext w w' l : (forall i x, l !! i = Some x -> w x = w' x) -> total w l = total w' l.
Proof.
  induction l as [|x l IH]; intros H; [done|]. rewrite !total_cons, (H O x eq_refl), IH; [done|]. intros i y E. by apply (H (S i)).
Qed.
Lemma count_le p l : 0 <= count p l <= Z.of_nat (length l).
Proof. induction l as [|x l IH]; [done|]. rewrite count_cons. cbn [length]. destruct (p x); cbn [Z.b2z]; lia. Qed.
Lemma count_zero p l : count p l = 0 <-> forall i x, l !! i = Some x -> p x = false.
Proof.
  induction l as [|y l IH]; [done|]. rewrite count_cons. pose proof (count_le p l). split.
  - intros H0 [|i] x E; cbn in E; [injection E as <-; destruct (p y); cbn [Z.b2z] in H0; [lia|done]|].
    apply (proj1 IH) in E; [done|]. destruct (p y); cbn [Z.b2z] in H0; lia.
  - intros H0. rewrite (proj2 IH) by (intros i x E; by apply (H0 (S i))). by rewrite (H0 O y eq_refl).
Qed.
Lemma count_pos p l i x : l !! i = Some x -> p x = true -> 0 < count p l.
Proof.
  intros E Hp. pose proof (count_le p l). destruct (Z.eq_dec (count p l) 0) as [H0|]; [|lia]. rewrite count_zero in H0. specialize (H0 i x E). congruence.
Qed.
Lemma count_two p l i k x y : l !! i = Some x -> l !! k = Some y -> i <> k -> p x = true -> p y = true -> 2 <= count p l.
Proof.
  revert i k. induction l as [|z l IH]; intros i k Ei Ek Hne Hx Hy; [done|]. rewrite count_cons. pose proof (count_le p l).
  destruct i as [|i], k as [|k]; cbn in Ei, Ek; [done| | |].
  - injection Ei as ->. pose proof (count_pos p l k y Ek Hy). rewrite Hx. cbn [Z.b2z]. lia.
  - injection Ek as ->. pose proof (count_pos p l i x Ei Hx). rewrite Hy. cbn [Z.b2z]. lia.
  - assert (2 <= count p l) by (apply (IH i k); auto). destruct (p z); cbn [Z.b2z]; lia.
Qed.
Lemma count_found p l : 0 < count p l -> exists i x, l !! i = Some x /\ p x = true.
Proof.
  induction l as [|y l IH]; [done|]. rewrite count_cons. destruct (p y) eqn:E; [exists O, y; done|]. cbn [Z.b2z]. intros H.
  destruct IH as (i & x & Hx & Hp); [lia|]. by exists (S i), x.
Qed.
End counting.
End Counting.
