(* ===== verification/RunJobs.v ===== *)
(** * Running the jobs

    [src/backend.c]: [run_threads] and [reap_threads], with [fio_terminate_threads] of
    [src/libfio.c] and what [thread_main] does to the state of its job.  The thread that
    runs [run_threads] and the jobs take turns: a step of the main thread looks at one
    job, a step of a job changes its own state.  What the system calls answer is an
    input of the step.

    [kill] is left out: a process that it ends is one for which [waitpid] answers. *)
From S2P Require Import Prelude Counting.
From stdpp Require Import list.
From Stdlib Require Import ZifyBool.
Local Open Scope Z_scope.

Module RunJobs.
Import Counting.

(** ** Data *)
Inductive runstate :=
  | TD_NOT_CREATED | TD_CREATED | TD_INITIALIZED | TD_RAMP | TD_RUNNING | TD_PRE_READING | TD_VERIFYING | TD_FSYNCING
  | TD_EXITED | TD_REAPED.
#[export] Instance runstate_eq_dec : EqDecision runstate.
Proof. solve_decision. Defined.

Record job := {
  state : runstate; pid : Z; terminate : bool; start_delay : Z; stonewall : bool; use_thread : bool;
  sum_rate : Z; sum_ratemin : Z;         (* of both directions *)
  error : Z; group : Z; cpuio : bool;    (* its engine is open, and is "cpuio" *)
  has_thread : bool; td_mutex : bool }.  (* there is a thread; [td->mutex] is up *)
#[export] Instance eta_job : Eta job := fun j =>
  Build_job (state j) (pid j) (terminate j) (start_delay j) (stonewall j) (use_thread j) (sum_rate j) (sum_ratemin j)
    (error j) (group j) (cpuio j) (has_thread j) (td_mutex j).

(** Where the main thread is.  [map] holds the jobs made in this round. *)
Inductive position :=
  | Create (i : nat) (map : list (option nat))
  | WaitUp (i : nat) (map : list (option nat))
  | PollHead (map : list (option nat))
  | PollAt (k : nat) (map : list (option nat))
  | Start (i : nat)
  | Reap (last : bool) (i : nat) (cputhreads realthreads pending : Z)
  | LastHead
  | Done.

Record sys := {
  jobs : list job; todo : Z; nr_running : Z; nr_started : Z; t_rate : Z; m_rate : Z;
  exit_value : Z; fio_abort : bool; startup_mutex : Z; groupid : Z; at_ : position }.
#[export] Instance eta_sys : Eta sys := fun y =>
  Build_sys (jobs y) (todo y) (nr_running y) (nr_started y) (t_rate y) (m_rate y) (exit_value y) (fio_abort y)
    (startup_mutex y) (groupid y) (at_ y).

(** What [waitpid] answers: nothing yet, [ECHILD], another error, or the job has ended
    by a signal or with a status. *)
Inductive waited := Alive | Disappeared | WaitFailed | Signalled | Ended (status : Z).
Record input := { delay_over : bool; create_ok : bool; timed_out : bool; in_ramp : bool; waitpid : waited }.

(** ** [fio_terminate_threads] *)
Definition TERMINATE_ALL : Z := -1.
Definition terminate_job (group_id last_group : Z) (j : job) : job :=
  if (group_id =? TERMINATE_ALL) || (last_group =? group j) then j <| terminate := true |> <| start_delay := 0 |> else j.
Definition fio_terminate_threads (group_id : Z) (y : sys) : sys :=
  y <| jobs ::= map (terminate_job group_id (groupid y)) |>.

(** ** The main thread *)
Definition set_job (i : nat) (f : job -> job) (y : sys) : sys := y <| jobs ::= alter f i |>.
Definition left_of (m : list (option nat)) : nat := length (filter (fun x => is_Some x) m).

(** Creating jobs. *)
Definition create_step (inp : input) (i : nat) (m : list (option nat)) (y : sys) : sys :=
  match jobs y !! i with
  | None => y <| at_ := PollHead m |>
  | Some j =>
      let next := y <| at_ := Create (S i) m |> in
      if negb (bool_decide (state j = TD_NOT_CREATED)) then next
      else if terminate j then next <| todo ::= fun t => u32 (t - 1) |>
      else if negb (start_delay j =? 0) && negb (delay_over inp) then next
      else if stonewall j && (negb (nr_started y =? 0) || negb (nr_running y =? 0)) then y <| at_ := PollHead m |>
      else
        let m := m ++ [Some i] in
        let y := set_job i (fun j => j <| state := TD_CREATED |>) y <| nr_started ::= fun n => u32 (n + 1) |> in
        if use_thread j && negb (create_ok inp) then y <| nr_started ::= fun n => u32 (n - 1) |> <| at_ := PollHead m |>
        else set_job i (fun j => j <| has_thread := true |>) y <| at_ := WaitUp i m |>
  end.
Definition wait_up_step (inp : input) (i : nat) (m : list (option nat)) (y : sys) : option sys :=
  if timed_out inp then
    Some (fio_terminate_threads TERMINATE_ALL y <| fio_abort := true |> <| nr_started ::= fun n => u32 (n - 1) |> <| at_ := PollHead m |>)
  else if startup_mutex y >? 0 then Some (y <| startup_mutex ::= Z.pred |> <| at_ := Create (S i) m |>)
  else None.

(** Waiting for the jobs that were created. *)
Definition poll_head_step (inp : input) (m : list (option nat)) (y : sys) : sys :=
  if negb (left_of m =? 0)%nat && negb (fio_abort y) && negb (timed_out inp) then y <| at_ := PollAt 0 m |>
  else if negb (left_of m =? 0)%nat then y <| at_ := LastHead |>
  else y <| at_ := Start 0 |>.
Definition poll_step (k : nat) (m : list (option nat)) (y : sys) : sys :=
  match m !! k with
  | None => y <| at_ := PollHead m |>
  | Some None => y <| at_ := PollAt (S k) m |>
  | Some (Some i) =>
      match state <$> jobs y !! i with
      | Some TD_INITIALIZED => y <| at_ := PollAt (S k) (<[k := None]> m) |>
      | Some (TD_EXITED | TD_REAPED) =>
          y <| todo ::= fun t => u32 (t - 1) |> <| nr_running ::= fun n => u32 (n + 1) |> <| at_ := PollAt (S k) (<[k := None]> m) |>
      | _ => y <| at_ := PollAt (S k) m |>
      end
  end.

(** Starting the jobs that are initialised. *)
Definition start_step (inp : input) (i : nat) (y : sys) : sys :=
  match jobs y !! i with
  | None => y <| at_ := Reap false 0 0 0 0 |>
  | Some j =>
      let next := y <| at_ := Start (S i) |> in
      if negb (bool_decide (state j = TD_INITIALIZED)) then next
      else set_job i (fun j => j <| state := if in_ramp inp then TD_RAMP else TD_RUNNING |> <| td_mutex := true |>) next
             <| nr_running ::= fun n => u32 (n + 1) |> <| nr_started ::= fun n => u32 (n - 1) |>
             <| m_rate ::= fun r => u32 (r + sum_ratemin j) |> <| t_rate ::= fun r => u32 (r + sum_rate j) |>
             <| todo ::= fun t => u32 (t - 1) |>
  end.

(** [reap_threads]: whether job [j] has ended, and its error. *)
Definition reaped (inp : input) (j : job) : option Z :=
  if use_thread j then (if bool_decide (state j = TD_EXITED) then Some (error j) else None)
  else match waitpid inp with
       | Disappeared | Signalled => Some (error j)
       | Ended st => Some (if negb (st =? 0) && (error j =? 0) then st else error j)
       | Alive | WaitFailed => None
       end.
Definition reap_step (inp : input) (last : bool) (i : nat) (cpu real pending : Z) (y : sys) : sys :=
  match jobs y !! i with
  | None =>
      let y := if (nr_running y =? cpu) && (pending =? 0) && negb (real =? 0) then fio_terminate_threads TERMINATE_ALL y else y in
      y <| at_ := if last then LastHead else if todo y =? 0 then LastHead else Create 0 [] |>
  | Some j =>
      let cpu := if cpuio j then u32 (cpu + 1) else cpu in
      let real := if cpuio j then real else u32 (real + 1) in
      if pid j =? 0 then y <| at_ := Reap last (S i) cpu real (u32 (pending + 1)) |>
      else if bool_decide (state j = TD_REAPED) then y <| at_ := Reap last (S i) cpu real pending |>
      else match reaped inp j with
           | Some e =>
               set_job i (fun j => j <| state := TD_REAPED |> <| error := e |>) y
                 <| nr_running ::= fun n => u32 (n - 1) |> <| m_rate ::= fun r => u32 (r - sum_ratemin j) |>
                 <| t_rate ::= fun r => u32 (r - sum_rate j) |>
                 <| exit_value ::= fun v => if e =? 0 then v else v + 1 |> <| at_ := Reap last (S i) cpu real pending |>
           | None => y <| at_ := Reap last (S i) cpu real (if use_thread j then pending else u32 (pending + 1)) |>
           end
  end.
Definition last_head_step (y : sys) : sys :=
  y <| at_ := if nr_running y =? 0 then Done else Reap true 0 0 0 0 |>.

(** [None]: the main thread waits, or is done. *)
Definition main_step (inp : input) (y : sys) : option sys :=
  match at_ y with
  | Create i m => Some (create_step inp i m y)
  | WaitUp i m => wait_up_step inp i m y
  | PollHead m => Some (poll_head_step inp m y)
  | PollAt k m => Some (poll_step k m y)
  | Start i => Some (start_step inp i y)
  | Reap last i c r p => Some (reap_step inp last i c r p y)
  | LastHead => Some (last_head_step y)
  | Done => None
  end.

(** ** The jobs *)
Definition runs (s : runstate) : bool :=
  match s with TD_RAMP | TD_RUNNING | TD_PRE_READING | TD_VERIFYING | TD_FSYNCING => true | _ => false end.
Definition job_init (p : Z) (j : job) : job := j <| state := TD_INITIALIZED |> <| pid := p |>.
Definition job_end (e : Z) (j : job) : job := j <| state := TD_EXITED |> <| error := e |> <| cpuio := false |>.
(** The start of [thread_main], up to the wait on [td->mutex]; a change of state; and
    the end, which takes the group along if [exitall] was given. *)
Inductive job_event := JInit (p : Z) | JState (s : runstate) | JExit (e : Z) (exitall : bool).
Definition job_step (i : nat) (e : job_event) (y : sys) : option sys :=
  j ← jobs y !! i;
  match e with
  | JInit p =>
      if bool_decide (state j = TD_CREATED) && has_thread j && (0 <? p)
      then Some (set_job i (job_init p) y <| startup_mutex ::= Z.succ |>) else None
  | JState s => if runs (state j) && td_mutex j && runs s then Some (set_job i (fun j => j <| state := s |>) y) else None
  | JExit e exitall =>
      if runs (state j) && td_mutex j
      then let y := if exitall : bool then fio_terminate_threads (group j) y else y in
           Some (set_job i (job_end e) y)
      else None
  end.

(** ** Runs *)

(** The table when the files are set up: jobs whose files could not be made are
    [TD_REAPED]. *)
Definition new_job (j : job) : Prop :=
  (state j = TD_NOT_CREATED \/ state j = TD_REAPED) /\ pid j = 0 /\ terminate j = false /\ has_thread j = false /\ td_mutex j = false.
Definition waiting (j : job) : bool := bool_decide (state j = TD_NOT_CREATED).
Definition starting (j : job) : bool := bool_decide (state j = TD_CREATED \/ state j = TD_INITIALIZED).
Definition running (j : job) : bool := runs (state j) || bool_decide (state j = TD_EXITED).
Definition init_sys (js : list job) (last_group : Z) : sys :=
  let todo := count waiting js in
  Build_sys js todo 0 0 0 0 (Z.of_nat (length js) - todo) false 0 last_group (if todo =? 0 then LastHead else Create 0 []).

(** Any of the threads takes a step, or a signal ends all jobs. *)
Inductive event := Main (inp : input) | Job (i : nat) (e : job_event) | Signal.
Definition step (y : sys) (e : event) : option sys :=
  match e with
  | Main inp => main_step inp y
  | Job i e => job_step i e y
  | Signal => Some (fio_terminate_threads TERMINATE_ALL y <| exit_value := 128 |>)
  end.
Inductive reachable (allowed : event -> Prop) (y0 : sys) : sys -> Prop :=
  | reach_init : reachable allowed y0 y0
  | reach_step y e y' : reachable allowed y0 y -> allowed e -> step y e = Some y' -> reachable allowed y0 y'.
(** Nothing goes wrong: threads are made, no wait is timed out, nobody ends the others. *)
Definition clean (e : event) : Prop :=
  match e with
  | Main inp => create_ok inp = true /\ timed_out inp = false
  | Job _ (JExit _ exitall) => exitall = false
  | Job _ _ => True
  | Signal => False
  end.

(** * Properties *)

Lemma u32_small x : 0 <= x < 2 ^ 32 -> u32 x = x.
Proof. apply wrap_small. Qed.

(** The states of a job are three phases, and [TD_REAPED]. *)
Definition weight (p : job -> bool) (v : job -> Z) (j : job) : Z := if p j then v j else 0.
Definition rate_sum (js : list job) : Z := total (weight running sum_rate) js.
Definition ratemin_sum (js : list job) : Z := total (weight running sum_ratemin) js.

(** ** The counters *)
Record counters (y : sys) : Prop := {
  c_jobs : Z.of_nat (length (jobs y)) < 2 ^ 31;
  c_running : nr_running y = count running (jobs y);
  c_started : nr_started y = count starting (jobs y);
  c_todo : todo y = count waiting (jobs y) + count starting (jobs y);
  c_rate : t_rate y = u32 (rate_sum (jobs y));
  c_ratemin : m_rate y = u32 (ratemin_sum (jobs y)) }.

(** A job changes its phase, and nothing else that is counted. *)
Definition same_rates (j j' : job) : Prop := sum_rate j' = sum_rate j /\ sum_ratemin j' = sum_ratemin j.
Lemma counters_change y y' i j f : counters y -> jobs y !! i = Some j -> jobs y' = alter f i (jobs y) -> same_rates j (f j) ->
  nr_running y' = u32 (nr_running y - Z.b2z (running j) + Z.b2z (running (f j))) ->
  nr_started y' = u32 (nr_started y - Z.b2z (starting j) + Z.b2z (starting (f j))) ->
  todo y' = u32 (todo y - Z.b2z (waiting j) - Z.b2z (starting j) + Z.b2z (waiting (f j)) + Z.b2z (starting (f j))) ->
  t_rate y' = u32 (t_rate y - weight running sum_rate j + weight running sum_rate (f j)) ->
  m_rate y' = u32 (m_rate y - weight running sum_ratemin j + weight running sum_ratemin (f j)) -> counters y'.
Proof.
  intros [C0 C1 C2 C3 C4 C5] E Ej [R1 R2] N1 N2 N3 N4 N5.
  assert (T : forall p, count p (jobs y') = count p (jobs y) - Z.b2z (p j) + Z.b2z (p (f j))).
  { intros p. unfold count. rewrite Ej. by apply (total_alter (fun j => Z.b2z (p j))). }
  assert (B : forall p, 0 <= count p (jobs y') < 2 ^ 31).
  { intros p. pose proof (count_le p (jobs y')) as Hc. rewrite Ej, length_alter in Hc. rewrite Ej. lia. }
  pose proof (T running) as T1. pose proof (T starting) as T2. pose proof (T waiting) as T3. pose proof (B running). pose proof (B starting). pose proof (B waiting).
  split.
  - rewrite Ej, length_alter. done.
  - rewrite N1, C1, <- T1. apply u32_small. lia.
  - rewrite N2, C2, <- T2. apply u32_small. lia.
  - rewrite N3, C3. rewrite u32_small; lia.
  - rewrite N4, C4. unfold rate_sum. rewrite Ej, (total_alter _ f _ i j E). unfold wrap. Z.to_euclidean_division_equations; nia.
  - rewrite N5, C5. unfold ratemin_sum. rewrite Ej, (total_alter _ f _ i j E). unfold wrap. Z.to_euclidean_division_equations; nia.
Qed.

(** ** The places of the main thread *)
Section clean.
Context (js0 : list job).
Definition active (j : job) : bool := starting j || running j.
Definition delayed (i : nat) : Prop := exists j0, js0 !! i = Some j0 /\ start_delay j0 <> 0.
Definition walled (i : nat) : Prop := exists j0, js0 !! i = Some j0 /\ stonewall j0 = true.

(** What is fixed of a job, and what follows from its state. *)
Record job_ok (i : nat) (j : job) : Prop := {
  o_static : exists j0, js0 !! i = Some j0 /\ stonewall j = stonewall j0 /\ (waiting j = true -> start_delay j = start_delay j0);
  o_pid : waiting j = true -> pid j = 0;
  o_term : terminate j = true -> waiting j = false }.

(** The jobs made in this round. *)
Definition round (m : list (option nat)) (js : list job) : Prop :=
  (forall k, Some k ∈ m -> exists j, js !! k = Some j /\ starting j = true) /\
  (forall k j, js !! k = Some j -> state j = TD_CREATED -> Some k ∈ m).
(** The jobs that were passed over. *)
Definition passed (i : nat) (js : list job) : Prop := forall k j, (k < i)%nat -> js !! k = Some j -> waiting j = true -> delayed k.

Definition place_ok (y : sys) : Prop :=
  let js := jobs y in
  match at_ y with
  | Create i m => round m js /\ passed i js
  | WaitUp i m => round m js /\ passed (S i) js
  | PollHead m | PollAt _ m => round m js
  | Start i => forall k j, js !! k = Some j -> state j <> TD_CREATED /\ (state j = TD_INITIALIZED -> (i <= k)%nat)
  | Reap last i _ _ p =>
      count starting js = 0 /\ (last = true -> count waiting js = 0) /\ 0 <= p <= Z.of_nat i /\
      forall k j, (k < i)%nat -> js !! k = Some j -> waiting j = true -> 0 < p
  | LastHead => count starting js = 0 /\ count waiting js = 0
  | Done => count starting js = 0 /\ count waiting js = 0 /\ count running js = 0
  end.

(** Jobs that run at the same time. *)
Record apart (js : list job) : Prop := {
  a_wait i s j k : (i < s)%nat -> js !! i = Some j -> js !! s = Some k -> active k = true -> waiting j = true -> delayed i;
  a_wall i s j k : (i < s)%nat -> js !! i = Some j -> js !! s = Some k -> active j = true -> active k = true -> walled s -> delayed i }.

Record inv (y : sys) : Prop := {
  v_counters : counters y;
  v_jobs i j : jobs y !! i = Some j -> job_ok i j;
  v_abort : fio_abort y = false;
  v_apart : apart (jobs y);
  v_place : place_ok y }.

Lemma phases j : (if waiting j then 1 else 0) + (if starting j then 1 else 0) + (if running j then 1 else 0) + (if bool_decide (state j = TD_REAPED) then 1 else 0) = 1.
Proof. unfold waiting, starting, running. destruct (state j); reflexivity. Qed.

(** A change of one job within its phase or to a later one. *)
Definition later (j j' : job) : Prop :=
  stonewall j' = stonewall j /\ (waiting j' = true -> waiting j = true /\ start_delay j' = start_delay j /\ pid j' = pid j) /\
  (terminate j' = true -> terminate j = true).
Lemma job_ok_later i j j' : later j j' -> job_ok i j -> job_ok i j'.
Proof.
  intros (L1 & L2 & L3) [(j0 & S1 & S2 & S3) P T]. split.
  - exists j0. split; [done|]. split; [congruence|]. intros Hw. destruct (L2 Hw) as (Hw' & -> & _). auto.
  - intros Hw. destruct (L2 Hw) as (Hw' & _ & ->). auto.
  - intros Ht. destruct (waiting j') eqn:Hw; [|done]. destruct (L2 eq_refl) as (Hw' & _). specialize (T (L3 Ht)). congruence.
Qed.
Lemma lookup_alter_inv (js : list job) f i k x : alter f i js !! k = Some x ->
  (k = i /\ exists j, js !! i = Some j /\ x = f j) \/ (k <> i /\ js !! k = Some x).
Proof.
  destruct (decide (k = i)) as [->|Hne].
  - rewrite list_lookup_alter_eq. destruct (js !! i) as [j|] eqn:E; cbn; [|done]. intros [= <-]. left. eauto.
  - rewrite list_lookup_alter_ne by done. auto.
Qed.
Lemma jobs_ok_alter (js : list job) f i j : (forall k x, js !! k = Some x -> job_ok k x) -> js !! i = Some j -> later j (f j) ->
  forall k x, alter f i js !! k = Some x -> job_ok k x.
Proof.
  intros H E L k x Hx. apply lookup_alter_inv in Hx as [(-> & j' & E' & ->)|(_ & Hx)]; [|auto].
  rewrite E in E'. injection E' as <-. eapply job_ok_later; eauto.
Qed.

(** A job that is active stays so, or is reaped. *)
Lemma apart_alter (js : list job) f i j : apart js -> js !! i = Some j -> (active (f j) = true -> active j = true) -> (waiting (f j) = true -> waiting j = true) ->
  apart (alter f i js).
Proof.
  intros [A1 A2] E Ha Hw.
  assert (L : forall k x, alter f i js !! k = Some x -> exists x0, js !! k = Some x0 /\ (active x = true -> active x0 = true) /\ (waiting x = true -> waiting x0 = true)).
  { intros k x Hx. apply lookup_alter_inv in Hx as [(-> & j' & E' & ->)|(_ & Hx)]; [|eauto]. rewrite E in E'. injection E' as <-. eauto. }
  split.
  - intros a s x k Hlt Hx Hk Hact Hwx. destruct (L _ _ Hx) as (x0 & Hx0 & _ & W). destruct (L _ _ Hk) as (k0 & Hk0 & Ac & _). eapply A1; eauto.
  - intros a s x k Hlt Hx Hk Hax Hak Hwall. destruct (L _ _ Hx) as (x0 & Hx0 & W & _). destruct (L _ _ Hk) as (k0 & Hk0 & Ac & _). eapply A2; eauto.
Qed.
(** A job is created. *)
Lemma apart_create (js : list job) f i j : apart js -> js !! i = Some j -> waiting j = true -> waiting (f j) = false -> passed i js ->
  (walled i -> forall k x, js !! k = Some x -> active x = false) -> apart (alter f i js).
Proof.
  intros [A1 A2] E Hw Hf Hp Hwl. split.
  - intros a s x k Hlt Hx Hk Hact Hwx. apply lookup_alter_inv in Hx as [(-> & j' & E' & ->)|(Hne & Hx)]; [rewrite E in E'; injection E' as <-; congruence|].
    apply lookup_alter_inv in Hk as [(-> & j' & E' & ->)|(Hne' & Hk)]; [by eapply Hp|by eapply A1].
  - intros a s x k Hlt Hx Hk Hax Hak Hwall. apply lookup_alter_inv in Hx as [(-> & j' & E' & ->)|(Hne & Hx)].
    + apply lookup_alter_inv in Hk as [(-> & _)|(Hne' & Hk)]; [lia|]. rewrite E in E'. injection E' as <-. by eapply (A1 i s j k).
    + apply lookup_alter_inv in Hk as [(-> & j' & E' & ->)|(Hne' & Hk)]; [|by eapply A2]. rewrite (Hwl Hwall _ _ Hx) in Hax. done.
Qed.

(** ** Steps *)

(** Only the place changes. *)
Lemma inv_move y p : inv y -> place_ok (y <| at_ := p |>) -> inv (y <| at_ := p |>).
Proof. intros [C J A P _] Hp. destruct y. cbn in *. split; try done. destruct C. by split. Qed.

Lemma create_ok_step inp i m y : inv y -> at_ y = Create i m -> create_ok inp = true -> inv (create_step inp i m y).
Proof.
  intros Hv Hat Hc. pose proof Hv as [C J A P V]. unfold place_ok in V. rewrite Hat in V. destruct V as [[R1 R2] V].
  unfold create_step. destruct (jobs y !! i) as [j|] eqn:E; [|apply inv_move; [done|]; destruct y; done].
  assert (Next : (waiting j = true -> delayed i) -> inv (y <| at_ := Create (S i) m |>)).
  { intros Hd. apply inv_move; [done|]. split; [by destruct y|]. intros k x Hk Hx Hw. replace (jobs _) with (jobs y) in Hx by (by destruct y).
    destruct (decide (k = i)) as [->|]; [rewrite E in Hx; injection Hx as <-; auto|]. apply (V k x); [lia|done|done]. }
  destruct (J i j E) as [(j0 & S1 & S2 & S3) Pd T].
  destruct (bool_decide (state j = TD_NOT_CREATED)) eqn:Ew; cbn [negb].
  2:{ apply Next. unfold waiting. by rewrite Ew. }
  assert (Hw : waiting j = true) by exact Ew.
  destruct (terminate j) eqn:Et; [specialize (T eq_refl); congruence|].
  destruct (negb (start_delay j =? 0) && negb (delay_over inp)) eqn:Ed.
  { apply Next. intros _. exists j0. split; [done|]. rewrite <- S3 by done. lia. }
  destruct (stonewall j && (negb (nr_started y =? 0) || negb (nr_running y =? 0))) eqn:Es; [apply inv_move; [done|]; by destruct y|].
  assert (Sw : stonewall j = true -> nr_started y = 0 /\ nr_running y = 0) by (intros Hs; rewrite Hs in Es; clear -Es; lia). clear Es Ed Next.
  rewrite Hc. rewrite Bool.andb_false_r. apply bool_decide_eq_true in Ew.
  set (f := fun j : job => j <| state := TD_CREATED |> <| has_thread := true |>).
  match goal with |- inv ?z => set (y' := z) end.
  assert (Ej : jobs y' = alter f i (jobs y)).
  { subst y' f. destruct y. cbn. by rewrite list_alter_alter_eq. }
  assert (F : starting (f j) = true /\ running (f j) = false /\ waiting (f j) = false /\ same_rates j (f j) /\ later j (f j) /\ starting j = false /\ running j = false).
  { subst f. unfold starting, running, waiting. destruct j. cbn in *. subst. done. }
  destruct F as (F1 & F2 & F3 & F4 & F5 & F6 & F7).
  split.
  - apply (counters_change y y' i j f C E Ej F4); unfold weight; rewrite ?F1, ?F2, ?F3, ?F6, ?F7, ?Hw; subst y'; destruct C as [C0 C1 C2 C3 C4 C5];
      pose proof (count_le waiting (jobs y)); pose proof (count_le starting (jobs y)); pose proof (count_le running (jobs y)); destruct y; cbn in *; rewrite ?Z.sub_0_r, ?Z.add_0_r; try done.
    + subst. symmetry. apply u32_small. lia.
    + rewrite u32_small; lia.
    + subst. symmetry. apply wrap_wrap. lia.
    + subst. symmetry. apply wrap_wrap. lia.
  - rewrite Ej. by apply (jobs_ok_alter _ _ _ j).
  - subst y'. by destruct y.
  - rewrite Ej. apply (apart_create _ _ _ j); try done. intros (x0 & X1 & X2). rewrite S1 in X1. injection X1 as <-. rewrite X2 in S2.
    pose proof (Sw S2) as Z1. destruct C as [_ C1 C2 _ _ _]. rewrite C1, C2, !count_zero in Z1. destruct Z1 as [Z1 Z2].
    intros k x Hx. unfold active. by rewrite (Z1 k x Hx), (Z2 k x Hx).
  - unfold place_ok. replace (at_ y') with (WaitUp i (m ++ [Some i])) by (subst y'; by destruct y). rewrite Ej. split; [split|].
    + intros k Hk. apply elem_of_app in Hk as [Hk|Hk].
      * destruct (R1 k Hk) as (x & Hx & Sx). assert (k <> i) by (intros ->; congruence). exists x. by rewrite list_lookup_alter_ne.
      * apply list_elem_of_singleton in Hk as [= ->]. exists (f j). split; [|done]. by rewrite list_lookup_alter_eq, E.
    + intros k x Hx Hs. apply elem_of_app. apply lookup_alter_inv in Hx as [(-> & _)|(_ & Hx)]; [right; by left|left; eauto].
    + intros k x Hk Hx Hwx. apply lookup_alter_inv in Hx as [(-> & j' & E' & ->)|(Hne & Hx)]; [rewrite E in E'; injection E' as <-; congruence|].
      apply (V k x); [clear -Hk Hne; lia|done|done].
Qed.

Lemma wait_up_ok inp i m y y' : inv y -> at_ y = WaitUp i m -> timed_out inp = false -> wait_up_step inp i m y = Some y' -> inv y'.
Proof.
  intros Hv Hat Ht. unfold wait_up_step. rewrite Ht. destruct (_ >? 0); [|done]. intros [= <-].
  pose proof Hv as [C J A P V]. unfold place_ok in V. rewrite Hat in V. destruct y. cbn in *. destruct C. by split.
Qed.

Lemma left_zero m : left_of m = O -> forall k, Some k ∉ m.
Proof.
  unfold left_of. intros H k Hk. assert (Hin : Some k ∈ filter (fun x : option nat => is_Some x) m) by (apply list_elem_of_filter; eauto).
  destruct (filter _ m); [by apply not_elem_of_nil in Hin|done].
Qed.
Lemma poll_head_ok inp m y : inv y -> at_ y = PollHead m -> timed_out inp = false -> inv (poll_head_step inp m y).
Proof.
  intros Hv Hat Ht. pose proof Hv as [C J A P V]. unfold place_ok in V. rewrite Hat in V. unfold poll_head_step. rewrite Ht, A. cbn [negb]. rewrite !Bool.andb_true_r.
  destruct (Nat.eqb_spec (left_of m) 0) as [E|E]; cbn [negb]; apply inv_move; try done. destruct V as [R1 R2].
  pose proof (left_zero m E) as Hn. unfold place_ok. replace (jobs _) with (jobs y) by (by destruct y). replace (at_ _) with (Start 0) by (by destruct y).
  intros k j Hj. split; [|lia]. intros Hs. by apply (Hn k), (R2 k j).
Qed.
Lemma elem_clear (m : list (option nat)) k x : Some x ∈ <[k := None]> m -> Some x ∈ m.
Proof.
  intros H. apply list_elem_of_lookup in H as [i Hi]. destruct (decide (i = k)) as [->|Hne].
  - destruct (decide (k < length m)%nat); [by rewrite list_lookup_insert_eq in Hi|rewrite list_insert_ge in Hi by lia; by eapply list_elem_of_lookup_2].
  - rewrite list_lookup_insert_ne in Hi by done. by eapply list_elem_of_lookup_2.
Qed.
Lemma poll_ok k m y : inv y -> at_ y = PollAt k m -> inv (poll_step k m y).
Proof.
  intros Hv Hat. pose proof Hv as [C J A P V]. unfold place_ok in V. rewrite Hat in V. destruct V as [R1 R2].
  assert (Same : forall p, (p = PollHead m \/ p = PollAt (S k) m) -> inv (y <| at_ := p |>)).
  { intros p Hp. apply inv_move; [done|]. destruct Hp as [-> | ->]; destruct y; done. }
  unfold poll_step. destruct (m !! k) as [[i|]|] eqn:E; [|apply Same; auto|apply Same; auto].
  destruct (R1 i) as (j & Ej & Sj); [by eapply list_elem_of_lookup_2|]. rewrite Ej. cbn.
  unfold starting in Sj. apply bool_decide_eq_true in Sj. destruct Sj as [Sj|Sj]; rewrite Sj; [apply Same; auto|].
  apply inv_move; [done|]. unfold place_ok. replace (jobs _) with (jobs y) by (by destruct y). replace (at_ _) with (PollAt (S k) (<[k := None]> m)) by (by destruct y).
  split; [intros q Hq; apply R1; by eapply elem_clear|]. intros q x Hx Hs. specialize (R2 q x Hx Hs). apply list_elem_of_lookup in R2 as [n Hn].
  apply (list_elem_of_lookup_2 _ n). rewrite list_lookup_insert_ne; [done|]. intros ->. rewrite E in Hn. injection Hn as ->. congruence.
Qed.

Lemma start_ok inp i y : inv y -> at_ y = Start i -> inv (start_step inp i y).
Proof.
  intros Hv Hat. pose proof Hv as [C J A P V]. unfold place_ok in V. rewrite Hat in V. unfold start_step.
  destruct (jobs y !! i) as [j|] eqn:E.
  2:{ apply inv_move; [done|]. unfold place_ok. replace (jobs _) with (jobs y) by (by destruct y). replace (at_ _) with (Reap false 0 0 0 0) by (by destruct y).
      split_and!; try done; [|intros; lia]. apply count_zero. intros k x Hx. destruct (V k x Hx) as [V1 V2]. unfold starting. apply bool_decide_eq_false. intros [?|Hs]; [done|].
      specialize (V2 Hs). apply lookup_lt_Some in Hx. apply lookup_ge_None in E. lia. }
  destruct (bool_decide_reflect (state j = TD_INITIALIZED)) as [Es|Es]; cbn [negb].
  2:{ apply inv_move; [done|]. unfold place_ok. replace (jobs _) with (jobs y) by (by destruct y). replace (at_ _) with (Start (S i)) by (by destruct y).
      intros k x Hx. destruct (V k x Hx) as [V1 V2]. split; [done|]. intros Hs. specialize (V2 Hs). destruct (decide (k = i)) as [->|]; [congruence|lia]. }
  set (f := fun j : job => j <| state := if in_ramp inp then TD_RAMP else TD_RUNNING |> <| td_mutex := true |>).
  match goal with |- inv ?z => set (y' := z) end. assert (Ej : jobs y' = alter f i (jobs y)) by (subst y'; by destruct y).
  assert (F : starting (f j) = false /\ running (f j) = true /\ waiting (f j) = false /\ same_rates j (f j) /\ later j (f j) /\ starting j = true /\ running j = false /\ waiting j = false).
  { subst f. unfold starting, running, waiting. destruct j. cbn in *. subst. by destruct (in_ramp inp). }
  destruct F as (F1 & F2 & F3 & F4 & F5 & F6 & F7 & F8). split.
  - apply (counters_change y y' i j f C E Ej F4); unfold weight; rewrite ?F1, ?F2, ?F3, ?F6, ?F7, ?F8, ?(proj1 F4), ?(proj2 F4); subst y'; destruct y; cbn; f_equal; lia.
  - rewrite Ej. by apply (jobs_ok_alter _ _ _ j).
  - subst y'. by destruct y.
  - rewrite Ej. apply (apart_alter _ _ _ j); try done; [|by rewrite F3]. intros _. unfold active. by rewrite F6.
  - unfold place_ok. rewrite Ej. replace (at_ y') with (Start (S i)) by (subst y'; by destruct y). intros k x Hx.
    apply lookup_alter_inv in Hx as [(-> & j' & E' & ->)|(Hne & Hx)].
    + rewrite E in E'. injection E' as <-. unfold starting in F1. apply bool_decide_eq_false in F1. split; [tauto|]. intros ?. tauto.
    + destruct (V k x Hx) as [V1 V2]. split; [done|]. intros Hs. specialize (V2 Hs). lia.
Qed.

(** A change that leaves the states alone. *)
Lemma terminate_state g l j : state (terminate_job g l j) = state j /\ pid (terminate_job g l j) = pid j /\ stonewall (terminate_job g l j) = stonewall j /\
  sum_rate (terminate_job g l j) = sum_rate j /\ sum_ratemin (terminate_job g l j) = sum_ratemin j.
Proof. unfold terminate_job. destruct (_ || _); by destruct j. Qed.
(** Nobody waits any more: all jobs can be told to end. *)
Lemma terminate_ok y : inv y -> count waiting (jobs y) = 0 -> inv (fio_terminate_threads TERMINATE_ALL y).
Proof.
  intros [C J A P V] Hw. set (t := terminate_job TERMINATE_ALL (groupid y)).
  assert (Ej : jobs (fio_terminate_threads TERMINATE_ALL y) = map t (jobs y)) by (by destruct y).
  assert (S : forall j, state (t j) = state j) by (intros j; apply terminate_state).
  assert (W : forall j, waiting (t j) = waiting j /\ starting (t j) = starting j /\ running (t j) = running j) by (intros j; unfold waiting, starting, running; by rewrite S).
  assert (L : forall k x, map t (jobs y) !! k = Some x -> exists x0, jobs y !! k = Some x0 /\ x = t x0).
  { intros k x Hx. rewrite list_lookup_fmap in Hx. destruct (jobs y !! k) as [x0|]; cbn in Hx; [|done]. injection Hx as <-. eauto. }
  assert (T : forall p, (forall j, p (t j) = p j) -> count p (map t (jobs y)) = count p (jobs y)) by (intros p Hp; apply total_map; intros j; by rewrite Hp).
  split.
  - destruct C as [C0 C1 C2 C3 C4 C5]. set (y' := fio_terminate_threads TERMINATE_ALL y) in *.
    assert (N : nr_running y' = nr_running y /\ nr_started y' = nr_started y /\ todo y' = todo y /\ t_rate y' = t_rate y /\ m_rate y' = m_rate y) by (by destruct y).
    destruct N as (N1 & N2 & N3 & N4 & N5).
    assert (R : forall v, (forall j, v (t j) = v j) -> total (weight running v) (map t (jobs y)) = total (weight running v) (jobs y)).
    { intros v Hv. apply total_map. intros j. unfold weight. destruct (W j) as (_ & _ & ->). by rewrite Hv. }
    split; rewrite Ej.
    + by rewrite length_map.
    + rewrite T by apply W. congruence.
    + rewrite T by apply W. congruence.
    + rewrite !T by apply W. congruence.
    + unfold rate_sum. rewrite R by (intros; apply terminate_state). unfold rate_sum in C4. congruence.
    + unfold ratemin_sum. rewrite R by (intros; apply terminate_state). unfold ratemin_sum in C5. congruence.
  - rewrite Ej. intros k x Hx. destruct (L k x Hx) as (x0 & Hx0 & ->). destruct (J k x0 Hx0) as [(j0 & S1 & S2 & S3) Pd Te].
    assert (Nw : waiting (t x0) = false) by (rewrite (proj1 (W x0)); by apply (proj1 (count_zero waiting (jobs y)) Hw k x0)).
    split; [|congruence|congruence]. exists j0. split; [done|]. split; [|congruence]. rewrite <- S2. apply terminate_state.
  - by destruct y.
  - rewrite Ej. destruct P as [P1 P2]. assert (Wa : forall j, active (t j) = active j) by (intros j; unfold active; by destruct (W j) as (_ & -> & ->)). split.
    + intros i s j k Hlt Hj Hk. destruct (L _ _ Hj) as (j1 & Hj1 & ->). destruct (L _ _ Hk) as (k1 & Hk1 & ->).
      rewrite Wa, (proj1 (W j1)). by apply (P1 i s j1 k1).
    + intros i s j k Hlt Hj Hk. destruct (L _ _ Hj) as (j1 & Hj1 & ->). destruct (L _ _ Hk) as (k1 & Hk1 & ->).
      rewrite !Wa. by apply (P2 i s j1 k1).
  - unfold place_ok in *. rewrite Ej. replace (at_ (fio_terminate_threads TERMINATE_ALL y)) with (at_ y) by (by destruct y).
    assert (Rd : forall m, round m (jobs y) -> round m (map t (jobs y))).
    { intros m [R1 R2]. split; [|intros k x Hx Hs; destruct (L k x Hx) as (x0 & Hx0 & ->); rewrite S in Hs; eauto].
      intros k Hk. destruct (R1 k Hk) as (x & Hx & Sx). exists (t x). rewrite list_lookup_fmap, Hx. split; [done|]. by destruct (W x) as (_ & -> & _). }
    assert (Pd : forall i, passed i (jobs y) -> passed i (map t (jobs y))).
    { intros i Hp k x Hk Hx Hwx. destruct (L k x Hx) as (x0 & Hx0 & ->). rewrite (proj1 (W x0)) in Hwx. eauto. }
    destruct (at_ y) as [i m|i m|m|k m|i|last i cpu real p| |]; rewrite ?T by apply W; try done.
    + destruct V. auto.
    + destruct V. auto.
    + auto.
    + auto.
    + intros k x Hx. destruct (L k x Hx) as (x0 & Hx0 & ->). rewrite S. by apply V.
    + destruct V as (Va & Vb & Vc & Vd). split_and!; try done; try lia. intros k x Hk Hx Hwx. destruct (L k x Hx) as (x0 & Hx0 & ->). rewrite (proj1 (W x0)) in Hwx. eauto.
Qed.

(** At [Reap] a job with a pid that is not reaped is running. *)
Lemma reap_ok inp last i cpu real p y : inv y -> at_ y = Reap last i cpu real p -> inv (reap_step inp last i cpu real p y).
Proof.
  intros Hv Hat. pose proof Hv as [C J A P V]. unfold place_ok in V. rewrite Hat in V. destruct V as (V1 & V2 & V3 & V4).
  unfold reap_step. destruct (jobs y !! i) as [j|] eqn:E.
  - assert (Li : Z.of_nat i < 2 ^ 31) by (apply lookup_lt_Some in E; destruct C; lia).
    set (cpu' := if cpuio j then _ else cpu). set (real' := if cpuio j then real else _).
    assert (Next : forall q, p <= q <= p + 1 -> (waiting j = true -> 0 < q) -> inv (y <| at_ := Reap last (S i) cpu' real' q |>)).
    { intros q Hq Hw. apply inv_move; [done|]. unfold place_ok. replace (jobs _) with (jobs y) by (by destruct y).
      replace (at_ _) with (Reap last (S i) cpu' real' q) by (by destruct y). split_and!; try done; try lia. intros k x Hk Hx Hwx.
      destruct (decide (k = i)) as [->|]; [rewrite E in Hx; injection Hx as <-; auto|]. assert (0 < p) by (apply (V4 k x); [lia|done|done]). lia. }
    destruct (Z.eqb_spec (pid j) 0) as [Ep|Ep].
    { rewrite u32_small by lia. apply Next; lia. }
    assert (Nw : waiting j = false) by (destruct (waiting j) eqn:Ew; [|done]; exfalso; apply Ep; by apply (J i j E)).
    destruct (bool_decide_reflect (state j = TD_REAPED)) as [Er|Er]; [apply Next; [lia|congruence]|].
    destruct (reaped inp j) as [e|]; [|destruct (use_thread j); [apply Next; [lia|congruence]|rewrite u32_small by lia; apply Next; [lia|congruence]]].
    assert (Ns : starting j = false) by (by apply (proj1 (count_zero starting (jobs y)) V1 i j)).
    assert (Hr : running j = true).
    { pose proof (phases j) as Hp. rewrite Nw, Ns in Hp. rewrite bool_decide_eq_false_2 in Hp by done. destruct (running j); [done|lia]. }
    set (f := fun j : job => j <| state := TD_REAPED |> <| error := e |>).
    match goal with |- inv ?z => set (y' := z) end. assert (Ej : jobs y' = alter f i (jobs y)) by (subst y'; by destruct y).
    assert (F : starting (f j) = false /\ running (f j) = false /\ waiting (f j) = false /\ same_rates j (f j) /\ later j (f j)) by (by destruct j).
    destruct F as (F1 & F2 & F3 & F4 & F5). pose proof (count_pos _ _ _ _ E Hr) as Hpos.
    assert (Cp : forall q : job -> bool, q j = false -> q (f j) = false -> count q (jobs y') = count q (jobs y)).
    { intros q Q1 Q2. unfold count. rewrite Ej, (total_alter _ f _ i j E), Q1, Q2. cbn [Z.b2z]. lia. }
    split.
    + apply (counters_change y y' i j f C E Ej F4); unfold weight; rewrite ?F1, ?F2, ?F3, ?Nw, ?Ns, ?Hr; subst y'; destruct C as [C0 C1 C2 C3 C4 C5];
        pose proof (count_le starting (jobs y)); pose proof (count_le waiting (jobs y)); destruct y; cbn in *; rewrite ?Z.sub_0_r, ?Z.add_0_r; try done; rewrite u32_small; lia.
    + rewrite Ej. by apply (jobs_ok_alter _ _ _ j).
    + subst y'. by destruct y.
    + rewrite Ej. apply (apart_alter _ _ _ j); done.
    + unfold place_ok. replace (at_ y') with (Reap last (S i) cpu' real' p) by (subst y'; by destruct y). rewrite !Cp by done. split_and!; try done; try lia.
      intros k x Hk Hx Hwx. rewrite Ej in Hx. apply lookup_alter_inv in Hx as [(-> & j' & E' & ->)|(Hne & Hx)]; [rewrite E in E'; injection E' as <-; congruence|].
      apply (V4 k x); [lia|done|done].
  - assert (Hv' : inv (if (nr_running y =? cpu) && (p =? 0) && negb (real =? 0) then fio_terminate_threads TERMINATE_ALL y else y)).
    { destruct ((nr_running y =? cpu) && (p =? 0) && negb (real =? 0)) eqn:Et; [|done]. apply terminate_ok; [done|]. apply count_zero. intros k x Hx.
      destruct (waiting x) eqn:Ew; [|done]. apply lookup_ge_None in E. pose proof (lookup_lt_Some _ _ _ Hx). specialize (V4 k x ltac:(lia) Hx Ew). lia. }
    set (y1 := if (nr_running y =? cpu) && (p =? 0) && negb (real =? 0) then fio_terminate_threads TERMINATE_ALL y else y) in *.
    assert (Y1 : at_ y1 = Reap last i cpu real p) by (subst y1; case_match; by destruct y). clearbody y1. pose proof Hv' as [C' J' A' P' V']. unfold place_ok in V'. rewrite Y1 in V'. destruct V' as (W1 & W2 & W3 & W4).
    apply inv_move; [done|]. unfold place_ok. replace (jobs _) with (jobs y1) by (by destruct y1).
    set (pl := if last then LastHead else if todo y1 =? 0 then LastHead else Create 0 []). replace (at_ _) with pl by (by destruct y1). subst pl.
    destruct last; [split; auto|]. destruct (Z.eqb_spec (todo y1) 0) as [T0|T0].
    + destruct C' as [_ _ _ C3 _ _]. pose proof (count_le waiting (jobs y1)). split; lia.
    + split; [|intros k x Hk; lia]. split; [intros k Hk; by apply not_elem_of_nil in Hk|]. intros k x Hx Hs.
      pose proof (proj1 (count_zero starting (jobs y1)) W1 k x Hx) as Hn. unfold starting in Hn. apply bool_decide_eq_false in Hn. tauto.
Qed.
Lemma last_head_ok y : inv y -> at_ y = LastHead -> inv (last_head_step y).
Proof.
  intros Hv Hat. pose proof Hv as [C J A P V]. unfold place_ok in V. rewrite Hat in V. destruct V as [V1 V2]. unfold last_head_step. apply inv_move; [done|].
  unfold place_ok. replace (jobs _) with (jobs y) by (by destruct y). destruct C as [_ C1 _ _ _ _]. destruct (Z.eqb_spec (nr_running y) 0) as [E|E].
  - replace (at_ _) with Done by (by destruct y). split_and!; try done. congruence.
  - replace (at_ _) with (Reap true 0 0 0 0) by (by destruct y). split_and!; try done. intros; lia.
Qed.

(** The steps of the jobs. *)
Lemma job_change_ok y y' i j f : inv y -> jobs y !! i = Some j -> jobs y' = alter f i (jobs y) -> same_rates j (f j) -> later j (f j) ->
  waiting (f j) = waiting j -> starting (f j) = starting j -> running (f j) = running j -> waiting j = false ->
  (state (f j) = TD_CREATED -> state j = TD_CREATED) -> (state (f j) = TD_INITIALIZED -> state j = TD_INITIALIZED \/ state j = TD_CREATED) ->
  nr_running y' = nr_running y /\ nr_started y' = nr_started y /\ todo y' = todo y /\ t_rate y' = t_rate y /\ m_rate y' = m_rate y /\
    fio_abort y' = fio_abort y /\ at_ y' = at_ y -> inv y'.
Proof.
  intros [C J A P V] E Ej Sr La Ew Es Er Nw S1 S2 (N1 & N2 & N3 & N4 & N5 & N6 & N7).
  assert (T : forall p : job -> bool, p (f j) = p j -> count p (jobs y') = count p (jobs y)).
  { intros p Hp. unfold count. rewrite Ej, (total_alter _ f _ i j E), Hp. lia. }
  assert (Lk : forall k x, jobs y' !! k = Some x -> exists x0, jobs y !! k = Some x0 /\ waiting x = waiting x0 /\ starting x = starting x0 /\
     (state x = TD_CREATED -> state x0 = TD_CREATED) /\ (state x = TD_INITIALIZED -> state x0 = TD_INITIALIZED \/ state x0 = TD_CREATED)).
  { intros k x Hx. rewrite Ej in Hx. apply lookup_alter_inv in Hx as [(-> & j' & E' & ->)|(_ & Hx)]; [|exists x; split_and!; auto].
    rewrite E in E'. injection E' as <-. exists j. split_and!; auto. }
  assert (Kl : forall k x0, jobs y !! k = Some x0 -> exists x, jobs y' !! k = Some x /\ starting x = starting x0).
  { intros k x0 Hx. rewrite Ej. destruct (decide (k = i)) as [->|]; [|exists x0; by rewrite list_lookup_alter_ne].
    rewrite E in Hx. injection Hx as <-. exists (f j). rewrite list_lookup_alter_eq, E. done. }
  split.
  - destruct C as [C0 C1 C2 C3 C4 C5].
    assert (R : forall v : job -> Z, v (f j) = v j -> total (weight running v) (jobs y') = total (weight running v) (jobs y)).
    { intros v Hv. rewrite Ej, (total_alter _ f _ i j E). unfold weight. rewrite Er, Hv. lia. }
    destruct Sr as [Sr1 Sr2]. split; rewrite ?T by done; try congruence; [by rewrite Ej, length_alter|..]; unfold rate_sum, ratemin_sum in *; rewrite R by done; congruence.
  - rewrite Ej. by apply (jobs_ok_alter _ _ _ j).
  - congruence.
  - rewrite Ej. apply (apart_alter _ _ _ j); try done; [|congruence]. unfold active. by rewrite Es, Er.
  - unfold place_ok in *. rewrite N7.
    assert (Rd : forall m, round m (jobs y) -> round m (jobs y')).
    { intros m [R1 R2]. split.
      - intros k Hk. destruct (R1 k Hk) as (x & Hx & Sx). destruct (Kl k x Hx) as (x' & Hx' & Sx'). exists x'. split; [done|congruence].
      - intros k x Hx Hs. destruct (Lk k x Hx) as (x0 & Hx0 & _ & _ & Hc & _). eauto. }
    assert (Pd : forall n, passed n (jobs y) -> passed n (jobs y')).
    { intros n Hp k x Hk Hx Hwx. destruct (Lk k x Hx) as (x0 & Hx0 & Wx & _). apply (Hp k x0); congruence. }
    destruct (at_ y) as [n m|n m|m|k m|n|last n cpu real p| |]; rewrite ?T by done; try done.
    + destruct V. auto.
    + destruct V. auto.
    + auto.
    + auto.
    + intros k x Hx. destruct (Lk k x Hx) as (x0 & Hx0 & _ & _ & Hc & Hi). destruct (V k x0 Hx0) as [V1 V2]. split; [tauto|]. intros Hs. destruct (Hi Hs); [auto|done].
    + destruct V as (Va & Vb & Vc & Vd). split_and!; try done; try lia. intros k x Hk Hx Hwx. destruct (Lk k x Hx) as (x0 & Hx0 & Wx & _). apply (Vd k x0); congruence.
Qed.
Lemma job_step_ok i e y y' : inv y -> clean (Job i e) -> job_step i e y = Some y' -> inv y'.
Proof.
  intros Hv Hc. unfold job_step. destruct (jobs y !! i) as [j|] eqn:E; [|done]. cbn [mbind option_bind]. destruct e as [p|s|e exitall].
  - destruct (bool_decide (state j = TD_CREATED) && has_thread j && (0 <? p)) eqn:G; [|done]. intros [= <-]. apply andb_true_iff in G as [[Gs _]%andb_true_iff Gp].
    apply bool_decide_eq_true in Gs. eapply (job_change_ok y _ i j); [done|done|by destruct y|..]; try (unfold waiting, starting, running; destruct j; cbn in *; subst; done); try (destruct y; done).
    all: destruct j; cbn in *; subst; auto.
  - destruct (runs (state j) && td_mutex j && runs s) eqn:G; [|done]. intros [= <-]. apply andb_true_iff in G as [[Gs _]%andb_true_iff Gr].
    eapply (job_change_ok y _ i j); [done|done|by destruct y|..]; try (unfold waiting, starting, running; destruct j as [st]; cbn in *; destruct st, s; done). all: try (destruct y; done).
  - cbn in Hc. subst exitall. destruct (runs (state j) && td_mutex j) eqn:G; [|done]. intros [= <-]. apply andb_true_iff in G as [Gs _].
    eapply (job_change_ok y _ i j); [done|done|by destruct y|..]; try (unfold waiting, starting, running; destruct j as [st]; cbn in *; destruct st; done). all: try (destruct y; done).
Qed.
Lemma step_keeps_inv y e y' : inv y -> clean e -> step y e = Some y' -> inv y'.
Proof.
  intros Hv Hc. destruct e as [inp|i e|]; cbn [step clean] in *; [|by apply job_step_ok|done]. destruct Hc as [Hc Ht]. unfold main_step.
  destruct (at_ y) as [i m|i m|m|k m|i|last i cpu real p| |] eqn:Hat; [intros [= <-]|intros Hw|intros [= <-]|intros [= <-]|intros [= <-]|intros [= <-]|intros [= <-]|done].
  - by apply create_ok_step.
  - by eapply wait_up_ok.
  - by apply poll_head_ok.
  - by apply poll_ok.
  - by apply start_ok.
  - by apply reap_ok.
  - by apply last_head_ok.
Qed.
End clean.

Lemma inv_init js g : Forall new_job js -> Z.of_nat (length js) < 2 ^ 31 -> inv js (init_sys js g).
Proof.
  intros Hn Hl. rewrite Forall_lookup in Hn.
  assert (Z1 : count starting js = 0 /\ count running js = 0).
  { rewrite !count_zero. split; intros i j E; destruct (Hn i j E) as ([Hs|Hs] & _); unfold starting, running; by rewrite Hs. }
  destruct Z1 as [Z1 Z2]. assert (R : forall v, total (weight running v) js = 0).
  { intros v. rewrite count_zero in Z2. clear -Z2. induction js as [|x js IH]; [done|]. rewrite total_cons.
    unfold weight at 1. rewrite (Z2 O x eq_refl). rewrite IH; [done|]. intros i j E. by apply (Z2 (S i)). }
  pose proof (count_le waiting js) as Hw. split.
  - split; cbn [jobs nr_running nr_started todo t_rate m_rate init_sys]; rewrite ?Z1, ?Z2; try done; [lia|..]; unfold rate_sum, ratemin_sum; by rewrite R.
  - cbn. intros i j E. destruct (Hn i j E) as (Hs & Hp & Ht & _). split; [exists j; auto|auto|congruence].
  - done.
  - cbn. rewrite count_zero in Z1, Z2. split; intros i s j k Hlt Hi Hk Ha; exfalso; unfold active in Ha.
    + by rewrite (Z1 s k Hk), (Z2 s k Hk) in Ha.
    + by rewrite (Z1 i j Hi), (Z2 i j Hi) in Ha.
  - unfold place_ok. cbn [jobs at_ init_sys]. destruct (Z.eqb_spec (count waiting js) 0); [done|]. split; [|intros k x Hk; lia].
    split; [intros k Hk; by apply not_elem_of_nil in Hk|]. intros k x Hx Hs. rewrite count_zero in Z1. specialize (Z1 k x Hx). unfold starting in Z1.
    apply bool_decide_eq_false in Z1. tauto.
Qed.
Lemma reachable_inv js g y : Forall new_job js -> Z.of_nat (length js) < 2 ^ 31 -> reachable clean (init_sys js g) y -> inv js y.
Proof. intros Hn Hl. induction 1 as [|y e y' _ IH Hc Hs]; [by apply inv_init|]. by eapply step_keeps_inv. Qed.

(** C12: In every state a clean run leads to (every thread can be made, no wait times out,
    no job ends with [exitall], no signal arrives; fewer than [2^31] jobs), the counters of the main thread are the jobs
    they stand for and the rates are those of the running jobs; a job with [stonewall]
    shares its time with no job before it that had no start delay; and when the main
    thread is done no job is waiting, starting or running. *)
Theorem run_threads_invariant js g y : Forall new_job js -> Z.of_nat (length js) < 2 ^ 31 -> reachable clean (init_sys js g) y ->
  nr_running y = count running (jobs y) /\ nr_started y = count starting (jobs y) /\ todo y = count waiting (jobs y) + count starting (jobs y) /\
  t_rate y = u32 (rate_sum (jobs y)) /\
  (forall i s j k, (i < s)%nat -> jobs y !! i = Some j -> jobs y !! s = Some k -> active j = true -> active k = true -> walled js s -> delayed js i) /\
  (at_ y = Done -> forall i j, jobs y !! i = Some j -> state j = TD_REAPED).
Proof.
  intros Hn Hl Hr. destruct (reachable_inv js g y Hn Hl Hr) as [[C0 C1 C2 C3 C4 C5] J A P V]. split_and!; try done.
  - intros i s j k H1 H2 H3 H4 H5 H6. by eapply (a_wall js _ P i s j k).
  - intros Hd i j E. unfold place_ok in V. rewrite Hd, !count_zero in V. destruct V as (V1 & V2 & V3). pose proof (phases j) as Hp.
    rewrite (V1 i j E), (V2 i j E), (V3 i j E) in Hp. destruct (bool_decide_reflect (state j = TD_REAPED)); [done|lia].
Qed.

(** ** Runs that are given *)
Definition exec (y : sys) (es : list event) : option sys := foldl (fun o e => y ← o; step y e) (Some y) es.
Lemma exec_app y es es' : exec y (es ++ es') = (z ← exec y es; exec z es').
Proof.
  unfold exec. rewrite foldl_app. destruct (foldl _ _ es) as [z|]; [reflexivity|]. cbn [mbind option_bind]. induction es' as [|e es' IH]; [reflexivity|]. exact IH.
Qed.
Lemma exec_reachable allowed es : forall y y', Forall allowed es -> exec y es = Some y' -> reachable allowed y y'.
Proof.
  induction es as [|e es IH] using rev_ind; intros y y' Ha; [intros [= <-]; constructor|].
  rewrite exec_app. apply Forall_app in Ha as [Ha He]. destruct (exec y es) as [z|] eqn:E; cbn; [|done].
  intros H. apply (proj1 (Forall_singleton allowed e)) in He. apply (reach_step allowed y z e); [by apply IH|exact He|exact H].
Qed.
Definition calm : input := Build_input true true false false Alive.
Definition early : input := Build_input false true false false Alive.
Definition mains (n : nat) : list event := replicate n (Main calm).
Definition some_job (delay : Z) (wall : bool) (g : Z) : job :=
  Build_job TD_NOT_CREATED 0 false delay wall true 10 3 0 g false false false.
(** The first job runs to its end before the second one, which is walled, starts. *)
Definition two_jobs : list job := [some_job 0 false 0; some_job 0 true 1].
Definition two_jobs_run : list event :=
  mains 1 ++ [Job 0 (JInit 7)] ++ mains 12 ++ [Job 0 (JState TD_FSYNCING); Job 0 (JExit 0 false)] ++ mains 11 ++
  [Job 1 (JInit 8)] ++ mains 9 ++ [Job 1 (JExit 5 false)] ++ mains 4.
Lemma two_jobs_clean : Forall clean two_jobs_run.
Proof. repeat constructor. Qed.
Lemma two_jobs_new : Forall new_job two_jobs.
Proof. repeat constructor. Qed.
Lemma run_threads_invariant_witness :
  match exec (init_sys two_jobs 1) (take 14 two_jobs_run), exec (init_sys two_jobs 1) two_jobs_run with
  | Some y1, Some y2 =>
      at_ y1 = Create 0 [] /\ nr_running y1 = 1 /\ todo y1 = 1 /\ t_rate y1 = u32 (rate_sum (jobs y1)) /\
      at_ y2 = Done /\ exit_value y2 = 1 /\ (forall i j, jobs y2 !! i = Some j -> state j = TD_REAPED)
  | _, _ => False
  end.
Proof.
  destruct (exec (init_sys two_jobs 1) (take 14 two_jobs_run)) as [y1|] eqn:E1; [|by vm_compute in E1].
  destruct (exec (init_sys two_jobs 1) two_jobs_run) as [y2|] eqn:E2; [|by vm_compute in E2].
  pose proof (run_threads_invariant two_jobs 1 y1 two_jobs_new ltac:(done) (exec_reachable clean _ _ y1 (Forall_take _ 14 _ two_jobs_clean) E1)) as H1.
  pose proof (run_threads_invariant two_jobs 1 y2 two_jobs_new ltac:(done) (exec_reachable clean _ _ y2 two_jobs_clean E2)) as H2.
  assert (D : at_ y2 = Done) by (vm_compute in E2; by injection E2 as <-).
  split_and!; [vm_compute in E1; by injection E1 as <-..|apply H1|done|vm_compute in E2; by injection E2 as <-|by apply H2].
Defined.

(** ** Runs that are not clean *)

(** [fio_terminate_threads] looks at the last group of the job file, not at the group
    it is given. *)
Lemma terminate_ignores_group g h y : g <> TERMINATE_ALL -> h <> TERMINATE_ALL -> fio_terminate_threads g y = fio_terminate_threads h y.
Proof.
  intros Hg Hh. unfold fio_terminate_threads, terminate_job. by rewrite (proj2 (Z.eqb_neq g _) Hg), (proj2 (Z.eqb_neq h _) Hh).
Qed.

(** A job that was ended before it was created is taken off [todo] in every round, so
    that a job with a start delay is never started. *)
Definition ended_run : list event :=
  mains 1 ++ [Job 0 (JInit 7)] ++ mains 1 ++ replicate 13 (Main early) ++ [Job 0 (JExit 0 true)] ++ replicate 28 (Main early).
Lemma ended_job_counted_again :
  match exec (init_sys [some_job 0 false 0; some_job 10 false 0; some_job 0 true 1] 1) ended_run with
  | Some y => at_ y = Done /\ (state <$> jobs y !! 1%nat) = Some TD_NOT_CREATED /\ (terminate <$> jobs y !! 1%nat) = Some false
  | None => False
  end.
Proof. vm_compute. done. Qed.

(** A job whose start was given up is not counted, but reaped: the main thread is done
    while the other job still runs. *)
Definition hung : input := Build_input true true true false Alive.
Definition late_run : list event :=
  mains 1 ++ [Job 0 (JInit 7)] ++ mains 1 ++ [Main early] ++ mains 13 ++ [Main hung; Job 1 (JInit 8)] ++ mains 2 ++ mains 1 ++ [Main (Build_input true true false false Signalled)] ++ mains 2.
Lemma late_start_miscounted :
  match exec (init_sys [some_job 0 false 0; (some_job 10 false 0) <| use_thread := false |>] 0) late_run with
  | Some y => at_ y = Done /\ (state <$> jobs y !! 0%nat) = Some TD_RUNNING
  | None => False
  end.
Proof. vm_compute. done. Qed.
End RunJobs.
