(* ===== verification/Mutex.v ===== *)
(** * Mutexes

    [src/mutex.c]: the mutexes of fio, counters under a lock of the operating system
    with a condition to wait for.  What a thread does between taking the lock and
    giving it back, or waiting, is one step, and threads take their steps in any order.
    A thread that waits is woken by a signal or for no reason. *)
From S2P Require Import Prelude Counting.
From stdpp Require Import list.
From Stdlib Require Import ZifyBool.
Local Open Scope Z_scope.

Module Mutex.
Import Counting.

(** ** Data.  [kept]: a thread has kept [lock]. *)
Record fio_mutex := { value : Z; waiters : Z; kept : bool }.
#[export] Instance eta_fio_mutex : Eta fio_mutex := fun m => Build_fio_mutex (value m) (waiters m) (kept m).
Definition fio_mutex_init (v : Z) : fio_mutex := Build_fio_mutex v 0 false.
Definition fio_mutex_rw_init : fio_mutex := fio_mutex_init 0.

(** ** Operations

    The ways down: with the lock taken, up to the return ([false]) or the wait
    ([true]). *)
Definition sleep (m : fio_mutex) : bool * fio_mutex := (true, m <| waiters ::= Z.succ |>).
Definition fio_mutex_down (m : fio_mutex) : bool * fio_mutex :=
  if value m =? 0 then sleep m else (false, m <| value ::= Z.pred |>).
Definition fio_mutex_down_read (m : fio_mutex) : bool * fio_mutex :=
  if value m <? 0 then sleep m else (false, m <| value ::= Z.succ |>).
Definition fio_mutex_down_write (m : fio_mutex) : bool * fio_mutex :=
  if negb (value m =? 0) then sleep m else (false, m <| value ::= Z.pred |>).

(** [fio_mutex_down_timeout] when the wait is over: the time is up ([expired]), or the
    system says so too early.  In the first case the lock is not given back, in the
    second one it is taken twice, and the call does not return. *)
Definition down_timed_out (expired : bool) (m : fio_mutex) : fio_mutex :=
  if expired then m <| waiters ::= Z.pred |> <| kept := true |> else m <| kept := true |>.

(** The ways up: whether the condition is signalled. *)
Definition fio_mutex_up (m : fio_mutex) : bool * fio_mutex :=
  ((value m =? 0) && negb (waiters m =? 0), m <| value ::= Z.succ |>).
Definition fio_mutex_up_read (m : fio_mutex) : bool * fio_mutex :=
  let m := m <| value ::= Z.pred |> in ((0 <=? value m) && negb (waiters m =? 0), m).
Definition fio_mutex_up_write (m : fio_mutex) : bool * fio_mutex :=
  let m := m <| value ::= Z.succ |> in ((0 <=? value m) && negb (waiters m =? 0), m).

(** ** Threads *)
Inductive request := Down | DownTimeout | DownRead | DownWrite.
Definition down (r : request) : fio_mutex -> bool * fio_mutex :=
  match r with
  | Down | DownTimeout => fio_mutex_down
  | DownRead => fio_mutex_down_read
  | DownWrite => fio_mutex_down_write
  end.
Definition up (r : request) : fio_mutex -> bool * fio_mutex :=
  match r with
  | Down | DownTimeout => fio_mutex_up
  | DownRead => fio_mutex_up_read
  | DownWrite => fio_mutex_up_write
  end.

Inductive thread := Outside | Asleep (r : request) | Woken (r : request) | Inside (r : request) | Stuck.
Record mutex_sys := { mutex : fio_mutex; threads : list thread }.

(** [Enter]: a way down is called.  [Wake]: a wait ends.  [Retry]: the lock is taken
    after a wait.  [Expire]: a timed wait ends by the time.  [Leave]: what was taken is
    given back.  [Post]: [fio_mutex_up] by anybody.  [Finish]: what was taken is kept.
    A signal wakes one of the threads that wait, if there is one: [w]. *)
Inductive event :=
  | Enter (i : nat) (r : request) | Wake (i : nat) | Retry (i : nat) | Expire (i : nat) (expired : bool)
  | Leave (i : nat) (w : option nat) | Post (w : option nat) | Finish (i : nat).

Definition asleep (t : thread) : bool := match t with Asleep _ => true | _ => false end.
Definition woken (t : thread) : bool := match t with Woken _ => true | _ => false end.
Definition put (i : nat) (t : thread) (ts : list thread) : list thread := alter (fun _ => t) i ts.
Definition signal (sig : bool) (w : option nat) (ts : list thread) : option (list thread) :=
  match w with
  | Some k => match sig, ts !! k with true, Some (Asleep r) => Some (put k (Woken r) ts) | _, _ => None end
  | None => if sig && existsb asleep ts then None else Some ts
  end.
Definition after_down (i : nat) (r : request) (res : bool * fio_mutex) (ts : list thread) : mutex_sys :=
  Build_mutex_sys (snd res) (put i (if fst res then Asleep r else Inside r) ts).
Definition step (y : mutex_sys) (e : event) : option mutex_sys :=
  let m := mutex y in
  let ts := threads y in
  match e with
  | Wake i => match ts !! i with Some (Asleep r) => Some (Build_mutex_sys m (put i (Woken r) ts)) | _ => None end
  | Finish i => match ts !! i with Some (Inside r) => Some (Build_mutex_sys m (put i Outside ts)) | _ => None end
  | _ =>
      if kept m then None
      else match e with
           | Enter i r => match ts !! i with Some Outside => Some (after_down i r (down r m) ts) | _ => None end
           | Retry i => match ts !! i with Some (Woken r) => Some (after_down i r (down r (m <| waiters ::= Z.pred |>)) ts) | _ => None end
           | Expire i expired =>
               match ts !! i with
               | Some (Asleep DownTimeout) => Some (Build_mutex_sys (down_timed_out expired m) (put i (if expired then Outside else Stuck) ts))
               | _ => None
               end
           | Leave i w =>
               match ts !! i with
               | Some (Inside r) => let '(sig, m) := up r m in Build_mutex_sys m <$> signal sig w (put i Outside ts)
               | _ => None
               end
           | Post w => let '(sig, m) := fio_mutex_up m in Build_mutex_sys m <$> signal sig w ts
           | _ => None
           end
  end.
Definition start (v : Z) (n : nat) : mutex_sys := Build_mutex_sys (fio_mutex_init v) (replicate n Outside).
Inductive reachable (allowed : event -> Prop) (y0 : mutex_sys) : mutex_sys -> Prop :=
  | reach_start : reachable allowed y0 y0
  | reach_next y e y' : reachable allowed y0 y -> allowed e -> step y e = Some y' -> reachable allowed y0 y'.

(** The two uses as a lock: [fio_mutex_init(1)] with [fio_mutex_down] and
    [fio_mutex_up], and [fio_mutex_rw_init] with the calls for readers and writers. *)
Inductive mode := Lock | RwLock.
Definition base (md : mode) : Z := match md with Lock => 1 | RwLock => 0 end.
Definition fits (md : mode) (r : request) : bool :=
  match md, r with Lock, Down | RwLock, DownRead | RwLock, DownWrite => true | _, _ => false end.
Definition locking (md : mode) (e : event) : Prop :=
  match e with Enter _ r => fits md r = true | Post _ | Expire _ _ | Finish _ => False | _ => True end.

(** * Properties *)
Definition inside (t : thread) : bool := match t with Inside _ => true | _ => false end.
Definition in_down (t : thread) : bool := match t with Inside (Down | DownTimeout) => true | _ => false end.
Definition in_read (t : thread) : bool := match t with Inside DownRead => true | _ => false end.
Definition in_write (t : thread) : bool := match t with Inside DownWrite => true | _ => false end.
Definition thread_fits (md : mode) (t : thread) : bool :=
  match t with Outside => true | Asleep r | Woken r | Inside r => fits md r | Stuck => false end.

Lemma count_put p i x t ts : ts !! i = Some x -> count p (put i t ts) = count p ts - Z.b2z (p x) + Z.b2z (p t).
Proof. intros E. unfold put, count. by rewrite (total_alter _ _ _ i x E). Qed.
Lemma count_inside ts : count inside ts = count in_down ts + count in_read ts + count in_write ts.
Proof.
  induction ts as [|t ts IH]; [done|]. rewrite !count_cons, IH. destruct t as [|r|r|r|]; try destruct r; cbn [inside in_down in_read in_write Z.b2z]; lia.
Qed.
Lemma no_sleeper ts : existsb asleep ts = false -> count asleep ts = 0.
Proof.
  induction ts as [|t ts IH]; [done|]. cbn [existsb]. rewrite count_cons. intros [-> E]%orb_false_iff. rewrite (IH E). done.
Qed.

(** The counters, in numbers. *)
Record lock_inv (md : mode) (y : mutex_sys) : Prop := {
  l_kept : kept (mutex y) = false;
  l_fits i t : threads y !! i = Some t -> thread_fits md t = true;
  l_value : value (mutex y) = base md - count in_down (threads y) - count in_write (threads y) + count in_read (threads y);
  l_waiters : waiters (mutex y) = count asleep (threads y) + count woken (threads y);
  l_excl : count in_down (threads y) + count in_write (threads y) = 0 \/ count inside (threads y) = 1;
  l_woken : count inside (threads y) = 0 -> 0 < count asleep (threads y) -> 0 < count woken (threads y) }.

Lemma fits_put md i x t ts : (forall k t, ts !! k = Some t -> thread_fits md t = true) -> ts !! i = Some x -> thread_fits md t = true ->
  forall k t', put i t ts !! k = Some t' -> thread_fits md t' = true.
Proof.
  intros H E Ht k t' Hk. unfold put in Hk. destruct (decide (k = i)) as [->|].
  - rewrite list_lookup_alter_eq, E in Hk. by injection Hk as <-.
  - rewrite list_lookup_alter_ne in Hk by done. eauto.
Qed.
(** In a mode there is only one kind of holder. *)
Lemma mode_counts md ts : (forall k t, ts !! k = Some t -> thread_fits md t = true) ->
  match md with Lock => count in_read ts = 0 /\ count in_write ts = 0 | RwLock => count in_down ts = 0 end.
Proof.
  intros H. destruct md; [split|]; apply count_zero; intros i t E; specialize (H i t E); by destruct t as [|[]|[]|[]|].
Qed.

(** All counts of a list where one thread has changed. *)
Ltac counts E :=
  repeat match goal with
         | |- context [count ?p (put ?i ?t ?ts)] => rewrite (count_put p i _ t ts E)
         end;
  cbn [inside in_down in_read in_write asleep woken Z.b2z].
Ltac bounds ts :=
  pose proof (count_le in_down ts); pose proof (count_le in_read ts); pose proof (count_le in_write ts);
  pose proof (count_le asleep ts); pose proof (count_le woken ts).

(** A round of a way down, by a thread that comes or comes back. *)
Lemma round_ok md i r x m m' ts : lock_inv md (Build_mutex_sys m ts) -> ts !! i = Some x -> fits md r = true -> x = Outside \/ x = Woken r ->
  value m' = value m -> kept m' = kept m -> waiters m' = waiters m - Z.b2z (woken x) -> lock_inv md (after_down i r (down r m') ts).
Proof.
  intros [K F V W X N] E Hr Hx Ev Ek Ew. cbn [mutex threads] in *. pose proof (mode_counts md ts F) as Mc. rewrite count_inside in X, N.
  assert (Z0 : inside x = false /\ in_down x = false /\ in_read x = false /\ in_write x = false /\ asleep x = false) by (destruct Hx as [-> | ->]; done).
  destruct Z0 as (Z1 & Z2 & Z3 & Z4 & Z5). assert (Bw : 0 <= Z.b2z (woken x) <= 1) by (destruct (woken x); cbn; lia).
  assert (Hi : forall t, t = Asleep r \/ t = Inside r -> forall k t', put i t ts !! k = Some t' -> thread_fits md t' = true)
    by (intros t Ht; apply (fits_put md i x t ts F E); destruct Ht as [-> | ->]; done).
  rewrite K in Ek. destruct m' as [v' w' k']. cbn [value waiters kept] in Ev, Ek, Ew. subst v' w' k'. unfold after_down. bounds ts.
  assert (Hs : value m <> base md -> lock_inv md (Build_mutex_sys (Build_fio_mutex (value m) (Z.succ (waiters m - Z.b2z (woken x))) false) (put i (Asleep r) ts))).
  { intros Hb. split; cbn [mutex threads kept value waiters upd eta_fio_mutex]; rewrite ?count_inside; counts E; rewrite ?Z2, ?Z3, ?Z4, ?Z5; cbn [Z.b2z]; first [done | (refine (Hi _ _); auto; fail) | lia]. }
  destruct md, r; try done; cbn [base down] in *.
  - unfold fio_mutex_down. cbn [value]. destruct (Z.eqb_spec (value m) 0) as [E0|E0]; cbn [fst snd sleep]; [apply Hs; lia|].
    split; cbn [mutex threads kept value waiters upd eta_fio_mutex base]; rewrite ?count_inside; counts E; rewrite ?Z2, ?Z3, ?Z4, ?Z5; cbn [Z.b2z]; first [done | (refine (Hi _ _); auto; fail) | lia].
  - unfold fio_mutex_down_read. cbn [value]. destruct (Z.ltb_spec (value m) 0) as [E0|E0]; cbn [fst snd sleep]; [apply Hs; lia|].
    split; cbn [mutex threads kept value waiters upd eta_fio_mutex base]; rewrite ?count_inside; counts E; rewrite ?Z2, ?Z3, ?Z4, ?Z5; cbn [Z.b2z]; first [done | (refine (Hi _ _); auto; fail) | lia].
  - unfold fio_mutex_down_write. cbn [value]. destruct (Z.eqb_spec (value m) 0) as [E0|E0]; cbn [fst snd sleep negb]; [|apply Hs; lia].
    split; cbn [mutex threads kept value waiters upd eta_fio_mutex base]; rewrite ?count_inside; counts E; rewrite ?Z2, ?Z3, ?Z4, ?Z5; cbn [Z.b2z]; first [done | (refine (Hi _ _); auto; fail) | lia].
Qed.

(** A signal wakes a thread if there is one. *)
Lemma signal_spec sig w ts ts' : signal sig w ts = Some ts' ->
  (ts' = ts /\ (sig = true -> count asleep ts = 0)) \/ (exists k r, sig = true /\ ts !! k = Some (Asleep r) /\ ts' = put k (Woken r) ts).
Proof.
  unfold signal. destruct w as [k|].
  - destruct sig; [|done]. destruct (ts !! k) as [[|r|r|r|]|] eqn:E; try done. intros [= <-]. right. eauto.
  - destruct (sig && existsb asleep ts) eqn:E; [done|]. intros [= <-]. left. split; [done|]. intros ->. by apply no_sleeper.
Qed.
Lemma woken_ok md m k r ts : lock_inv md (Build_mutex_sys m ts) -> ts !! k = Some (Asleep r) -> lock_inv md (Build_mutex_sys m (put k (Woken r) ts)).
Proof.
  intros [K F V W X N] E. cbn [mutex threads] in *. bounds ts. split; cbn [mutex threads]; try done.
  - apply (fits_put md k _ _ ts F E). exact (F k _ E).
  - counts E. lia.
  - counts E. lia.
  - counts E. lia.
  - counts E. lia.
Qed.
(** What was taken is given back: if then nobody is inside, a thread that sleeps is
    signalled. *)
Lemma leave_ok md i r w y ts' : lock_inv md y -> threads y !! i = Some (Inside r) ->
  signal (fst (up r (mutex y))) w (put i Outside (threads y)) = Some ts' -> lock_inv md (Build_mutex_sys (snd (up r (mutex y))) ts').
Proof.
  destruct y as [[v q k] ts]. intros [K F V W X N] E Hs. cbn [mutex threads kept value waiters] in *. subst k. pose proof (mode_counts md ts F) as Mc.
  pose proof (F i _ E) as Fr. cbn [thread_fits] in Fr. rewrite count_inside in X, N. bounds ts.
  assert (P : match r with DownRead => 0 < count in_read ts | DownWrite => 0 < count in_write ts | _ => 0 < count in_down ts end).
  { destruct r; by eapply count_pos. }
  set (ts1 := put i Outside ts) in *. assert (F1 := fits_put md i _ Outside ts F E eq_refl). fold ts1 in F1.
  set (m' := snd (up r (Build_fio_mutex v q false))).
  assert (Kn : kept m' = false /\ waiters m' = q /\ value m' = match r with DownRead => v - 1 | _ => v + 1 end) by (subst m'; destruct r; done).
  destruct Kn as (K1 & K2 & K3).
  assert (Sg : count in_down ts1 + count in_read ts1 + count in_write ts1 = 0 -> 0 < count asleep ts1 -> fst (up r (Build_fio_mutex v q false)) = true).
  { unfold ts1. counts E. destruct md, r; try done; cbn [base up fst snd] in *; unfold fio_mutex_up, fio_mutex_up_read, fio_mutex_up_write; cbn [fst value waiters upd eta_fio_mutex Z.b2z]; lia. }
  apply signal_spec in Hs as [[-> Hn]|(s & rs & Hsig & Es & ->)].
  - split; cbn [mutex threads]; rewrite ?K1, ?K2, ?K3, ?count_inside; try done.
    + unfold ts1. counts E. destruct md, r; try done; cbn [base] in *; lia.
    + unfold ts1. counts E. lia.
    + unfold ts1. counts E. destruct md, r; try done; lia.
    + intros Hz Ha. specialize (Hn (Sg Hz Ha)). lia.
  - assert (B1 : 0 <= count in_down ts1 /\ 0 <= count in_read ts1 /\ 0 <= count in_write ts1 /\ 0 <= count woken ts1) by (split_and!; apply count_le).
    split; cbn [mutex threads]; rewrite ?K1, ?K2, ?K3, ?count_inside; try done.
    + apply (fits_put md s _ _ ts1 F1 Es). exact (F1 s _ Es).
    + counts Es. unfold ts1. counts E. destruct md, r; try done; cbn [base] in *; lia.
    + counts Es. unfold ts1. counts E. lia.
    + counts Es. unfold ts1. counts E. destruct md, r; try done; lia.
    + counts Es. lia.
Qed.
Lemma lock_step_ok md y e y' : lock_inv md y -> locking md e -> step y e = Some y' -> lock_inv md y'.
Proof.
  intros Hi Ha. pose proof Hi as [K F _ _ _ _]. unfold step. destruct e as [i r|i|i|i b|i w|w|i]; cbn [locking] in Ha; try done; rewrite ?K.
  - destruct (threads y !! i) as [[| | | |]|] eqn:E; try done. intros [= <-]. destruct y as [m ts]. eapply round_ok; eauto; cbn; lia.
  - destruct (threads y !! i) as [[| | | |]|] eqn:E; try done. intros [= <-]. destruct y as [m ts]. by apply woken_ok.
  - destruct (threads y !! i) as [[| | | |]|] eqn:E; try done. intros [= <-]. destruct y as [m ts]. pose proof (F i _ E) as Fr.
    destruct m. eapply round_ok; eauto; cbn; lia.
  - destruct (threads y !! i) as [[| | | |]|] eqn:E; try done. destruct (up r (mutex y)) as [sig m] eqn:Eu.
    destruct (signal sig w _) as [ts'|] eqn:Es; [|done]. intros [= <-]. replace m with (snd (up r (mutex y))) by (by rewrite Eu).
    eapply leave_ok; [done|done|]. rewrite Eu. exact Es.
Qed.
Lemma lock_start_ok md n : lock_inv md (start (base md) n).
Proof.
  assert (Z0 : forall p, p Outside = false -> count p (replicate n Outside) = 0).
  { intros p Hp. apply count_zero. intros i t E. apply lookup_replicate in E as [-> _]. done. }
  split; cbn [mutex threads start fio_mutex_init value waiters kept]; rewrite ?Z0 by done; try done; try lia.
  intros i t E. apply lookup_replicate in E as [-> _]. done.
Qed.
Lemma lock_reachable md n y : reachable (locking md) (start (base md) n) y -> lock_inv md y.
Proof. induction 1 as [|y e y' _ IH Ha Hs]; [apply lock_start_ok|by eapply lock_step_ok]. Qed.

(** C10: In every state of threads that use a mutex as a lock, or as a lock for readers and
    writers: who holds it for writing holds it alone, the number of waiters is kept, and
    the lock is never free with threads that all sleep: one of those that wait is awake,
    and gets it with its next step. *)
Theorem mutex_excludes_and_wakes md n y : reachable (locking md) (start (base md) n) y ->
  (forall i k r r', threads y !! i = Some (Inside r) -> threads y !! k = Some (Inside r') -> i <> k -> r = DownRead /\ r' = DownRead) /\
  waiters (mutex y) = count asleep (threads y) + count woken (threads y) /\
  (forall i r, count inside (threads y) = 0 -> threads y !! i = Some (Asleep r) ->
     exists k r' y', threads y !! k = Some (Woken r') /\ step y (Retry k) = Some y' /\ threads y' !! k = Some (Inside r')).
Proof.
  intros Hr. apply lock_reachable in Hr. destruct Hr as [K F V W X N]. bounds (threads y). split_and!; [|done|].
  - intros i k r r' Ei Ek Hne. pose proof (count_two inside _ i k _ _ Ei Ek Hne eq_refl eq_refl) as Htwo. destruct X as [X|X]; [|lia].
    assert (D : forall j q, threads y !! j = Some (Inside q) -> q = DownRead); [|split; eauto].
    intros j q Ej. destruct q; try done; exfalso.
    + pose proof (count_pos in_down _ j _ Ej eq_refl). lia.
    + pose proof (count_pos in_down _ j _ Ej eq_refl). lia.
    + pose proof (count_pos in_write _ j _ Ej eq_refl). lia.
  - intros i r Hz Ei. pose proof (count_pos asleep _ i _ Ei eq_refl) as Ha. destruct (count_found woken (threads y) (N Hz Ha)) as (k & t & Ek & Hw).
    destruct t as [|q|q|q|]; try done. exists k, q. rewrite count_inside in Hz. pose proof (F k _ Ek) as Fk. cbn [thread_fits] in Fk.
    unfold step. rewrite K, Ek. eexists. split_and!; [done|reflexivity|].
    unfold after_down, put. cbn [threads]. rewrite list_lookup_alter_eq, Ek. cbn. f_equal.
    assert (V0 : value (mutex y) = base md) by lia. destruct (mutex y) as [v wt kp]. cbn [value] in V0. subst v. destruct md, q; done.
Qed.

(** ** Given runs *)
Definition exec (y : mutex_sys) (es : list event) : option mutex_sys := foldl (fun o e => y ← o; step y e) (Some y) es.
Lemma exec_steps allowed es : forall y0 y y', reachable allowed y0 y -> Forall allowed es -> exec y es = Some y' -> reachable allowed y0 y'.
Proof.
  unfold exec. induction es as [|e es IH]; intros y0 y y' Hr Ha; [by intros [= <-]|]. inversion Ha as [|? ? He Hes]; subst. cbn [foldl mbind option_bind].
  destruct (step y e) as [z|] eqn:E; [|intros H; exfalso; clear -H; induction es; done]. intros H. apply (IH y0 z y'); [by eapply reach_next|done|done].
Qed.
(** Two readers and a writer that has to wait; the second reader wakes it. *)
Definition rw_run : list event := [Enter 0 DownRead; Enter 1 DownRead; Enter 2 DownWrite; Leave 0 (Some 2%nat); Retry 2; Leave 1 (Some 2%nat)].
Lemma mutex_excludes_and_wakes_witness :
  match exec (start (base RwLock) 3) rw_run with
  | Some y => threads y !! 2%nat = Some (Woken DownWrite) /\ waiters (mutex y) = count asleep (threads y) + count woken (threads y)
  | None => False
  end.
Proof.
  destruct (exec (start (base RwLock) 3) rw_run) as [y|] eqn:E; [|by vm_compute in E]. split; [vm_compute in E; by injection E as <-|].
  apply (mutex_excludes_and_wakes RwLock 3 y). apply (exec_steps (locking RwLock) rw_run _ _ y (reach_start _ _)); [by repeat constructor|exact E].
Defined.

(** ** As a semaphore

    [startup_mutex] and [td->mutex] start at 0; one thread goes down, others go up.  The
    thread does not sleep when something was posted. *)
Definition posting (e : event) : Prop :=
  match e with Enter i r => i = O /\ r = Down | Post _ | Wake _ | Retry _ | Finish _ => True | _ => False end.
Record post_inv (y : mutex_sys) : Prop := {
  p_kept : kept (mutex y) = false;
  p_one i t : threads y !! i = Some t -> t = Outside \/ (i = O /\ (t = Asleep Down \/ t = Woken Down \/ t = Inside Down));
  p_value : 0 <= value (mutex y);
  p_waiters : waiters (mutex y) = count asleep (threads y) + count woken (threads y);
  p_woken : 0 < value (mutex y) -> count asleep (threads y) = 0 }.
Lemma one_put ts x t : (forall i t, ts !! i = Some t -> t = Outside \/ (i = O /\ (t = Asleep Down \/ t = Woken Down \/ t = Inside Down))) ->
  ts !! O = Some x -> t = Outside \/ t = Asleep Down \/ t = Woken Down \/ t = Inside Down ->
  forall i t', put 0 t ts !! i = Some t' -> t' = Outside \/ (i = O /\ (t' = Asleep Down \/ t' = Woken Down \/ t' = Inside Down)).
Proof.
  intros H E Ht i t' Hi. unfold put in Hi. destruct i as [|i].
  - rewrite list_lookup_alter_eq, E in Hi. injection Hi as <-. destruct Ht; auto.
  - rewrite list_lookup_alter_ne in Hi by done. eauto.
Qed.
Lemma post_step_ok y e y' : post_inv y -> posting e -> step y e = Some y' -> post_inv y'.
Proof.
  destruct y as [[v q k] ts]. intros [K O V W N] Ha. cbn [mutex threads kept value waiters] in *. subst k. unfold step. cbn [mutex threads kept].
  pose proof (count_le asleep ts) as Ba. pose proof (count_le woken ts) as Bw.
  assert (Main : forall i t, ts !! i = Some t -> t <> Outside -> i = 0%nat /\ (t = Asleep Down \/ t = Woken Down \/ t = Inside Down)).
  { intros i t E Ht. destruct (O i t E) as [->|]; done. }
  assert (Round : forall x q', ts !! 0%nat = Some x -> asleep x = false -> q' = q - Z.b2z (woken x) ->
    post_inv (after_down 0 Down (down Down (Build_fio_mutex v q' false)) ts)).
  { intros x q' E Hx ->. unfold after_down, down, fio_mutex_down. cbn [value]. destruct (Z.eqb_spec v 0) as [->|];
      (split; cbn [mutex threads sleep fst snd kept value waiters upd eta_fio_mutex]; [done|apply (one_put ts x); auto|lia|counts E; rewrite Hx; cbn [Z.b2z]; lia|intros ?; try lia]).
    counts E. rewrite Hx. cbn [Z.b2z]. specialize (N ltac:(lia)). lia. }
  destruct e as [i r|i|i|i b|i w|w|i]; cbn [posting] in Ha; try done.
  - destruct Ha as [-> ->]. destruct (ts !! 0%nat) as [[| | | |]|] eqn:E; try done. intros [= <-]. eapply Round; [done|done|]. cbn. lia.
  - destruct (ts !! i) as [[| | | |]|] eqn:E; try done. intros [= <-]. destruct (Main i _ E) as [-> Hd]; [done|]. destruct Hd as [[= ->]|[?|?]]; try done.
    split; cbn [mutex threads kept value waiters]; [done|apply (one_put ts _ _ O E); auto|done|counts E; lia|]. intros Hv. specialize (N Hv). pose proof (count_pos asleep ts 0 _ E eq_refl). lia.
  - destruct (ts !! i) as [[| | | |]|] eqn:E; try done. intros [= <-]. destruct (Main i _ E) as [-> Hd]; [done|]. destruct Hd as [?|[[= ->]|?]]; try done.
    eapply (Round (Woken Down)); [done|done|]. cbn. lia.
  - unfold fio_mutex_up. cbn [value waiters]. destruct (signal _ w ts) as [ts'|] eqn:Es; [|done]. intros [= <-].
    apply signal_spec in Es as [[-> Hn]|(s & rs & Hsig & E & ->)].
    + split; cbn [mutex threads kept value waiters upd eta_fio_mutex]; [done|done|lia|done|]. intros _. destruct (Z.eq_dec v 0) as [->|]; [|apply N; lia].
      destruct (Z.eq_dec q 0); [lia|]. apply Hn. lia.
    + destruct (Main s _ E) as [-> Hd]; [done|]. destruct Hd as [[= ->]|[?|?]]; try done.
      split; cbn [mutex threads kept value waiters upd eta_fio_mutex]; [done|apply (one_put ts _ _ O E); auto|lia|counts E; lia|]. intros _. counts E.
      pose proof (count_pos asleep ts 0 _ E eq_refl). assert (count asleep ts <= 1); [|lia].
      destruct (Z_le_gt_dec (count asleep ts) 1); [done|]. exfalso. clear -O g E Hsig.
      assert (H0 : forall i t, (0 < i)%nat -> ts !! i = Some t -> asleep t = false) by (intros i t Hi Et; destruct (O i t Et) as [->|[-> _]]; [done|lia]).
      destruct ts as [|t0 ts]; [done|]. rewrite count_cons in g. assert (count asleep ts = 0) by (apply count_zero; intros i t Et; apply (H0 (S i) t); [lia|done]).
      destruct (asleep t0); cbn [Z.b2z] in g; lia.
  - destruct (ts !! i) as [[| | | |]|] eqn:E; try done. intros [= <-]. destruct (Main i _ E) as [-> Hd]; [done|].
    split; cbn [mutex threads kept value waiters]; [done|apply (one_put ts _ _ O E); auto|done|counts E; lia|]. intros Hv. specialize (N Hv). counts E. lia.
Qed.
Lemma posted_wakes n y : reachable posting (start 0 n) y -> 0 < value (mutex y) -> forall i r, threads y !! i <> Some (Asleep r).
Proof.
  intros Hr Hv i r E. assert (Hi : post_inv y).
  { clear -Hr. induction Hr as [|y e y' _ IH Ha Hs]; [|by eapply post_step_ok].
    assert (Z0 : forall p, p Outside = false -> count p (replicate n Outside) = 0).
    { intros p Hp. apply count_zero. intros i t E. apply lookup_replicate in E as [-> _]. done. }
    split; cbn [mutex threads start fio_mutex_init value waiters kept]; rewrite ?Z0 by done; try done. intros i t E. apply lookup_replicate in E as [-> _]. by left. }
  destruct Hi as [_ _ _ _ N]. pose proof (count_pos asleep _ i _ E eq_refl). specialize (N Hv). lia.
Qed.

(** With two threads that wait this is lost: the second one of two calls of
    [fio_mutex_up] does not signal, since the first one has made the value 1. *)
Lemma second_post_is_lost :
  match exec (start 0 2) [Enter 0 Down; Enter 1 Down; Post (Some 0%nat); Post None; Retry 0; Finish 0] with
  | Some y => value (mutex y) = 1 /\ threads y = [Outside; Asleep Down]
  | None => False
  end.
Proof. vm_compute. done. Qed.
(** After a timed wait that has ended by its time nobody gets the lock any more. *)
Lemma timeout_keeps_lock y i b y' : step y (Expire i b) = Some y' ->
  forall k, (forall r, step y' (Enter k r) = None) /\ step y' (Retry k) = None /\ (forall w, step y' (Post w) = None /\ step y' (Leave k w) = None).
Proof.
  unfold step at 1. destruct (kept (mutex y)) eqn:K; [done|]. destruct (threads y !! i) as [[|[]| | |]|]; try done. intros [= <-] k.
  assert (Kk : kept (down_timed_out b (mutex y)) = true) by (destruct (mutex y), b; done).
  split_and!; intros; unfold step; cbn [mutex threads]; rewrite Kk; done.
Qed.
End Mutex.
