(* ===== verification/Engines.v ===== *)
(** * Two asynchronous engines

    [src/engines/null.c] and [src/engines/libaio.c].  The class [Engine] says what the
    pool of io_us needs of an engine: an io_u that was queued is handed out once as an
    event, and nothing else is.  Both engines have it.  The array of libaio and what the
    kernel answers to [io_submit] and [io_getevents] are in the model; a result [None]
    is an access outside of an array, or a call that does not return. *)
From S2P Require Import Prelude Types IoPool.
From stdpp Require Import list.
From Stdlib Require Import ZifyBool.
Local Open Scope Z_scope.

Module Engines.
Import Types.
Import IoPool(q_ret, FIO_Q_COMPLETED, FIO_Q_QUEUED, FIO_Q_BUSY).

(** ** The interface

    [In]: what the system answers; [depth]: the number of io_us of the job. *)
Class Engine (E In : Type) := {
  holds : E -> list nat;
  depth : E -> nat;
  queue : fio_ddir -> nat -> E -> option (q_ret * E);
  commit : In -> E -> option (Z * E);
  getevents : In -> nat -> nat -> E -> option (Z * list nat * E) }.
Class EngineLaws (E In : Type) `{!Engine E In} := {
  good : E -> Prop;
  benign : In -> Prop;
  queue_law d id e : good e -> (id < depth e)%nat -> id ∉ holds e -> exists r e', queue d id e = Some (r, e') /\ good e' /\
    depth e' = depth e /\ holds e' ≡ₚ ((match r with FIO_Q_QUEUED => [id] | _ => [] end) ++ holds e);
  commit_law i e r e' : good e -> benign i -> commit i e = Some (r, e') -> good e' /\ depth e' = depth e /\ holds e' ≡ₚ holds e;
  getevents_law i lo hi e r evs e' : good e -> benign i -> getevents i lo hi e = Some (r, evs, e') ->
    good e' /\ depth e' = depth e /\ holds e ≡ₚ evs ++ holds e' }.

(** ** The null engine.  [io_us] is empty if it was not allocated. *)
Record null_data := { io_us : list nat; queued : nat; events : nat; syncio : bool }.
#[export] Instance eta_null_data : Eta null_data := fun n => Build_null_data (io_us n) (queued n) (events n) (syncio n).
Definition fio_null_init (iodepth : nat) : null_data :=
  if (iodepth =? 1)%nat then Build_null_data [] 0 0 true else Build_null_data (replicate iodepth 0%nat) 0 0 false.
Definition fio_null_event (nd : null_data) (event : nat) : option nat := io_us nd !! event.
Definition fio_null_getevents (min_events : nat) (nd : null_data) : nat * null_data :=
  if (min_events =? 0)%nat then (0%nat, nd) else (events nd, nd <| events := 0%nat |>).
Definition fio_null_commit (nd : null_data) : null_data :=
  if (events nd =? 0)%nat then nd <| events := queued nd |> <| queued := 0%nat |> else nd.
Definition fio_null_queue (id : nat) (nd : null_data) : option (q_ret * null_data) :=
  if syncio nd then Some (FIO_Q_COMPLETED, nd)
  else if negb (events nd =? 0)%nat then Some (FIO_Q_BUSY, nd)
  else if (queued nd <? length (io_us nd))%nat
       then Some (FIO_Q_QUEUED, nd <| io_us ::= <[queued nd := id]> |> <| queued ::= S |>) else None.

(** ** libaio *)

(** What [io_submit] answers: that many were taken, [EAGAIN] or [EINTR], or an error. *)
Inductive submitted := Took (n : nat) | Again | Refused (e : Z).
(** What [io_getevents] answers: the io_us that are done, or an error. *)
Inductive reap_answer := Got (l : list nat) | Failed (e : Z).
(** [aio_ctx]: the io_us the kernel has. *)
Record libaio_data := { iocbs : list nat; l_io_us : list nat; iocbs_nr : nat; aio_ctx : list nat; iodepth : nat }.
#[export] Instance eta_libaio_data : Eta libaio_data := fun l =>
  Build_libaio_data (iocbs l) (l_io_us l) (iocbs_nr l) (aio_ctx l) (iodepth l).
Definition fio_libaio_init (n : nat) : libaio_data := Build_libaio_data (replicate n 0%nat) (replicate n 0%nat) 0 [] n.
Definition sync_or_trim (d : fio_ddir) : bool := ddir_sync d || bool_decide (d = DDIR_TRIM).
Definition fio_libaio_queue (d : fio_ddir) (id : nat) (ld : libaio_data) : option (q_ret * libaio_data) :=
  if (iocbs_nr ld =? iodepth ld)%nat then Some (FIO_Q_BUSY, ld)
  else if sync_or_trim d then Some (if (iocbs_nr ld =? 0)%nat then FIO_Q_COMPLETED else FIO_Q_BUSY, ld)
  else if (iocbs_nr ld <? length (iocbs ld))%nat && (iocbs_nr ld <? length (l_io_us ld))%nat
       then Some (FIO_Q_QUEUED, ld <| iocbs ::= <[iocbs_nr ld := id]> |> <| l_io_us ::= <[iocbs_nr ld := id]> |> <| iocbs_nr ::= S |>)
       else None.

(** The loop of [fio_libaio_commit]; [off] is how far the local pointers were moved. *)
Fixpoint commit_loop (ans : list submitted) (off : nat) (ld : libaio_data) : option (Z * libaio_data) :=
  match ans with
  | [] => None
  | Took n :: ans =>
      if (iocbs_nr ld <? n)%nat then None
      else if (n =? 0)%nat then commit_loop ans off ld
      else
        let ld := ld <| aio_ctx ::= fun c => c ++ take n (drop off (iocbs ld)) |> <| iocbs_nr := (iocbs_nr ld - n)%nat |> in
        if (iocbs_nr ld =? 0)%nat then Some (0, ld) else commit_loop ans (off + n) ld
  | Again :: ans => commit_loop ans off ld
  | Refused e :: _ => Some (e, ld)
  end.
Definition fio_libaio_commit (ans : list submitted) (ld : libaio_data) : option (Z * libaio_data) :=
  if (iocbs_nr ld =? 0)%nat then Some (0, ld) else commit_loop ans 0 ld.

(** [fio_libaio_getevents]; the kernel answers with io_us it has, each once. *)
Definition takes (l ctx : list nat) : bool := bool_decide (NoDup l) && bool_decide (l ⊆ ctx).
Fixpoint getevents_loop (ans : list reap_answer) (lo hi : nat) (evs : list nat) (ld : libaio_data) : option (Z * list nat * libaio_data) :=
  match ans with
  | [] => None
  | Got l :: ans =>
      if takes l (aio_ctx ld) && (length l <=? hi)%nat then
        let ld := ld <| aio_ctx ::= filter (fun x => x ∉ l) |> in
        let evs := evs ++ l in
        if (length evs <? lo)%nat then getevents_loop ans lo hi evs ld else Some (Z.of_nat (length evs), evs, ld)
      else None
  | Failed e :: ans => if (length evs <? lo)%nat then getevents_loop ans lo hi evs ld else Some (e, [], ld)
  end.
Definition fio_libaio_getevents (ans : list reap_answer) (lo hi : nat) (ld : libaio_data) := getevents_loop ans lo hi [] ld.

(** [user_io_getevents]: the completions are taken from the ring the kernel fills. *)
Record aio_ring := { ring_head : nat; ring_tail : nat; ring_events : list nat }.   (* [nr] is the length *)
Fixpoint user_io_getevents (max : nat) (r : aio_ring) : option (list nat * aio_ring) :=
  match max with
  | O => Some ([], r)
  | S max =>
      if (ring_head r =? ring_tail r)%nat then Some ([], r)
      else
        x ← ring_events r !! ring_head r;
        '(l, r) ← user_io_getevents max (Build_aio_ring ((ring_head r + 1) mod length (ring_events r)) (ring_tail r) (ring_events r));
        Some (x :: l, r)
  end.

(** ** The instances *)
#[export] Instance null_engine : Engine null_data unit := {
  holds nd := take (queued nd + events nd) (io_us nd);
  depth nd := if syncio nd then 1%nat else length (io_us nd);
  queue _ := fio_null_queue;
  commit _ nd := Some (0, fio_null_commit nd);
  getevents _ lo _ nd := let '(n, nd') := fio_null_getevents lo nd in
                         evs ← mapM (fio_null_event nd) (seq 0 n); Some (Z.of_nat n, evs, nd') }.
Record kernel := { submits : list submitted; reaps : list reap_answer }.
#[export] Instance libaio_engine : Engine libaio_data kernel := {
  holds ld := take (iocbs_nr ld) (iocbs ld) ++ aio_ctx ld;
  depth := iodepth;
  queue := fio_libaio_queue;
  commit k := fio_libaio_commit (submits k);
  getevents k lo hi := fio_libaio_getevents (reaps k) lo hi }.

(** ** Runs of an engine: the operations of the pool, with the io_us that were
    queued and those that came back. *)
Inductive op (In : Type) := Queue (d : fio_ddir) (id : nat) | Commit (i : In) | Events (i : In) (lo hi : nat).
Arguments Queue {In}. Arguments Commit {In}. Arguments Events {In}.
Section runs.
Context {E In : Type} `{!Engine E In}.
Definition do_op (o : op In) (e : E) : option (list nat * list nat * E) :=
  match o with
  | Queue d id => '(r, e') ← queue d id e; Some (match r with FIO_Q_QUEUED => [id] | _ => [] end, [], e')
  | Commit i => '(_, e') ← commit i e; Some ([], [], e')
  | Events i lo hi => '(_, evs, e') ← getevents i lo hi e; Some ([], evs, e')
  end.
(** An io_u that is queued is one of the job that the engine does not have. *)
Inductive run (benign_in : In -> Prop) (e0 : E) : list nat -> list nat -> E -> Prop :=
  | run_init : run benign_in e0 [] [] e0
  | run_step acc rep e o a b e' : run benign_in e0 acc rep e ->
      match o with Queue _ id => (id ∉ holds e) /\ (id < depth e)%nat | Commit i | Events i _ _ => benign_in i end ->
      do_op o e = Some (a, b, e') -> run benign_in e0 (acc ++ a) (rep ++ b) e'.
End runs.

(** * Properties *)

(** ** Any engine *)
Section any.
Context {E In : Type} `{!Engine E In} `{!EngineLaws E In}.
(** What was queued is what came back and what the engine still has, each io_u as many
    times; so an io_u comes back only if it was queued since it came back last.  An
    io_u of the job that the engine does not have can be queued. *)
Lemma engine_accounts e0 acc rep e : good e0 -> holds e0 = [] -> run benign e0 acc rep e ->
  good e /\ depth e = depth e0 /\ (rep ++ holds e ≡ₚ acc) /\
  (forall d id, (id < depth e)%nat -> id ∉ holds e -> is_Some (queue d id e)).
Proof.
  intros Hg H0 Hr. assert (H : good e /\ depth e = depth e0 /\ (rep ++ holds e ≡ₚ acc)).
  { induction Hr as [|acc rep e o a b e' _ IH Ho Hd]; [by rewrite H0|]. destruct IH as (G & D & P). destruct o as [d id|i|i lo hi]; cbn [do_op] in Hd.
    - destruct Ho as [Hn Hi]. destruct (queue_law d id e G Hi Hn) as (r & e1 & Eq & G1 & D1 & P1). rewrite Eq in Hd. cbn in Hd. injection Hd as <- <- <-.
      split_and!; [done|congruence|]. rewrite app_nil_r, P1, <- P. destruct r; rewrite ?app_nil_r; cbn [app]; try done. by rewrite <- Permutation_middle, Permutation_cons_append.
    - destruct (commit i e) as [[r e1]|] eqn:Eq; [|done]. cbn in Hd. injection Hd as <- <- <-. destruct (commit_law i e r e1 G Ho Eq) as (G1 & D1 & P1).
      split_and!; [done|congruence|]. by rewrite !app_nil_r, P1.
    - destruct (getevents i lo hi e) as [[[r evs] e1]|] eqn:Eq; [|done]. cbn in Hd. injection Hd as <- <- <-. destruct (getevents_law i lo hi e r evs e1 G Ho Eq) as (G1 & D1 & P1).
      split_and!; [done|congruence|]. rewrite app_nil_r, <- P, P1. by rewrite app_assoc. }
  destruct H as (G & D & P). split_and!; try done. intros d id Hi Hn. destruct (queue_law d id e G Hi Hn) as (r & e1 & -> & _). by eexists.
Qed.
End any.

(** ** Lists of io_us *)
Definition ids_ok (n : nat) (l : list nat) : Prop := NoDup l /\ Forall (fun x => (x < n)%nat) l.
Lemma ids_cons n id l : ids_ok n l -> id ∉ l -> (id < n)%nat -> ids_ok n (id :: l).
Proof. intros [H1 H2] Hn Hi. split; by constructor. Qed.
Lemma ids_perm n l l' : l ≡ₚ l' -> ids_ok n l -> ids_ok n l'.
Proof. intros P [H1 H2]. split; by rewrite <- P. Qed.
Lemma ids_app_r n l l' : ids_ok n (l ++ l') -> ids_ok n l'.
Proof. intros [H1 H2]. apply NoDup_app in H1. apply Forall_app in H2. split; [apply H1|apply H2]. Qed.
Lemma ids_room n id l : ids_ok n l -> id ∉ l -> (id < n)%nat -> (length l < n)%nat.
Proof.
  intros H Hn Hi. destruct (ids_cons n id l H Hn Hi) as [H1 H2]. rewrite <- (length_seq n 0). change (length (id :: l) <= length (seq 0 n))%nat.
  apply submseteq_length, NoDup_submseteq; [done|]. intros x Hx. rewrite Forall_forall in H2. apply elem_of_seq. specialize (H2 x Hx). lia.
Qed.
Lemma take_insert_S {A} (l : list A) k x : (k < length l)%nat -> take (S k) (<[k := x]> l) = take k l ++ [x].
Proof.
  intros Hk. rewrite (take_S_r _ k x) by (by apply list_lookup_insert_eq). by rewrite take_insert_ge by lia.
Qed.

(** ** The null engine *)
Record null_good (nd : null_data) : Prop := {
  n_one : events nd = 0%nat \/ queued nd = 0%nat;
  n_fits : (queued nd + events nd <= length (io_us nd))%nat;
  n_sync : syncio nd = true -> io_us nd = [];
  n_ids : ids_ok (length (io_us nd)) (take (queued nd + events nd) (io_us nd)) }.
Lemma mapM_from nd n : forall k, (k + n <= length (io_us nd))%nat -> mapM (fio_null_event nd) (seq k n) = Some (take n (drop k (io_us nd))).
Proof.
  induction n as [|n IH]; intros k Hn; [done|]. 
  destruct (lookup_lt_is_Some_2 (io_us nd) k) as [x Ex]; [lia|].
  assert (Hx : fio_null_event nd k = Some x) by exact Ex. cbn. rewrite Hx. cbn. rewrite IH by lia. cbn. by rewrite (drop_S _ _ _ Ex).
Qed.
Lemma mapM_events nd n : (n <= length (io_us nd))%nat -> mapM (fio_null_event nd) (seq 0 n) = Some (take n (io_us nd)).
Proof. apply (mapM_from nd n 0). Qed.
#[export] Instance null_laws : EngineLaws null_data unit.
Proof.
  refine {| good := null_good; benign := fun _ => True |}.
  - intros d id [us q ev sy] [O F S I] Hi Hn. cbn [depth null_engine holds queue io_us queued events syncio] in *. unfold fio_null_queue. cbn [syncio events queued io_us].
    destruct sy; [eexists _, _; split; [reflexivity|]; done|]. destruct ev as [|ev]; cbn [Nat.eqb negb]; [|eexists _, _; split; [reflexivity|]; done].
    rewrite Nat.add_0_r in *. pose proof (ids_room _ id _ I Hn Hi) as Hr. rewrite length_take in Hr. destruct (Nat.ltb_spec q (length us)) as [Hq|]; [|lia].
    eexists _, _. split; [reflexivity|]. cbn [depth null_engine holds io_us queued events syncio upd eta_null_data]. rewrite Nat.add_0_r, take_insert_S, length_insert by done.
    split; [|split; [done|by rewrite <- Permutation_cons_append]]. split; cbn [io_us queued events syncio upd eta_null_data]; rewrite ?length_insert, ?Nat.add_0_r; auto; try done.
    rewrite take_insert_S by done. eapply ids_perm; [apply Permutation_cons_append|]. by apply ids_cons.
  - intros [] [us q ev sy] r e' [O F S I] _. cbn. intros [= <- <-]. unfold fio_null_commit. cbn [events queued]. destruct (Nat.eqb_spec ev 0) as [->|]; [|done].
    cbn in *. rewrite Nat.add_0_r in *. split; [|done]. split; cbn; auto.
  - intros [] lo hi [us q ev sy] r evs e' [O F S I] _. cbn [getevents null_engine]. unfold fio_null_getevents. destruct (Nat.eqb_spec lo 0); [cbn; by intros [= <- <- <-]|].
    cbn [events io_us queued] in *. rewrite mapM_events by (cbn; lia). cbn. intros [= <- <- <-]. cbn. destruct O as [-> | ->].
    + rewrite Nat.add_0_r in *. split; [|done]. split; cbn; rewrite ?Nat.add_0_r; auto.
    + cbn in *. rewrite app_nil_r. split; [|done]. split; cbn; auto; [lia|]. split; constructor.
Defined.

(** ** libaio *)
Definition not_refused (a : submitted) : Prop := match a with Refused _ => False | _ => True end.
(** An error comes before anything was taken. *)
Fixpoint submits_ok (ans : list submitted) : Prop :=
  match ans with
  | [] => True
  | Took (S _) :: ans => Forall not_refused ans
  | (Took O | Again) :: ans => submits_ok ans
  | Refused _ :: _ => True
  end.
Lemma commit_loop_all ans : forall off ld r ld', Forall not_refused ans -> (0 < iocbs_nr ld)%nat -> commit_loop ans off ld = Some (r, ld') ->
  r = 0 /\ ld' = ld <| aio_ctx ::= fun c => c ++ take (iocbs_nr ld) (drop off (iocbs ld)) |> <| iocbs_nr := 0%nat |>.
Proof.
  induction ans as [|a ans IH]; intros off [cb us nr ctx dp] r ld' Ha Hn; [done|]. inversion Ha as [|? ? Hb Hc]; subst.
  destruct a as [n| |e]; [|by apply IH|done]. cbn [commit_loop iocbs_nr]. cbn [iocbs_nr] in Hn. destruct (Nat.ltb_spec nr n); [done|]. destruct (Nat.eqb_spec n 0) as [->|]; [by apply IH|].
  cbn [iocbs_nr aio_ctx iocbs upd eta_libaio_data]. destruct (Nat.eqb_spec (nr - n) 0) as [E|E].
  - intros [= <- <-]. replace nr with n by lia. rewrite Nat.sub_diag. done.
  - intros H1. apply IH in H1 as [-> ->]; [|done|cbn; lia]. split; [done|]. cbn [iocbs_nr aio_ctx iocbs upd eta_libaio_data]. f_equal.
    rewrite <- (app_assoc ctx), <- drop_drop, take_take_drop. do 3 f_equal. lia.
Qed.
Lemma commit_loop_ok ans : forall ld r ld', submits_ok ans -> (0 < iocbs_nr ld)%nat -> commit_loop ans 0 ld = Some (r, ld') ->
  ld' = ld \/ ld' = ld <| aio_ctx ::= fun c => c ++ take (iocbs_nr ld) (iocbs ld) |> <| iocbs_nr := 0%nat |>.
Proof.
  induction ans as [|a ans IH]; intros ld r ld' Ha Hn; [done|]. destruct a as [[|n]| |e].
  - apply IH; done.
  - intros H1. apply commit_loop_all in H1 as [_ ->]; [by right|by constructor|done].
  - by apply IH.
  - intros [= <- <-]. by left.
Qed.
Record libaio_good (ld : libaio_data) : Prop := {
  g_iocbs : length (iocbs ld) = iodepth ld;
  g_io_us : length (l_io_us ld) = iodepth ld;
  g_nr : (iocbs_nr ld <= iodepth ld)%nat;
  g_ids : ids_ok (iodepth ld) (take (iocbs_nr ld) (iocbs ld) ++ aio_ctx ld) }.
Lemma takes_perm l ctx : NoDup ctx -> takes l ctx = true -> ctx ≡ₚ l ++ filter (fun x => x ∉ l) ctx.
Proof.
  unfold takes. intros Hc [H1%bool_decide_eq_true H2%bool_decide_eq_true]%andb_true_iff. apply NoDup_Permutation; [done|..].
  - apply NoDup_app. split_and!; [done| |by apply NoDup_filter]. intros x Hx [Hn _]%list_elem_of_filter. done.
  - intros x. rewrite elem_of_app, list_elem_of_filter. destruct (decide (x ∈ l)); naive_solver.
Qed.
Lemma getevents_loop_ok ans lo hi : forall evs ld r evs' ld', libaio_good ld -> getevents_loop ans lo hi evs ld = Some (r, evs', ld') ->
  (0 < lo \/ evs = [])%nat -> (length evs < lo \/ evs = [])%nat ->
  libaio_good ld' /\ iodepth ld' = iodepth ld /\ (evs ++ take (iocbs_nr ld) (iocbs ld) ++ aio_ctx ld ≡ₚ evs' ++ take (iocbs_nr ld') (iocbs ld') ++ aio_ctx ld').
Proof.
  induction ans as [|a ans IH]; intros evs ld r evs' ld' G; [done|]. destruct a as [l|e]; cbn [getevents_loop].
  - destruct (takes l (aio_ctx ld) && (length l <=? hi)%nat) eqn:T; [|done]. apply andb_true_iff in T as [T _]. destruct G as [G1 G2 G3 G4].
    assert (P : aio_ctx ld ≡ₚ l ++ filter (fun x => x ∉ l) (aio_ctx ld)) by (apply takes_perm; [apply (ids_app_r _ _ _ G4)|done]).
    destruct ld as [cb us nr ctx dp]. cbn [aio_ctx iocbs iocbs_nr iodepth l_io_us upd eta_libaio_data] in *.
    assert (P2 : evs ++ take nr cb ++ ctx ≡ₚ (evs ++ l) ++ take nr cb ++ filter (fun x => x ∉ l) ctx).
    { rewrite P at 1. rewrite <- !app_assoc. apply Permutation_app_head. rewrite !app_assoc. apply Permutation_app_tail, Permutation_app_comm. }
    assert (Gn : libaio_good (Build_libaio_data cb us nr (filter (fun x => x ∉ l) ctx) dp)).
    { split; cbn [aio_ctx iocbs iocbs_nr iodepth l_io_us]; try done. apply (ids_app_r _ l). eapply ids_perm; [|exact G4]. rewrite P at 1.
      rewrite !app_assoc. apply Permutation_app_tail, Permutation_app_comm. }
    destruct (Nat.ltb_spec (length (evs ++ l)) lo) as [Hl|Hl].
    + intros H1 H2 H3. apply IH in H1 as (A & B & C); [|done|lia|by left]. cbn [aio_ctx iocbs iocbs_nr iodepth] in *. split_and!; try done. by rewrite P2, C.
    + intros [= <- <- <-] _ _. cbn [aio_ctx iocbs iocbs_nr iodepth]. split_and!; done.
  - destruct (Nat.ltb_spec (length evs) lo) as [Hl|Hl]; [apply IH; done|]. intros [= <- <- <-] _ [H2| ->]; [lia|]. done.
Qed.
#[export] Instance libaio_laws : EngineLaws libaio_data kernel.
Proof.
  refine {| good := libaio_good; benign := fun k => submits_ok (submits k) |}.
  - intros d id ld G Hi Hn. cbn [depth libaio_engine holds queue] in *. unfold fio_libaio_queue. pose proof G as [G1 G2 G3 G4]. destruct (Nat.eqb_spec (iocbs_nr ld) (iodepth ld)) as [Eq|Eq].
    { eexists _, _. split; [reflexivity|]. done. }
    destruct (sync_or_trim d). { eexists _, _. split; [reflexivity|]. by destruct (iocbs_nr ld =? 0)%nat. }
    rewrite G1, G2. destruct (Nat.ltb_spec (iocbs_nr ld) (iodepth ld)); [|lia]. cbn [andb]. eexists _, _. split; [reflexivity|].
    destruct ld as [cb us nr ctx dp]. cbn [iocbs l_io_us iocbs_nr aio_ctx iodepth upd eta_libaio_data] in *. rewrite take_insert_S by lia.
    assert (P : (take nr cb ++ [id]) ++ ctx ≡ₚ id :: take nr cb ++ ctx) by (rewrite <- app_assoc; by rewrite Permutation_middle).
    split_and!; [|done|exact P]. split; cbn [iocbs l_io_us iocbs_nr aio_ctx iodepth]; rewrite ?length_insert; try done; try lia. rewrite take_insert_S by lia.
    eapply ids_perm; [symmetry; exact P|]. by apply ids_cons.
  - intros k ld r ld' G Hb. cbn [commit libaio_engine holds depth]. unfold fio_libaio_commit. destruct (Nat.eqb_spec (iocbs_nr ld) 0); [intros [= <- <-]; done|].
    intros H1. apply commit_loop_ok in H1 as [->| ->]; [done| |done|lia]. destruct G as [G1 G2 G3 G4]. destruct ld as [cb us nr ctx dp].
    cbn [iocbs l_io_us iocbs_nr aio_ctx iodepth upd eta_libaio_data take app] in *. split_and!; [|done|exact (Permutation_app_comm ctx (take nr cb))].
    split; cbn [iocbs l_io_us iocbs_nr aio_ctx iodepth]; try done; try lia. change (ids_ok dp (ctx ++ take nr cb)). eapply ids_perm; [apply Permutation_app_comm|done].
  - intros k lo hi ld r evs ld' G _ H1. cbn [getevents libaio_engine holds depth] in *. apply (getevents_loop_ok _ _ _ [] ld r evs ld' G) in H1; [exact H1|by right|by right].
Defined.


(** When [io_submit] fails after a part was taken, the next call submits from the start
    of the array again: the first io_u twice, the last one never. *)
Lemma refused_submit_repeats :
  (e ← snd <$> fio_libaio_queue DDIR_READ 0 (fio_libaio_init 3); e ← snd <$> fio_libaio_queue DDIR_READ 1 e; e ← snd <$> fio_libaio_queue DDIR_READ 2 e;
   e ← snd <$> fio_libaio_commit [Took 1; Refused (-5)] e; e ← snd <$> fio_libaio_commit [Took 2] e; Some (iocbs_nr e, aio_ctx e))
  = Some (0%nat, [0; 0; 1]%nat).
Proof. reflexivity. Qed.

(** ** The ring of the kernel: its entries from [head] up to [tail]. *)
Definition ring_len (r : aio_ring) : nat := ((ring_tail r + length (ring_events r) - ring_head r) mod length (ring_events r))%nat.
Definition ring_list (r : aio_ring) : list (option nat) :=
  map (fun i => ring_events r !! ((ring_head r + i) mod length (ring_events r))%nat) (seq 0 (ring_len r)).
Lemma ring_next h t (ev : list nat) : (h < length ev)%nat -> (t < length ev)%nat -> h <> t ->
  ring_list (Build_aio_ring h t ev) = (ev !! h) :: ring_list (Build_aio_ring ((h + 1) mod length ev) t ev) /\ ((h + 1) mod length ev < length ev)%nat.
Proof.
  intros Hh Ht Hne. set (n := length ev) in *. assert (Hn : n <> 0%nat) by lia.
  assert (Hm : ((h + 1) mod n < n)%nat) by (by apply Nat.mod_upper_bound). split; [|done]. unfold ring_list, ring_len. cbn [ring_head ring_tail ring_events]. fold n.
  assert (L : ((t + n - h) mod n = S ((t + n - (h + 1) mod n) mod n))%nat).
  { destruct (decide (h + 1 = n)%nat) as [E|E].
    - rewrite E, Nat.Div0.mod_same. replace (t + n - h)%nat with (t + 1)%nat by lia. rewrite Nat.sub_0_r. replace (t + n)%nat with (t + 1 * n)%nat by lia.
      rewrite Nat.Div0.mod_add, !Nat.mod_small by lia. lia.
    - rewrite (Nat.mod_small (h + 1)) by lia. destruct (decide (h < t)%nat).
      + replace (t + n - h)%nat with ((t - h) + 1 * n)%nat by lia. replace (t + n - (h + 1))%nat with ((t - h - 1) + 1 * n)%nat by lia.
        rewrite !Nat.Div0.mod_add, !Nat.mod_small by lia. lia.
      + rewrite !Nat.mod_small by lia. lia. }
  rewrite L. cbn [seq map]. rewrite Nat.add_0_r, (Nat.mod_small h) by done. f_equal. rewrite <- seq_shift, map_map. apply map_ext. intros i. f_equal.
  rewrite Nat.Div0.add_mod_idemp_l. f_equal. lia.
Qed.
(** The reaped events are the next ones of the ring, at most [max], in order. *)
Lemma user_io_getevents_ok max : forall r, (ring_head r < length (ring_events r))%nat -> (ring_tail r < length (ring_events r))%nat ->
  exists l r', user_io_getevents max r = Some (l, r') /\ map Some l = take max (ring_list r) /\ ring_list r' = drop max (ring_list r).
Proof.
  induction max as [|max IH]; intros [h t ev] Hh Ht; cbn [ring_head ring_tail ring_events] in *; [by eexists _, _|].
  cbn [user_io_getevents ring_head ring_tail ring_events]. destruct (Nat.eqb_spec h t) as [->|Hne].
  - eexists _, _. split; [reflexivity|]. assert (E : ring_list (Build_aio_ring t t ev) = []); [|by rewrite E].
    unfold ring_list, ring_len. cbn [ring_head ring_tail ring_events]. replace (t + length ev - t)%nat with (length ev) by lia. by rewrite Nat.Div0.mod_same.
  - destruct (ring_next h t ev Hh Ht Hne) as [-> Hm]. destruct (lookup_lt_is_Some_2 ev h Hh) as [x Ex]. rewrite Ex. cbn [mbind option_bind].
    destruct (IH (Build_aio_ring ((h + 1) mod length ev) t ev) Hm Ht) as (l & r' & -> & L1 & L2). cbn. eexists _, _. split; [reflexivity|]. cbn. by rewrite L1.
Qed.
End Engines.
