(* ===== verification/Iolog.v ===== *)
(** * Logs of io_us

    [src/iolog.c]: the log of the io_us of a job ([log_io_u], [log_file],
    [init_iolog_write]), how it is read ([init_iolog_read], [read_iolog2]) and replayed
    ([read_iolog_get]).  [sscanf] reads blanks, words and numbers as the C library does.
    [read_iolog2] indexes [max_bs], an array of two, with the directions of syncs and of
    file actions too: that an element outside of it was used is noted in [r_outside],
    what it reads or changes there is not modelled. *)
From S2P Require Import Prelude Types CString JobFile.
From stdpp Require Import strings.
From Stdlib Require Import ZifyBool.
Local Open Scope Z_scope.
Local Open Scope cstr_scope.

Module Iolog.
Import CString Types.

(** ** Writing.  [None]: there is no name for the direction. *)
Definition ddir_act (d : fio_ddir) : option cstr :=
  match d with
  | DDIR_READ => Some $"read" | DDIR_WRITE => Some $"write" | DDIR_SYNC => Some $"sync" | DDIR_DATASYNC => Some $"datasync"
  | DDIR_SYNC_FILE_RANGE => Some $"sync_file_range" | DDIR_WAIT => Some $"wait" | DDIR_TRIM => Some $"trim" | DDIR_INVAL => None
  end.
Inductive file_log_act := FIO_LOG_ADD_FILE | FIO_LOG_OPEN_FILE | FIO_LOG_CLOSE_FILE | FIO_LOG_UNLINK_FILE.
Definition log_io_u_line (file_name : cstr) (d : fio_ddir) (offset buflen : Z) : option cstr :=
  act ← ddir_act d; Some (file_name ++ $" " ++ act ++ $" " ++ print_dec offset ++ $" " ++ print_dec buflen ++ [10]).
Definition file_act (what : file_log_act) : option cstr :=
  match what with
  | FIO_LOG_ADD_FILE => Some $"add" | FIO_LOG_OPEN_FILE => Some $"open" | FIO_LOG_CLOSE_FILE => Some $"close" | FIO_LOG_UNLINK_FILE => None
  end.
Definition log_file_line (file_name : cstr) (what : file_log_act) : option cstr :=
  act ← file_act what; Some (file_name ++ $" " ++ act ++ [10]).
Definition iolog_ver2 : cstr := $"fio version 2 iolog".
Definition init_iolog_write (files : list cstr) : option cstr :=
  adds ← mapM (fun f => log_file_line f FIO_LOG_ADD_FILE) files; Some (iolog_ver2 ++ [10] ++ concat adds).

(** ** [sscanf(p, "%256s %256s %llu %u", ...)] *)
Fixpoint word (s : cstr) : cstr := match s with c :: s => if isspace c then [] else c :: word s | [] => [] end.
Definition scan_word (n : nat) (s : cstr) : option (cstr * cstr) :=
  let s := skip_space s in
  let w := take n (word s) in
  match w with [] => None | _ => Some (w, drop (length w) s) end.
Fixpoint span_digits (s : cstr) : cstr := match s with c :: s => if isdigit c then c :: span_digits s else [] | [] => [] end.
Definition scan_number (s : cstr) : option (Z * cstr) :=
  let '(neg, s) := skip_sign (skip_space s) in
  let ds := span_digits s in
  match ds with
  | [] => None
  | _ => let v := dec_val ds in
         Some (if 2 ^ 64 <=? v then 2 ^ 64 - 1 else if neg : bool then u64 (- v) else v, drop (length ds) s)
  end.
Inductive scanned :=
  | Less                                                   (* fewer than two words *)
  | Two (fname act : cstr)
  | Three (offset : Z)
  | Four (fname act : cstr) (offset bytes : Z).
Definition scan_line (p : cstr) : scanned :=
  match scan_word 256 p with
  | None => Less
  | Some (fname, p) =>
      match scan_word 256 p with
      | None => Less
      | Some (act, p) =>
          match scan_number p with
          | None => Two fname act
          | Some (off, p) => match scan_number p with None => Three off | Some (b, _) => Four fname act off (u32 b) end
          end
      end
  end.

(** ** Reading *)

(** [rp_action]: the union of [delay] and [file_action]. *)
Record replay_piece := { rp_ddir : fio_ddir; rp_offset : Z; rp_len : Z; rp_fileno : Z; rp_action : Z }.
Definition file_action_number (a : file_log_act) : Z :=
  match a with FIO_LOG_ADD_FILE => 0 | FIO_LOG_OPEN_FILE => 1 | FIO_LOG_CLOSE_FILE => 2 | FIO_LOG_UNLINK_FILE => 3 end.
(** What the reader changes of the job, and its variables [offset], [bytes], [fileno],
    [file_action], [reads], [writes] and [waits]. *)
Record reader := {
  r_files : list cstr; r_directory : option cstr; r_nr_files : Z; r_max_bs : Z * Z; r_outside : bool; io_log_list : list replay_piece; total_io_size : Z;
  v_offset : Z; v_bytes : Z; v_fileno : Z; v_action : Z; reads : Z; writes : Z; waits : Z }.
#[export] Instance eta_reader : Eta reader := fun r =>
  Build_reader (r_files r) (r_directory r) (r_nr_files r) (r_max_bs r) (r_outside r) (io_log_list r) (total_io_size r) (v_offset r) (v_bytes r)
    (v_fileno r) (v_action r) (reads r) (writes r) (waits r).
Definition log_add_file (fname : cstr) (r : reader) : reader :=
  let name := match r_directory r with Some d => d ++ $"/" ++ fname | None => fname end in
  r <| v_fileno := Z.of_nat (length (r_files r)) |> <| r_files ::= fun fs => fs ++ [name] |>.
Definition get_fileno (fname : cstr) (r : reader) : Z :=
  match list_find (fun f => f = fname) (r_files r) with Some (i, _) => Z.of_nat i | None => -1 end.
(** [if (bytes > td->o.max_bs[rw]) td->o.max_bs[rw] = bytes] *)
Definition note_bytes (d : fio_ddir) (bytes : Z) (r : reader) : reader :=
  let more := fun m => if m <? bytes then bytes else m in
  match d with
  | DDIR_READ => r <| r_max_bs ::= fun m => (more (fst m), snd m) |>
  | DDIR_WRITE => r <| r_max_bs ::= fun m => (fst m, more (snd m)) |>
  | _ => r <| r_outside := true |>
  end.
Definition queue_io_piece (p : replay_piece) (r : reader) : reader :=
  r <| io_log_list ::= fun l => l ++ [p] |> <| total_io_size ::= fun t => u64 (t + rp_len p) |>.
Definition read_action (act : cstr) : option fio_ddir :=
  if streq act $"wait" then Some DDIR_WAIT
  else if streq act $"read" then Some DDIR_READ
  else if streq act $"write" then Some DDIR_WRITE
  else if streq act $"sync" then Some DDIR_SYNC
  else if streq act $"datasync" then Some DDIR_DATASYNC
  else if streq act $"trim" then Some DDIR_TRIM
  else None.

(** The end of the loop: the piece is counted and queued. *)
Definition store_piece (rw : fio_ddir) (r : reader) : reader :=
  if bool_decide (rw = DDIR_WAIT) then queue_io_piece (Build_replay_piece rw 0 0 0 (v_offset r)) r
  else
    let r := note_bytes rw (v_bytes r) r in
    queue_io_piece (Build_replay_piece rw (v_offset r) (v_bytes r) (v_fileno r) (v_action r)) r.
Definition count_and_store (read_only : bool) (rw : fio_ddir) (r : reader) : reader :=
  match rw with
  | DDIR_READ => store_piece rw (r <| reads ::= Z.succ |>)
  | DDIR_WRITE => if read_only then r else store_piece rw (r <| writes ::= Z.succ |>)
  | DDIR_WAIT => store_piece rw (r <| waits ::= Z.succ |>)
  | DDIR_INVAL => store_piece rw r
  | _ => if ddir_sync rw then store_piece rw r else r
  end.
Definition read_line (read_only : bool) (p : cstr) (r : reader) : reader :=
  match scan_line p with
  | Less => r
  | Three off => r <| v_offset := off |>
  | Four fname act off b =>
      let r := r <| v_offset := off |> <| v_bytes := b |> in
      match read_action act with Some rw => count_and_store read_only rw r | None => r end
  | Two fname act =>
      if streq act $"add" then log_add_file fname (r <| r_nr_files ::= Z.succ |>) <| v_action := file_action_number FIO_LOG_ADD_FILE |>
      else if streq act $"open" then count_and_store read_only DDIR_INVAL (r <| v_fileno := get_fileno fname r |> <| v_action := file_action_number FIO_LOG_OPEN_FILE |>)
      else if streq act $"close" then count_and_store read_only DDIR_INVAL (r <| v_fileno := get_fileno fname r |> <| v_action := file_action_number FIO_LOG_CLOSE_FILE |>)
      else r
  end.
(** The result, and whether the job reads and writes. *)
Definition read_iolog2 (read_only : bool) (lines : list cstr) (r : reader) : Z * (bool * bool) * reader :=
  let r := foldl (fun r p => read_line read_only p r) r lines in
  let w := if negb (writes r =? 0) && read_only then 0 else writes r in
  if (reads r =? 0) && (w =? 0) && (waits r =? 0) then (1, (false, false), r)
  else if negb (reads r =? 0) && (w =? 0) then (0, (true, false), r)
  else if (reads r =? 0) && negb (w =? 0) then (0, (false, true), r)
  else (0, (true, true), r).
(** [fgets(buffer, 256, f)]: up to [room] characters. *)
Fixpoint fgets (room : nat) (s : cstr) : cstr * cstr :=
  match room, s with
  | O, _ | _, [] => ([], s)
  | S room, c :: s => if c =? 10 then ([c], s) else let '(l, rest) := fgets room s in (c :: l, rest)
  end.
Definition init_iolog_read (read_only : bool) (text : cstr) (r : reader) : option (Z * (bool * bool) * reader) :=
  match text with
  | [] => None
  | _ =>
      let '(line, rest) := fgets 255 text in
      if strneq iolog_ver2 line (length iolog_ver2) then Some (read_iolog2 read_only (JobFile.fgets_lines 4094 rest) r) else None
  end.

(** ** Replay.  The file is opened if [open_ok] says so; [None] is an access outside of
    the array of files. *)
Definition file_there (files : list cstr) (n : Z) : bool := (0 <=? n) && (n <? Z.of_nat (length files)).
Fixpoint read_iolog_get (open_ok : Z -> bool) (files : list cstr) (l : list replay_piece) : option (option replay_piece * list replay_piece) :=
  match l with
  | [] => Some (None, [])
  | p :: l =>
      match rp_ddir p with
      | DDIR_INVAL =>
          if file_there files (rp_fileno p) then
            if (rp_action p =? 1) && negb (open_ok (rp_fileno p)) then Some (None, l) else read_iolog_get open_ok files l
          else None
      | DDIR_WAIT => read_iolog_get open_ok files l
      | _ => if file_there files (rp_fileno p) then Some (Some p, l) else None
      end
  end.

(** * Properties *)

(** ** Words and numbers *)
Definition no_space (w : cstr) : Prop := Forall (fun c => isspace c = false) w.
Definition space_first (s : cstr) : Prop := match s with [] => True | c :: _ => isspace c = true end.
Definition name_ok (f : cstr) : Prop := f <> [] /\ no_space f /\ (length f <= 256)%nat.
Lemma skip_space_word w s : w <> [] -> no_space w -> skip_space (w ++ s) = w ++ s.
Proof. intros Hn Hw. destruct w as [|c w]; [done|]. inversion Hw as [|? ? Hc _]. cbn [app skip_space]. by rewrite Hc. Qed.
Lemma word_app w rest : no_space w -> space_first rest -> word (w ++ rest) = w.
Proof.
  induction 1 as [|c w Hc Hw IH]; intros Hr; cbn [app word].
  - destruct rest as [|c rest]; [done|]. cbn in Hr |- *. by rewrite Hr.
  - by rewrite Hc, IH.
Qed.
Lemma scan_word_ok w rest : name_ok w -> space_first rest -> scan_word 256 (w ++ rest) = Some (w, rest).
Proof.
  intros (Hn & Hw & Hl) Hr. unfold scan_word. rewrite skip_space_word, word_app, take_ge by done. destruct w as [|c w]; [done|]. by rewrite drop_app_length.
Qed.
Lemma scan_word_blank s : scan_word 256 ($" " ++ s) = scan_word 256 s.
Proof. reflexivity. Qed.
Lemma scan_number_blank s : scan_number ($" " ++ s) = scan_number s.
Proof. reflexivity. Qed.
Lemma span_digits_app ds rest : digits ds -> no_digit_first rest -> span_digits (ds ++ rest) = ds.
Proof.
  induction 1 as [|c ds Hc Hd IH]; intros Hr; cbn [app span_digits].
  - destruct rest as [|c rest]; [done|]. cbn in Hr |- *. by rewrite Hr.
  - by rewrite Hc, IH.
Qed.
Lemma scan_number_ok n rest : is_word 64 n -> no_digit_first rest -> scan_number (print_dec n ++ rest) = Some (n, rest).
Proof.
  intros [H0 H1] Hr. destruct (print_dec_ok n H0) as (Hd & Hn & Hv). unfold scan_number.
  assert (Hs : forall c, isdigit c = true -> isspace c = false /\ c <> 45 /\ c <> 43) by (intros c Hc%isdigit_spec; unfold isspace; lia).
  rewrite skip_space_word; [|done|eapply Forall_impl; [exact Hd|]; intros c Hc; by apply Hs].
  assert (E : skip_sign (print_dec n ++ rest) = (false, print_dec n ++ rest)).
  { destruct (print_dec n) as [|c ds]; [done|]. inversion Hd as [|? ? Hc _]. destruct (Hs c Hc) as (_ & N1 & N2). cbn.
    destruct (Z.eqb_spec c 45); [done|]. by destruct (Z.eqb_spec c 43). }
  rewrite E, span_digits_app, Hv by done. destruct (print_dec n) as [|c ds] eqn:Ep; [done|]. rewrite <- Ep, drop_app_length.
  destruct (Z.leb_spec (2 ^ 64) n); [lia|done].
Qed.
Lemma scan_number_newline : scan_number [10] = None.
Proof. reflexivity. Qed.

(** ** Lines *)
Inductive entry := EFile (f : cstr) (a : file_log_act) | EIo (f : cstr) (d : fio_ddir) (offset len : Z).
Definition entry_line (e : entry) : option cstr := match e with EFile f a => log_file_line f a | EIo f d off len => log_io_u_line f d off len end.
Definition entry_ok (e : entry) : Prop :=
  match e with
  | EFile f a => name_ok f /\ a <> FIO_LOG_UNLINK_FILE
  | EIo f d off len => name_ok f /\ d <> DDIR_INVAL /\ is_word 64 off /\ is_word 32 len
  end.
Lemma act_ok a : a = $"add" \/ a = $"open" \/ a = $"close" \/ (exists d, ddir_act d = Some a) -> name_ok a.
Proof.
  assert (D : forall a, forallb (fun c => negb (isspace c)) a = true -> a <> [] -> (length a <= 256)%nat -> name_ok a).
  { intros b Hb Hn Hl. split_and!; [done| |done]. apply Forall_forall. intros c Hc. rewrite forallb_forall in Hb. apply list_elem_of_In in Hc. apply Hb in Hc.
    by destruct (isspace c). }
  intros [->|[->|[->|[d Hd]]]]; [apply D; [reflexivity|done|cbn; lia]..|]. destruct d; cbn in Hd; try done; injection Hd as <-; (apply D; [reflexivity|done|cbn; lia]).
Qed.
Lemma scan_file_line f act : name_ok f -> name_ok act -> scan_line (f ++ $" " ++ act ++ [10]) = Two f act.
Proof.
  intros Hf Ha. unfold scan_line. rewrite scan_word_ok by done. rewrite scan_word_blank, scan_word_ok by done. by rewrite scan_number_newline.
Qed.
Lemma scan_io_line f act off len : name_ok f -> name_ok act -> is_word 64 off -> is_word 32 len ->
  scan_line (f ++ $" " ++ act ++ $" " ++ print_dec off ++ $" " ++ print_dec len ++ [10]) = Four f act off len.
Proof.
  intros Hf Ha Ho Hl. unfold scan_line. rewrite scan_word_ok by done. rewrite scan_word_blank, scan_word_ok by done.
  rewrite scan_number_blank, scan_number_ok by done. rewrite scan_number_blank, scan_number_ok; [|unfold is_word in *; lia|done]. f_equal. by apply wrap_small.
Qed.
Lemma dec_length fuel : forall n acc, (length (dec_digits fuel n acc) <= fuel + length acc)%nat.
Proof.
  induction fuel as [|fuel IH]; intros n acc; [done|]. cbn [dec_digits]. destruct (_ =? _); [cbn; lia|]. specialize (IH (n / 10) ((48 + n mod 10) :: acc)). cbn in IH. lia.
Qed.
Lemma print_dec_short n : is_word 64 n -> (length (print_dec n) <= 64)%nat.
Proof.
  intros [H0 H1]. unfold print_dec. pose proof (dec_length (S (Z.to_nat (Z.log2 n))) n []) as H. cbn [length] in H.
  assert (Z.log2 n < 64); [|lia]. destruct (Z.eq_dec n 0) as [->|]; [done|]. apply Z.log2_lt_pow2; lia.
Qed.
Lemma no_space_newline w : no_space w -> 10 ∉ w.
Proof. intros H Hi. unfold no_space in H. rewrite Forall_forall in H. by specialize (H 10 Hi). Qed.
Lemma dec_newline n : 0 <= n -> 10 ∉ print_dec n.
Proof. intros H0 Hi. destruct (print_dec_ok n H0) as (Hd & _ & _). unfold digits in Hd. rewrite Forall_forall in Hd. by specialize (Hd 10 Hi). Qed.
(** A line of an entry is one line of the file. *)
Lemma entry_line_ok e : entry_ok e -> exists l, entry_line e = Some (l ++ [10]) /\ (10 ∉ l) /\ (length l <= 4094)%nat.
Proof.
  destruct e as [f a|f d off len]; cbn [entry_ok entry_line].
  - intros [(Hn & Hs & Hl) Ha]. unfold log_file_line.
    assert (A : exists act, name_ok act /\ file_act a = Some act).
    { destruct a; [exists $"add"|exists $"open"|exists $"close"|done]; (split; [apply act_ok; auto|done]). }
    destruct A as (act & (An & As & Al) & ->). cbn [mbind option_bind]. exists (f ++ $" " ++ act). split; [by rewrite <- !app_assoc|]. split.
    + rewrite !not_elem_of_app. split_and!; [by apply no_space_newline|by apply (bool_decide_unpack _)|by apply no_space_newline].
    + rewrite !length_app. change (length $" ") with 1%nat. lia.
  - intros ((Hn & Hs & Hl) & Hd & Ho & Hb). unfold log_io_u_line. destruct (ddir_act d) as [act|] eqn:Ea; [|by destruct d]. cbn [mbind option_bind].
    destruct (act_ok act) as (An & As & Al); [eauto|]. exists (f ++ $" " ++ act ++ $" " ++ print_dec off ++ $" " ++ print_dec len). split; [by rewrite <- !app_assoc|].
    assert (Hb64 : is_word 64 len) by (unfold is_word in *; lia). pose proof (print_dec_short off Ho). pose proof (print_dec_short len Hb64). split.
    + rewrite !not_elem_of_app. split_and!; try (by apply no_space_newline); try (by apply (bool_decide_unpack _)); apply dec_newline; [apply Ho|apply Hb].
    + rewrite !length_app. change (length $" ") with 1%nat. lia.
Qed.

(** ** Reading what was written *)
Definition logs_io (d : fio_ddir) : bool := match d with DDIR_READ | DDIR_WRITE | DDIR_SYNC | DDIR_DATASYNC => true | _ => false end.
Definition is_ddir (d : fio_ddir) (e : entry) : bool := match e with EIo _ d' _ _ => bool_decide (d' = d) | EFile _ _ => false end.
(** The log of a job: files are opened and closed, and each transfer is for the file
    that was named last. *)
Fixpoint well_logged (files : list cstr) (cur : option cstr) (es : list entry) : Prop :=
  match es with
  | [] => True
  | EFile f a :: es => f ∈ files /\ (a = FIO_LOG_OPEN_FILE \/ a = FIO_LOG_CLOSE_FILE) /\ well_logged files (Some f) es
  | EIo f d off len :: es => cur = Some f /\ f ∈ files /\ logs_io d = true /\ is_word 64 off /\ is_word 32 len /\ well_logged files cur es
  end.
Definition names (files : list cstr) (n : Z) (f : cstr) : Prop := 0 <= n /\ files !! Z.to_nat n = Some f.
Definition matches (files : list cstr) (e : entry) (p : replay_piece) : Prop :=
  match e with
  | EFile f a => rp_ddir p = DDIR_INVAL /\ names files (rp_fileno p) f
  | EIo f d off len => rp_ddir p = d /\ rp_offset p = off /\ rp_len p = len /\ names files (rp_fileno p) f
  end.
Lemma get_fileno_names f r : f ∈ r_files r -> names (r_files r) (get_fileno f r) f.
Proof.
  intros Hf. unfold get_fileno. destruct (list_find (fun x => x = f) (r_files r)) as [[i x]|] eqn:E.
  - apply list_find_Some in E as (E & -> & _). split; [lia|]. by rewrite Nat2Z.id.
  - exfalso. apply list_find_None in E. rewrite Forall_forall in E. by apply (E f).
Qed.
(** What a line does to the reader. *)
Record grows (files : list cstr) (e : entry) (f : cstr) (r r' : reader) : Prop := {
  g_files : r_files r' = files;
  g_list : exists p, io_log_list r' = io_log_list r ++ [p] /\ matches files e p;
  g_cur : names files (v_fileno r') f;
  g_reads : reads r' = reads r + Z.b2z (is_ddir DDIR_READ e);
  g_writes : writes r' = writes r + Z.b2z (is_ddir DDIR_WRITE e);
  g_waits : waits r' = waits r }.
Ltac grow := split; cbn [r_files io_log_list v_fileno reads writes waits is_ddir Z.b2z]; rewrite ?Z.add_0_r; try done;
  eexists; split; [reflexivity|]; split_and!; done.
Lemma read_file_entry files f a r l : r_files r = files -> f ∈ files -> name_ok f -> (a = FIO_LOG_OPEN_FILE \/ a = FIO_LOG_CLOSE_FILE) ->
  entry_line (EFile f a) = Some l -> grows files (EFile f a) f r (read_line false l r).
Proof.
  intros <- Hf Hn Ha. pose proof (get_fileno_names f r Hf) as Hg. destruct r as [fs dir nf bw lst tot vo vb vf va rd wr wt]. cbn [r_files] in *.
  destruct Ha as [-> | ->]; cbn [entry_line log_file_line file_act mbind option_bind]; intros <-%(inj Some); unfold read_line;
    (rewrite scan_file_line; [|done|apply act_ok; auto]); cbn -[get_fileno note_bytes wrap]; grow.
Qed.
Lemma read_io_entry files f d off len r l : r_files r = files -> names files (v_fileno r) f -> name_ok f -> logs_io d = true ->
  is_word 64 off -> is_word 32 len -> entry_line (EIo f d off len) = Some l -> grows files (EIo f d off len) f r (read_line false l r).
Proof.
  intros <- Hf Hn Hd Ho Hl. destruct r as [fs dir nf bw lst tot vo vb vf va rd wr wt]. cbn [r_files v_fileno] in *.
  destruct d; try done; cbn [entry_line log_io_u_line ddir_act mbind option_bind]; intros <-%(inj Some); unfold read_line;
    (rewrite scan_io_line; [|done|apply act_ok; right; right; right; first [by exists DDIR_READ|by exists DDIR_WRITE|by exists DDIR_SYNC|by exists DDIR_DATASYNC]|done|done]); cbn -[note_bytes wrap]; grow.
Qed.

Lemma mapM_cons_Some {A B} (g : A -> option B) x l y ys : g x = Some y -> mapM g l = Some ys -> mapM g (x :: l) = Some (y :: ys).
Proof. intros H1 H2. cbn. rewrite H1. cbn. by rewrite H2. Qed.
Lemma log_lines_ok files es : Forall name_ok files -> forall cur, well_logged files cur es -> exists ls,
  mapM entry_line es = Some (map (fun l => l ++ [10]) ls) /\ Forall (fun l => (10 ∉ l) /\ (length l <= 4094)%nat) ls.
Proof.
  intros Hn. rewrite Forall_forall in Hn. induction es as [|e es IH]; intros cur Hw; [by exists []|].
  assert (A : entry_ok e /\ exists cur', well_logged files cur' es).
  { destruct e as [f a|f d off len]; cbn [well_logged] in Hw.
    - destruct Hw as (Hf & Ha & Hw). split; [|eauto]. split; [by apply Hn|]. destruct Ha as [-> | ->]; done.
    - destruct Hw as (_ & Hf & Hd & Ho & Hl & Hw). split; [|eauto]. split_and!; [by apply Hn|by intros ->|done..]. }
  destruct A as (He & cur' & Hw'). destruct (entry_line_ok e He) as (l & El & L1 & L2). destruct (IH cur' Hw') as (ls & Els & L). exists (l :: ls).
  split; [|by constructor]. by apply mapM_cons_Some.
Qed.
(** The pieces of a log are its entries. *)
Lemma read_log files es : Forall name_ok files -> forall cur r ls, well_logged files cur es -> r_files r = files ->
  (forall f, cur = Some f -> names files (v_fileno r) f) -> mapM entry_line es = Some ls ->
  let r' := foldl (fun r p => read_line false p r) r ls in
  r_files r' = files /\ (exists ps, io_log_list r' = io_log_list r ++ ps /\ Forall2 (matches files) es ps) /\
  reads r' = reads r + Z.of_nat (length (filter (fun e => is_ddir DDIR_READ e = true) es)) /\
  writes r' = writes r + Z.of_nat (length (filter (fun e => is_ddir DDIR_WRITE e = true) es)) /\ waits r' = waits r.
Proof.
  intros Hn. pose proof Hn as Hn'. rewrite Forall_forall in Hn'. induction es as [|e es IH]; intros cur r ls Hw Hr Hc El.
  { injection El as <-. cbn. split_and!; try lia; try done. exists []. by rewrite app_nil_r. }
  cbn in El. destruct (entry_line e) as [l|] eqn:Ee; [|done]. cbn in El. destruct (mapM entry_line es) as [ls'|] eqn:Es; [|done]. injection El as <-.
  assert (G : exists f, grows files e f r (read_line false l r) /\ well_logged files (Some f) es).
  { destruct e as [f a|f d off len]; cbn [well_logged] in Hw; exists f.
    - destruct Hw as (Hf & Ha & Hw). split; [|done]. apply (read_file_entry files); auto.
    - destruct Hw as (-> & Hf & Hd & Ho & Hl & Hw). split; [|done]. apply (read_io_entry files); auto. }
  destruct G as (f & [G1 (p & Gp & Gm) G3 G4 G5 G6] & Hw'). cbn [foldl].
  destruct (IH (Some f) (read_line false l r) ls' Hw' G1) as (A & (ps & B1 & B2) & C & D & E); [by intros ? [= <-]|done|]. cbn zeta.
  split_and!; [done| |..].
  - exists (p :: ps). rewrite B1, Gp, <- app_assoc. split; [done|]. by constructor.
  - rewrite C, G4, filter_cons. destruct (is_ddir DDIR_READ e); [rewrite decide_True by done; cbn [length Z.b2z]; lia|rewrite decide_False by done; cbn [Z.b2z]; lia].
  - rewrite D, G5, filter_cons. destruct (is_ddir DDIR_WRITE e); [rewrite decide_True by done; cbn [length Z.b2z]; lia|rewrite decide_False by done; cbn [Z.b2z]; lia].
  - congruence.
Qed.

(** The lines that add the files. *)
Definition new_reader (garbage_offset garbage_bytes : Z) (max_bs : Z * Z) : reader :=
  Build_reader [] None 0 max_bs false [] 0 garbage_offset garbage_bytes 0 0 0 0 0.
Lemma read_adds files : Forall name_ok files -> forall r, r_directory r = None -> exists ls,
  mapM (fun f => log_file_line f FIO_LOG_ADD_FILE) files = Some (map (fun l => l ++ [10]) ls) /\ Forall (fun l => (10 ∉ l) /\ (length l <= 4094)%nat) ls /\
  let r' := foldl (fun r p => read_line false p r) r (map (fun l => l ++ [10]) ls) in
  r_files r' = r_files r ++ files /\ io_log_list r' = io_log_list r /\ reads r' = reads r /\ writes r' = writes r /\ waits r' = waits r.
Proof.
  induction 1 as [|f files Hf Hn IH]; intros r Hd; [exists []; cbn; by rewrite app_nil_r|].
  destruct (entry_line_ok (EFile f FIO_LOG_ADD_FILE)) as (l & El & L1 & L2); [by split|]. cbn [entry_line] in El.
  assert (R : let r1 := read_line false (l ++ [10]) r in r_directory r1 = None /\ r_files r1 = r_files r ++ [f] /\ io_log_list r1 = io_log_list r /\
    reads r1 = reads r /\ writes r1 = writes r /\ waits r1 = waits r).
  { unfold log_file_line in El. cbn [file_act mbind option_bind] in El. apply (inj Some) in El. unfold read_line. rewrite <- El, scan_file_line; [|done|apply act_ok; auto].
    destruct r. cbn in Hd |- *. subst. done. }
  cbn zeta in R. destruct R as (R1 & R2 & R3 & R4 & R5 & R6). destruct (IH (read_line false (l ++ [10]) r) R1) as (ls & A & B & C). exists (l :: ls).
  split; [by apply mapM_cons_Some|]. split; [by constructor|]. cbn [map foldl]. cbn zeta in C |- *. destruct C as (C1 & C2 & C3 & C4 & C5).
  split_and!; try congruence. rewrite C1, R2, <- app_assoc. done.
Qed.

(** ** Replay *)
Fixpoint replay_all (fuel : nat) (open_ok : Z -> bool) (files : list cstr) (l : list replay_piece) : option (list replay_piece) :=
  match fuel with
  | O => None
  | S fuel =>
      '(p, l) ← read_iolog_get open_ok files l;
      match p with None => Some [] | Some p => cons p <$> replay_all fuel open_ok files l end
  end.
Definition is_io (e : entry) : bool := match e with EIo _ _ _ _ => true | EFile _ _ => false end.
Definition plain (e : entry) : Prop := match e with EIo _ d _ _ => logs_io d = true | EFile _ _ => True end.
Lemma names_there files n f : names files n f -> file_there files n = true.
Proof. intros [H0 H1]. apply lookup_lt_Some in H1. unfold file_there. lia. Qed.
Lemma replay_ok files es ps : Forall2 (matches files) es ps -> Forall plain es -> forall fuel, (length ps < fuel)%nat ->
  exists qs, replay_all fuel (fun _ => true) files ps = Some qs /\ Forall2 (matches files) (filter (fun e => is_io e = true) es) qs.
Proof.
  intros HF. induction HF as [|e p es ps Hm HF IH]; intros Hp fuel Hfu; (destruct fuel as [|fuel]; [cbn in Hfu; lia|]).
  - exists []. done.
  - inversion Hp as [|? ? He Hp']; subst. cbn [length] in Hfu. destruct e as [f a|f d off len]; cbn [matches] in Hm.
    + destruct Hm as (Ed & Hf). rewrite filter_cons_False by done.
      destruct (IH Hp' (S fuel)) as (qs & E & F); [lia|]. exists qs. split; [|done]. rewrite <- E. cbn [replay_all read_iolog_get]. rewrite Ed, (names_there _ _ _ Hf). cbn [negb]. by rewrite andb_false_r.
    + destruct (IH Hp' fuel) as (qs & E & F); [lia|]. exists (p :: qs). rewrite filter_cons_True by done. split; [|by constructor].
      destruct Hm as (Ed & _ & _ & Hf). cbn [replay_all read_iolog_get]. cbn [plain] in He. rewrite (names_there _ _ _ Hf), Ed. destruct d; try done; cbn [mbind option_bind]; by rewrite E.
Qed.
Lemma well_logged_plain files es : forall cur, well_logged files cur es -> Forall plain es.
Proof.
  induction es as [|e es IH]; intros cur Hw; [done|]. destruct e as [f a|f d off len]; cbn [well_logged] in Hw; constructor; cbn [plain]; try done.
  - by eapply IH, Hw.
  - apply Hw.
  - by eapply IH, Hw.
Qed.
Lemma count_has d es : Z.of_nat (length (filter (fun e => is_ddir d e = true) es)) <> 0 <-> existsb (is_ddir d) es = true.
Proof.
  induction es as [|e es IH]; [done|]. cbn [existsb]. rewrite filter_cons. destruct (is_ddir d e); [rewrite decide_True by done; cbn; lia|]. by rewrite decide_False by done.
Qed.
Lemma concat_lines files ls1 ls2 : files ++ concat (map (fun l : cstr => l ++ [10]) ls1) ++ concat (map (fun l => l ++ [10]) ls2) =
  files ++ concat (map (fun l => l ++ [10]) (ls1 ++ ls2)).
Proof. by rewrite map_app, concat_app. Qed.
Lemma fgets_version rest : fgets 255 (iolog_ver2 ++ [10] ++ rest) = (iolog_ver2 ++ [10], rest).
Proof. reflexivity. Qed.

(** C27: A log of reads, writes, syncs and datasyncs that was written is read and replayed as
    it was: the files come back, the directions of the job are those of its transfers, and
    the transfers are handed out in order with direction, offset, length and file.  In the
    log each transfer is for the file that was opened or closed last and its length is below
    [2^32]; names have no blank and at most 256 characters; the job that replays is not
    read-only, has no [directory] and can open the files.  (Trims and synced ranges are
    logged but not replayed: [trims_are_not_replayed].) *)
Theorem iolog_replays files es go gb mb : Forall name_ok files -> well_logged files None es ->
  existsb (is_ddir DDIR_READ) es || existsb (is_ddir DDIR_WRITE) es = true ->
  exists head body r qs, init_iolog_write files = Some head /\ mapM entry_line es = Some body /\
    init_iolog_read false (head ++ concat body) (new_reader go gb mb) = Some (0, (existsb (is_ddir DDIR_READ) es, existsb (is_ddir DDIR_WRITE) es), r) /\
    r_files r = files /\
    replay_all (S (length (io_log_list r))) (fun _ => true) (r_files r) (io_log_list r) = Some qs /\
    Forall2 (matches files) (filter (fun e => is_io e = true) es) qs.
Proof.
  intros Hn Hw Hio. destruct (read_adds files Hn (new_reader go gb mb) eq_refl) as (ls1 & A1 & A2 & A3). destruct (log_lines_ok files es Hn None Hw) as (ls2 & B1 & B2).
  cbn zeta in A3. set (r1 := foldl _ _ _) in A3. destruct A3 as (C1 & C2 & C3 & C4 & C5).
  destruct (read_log files es Hn None r1 _ Hw C1 ltac:(done) B1) as (D1 & (ps & D2 & D3) & D4 & D5 & D6). rewrite C2, C3, C4, C5 in *.
  set (r := foldl (fun r p => read_line false p r) r1 (map (fun l => l ++ [10]) ls2)) in *.
  destruct (replay_ok files es ps D3 (well_logged_plain files es None Hw) (S (length ps)) ltac:(lia)) as (qs & E1 & E2).
  exists (iolog_ver2 ++ [10] ++ concat (map (fun l => l ++ [10]) ls1)), (map (fun l => l ++ [10]) ls2), r, qs.
  cbn [new_reader io_log_list app] in D2. rewrite D1, D2. split_and!; try done; [unfold init_iolog_write; by rewrite A1|].
  rewrite <- !app_assoc, <- concat_app, <- map_app. unfold init_iolog_read. rewrite fgets_version.
  change (match iolog_ver2 ++ [10] ++ concat (map (fun l => l ++ [10]) (ls1 ++ ls2)) with [] => None | _ => if strneq iolog_ver2 (iolog_ver2 ++ [10]) (length iolog_ver2) then
    Some (read_iolog2 false (JobFile.fgets_lines 4094 (concat (map (fun l => l ++ [10]) (ls1 ++ ls2)))) (new_reader go gb mb)) else None end)
    with (Some (read_iolog2 false (JobFile.fgets_lines 4094 (concat (map (fun l => l ++ [10]) (ls1 ++ ls2)))) (new_reader go gb mb))).
  rewrite JobFile.fgets_concat by (by apply Forall_app). unfold read_iolog2. rewrite map_app, foldl_app. fold r1. fold r.
  cbn [new_reader reads writes waits] in D4, D5, D6. rewrite D4, D5, D6, !Z.add_0_l, andb_false_r. f_equal.
  pose proof (count_has DDIR_READ es) as R. pose proof (count_has DDIR_WRITE es) as W.
  destruct (existsb (is_ddir DDIR_READ) es), (existsb (is_ddir DDIR_WRITE) es); try done; repeat case_match; try done; exfalso; lia.
Qed.

Definition sample_log : list entry :=
  [EFile $"a" FIO_LOG_OPEN_FILE; EIo $"a" DDIR_WRITE 0 4096; EIo $"a" DDIR_SYNC 0 0; EFile $"a" FIO_LOG_CLOSE_FILE;
   EFile $"b" FIO_LOG_OPEN_FILE; EIo $"b" DDIR_WRITE 18446744073709547520 512].
Lemma iolog_replays_witness : exists head body r qs, init_iolog_write [$"a"; $"b"] = Some head /\ mapM entry_line sample_log = Some body /\
  init_iolog_read false (head ++ concat body) (new_reader 7 9 (0, 0)) = Some (0, (false, true), r) /\
  replay_all (S (length (io_log_list r))) (fun _ => true) (r_files r) (io_log_list r) = Some qs /\
  Forall2 (matches [$"a"; $"b"]) [EIo $"a" DDIR_WRITE 0 4096; EIo $"a" DDIR_SYNC 0 0; EIo $"b" DDIR_WRITE 18446744073709547520 512] qs.
Proof.
  assert (Hn : Forall name_ok [$"a"; $"b"]).
  { assert (D : forall c, isspace c = false -> name_ok [c]) by (intros c Hc; split_and!; [done|by constructor|cbn; lia]).
    constructor; [by apply (D 97)|]. constructor; [by apply (D 98)|]. constructor. }
  assert (Hw : well_logged [$"a"; $"b"] None sample_log).
  { assert (Ha : $"a" ∈ [$"a"; $"b"]) by (left). assert (Hb : $"b" ∈ [$"a"; $"b"]) by (right; left). cbn [well_logged sample_log]. unfold is_word. split_and!; auto; lia. }
  destruct (iolog_replays [$"a"; $"b"] sample_log 7 9 (0, 0) Hn Hw eq_refl) as (head & body & r & qs & H1 & H2 & H3 & _ & H4 & H5).
  exists head, body, r, qs. split_and!; [done|done|exact H3|done|exact H5].
Defined.

(** The name in the line of a transfer is not looked at: it goes to the file that was
    named last, whatever its own file is. *)
Lemma transfer_line_ignores_name read_only f f' d off len r : name_ok f -> name_ok f' -> d <> DDIR_INVAL -> is_word 64 off -> is_word 32 len ->
  match log_io_u_line f d off len, log_io_u_line f' d off len with
  | Some l, Some l' => read_line read_only l r = read_line read_only l' r
  | _, _ => False
  end.
Proof.
  intros Hf Hf' Hd Ho Hl. unfold log_io_u_line. destruct (ddir_act d) as [act|] eqn:Ea; [|by destruct d]. cbn [mbind option_bind].
  unfold read_line. rewrite !scan_io_line; try done; apply act_ok; eauto.
Qed.
(** Trims and ranges that were synced are in the log, but not replayed. *)
Lemma trims_are_not_replayed read_only f d off len r l : name_ok f -> is_word 64 off -> is_word 32 len -> d = DDIR_TRIM \/ d = DDIR_SYNC_FILE_RANGE ->
  log_io_u_line f d off len = Some l -> io_log_list (read_line read_only l r) = io_log_list r.
Proof.
  intros Hf Ho Hl [-> | ->]; cbn [log_io_u_line ddir_act mbind option_bind]; intros <-%(inj Some); unfold read_line;
    (rewrite scan_io_line; [|done|apply act_ok; right; right; right; first [by exists DDIR_TRIM|by exists DDIR_SYNC_FILE_RANGE]|done|done]); by destruct r.
Qed.
(** The line that opens a file, and the one of a sync, index [max_bs] outside of it. *)
Lemma open_line_leaves_max_bs :
  (r_outside <$> (l ← log_file_line $"a" FIO_LOG_OPEN_FILE; Some (read_line false l (new_reader 0 65536 (4096, 4096))))) = Some true /\
  (r_outside <$> (l ← log_io_u_line $"a" DDIR_SYNC 0 0; Some (read_line false l (new_reader 0 0 (4096, 4096))))) = Some true.
Proof. split; reflexivity. Qed.
End Iolog.
