(* ===== verification/FileHash.v ===== *)
(** * The hash of open files

    [src/filehash.c]: files that several jobs open are found by name in a table of 512
    lists.  The files are numbered; the lock around each call is its atomicity (see
    [Mutex]).  [None] is a failed assertion, or a list that is not there. *)
From S2P Require Import Prelude Bits CString.
From stdpp Require Import gmap.
Local Open Scope Z_scope.

Module FileHash.
Import CString.

Record hfile := { file_name : option cstr; fd : Z; hashed : bool }.
#[export] Instance eta_hfile : Eta hfile := fun f => Build_hfile (file_name f) (fd f) (hashed f).
Record hsys := { hfiles : list hfile; file_hash : list (list nat) }.
#[export] Instance eta_hsys : Eta hsys := fun s => Build_hsys (hfiles s) (file_hash s).

Definition FILE_HASH_BUCKETS : nat := 512.
Definition FILE_HASH_MASK : Z := 511.
Definition name_hash (name : cstr) : nat := Z.to_nat (Z.land (Bits.jhash name 0) FILE_HASH_MASK).

Fixpoint bucket_find (fs : list hfile) (name : cstr) (b : list nat) : option (option nat) :=
  match b with
  | [] => Some None
  | i :: b =>
      f ← fs !! i;
      match file_name f with
      | None => bucket_find fs name b
      | Some n => if streq n name then (if fd f =? -1 then None else Some (Some i)) else bucket_find fs name b
      end
  end.
Definition lookup_file_hash (name : cstr) (s : hsys) : option (option nat) :=
  b ← file_hash s !! name_hash name; bucket_find (hfiles s) name b.
(** The file is taken off the list it is on. *)
Definition remove_file_hash (i : nat) (s : hsys) : option hsys :=
  f ← hfiles s !! i;
  if hashed f then
    if existsb (fun b => bool_decide (i ∈ b)) (file_hash s)
    then Some (s <| file_hash ::= map (filter (fun k => k <> i)) |> <| hfiles ::= <[i := f <| hashed := false |>]> |>) else None
  else Some s.
(** The file that has the name already, if there is one. *)
Definition add_file_hash (i : nat) (s : hsys) : option (option nat * hsys) :=
  f ← hfiles s !! i;
  if hashed f then Some (None, s)
  else
    n ← file_name f;
    alias ← lookup_file_hash n s;
    match alias with
    | Some a => Some (Some a, s)
    | None => Some (None, s <| hfiles ::= <[i := f <| hashed := true |>]> |> <| file_hash ::= alter (fun b => b ++ [i]) (name_hash n) |>)
    end.
Definition file_hash_init (fs : list hfile) : hsys := Build_hsys fs (replicate FILE_HASH_BUCKETS []).

(** ** The specification: a map from names to files *)
Inductive hop := HAdd (i : nat) | HRemove (i : nat) | HLookup (name : cstr).
Definition hstep (s : hsys) (o : hop) : option (option nat * hsys) :=
  match o with
  | HAdd i => add_file_hash i s
  | HRemove i => s' ← remove_file_hash i s; Some (None, s')
  | HLookup name => a ← lookup_file_hash name s; Some (a, s)
  end.
Definition spec_step (names : list cstr) (m : gmap cstr nat) (o : hop) : option nat * gmap cstr nat :=
  match o with
  | HAdd i => match names !! i with
              | None => (None, m)
              | Some n => match m !! n with
                          | Some j => (if (j =? i)%nat then None else Some j, m)
                          | None => (None, <[n := i]> m)
                          end
              end
  | HRemove i => match names !! i with
                 | Some n => (None, if bool_decide (m !! n = Some i) then delete n m else m)
                 | None => (None, m)
                 end
  | HLookup n => (m !! n, m)
  end.
Fixpoint hrun (s : hsys) (os : list hop) : option (list (option nat)) :=
  match os with [] => Some [] | o :: os => '(a, s) ← hstep s o; cons a <$> hrun s os end.
Fixpoint spec_run (names : list cstr) (m : gmap cstr nat) (os : list hop) : list (option nat) :=
  match os with [] => [] | o :: os => let '(a, m) := spec_step names m o in a :: spec_run names m os end.

(** * Properties *)
Lemma name_hash_bound n : (name_hash n < FILE_HASH_BUCKETS)%nat.
Proof.
  unfold name_hash, FILE_HASH_MASK, FILE_HASH_BUCKETS. change 511 with (Z.ones 9). rewrite Z.land_ones by lia. pose proof (Z.mod_pos_bound (Bits.jhash n 0) (2 ^ 9)). lia.
Qed.
(** The table holds the map [m]. *)
Record holds (names : list cstr) (m : gmap cstr nat) (s : hsys) : Prop := {
  h_len : length (file_hash s) = FILE_HASH_BUCKETS;
  h_files i : match hfiles s !! i, names !! i with
              | Some f, Some n => file_name f = Some n /\ fd f <> -1 /\ (hashed f = true <-> m !! n = Some i)
              | None, None => True
              | _, _ => False
              end;
  h_names n i : m !! n = Some i -> names !! i = Some n;
  h_buckets k b : file_hash s !! k = Some b -> forall i, i ∈ b <-> exists n, m !! n = Some i /\ name_hash n = k }.
Lemma bucket_find_ok (names : list cstr) (fs : list hfile) name (b : list nat) : (forall i, i ∈ b -> exists f n, fs !! i = Some f /\ names !! i = Some n /\ file_name f = Some n /\ fd f <> -1) ->
  match bucket_find fs name b with
  | Some (Some i) => i ∈ b /\ names !! i = Some name
  | Some None => forall i, i ∈ b -> names !! i <> Some name
  | None => False
  end.
Proof.
  induction b as [|k b IH]; intros H; cbn [bucket_find]; [by intros i Hi%not_elem_of_nil|].
  destruct (H k) as (f & n & Ef & En & Ff & Fd); [by left|]. rewrite Ef. cbn [mbind option_bind]. rewrite Ff. unfold streq.
  case_bool_decide as Hn; [subst n; destruct (Z.eqb_spec (fd f) (-1)); [done|]; split; [by left|done]|].
  assert (IH' := IH ltac:(intros i Hi; apply H; by right)). destruct (bucket_find fs name b) as [[i|]|]; [|..|done].
  - destruct IH' as [I1 I2]. split; [by right|done].
  - intros i [->|Hi]%elem_of_cons; [congruence|auto].
Qed.
Lemma file_lookup_ok names m s name : holds names m s -> lookup_file_hash name s = Some (m !! name).
Proof.
  intros [L F N B]. unfold lookup_file_hash. destruct (lookup_lt_is_Some_2 (file_hash s) (name_hash name)) as [b Eb]; [rewrite L; apply name_hash_bound|].
  rewrite Eb. cbn [mbind option_bind]. assert (Hb : forall i, i ∈ b -> exists f n, hfiles s !! i = Some f /\ names !! i = Some n /\ file_name f = Some n /\ fd f <> -1).
  { intros i Hi. apply (B _ _ Eb) in Hi as (n & Hm & _). pose proof (N n i Hm) as En. specialize (F i). rewrite En in F. destruct (hfiles s !! i) as [f|]; [|done].
    exists f, n. split_and!; try done; apply F. }
  pose proof (bucket_find_ok names (hfiles s) name b Hb) as H. destruct (bucket_find (hfiles s) name b) as [[i|]|]; [| |done].
  - destruct H as [Hi Hn]. apply (B _ _ Eb) in Hi as (n & Hm & _). pose proof (N n i Hm). congruence.
  - f_equal. symmetry. apply eq_None_not_Some. intros [i Hm]. apply (H i); [|by apply N]. apply (B _ _ Eb). eauto.
Qed.
Lemma file_add_ok names m s i n : holds names m s -> names !! i = Some n ->
  exists a s', add_file_hash i s = Some (a, s') /\ (a, snd (spec_step names m (HAdd i))) = spec_step names m (HAdd i) /\ holds names (snd (spec_step names m (HAdd i))) s'.
Proof.
  intros H En. pose proof H as [L F N B]. unfold add_file_hash. pose proof (F i) as Fi. rewrite En in Fi. destruct (hfiles s !! i) as [f|] eqn:Ef; [|done].
  destruct Fi as (Fn & Fd & Fh). cbn [mbind option_bind spec_step]. rewrite En. destruct (hashed f) eqn:Eh.
  { rewrite (proj1 Fh eq_refl), Nat.eqb_refl. eexists _, _. split; [reflexivity|]. done. }
  rewrite Fn. cbn [mbind option_bind]. rewrite (file_lookup_ok names m s n H). cbn [mbind option_bind]. destruct (m !! n) as [j|] eqn:Em.
  { destruct (Nat.eqb_spec j i) as [->|]; [by discriminate (proj2 Fh eq_refl)|]. eexists _, _. split; [reflexivity|]. done. }
  eexists _, _. split; [reflexivity|]. split; [done|]. cbn [snd]. assert (Li : (i < length (hfiles s))%nat) by (by eapply lookup_lt_Some).
  split; cbn [hfiles file_hash upd eta_hsys].
  - destruct s as [fs fh]. cbn in *. by rewrite length_alter.
  - intros k. specialize (F k). destruct s as [fs fh]. cbn [hfiles file_hash upd eta_hsys] in *. destruct (decide (k = i)) as [->|Hne].
    + rewrite list_lookup_insert_eq, En by done. destruct f. cbn in *. split_and!; try done. split; [intros _; by rewrite lookup_insert_eq|done].
    + rewrite list_lookup_insert_ne by done. destruct (fs !! k) as [g|], (names !! k) as [x|] eqn:Ek; try done. destruct F as (F1 & F2 & F3). split_and!; try done.
      rewrite F3. destruct (decide (x = n)) as [->|]; [|by rewrite lookup_insert_ne]. rewrite lookup_insert_eq. split; [congruence|intros [= ?]; congruence].
  - intros x k Hx. destruct (decide (x = n)) as [->|]; [rewrite lookup_insert_eq in Hx; injection Hx as <-; done|rewrite lookup_insert_ne in Hx by done; by apply N].
  - intros k b Hb j. destruct s as [fs fh]. cbn [hfiles file_hash upd eta_hsys] in *. destruct (decide (k = name_hash n)) as [->|Hk].
    + rewrite list_lookup_alter_eq in Hb. destruct (fh !! name_hash n) as [b0|] eqn:E0; [|done]. cbn in Hb. injection Hb as <-. rewrite elem_of_app, (B _ _ E0 j), list_elem_of_singleton.
      split; [intros [(x & Hx & Hh)| ->]|intros (x & Hx & Hh)].
      * exists x. split; [|done]. rewrite lookup_insert_ne; [done|]. intros ->. congruence.
      * exists n. by rewrite lookup_insert_eq.
      * destruct (decide (x = n)) as [->|]; [rewrite lookup_insert_eq in Hx; injection Hx as ->; by right|]. rewrite lookup_insert_ne in Hx by done. left. eauto.
    + rewrite list_lookup_alter_ne in Hb by done. rewrite (B _ _ Hb j). split; intros (x & Hx & Hh); exists x; (split; [|done]).
      * rewrite lookup_insert_ne; [done|]. intros ->. congruence.
      * rewrite lookup_insert_ne in Hx; [done|]. intros ->. congruence.
Qed.
Lemma file_remove_ok names m s i n : holds names m s -> names !! i = Some n ->
  exists s', remove_file_hash i s = Some s' /\ holds names (snd (spec_step names m (HRemove i))) s'.
Proof.
  intros H En. pose proof H as [L F N B]. unfold remove_file_hash. pose proof (F i) as Fi. rewrite En in Fi. destruct (hfiles s !! i) as [f|] eqn:Ef; [|done].
  destruct Fi as (Fn & Fd & Fh). cbn [mbind option_bind spec_step]. rewrite En. cbn [snd]. destruct (hashed f) eqn:Eh.
  2:{ eexists. split; [reflexivity|]. rewrite bool_decide_eq_false_2; [done|]. intros Hm. by apply Fh in Hm. }
  pose proof (proj1 Fh eq_refl) as Em. rewrite bool_decide_eq_true_2 by done.
  destruct (lookup_lt_is_Some_2 (file_hash s) (name_hash n)) as [b Eb]; [rewrite L; apply name_hash_bound|].
  assert (Ex : existsb (fun b => bool_decide (i ∈ b)) (file_hash s) = true).
  { apply existsb_exists. exists b. split; [apply list_elem_of_In; by eapply list_elem_of_lookup_2|]. apply bool_decide_eq_true, (B _ _ Eb). eauto. }
  rewrite Ex. eexists. split; [reflexivity|]. assert (Li : (i < length (hfiles s))%nat) by (by eapply lookup_lt_Some).
  destruct s as [fs fh]. cbn [hfiles file_hash upd eta_hsys] in *. split; cbn [hfiles file_hash].
  - by rewrite length_map.
  - intros k. specialize (F k). destruct (decide (k = i)) as [->|Hne].
    + rewrite list_lookup_insert_eq, En by done. destruct f. cbn in *. split_and!; try done. rewrite lookup_delete_eq. done.
    + rewrite list_lookup_insert_ne by done. destruct (fs !! k) as [g|], (names !! k) as [x|] eqn:Ek; try done. destruct F as (F1 & F2 & F3). split_and!; try done.
      rewrite F3. destruct (decide (x = n)) as [->|]; [|by rewrite lookup_delete_ne]. rewrite lookup_delete_eq. split; [congruence|done].
  - intros x k [_ Hx]%lookup_delete_Some. by apply N.
  - intros k b' Hb j. rewrite list_lookup_fmap in Hb. destruct (fh !! k) as [b0|] eqn:E0; [|done]. cbn in Hb. injection Hb as <-.
    rewrite list_elem_of_filter, (B _ _ E0 j). split.
    + intros [Hj (x & Hx & Hh)]. exists x. split; [|done]. rewrite lookup_delete_ne; [done|]. intros ->. congruence.
    + intros (x & [Hn Hx]%lookup_delete_Some & Hh). split; [|eauto]. intros ->. apply Hn. pose proof (N x i Hx). congruence.
Qed.
(** C28: Every sequence of additions, removals and searches is answered as by a map from
    names to files: the first file with a name that was added and not removed. *)
Theorem file_hash_is_map (fs : list hfile) (names : list cstr) (os : list hop) :
  (forall i, match fs !! i, names !! i with Some f, Some n => file_name f = Some n /\ fd f <> -1 /\ hashed f = false | None, None => True | _, _ => False end) ->
  Forall (fun o => match o with HAdd i | HRemove i => (i < length names)%nat | HLookup _ => True end) os ->
  hrun (file_hash_init fs) os = Some (spec_run names ∅ os).
Proof.
  intros Hf Ho. assert (H : holds names ∅ (file_hash_init fs)).
  { split; cbn [file_hash_init hfiles file_hash]; [by rewrite length_replicate| |done|].
    - intros i. specialize (Hf i). destruct (fs !! i), (names !! i); try done. destruct Hf as (F1 & F2 & F3). split_and!; try done. rewrite F3. done.
    - intros k b [-> _]%lookup_replicate i. split; [by intros ?%not_elem_of_nil|]. by intros (n & ? & _). }
  revert H. generalize (file_hash_init fs) (∅ : gmap cstr nat). clear Hf. induction Ho as [|o os Hi Ho IH]; intros s m H; [done|]. cbn [hrun spec_run]. destruct o as [i|i|n]; cbn [hstep].
  - destruct (lookup_lt_is_Some_2 _ _ Hi) as [n En]. destruct (file_add_ok names m s i n H En) as (a & s' & -> & Ea & H'). cbn [mbind option_bind].
    destruct (spec_step names m (HAdd i)) as [a' m']. cbn [snd] in *. injection Ea as ->. by rewrite (IH s' m' H').
  - destruct (lookup_lt_is_Some_2 _ _ Hi) as [n En]. destruct (file_remove_ok names m s i n H En) as (s' & -> & H'). cbn [mbind option_bind].
    assert (Ea : fst (spec_step names m (HRemove i)) = None) by (cbn; by rewrite En). destruct (spec_step names m (HRemove i)) as [a' m']. cbn [fst snd] in *. subst a'. by rewrite (IH s' m' H').
  - rewrite (file_lookup_ok names m s n H). cbn [mbind option_bind spec_step]. by rewrite (IH s m H).
Qed.
Definition sample_files : list hfile := [Build_hfile (Some [97]) 3 false; Build_hfile (Some [97]) 4 false; Build_hfile (Some [98]) 5 false].
Definition sample_hops : list hop := [HAdd 0; HAdd 1; HAdd 2; HLookup [98]; HRemove 0; HLookup [97]; HAdd 1; HLookup [97]].
Lemma file_hash_is_map_witness : hrun (file_hash_init sample_files) sample_hops = Some [None; Some 0; None; Some 2; None; None; None; Some 1]%nat.
Proof.
  assert (E : hrun (file_hash_init sample_files) sample_hops = Some (spec_run [[97]; [97]; [98]] ∅ sample_hops)).
  { apply file_hash_is_map; [|repeat constructor]. intros [|[|[|i]]]; cbn; done. }
  rewrite E. reflexivity.
Defined.
End FileHash.
