(* ===== verification/Num2str.v ===== *)
(** * Numbers with a unit, as text

    [src/lib/num2str.c].  [None]: a unit after the last one is read. *)
From S2P Require Import Prelude CString.
From stdpp Require Import strings.
From Stdlib Require Import ZifyBool.
Local Open Scope Z_scope.
Local Open Scope cstr_scope.

Module Num2str.
Import CString.

Definition postfix : cstr := $" KMGPE".
Definition thousand (pow2 : bool) : Z := if pow2 then 1024 else 1000.
(** The loop over [base]: how many units it is. *)
Fixpoint base_units (fuel : nat) (base : Z) (pow2 : bool) : nat :=
  match fuel with O => O | S fuel => if 1 <? base then S (base_units fuel (Z.quot base (thousand pow2)) pow2) else O end.
(** The loop that divides: the rest of the last division, if there was one. *)
Fixpoint scale_loop (room : nat) (num : Z) (maxlen : nat) (pow2 : bool) (post_index : nat) (modulo : option Z) : Z * option Z * nat :=
  match room with
  | O => (num, modulo, post_index)
  | S room =>
      if (length (print_dec num) <=? maxlen)%nat then (num, modulo, post_index)
      else scale_loop room (num / thousand pow2) maxlen pow2 (S post_index) (Some (num mod thousand pow2))
  end.
(** The loop that shortens the rest to [d] digits. *)
Fixpoint shorten (fuel : nat) (modulo : Z) (d : nat) : Z :=
  match fuel with
  | O => modulo
  | S fuel => if (length (print_dec modulo) <=? d)%nat then modulo else shorten fuel ((modulo + 9) / 10) d
  end.
Definition num2str (num : Z) (maxlen : nat) (base : Z) (pow2 : bool) : option cstr :=
  let i := base_units 32 base pow2 in
  let '(num, modulo, i) := scale_loop (6 - i) num maxlen pow2 i None in
  c ← postfix !! i;
  match modulo with
  | None => Some (print_dec num ++ [c])
  | Some m =>
      let decimals := (maxlen - length (print_dec num))%nat in
      (* [decimals] is unsigned: a number that is still too long makes it large *)
      if (length (print_dec num) <=? maxlen)%nat && (decimals <=? 1)%nat
      then Some (print_dec (if thousand pow2 / 2 <=? m then num + 1 else num) ++ [c])
      else Some (print_dec num ++ $"." ++ print_dec (if (length (print_dec num) <=? maxlen)%nat then shorten 4 m (decimals - 1) else m) ++ [c])
  end.

(** * Properties *)
Lemma scale_loop_ok room maxlen pow2 : forall num i m, 0 <= num ->
  let '(q, m', i') := scale_loop room num maxlen pow2 i m in
  exists k, (i' = i + k /\ k <= room)%nat /\ q = num / thousand pow2 ^ Z.of_nat k /\ ((length (print_dec q) <= maxlen)%nat \/ k = room) /\
    (forall j, (j < k)%nat -> (maxlen < length (print_dec (num / thousand pow2 ^ Z.of_nat j)))%nat) /\ (m' = m \/ (0 < k)%nat).
Proof.
  assert (Ht : 0 < thousand pow2) by (by destruct pow2). induction room as [|room IH]; intros num i m Hn; cbn [scale_loop].
  - exists O. rewrite Z.pow_0_r, Z.div_1_r. split_and!; auto; lia.
  - destruct (Nat.leb_spec (length (print_dec num)) maxlen) as [Hl|Hl].
    + exists O. rewrite Z.pow_0_r, Z.div_1_r. split_and!; auto; lia.
    + specialize (IH (num / thousand pow2) (S i) (Some (num mod thousand pow2)) ltac:(apply Z.div_pos; lia)).
      destruct (scale_loop room _ maxlen pow2 (S i) _) as [[q m'] i']. destruct IH as (k & [-> Hk] & -> & Hs & Hj & _). exists (S k).
      assert (E : forall j : nat, num / thousand pow2 / thousand pow2 ^ Z.of_nat j = num / thousand pow2 ^ Z.of_nat (S j)).
      { intros j. rewrite Z.div_div by (try lia; apply Z.pow_pos_nonneg; lia). f_equal. rewrite Nat2Z.inj_succ, Z.pow_succ_r by lia. done. }
      rewrite E in *. split_and!; [lia|lia|done|destruct Hs; [by left|right; lia]| |right; lia]. intros [|j] Hlt; [by rewrite Z.pow_0_r, Z.div_1_r|]. rewrite <- E. apply Hj. lia.
Qed.
(** What is printed for a number of the unit 1 is the whole part, in the first unit in
    which it has at most [maxlen] digits, rounded or with digits after a point; the
    result fails only if there is no such unit. *)
Theorem num2str_whole_part num maxlen pow2 : is_word 64 num -> exists k : nat, (k <= 6)%nat /\
  let q := num / thousand pow2 ^ Z.of_nat k in
  (forall j, (j < k)%nat -> (maxlen < length (print_dec (num / thousand pow2 ^ Z.of_nat j)))%nat) /\
  match num2str num maxlen 1 pow2 with
  | Some text => (length (print_dec q) <= maxlen)%nat /\ exists c n rest, postfix !! k = Some c /\ (n = q \/ (n = q + 1 /\ rest = [])) /\ text = print_dec n ++ rest ++ [c]
  | None => k = 6%nat
  end.
Proof.
  intros [H0 _]. unfold num2str. change (base_units 32 1 pow2) with O. change (6 - 0)%nat with 6%nat. pose proof (scale_loop_ok 6 maxlen pow2 num 0 None H0) as H.
  destruct (scale_loop 6 num maxlen pow2 0 None) as [[q m] i]. destruct H as (k & [-> Hk] & -> & Hs & Hj & _). exists k. split; [done|]. cbn zeta. split; [done|]. cbn [Nat.add].
  destruct (decide (k = 6%nat)) as [->|Hne]; [by cbn|]. destruct Hs as [Hs|]; [|done]. destruct (postfix !! k) as [c|] eqn:Ec; [|exfalso; apply lookup_ge_None in Ec; cbn in Ec; lia]. cbn [mbind option_bind].
  set (q := num / _) in *. destruct m as [m|]; [|split; [done|]; exists c, q, []; split_and!; auto]. rewrite (proj2 (Nat.leb_le _ _) Hs). cbn [andb].
  destruct (_ <=? 1)%nat; (split; [done|]).
  - exists c, (if thousand pow2 / 2 <=? m then q + 1 else q), []. split_and!; [done|destruct (_ <=? m); auto|done].
  - exists c, q, ($"." ++ print_dec (shorten 4 m (maxlen - length (print_dec q) - 1))). split_and!; auto.
Qed.
Lemma num2str_whole_part_witness : exists k : nat, num2str 15411 4 1 true = Some $"15.6K" /\ (k <= 6)%nat /\
  (forall j, (j < k)%nat -> (4 < length (print_dec (15411 / thousand true ^ Z.of_nat j)))%nat).
Proof.
  destruct (num2str_whole_part 15411 4 true) as (k & Hk & Hj & _); [unfold is_word; lia|]. exists k. split_and!; [reflexivity|done|exact Hj].
Defined.
(** The digits after the point are those of the rest, without its leading zeros: 15411
    is 15.05 units of 1024, and printed as 15.6; there is no unit between G and P, so
    that terabytes are called petabytes. *)
Lemma num2str_wrong_digits : num2str 15411 4 1 true = Some $"15.6K" /\ num2str (50 * 1024 ^ 4) 4 1 true = Some $"50.0P".
Proof. split; vm_compute; reflexivity. Qed.
End Num2str.
