(* ===== verification/Estimate.v ===== *)
(** * Rates and estimates

    [src/eta.c]: the estimate of what is left of a job ([thread_eta]) and the status of
    all jobs ([calc_thread_status]); [src/backend.c]: the check of the smallest rate
    ([__check_min_rate]).  A double is the fraction it stands for; [None] is a division
    by 0 in integers.  The time that has passed is an argument. *)
From S2P Require Import Prelude Types RunJobs.
From stdpp Require Import list.
From Stdlib Require Import ZifyBool.
Local Open Scope Z_scope.

Module Estimate.
Import RunJobs(runstate, TD_NOT_CREATED, TD_CREATED, TD_INITIALIZED, TD_RAMP, TD_RUNNING, TD_PRE_READING, TD_VERIFYING, TD_FSYNCING, TD_EXITED, TD_REAPED).

Record eta_job := {
  e_state : runstate; e_total_io_size : Z; e_fill_device : bool; e_size : Z; e_fill_device_size : Z;
  e_do_verify : bool; e_td_write : bool; e_td_rw : bool; e_zone_size : Z; e_zone_skip : Z;
  e_io_bytes : Z * Z; e_io_blocks : Z * Z; e_time_based : bool; e_timeout : Z; e_start_delay : Z; e_ramp_time : Z; e_in_ramp : bool;
  e_rate : Z * Z; e_ratemin : Z * Z; e_rate_iops : Z * Z; e_rate_iops_min : Z * Z; e_open_files : Z }.
Definition sum2 (p : Z * Z) : Z := fst p + snd p.

(** ** [thread_eta] *)

(** [None]: the size of the device is not known, and the answer 0; [Some None]: the
    division by [zone_skip / zone_size] fails. *)
Definition eta_total (j : eta_job) : option (option Z) :=
  if e_fill_device j && (e_size j =? 2 ^ 64 - 1) && ((e_fill_device_size j =? 0) || (e_fill_device_size j =? 2 ^ 64 - 1)) then None
  else
    let t := if e_fill_device j && (e_size j =? 2 ^ 64 - 1) then e_fill_device_size j else e_total_io_size j in
    let t := if e_do_verify j && e_td_write j then (if e_td_rw j then u64 (t * 3) / 2 else u64 (t * 2)) else t in
    Some (if negb (e_zone_size j =? 0) && negb (e_zone_skip j =? 0)
          then (if e_zone_skip j / e_zone_size j =? 0 then None else Some (t / (e_zone_skip j / e_zone_size j)))
          else Some t).
(** The part that is done, as a fraction [n / d]: at most 1, and with a time limit at
    most the part of the time. *)
Definition eta_perc (total elapsed : Z) (j : eta_job) : Z * Z :=
  let '(n, d) := if total <? sum2 (e_io_bytes j) then (1, 1) else (sum2 (e_io_bytes j), total) in
  if e_time_based j && negb (e_timeout j =? 0) && (elapsed * d <? n * e_timeout j) then (elapsed, e_timeout j) else (n, d).
(** [inf]: what an infinite double becomes as an [unsigned long]. *)
Definition eta_running (inf total elapsed done_secs : Z) (j : eta_job) : Z :=
  let '(n, d) := eta_perc total elapsed j in
  let eta := u64 ((if n =? 0 then inf else elapsed * d / n) - elapsed) in
  let limit := u64 (e_timeout j + done_secs - elapsed) in
  if negb (e_timeout j =? 0) && (limit <? eta) then limit else eta.
(** A job that waits: its time limit, or its bytes at its rate.  [ramp_left]: the time
    since the job was set up. *)
Definition eta_waiting (total ramp_left : Z) (j : eta_job) : option Z :=
  let t_eta := if e_timeout j =? 0 then 0
               else let t := s32 (e_timeout j + e_start_delay j + e_ramp_time j) in
                    if e_in_ramp j && (ramp_left <=? u64 t) then s32 (t - ramp_left) else t in
  r_eta ← (if (fst (e_rate j) =? 0) && (snd (e_rate j) =? 0) then Some 0
           else if u32 (sum2 (e_rate j)) =? 0 then None
           else Some (s32 (s32 (total / 1024 / u32 (sum2 (e_rate j))) + e_start_delay j)));
  Some (if negb (r_eta =? 0) && negb (t_eta =? 0) then Z.min r_eta t_eta else if negb (r_eta =? 0) then r_eta else t_eta).
Definition thread_eta (inf elapsed ramp_left done_secs : Z) (j : eta_job) : option Z :=
  match eta_total j with
  | None => Some 0
  | Some None => None
  | Some (Some total) =>
      match e_state j with
      | TD_RUNNING | TD_VERIFYING => Some (s32 (eta_running inf total elapsed done_secs j))
      | TD_NOT_CREATED | TD_CREATED | TD_INITIALIZED | TD_RAMP | TD_PRE_READING => eta_waiting total ramp_left j
      | TD_FSYNCING | TD_EXITED | TD_REAPED => Some 0
      end
  end.

(** ** The sums of [calc_thread_status] *)
Record jobs_eta := {
  nr_running : Z; nr_ramp : Z; nr_pending : Z; files_open : Z; t_rate : Z; m_rate : Z; t_iops : Z; m_iops : Z;
  sum_bytes : Z * Z; sum_iops : Z * Z }.
#[export] Instance eta_jobs_eta : Eta jobs_eta := fun e =>
  Build_jobs_eta (nr_running e) (nr_ramp e) (nr_pending e) (files_open e) (t_rate e) (m_rate e) (t_iops e) (m_iops e) (sum_bytes e) (sum_iops e).
Definition no_jobs : jobs_eta := Build_jobs_eta 0 0 0 0 0 0 0 0 (0, 0) (0, 0).
Definition add2 (a b : Z * Z) : Z * Z := (u64 (fst a + fst b), u64 (snd a + snd b)).
Definition status_job (je : jobs_eta) (j : eta_job) : jobs_eta :=
  let je := match e_state j with
            | TD_RUNNING | TD_VERIFYING | TD_FSYNCING | TD_PRE_READING =>
                je <| nr_running ::= fun n => u32 (n + 1) |> <| t_rate ::= fun n => u32 (n + sum2 (e_rate j)) |> <| m_rate ::= fun n => u32 (n + sum2 (e_ratemin j)) |>
                   <| t_iops ::= fun n => u32 (n + sum2 (e_rate_iops j)) |> <| m_iops ::= fun n => u32 (n + sum2 (e_rate_iops_min j)) |>
                   <| files_open ::= fun n => u32 (n + e_open_files j) |>
            | TD_RAMP => je <| nr_running ::= fun n => u32 (n + 1) |> <| nr_ramp ::= fun n => u32 (n + 1) |>
            | TD_NOT_CREATED | TD_CREATED | TD_INITIALIZED => je <| nr_pending ::= fun n => u32 (n + 1) |>
            | TD_EXITED | TD_REAPED => je
            end in
  match e_state j with
  | TD_NOT_CREATED | TD_CREATED | TD_INITIALIZED | TD_RAMP => je
  | _ => je <| sum_bytes ::= add2 (e_io_bytes j) |> <| sum_iops ::= add2 (e_io_blocks j) |>
  end.
Definition INT_MAX : Z := 2 ^ 31 - 1.
(** The estimate for all jobs. *)
Definition total_eta (exitall : bool) (eta_secs : list Z) : Z :=
  foldl (fun e x => if exitall then (if x <? e then x else e) else (if e <? x then x else e)) (if exitall then INT_MAX else 0) eta_secs.
Definition calc_rate (mtime io_bytes prev : Z) : option Z := if mtime =? 0 then None else Some (u32 (u64 (io_bytes - prev) / mtime)).
Definition calc_iops (mtime io_iops prev : Z) : option Z := if mtime =? 0 then None else Some (u32 (u64 (u64 (io_iops - prev) * 1000) / mtime)).

(** ** [__check_min_rate] for one direction *)
Record min_rate := {
  mr_rate : Z; mr_ratemin : Z; mr_rate_iops : Z; mr_rate_iops_min : Z; ratecycle : Z;
  rate_bytes : Z; rate_blocks : Z; lastrate : Z }.   (* [lastrate]: in milliseconds *)
#[export] Instance eta_min_rate : Eta min_rate := fun r =>
  Build_min_rate (mr_rate r) (mr_ratemin r) (mr_rate_iops r) (mr_rate_iops_min r) (ratecycle r) (rate_bytes r) (rate_blocks r) (lastrate r).
Definition __check_min_rate (start now bytes iops : Z) (r : min_rate) : option (Z * min_rate) :=
  let next := Some (0, r <| rate_bytes := bytes |> <| rate_blocks := iops |> <| lastrate := now |>) in
  if (mr_ratemin r =? 0) && (mr_rate_iops_min r =? 0) then Some (0, r)
  else if now - start <? 2000 then Some (0, r)
  else if (rate_bytes r =? 0) && (rate_blocks r =? 0) then next
  else
    let spent := now - lastrate r in
    if spent <? ratecycle r then Some (0, r)
    else if negb (mr_rate r =? 0) then
      if bytes <? rate_bytes r then Some (1, r)
      else if spent =? 0 then None
      else if u64 (u64 (bytes - rate_bytes r) * 1000) / spent <? mr_ratemin r then Some (1, r) else next
    else if iops <? mr_rate_iops r then Some (1, r)
    else if spent =? 0 then None
    else next.

(** * Properties *)
Lemma s32_small x : 0 <= x < 2 ^ 31 -> s32 x = x.
Proof. intros H. unfold swrap. rewrite Z.mod_small by lia. destruct (Z.ltb_spec x (2 ^ (32 - 1))); lia. Qed.
(** A job that runs and has done a part of its bytes is expected to need the time the
    rest takes at the same speed, rounded down; a job with a time limit never more than
    what is left of it. *)
Theorem thread_eta_of_running inf elapsed ramp_left done_secs j total : eta_total j = Some (Some total) -> e_state j = TD_RUNNING \/ e_state j = TD_VERIFYING ->
  0 < elapsed -> 0 < sum2 (e_io_bytes j) <= total -> elapsed * total < 2 ^ 31 * sum2 (e_io_bytes j) -> 0 <= done_secs -> 0 <= e_timeout j -> elapsed <= e_timeout j + done_secs < 2 ^ 63 ->
  e_time_based j = false ->
  thread_eta inf elapsed ramp_left done_secs j = Some (let eta := elapsed * (total - sum2 (e_io_bytes j)) / sum2 (e_io_bytes j) in
    if e_timeout j =? 0 then eta else Z.min eta (e_timeout j + done_secs - elapsed)).
Proof.
  intros Et Hs He Hb Hr Hd Hto Hl Hn. unfold thread_eta. rewrite Et. set (b := sum2 (e_io_bytes j)) in *.
  assert (E : let eta := elapsed * (total - b) / b in eta_running inf total elapsed done_secs j = (if e_timeout j =? 0 then eta else Z.min eta (e_timeout j + done_secs - elapsed)) /\ 0 <= eta < 2 ^ 31).
  { unfold eta_running, eta_perc. fold b. rewrite Hn. cbn [andb]. destruct (Z.ltb_spec total b); [lia|]. destruct (Z.eqb_spec b 0); [lia|].
    assert (Ee : elapsed * total / b - elapsed = elapsed * (total - b) / b).
    { replace (elapsed * total) with (elapsed * (total - b) + elapsed * b) by lia. rewrite Z.div_add by lia. lia. }
    assert (B : 0 <= elapsed * (total - b) / b < 2 ^ 31).
    { split; [apply Z.div_pos; [apply Z.mul_nonneg_nonneg; lia|lia]|]. apply Z.div_lt_upper_bound; [lia|]. nia. }
    cbn zeta. split; [|done]. rewrite Ee. rewrite !wrap_small by (unfold is_word; lia). destruct (Z.eqb_spec (e_timeout j) 0); cbn [negb andb]; [done|].
    destruct (Z.ltb_spec (e_timeout j + done_secs - elapsed) (elapsed * (total - b) / b)); lia. }
  cbn zeta in *. destruct E as [E B]. assert (S : s32 (eta_running inf total elapsed done_secs j) = eta_running inf total elapsed done_secs j).
  { rewrite E. apply s32_small. destruct (_ =? 0); lia. }
  destruct Hs as [-> | ->]; by rewrite S, E.
Qed.
(** The estimate for all jobs is the last one to end, or with [exitall] the first. *)
Lemma total_eta_spec exitall l :
  Forall (fun x => if exitall : bool then total_eta exitall l <= x else x <= total_eta exitall l) l /\
  (total_eta exitall l ∈ (if exitall : bool then INT_MAX else 0) :: l).
Proof.
  unfold total_eta. assert (G : forall z, let t := foldl (fun e x => if exitall then (if x <? e then x else e) else (if e <? x then x else e)) z l in
    (if exitall : bool then t <= z else z <= t) /\ Forall (fun x => if exitall : bool then t <= x else x <= t) l /\ (t ∈ z :: l)).
  { induction l as [|x l IH]; intros z; [cbn; split_and!; [destruct exitall; lia|done|by left]|]. cbn [foldl]. set (z' := if exitall then (if x <? z then x else z) else (if z <? x then x else z)). specialize (IH z'). cbn zeta in *.
    destruct IH as (I1 & I2 & I3). set (t := foldl _ z' l) in *. assert (Hz : (z' = x \/ z' = z) /\ (if exitall then z' <= x /\ z' <= z else x <= z' /\ z <= z')).
    { subst z'. destruct exitall; [destruct (Z.ltb_spec x z)|destruct (Z.ltb_spec z x)]; lia. }
    split_and!; [destruct exitall; lia|constructor; [destruct exitall; lia|done]|]. apply elem_of_cons in I3 as [->|I3]; [|right; by right]. destruct Hz as [[-> | ->] _]; [right; left|left]. }
  destruct (G (if exitall then INT_MAX else 0)) as (_ & G2 & G3). done.
Qed.
(** A job with a rate and a smallest rate is stopped when a cycle of the check was
    slower than that: fewer bytes in its time than the smallest rate gives. *)
Lemma min_rate_stops start now bytes iops r : mr_rate r <> 0 -> 0 < mr_ratemin r < 2 ^ 32 -> 2000 <= now - start -> 0 < rate_bytes r <= bytes -> bytes < 2 ^ 50 ->
  0 < ratecycle r <= now - lastrate r ->
  exists ret r', __check_min_rate start now bytes iops r = Some (ret, r') /\
    (ret = 1 <-> (bytes - rate_bytes r) * 1000 < mr_ratemin r * (now - lastrate r)) /\ (ret = 0 -> rate_bytes r' = bytes /\ lastrate r' = now).
Proof.
  intros H1 H2 H3 H4 H5 H6. unfold __check_min_rate. destruct (Z.eqb_spec (mr_ratemin r) 0); [lia|]. cbn [andb]. destruct (Z.ltb_spec (now - start) 2000); [lia|].
  destruct (Z.eqb_spec (rate_bytes r) 0); [lia|]. cbn [andb]. destruct (Z.ltb_spec (now - lastrate r) (ratecycle r)); [lia|]. destruct (Z.eqb_spec (mr_rate r) 0); [done|]. cbn [negb].
  destruct (Z.ltb_spec bytes (rate_bytes r)); [lia|]. destruct (Z.eqb_spec (now - lastrate r) 0); [lia|]. rewrite !wrap_small by (unfold is_word; rewrite ?wrap_small; unfold is_word; lia).
  set (s := now - lastrate r) in *. set (b := (bytes - rate_bytes r) * 1000).
  assert (D : b / s < mr_ratemin r <-> b < mr_ratemin r * s) by (split; intros; [|apply Z.div_lt_upper_bound; nia]; pose proof (Z.mod_pos_bound b s); pose proof (Z.div_mod b s); nia).
  destruct (Z.ltb_spec (b / s) (mr_ratemin r)); eexists _, _; (split; [reflexivity|]); split; try lia; try done.
Qed.
(** Without a rate the smallest rate is not checked. *)
Lemma ratemin_alone_ignored start now bytes iops r : mr_rate r = 0 -> mr_rate_iops r = 0 -> 0 <= iops -> lastrate r < now ->
  exists r', __check_min_rate start now bytes iops r = Some (0, r').
Proof.
  intros H1 H2 H3 H4. unfold __check_min_rate. rewrite H1, H2. destruct (_ && _); [by eexists|]. destruct (_ <? 2000); [by eexists|]. destruct (_ && _); [by eexists|].
  destruct (_ <? ratecycle r); [by eexists|]. cbn [Z.eqb negb]. destruct (Z.ltb_spec iops 0); [lia|]. destruct (Z.eqb_spec (now - lastrate r) 0); [lia|]. by eexists.
Qed.
(** Zones that skip less than their size end the program. *)
Lemma small_zone_skip_divides_by_zero inf elapsed ramp_left done_secs j : e_fill_device j = false -> 0 < e_zone_skip j < e_zone_size j -> thread_eta inf elapsed ramp_left done_secs j = None.
Proof.
  intros Hf Hz. unfold thread_eta, eta_total. rewrite Hf. cbn [andb]. destruct (Z.eqb_spec (e_zone_size j) 0); [lia|]. destruct (Z.eqb_spec (e_zone_skip j) 0); [lia|]. cbn [negb andb].
  by rewrite (Z.div_small (e_zone_skip j)) by lia.
Qed.
Definition sample_eta : eta_job :=
  Build_eta_job TD_RUNNING 1000 false 0 0 false true false 0 0 (0, 250) (0, 1) false 60 0 0 false (0, 0) (0, 0) (0, 0) (0, 0) 1.
Lemma thread_eta_of_running_witness : thread_eta 0 10 10 0 sample_eta = Some 30.
Proof. rewrite (thread_eta_of_running 0 10 10 0 sample_eta 1000); first [reflexivity|by left|cbn; lia|vm_compute; split; done]. Defined.
End Estimate.
